(** * Node material: graph orchestration and per-mesh specialization

    A shallow embedding of
    - [coreNodeMaterial.ts] ([CoreNodeMaterial], [NodeMaterialDefines]):
      the specialization layer (defines, merged uniform lists, binding);
    - the node material class ([NodeMaterial]): output nodes, the build
      pass, graph walks and the serialization round trip.

    JavaScript objects are modelled by records, object identity by a key
    into a store ([gmap]), arrays by lists, exceptions by an error result.
    Calls into classes that are not part of these files (blocks, the scene,
    the engine) are section variables. *)

From Stdlib Require Import ZArith String List Bool Lia DecimalString.
From stdpp Require Import gmap strings list fin_maps.

Local Open Scope string_scope.
Local Open Scope list_scope.

(** Blocks are JavaScript objects; a [BlockId] is the identity of one. *)
Abbreviation BlockId := nat.

(** [l.indexOf(x)]: the first index of [x] in [l], or [-1]. *)
Fixpoint indexOf `{EqDecision A} (l : list A) (x : A) : Z :=
  match l with
  | [] => -1
  | y :: l' =>
      if decide (y = x) then 0
      else let i := indexOf l' x in if (i =? -1)%Z then -1 else (i + 1)%Z
  end.

Lemma indexOf_ge `{EqDecision A} (l : list A) (x : A) : (-1 ≤ indexOf l x)%Z.
Proof.
  induction l as [|y l IH]; simpl; [lia|].
  destruct (decide (y = x)); [lia|].
  destruct (Z.eqb_spec (indexOf l x) (-1)); lia.
Qed.

Lemma indexOf_absent `{EqDecision A} (l : list A) (x : A) :
  indexOf l x = (-1)%Z ↔ x ∉ l.
Proof.
  induction l as [|y l IH]; simpl.
  - split; [intros _; apply not_elem_of_nil | done].
  - rewrite not_elem_of_cons. destruct (decide (y = x)) as [->|Hne].
    + split; [lia | intros [? _]; done].
    + pose proof (indexOf_ge l x).
      destruct (Z.eqb_spec (indexOf l x) (-1)) as [He|He].
      * split; [intros _; split; [congruence | by apply IH] | done].
      * split; [lia | intros [_ Hn]; apply IH in Hn; lia].
Qed.

Lemma indexOf_present `{EqDecision A} (l : list A) (x : A) :
  indexOf l x ≠ (-1)%Z ↔ x ∈ l.
Proof.
  rewrite indexOf_absent. split; [apply dec_stable | intros H Hn; done].
Qed.

(* ===================================================================== *)
(** * coreNodeMaterial.ts *)
(* ===================================================================== *)
Module Core.

(** ** Defines *)

(** A property of a defines object holds a boolean or a number. *)
Inductive DefineValue :=
| DBool (b : bool)
| DNum (n : Z).

#[global] Instance DefineValue_eq_dec : EqDecision DefineValue.
Proof. solve_decision. Defined.

(** Modelled from the spec: the base class [MaterialDefines] is not part of
    the source files.  The spec describes "a mapping from define-name to
    boolean/int value, with a dirty flag subdivided by category
    (attributes-dirty, misc-dirty, lights-disposed, ...)"; the fields below
    are the flag [isDirty] tested by [_processDefines] and one flag per
    category.  A property that was never set reads as [None]
    ([undefined]). *)
Record NodeMaterialDefines := mkDefines {
  values : gmap string DefineValue;
  _keys : list string;
  _isDirty : bool;
  _areAttributesDirty : bool;
  _areMiscDirty : bool;
  _areLightsDirty : bool;
  _areLightsDisposed : bool;
  _areTexturesDirty : bool;
  _areFresnelDirty : bool;
  _areImageProcessingDirty : bool;
  _arePrePassDirty : bool
}.

(** The dirty categories of a defines object, [isDirty] apart. *)
Record DirtyCategories := mkCategories {
  catAttributes : bool;
  catMisc : bool;
  catLights : bool;
  catLightsDisposed : bool;
  catTextures : bool;
  catFresnel : bool;
  catImageProcessing : bool;
  catPrePass : bool
}.

Definition categories (d : NodeMaterialDefines) : DirtyCategories :=
  mkCategories (_areAttributesDirty d) (_areMiscDirty d) (_areLightsDirty d)
    (_areLightsDisposed d) (_areTexturesDirty d) (_areFresnelDirty d)
    (_areImageProcessingDirty d) (_arePrePassDirty d).

Definition isDirty (d : NodeMaterialDefines) : bool := _isDirty d.

(** [defines[name]] *)
Definition getDefine (d : NodeMaterialDefines) (name : string) : option DefineValue :=
  values d !! name.

(** [defines[name] = v] *)
Definition setDefine (name : string) (v : DefineValue) (d : NodeMaterialDefines)
  : NodeMaterialDefines :=
  mkDefines (<[name := v]> (values d)) (_keys d) (_isDirty d)
    (_areAttributesDirty d) (_areMiscDirty d) (_areLightsDirty d)
    (_areLightsDisposed d) (_areTexturesDirty d) (_areFresnelDirty d)
    (_areImageProcessingDirty d) (_arePrePassDirty d).

(** Modelled from the spec: [markAsAttributesDirty] of [MaterialDefines]
    (not in the source files) sets the attributes category and the dirty
    flag. *)
Definition markAsAttributesDirty (d : NodeMaterialDefines) : NodeMaterialDefines :=
  mkDefines (values d) (_keys d) true
    true (_areMiscDirty d) (_areLightsDirty d)
    (_areLightsDisposed d) (_areTexturesDirty d) (_areFresnelDirty d)
    (_areImageProcessingDirty d) (_arePrePassDirty d).

(** Modelled from the spec: [markAsMiscDirty] of [MaterialDefines] sets the
    misc category and the dirty flag. *)
Definition markAsMiscDirty (d : NodeMaterialDefines) : NodeMaterialDefines :=
  mkDefines (values d) (_keys d) true
    (_areAttributesDirty d) true (_areLightsDirty d)
    (_areLightsDisposed d) (_areTexturesDirty d) (_areFresnelDirty d)
    (_areImageProcessingDirty d) (_arePrePassDirty d).

(** Modelled from the spec: [markAsProcessed] of [MaterialDefines] clears
    the dirty flag and every category. *)
Definition markAsProcessed (d : NodeMaterialDefines) : NodeMaterialDefines :=
  mkDefines (values d) (_keys d) false
    false false false false false false false false.

(** Modelled from the spec: [markAsUnprocessed] of [MaterialDefines] sets
    the dirty flag alone ("marking the defines unprocessed so the check is
    retried next frame"). *)
Definition markAsUnprocessed (d : NodeMaterialDefines) : NodeMaterialDefines :=
  mkDefines (values d) (_keys d) true
    (_areAttributesDirty d) (_areMiscDirty d) (_areLightsDirty d)
    (_areLightsDisposed d) (_areTexturesDirty d) (_areFresnelDirty d)
    (_areImageProcessingDirty d) (_arePrePassDirty d).

(** The properties declared by class [NodeMaterialDefines], with their
    initial values. *)
Definition initialValues : list (string * DefineValue) :=
  [ ("NORMAL", DBool false); ("TANGENT", DBool false);
    ("VERTEXCOLOR_NME", DBool false);
    ("UV1", DBool false); ("UV2", DBool false); ("UV3", DBool false);
    ("UV4", DBool false); ("UV5", DBool false); ("UV6", DBool false);
    ("PREPASS", DBool false);
    ("PREPASS_NORMAL", DBool false); ("PREPASS_NORMAL_INDEX", DNum (-1));
    ("PREPASS_POSITION", DBool false); ("PREPASS_POSITION_INDEX", DNum (-1));
    ("PREPASS_DEPTH", DBool false); ("PREPASS_DEPTH_INDEX", DNum (-1));
    ("SCENE_MRT_COUNT", DNum 0);
    ("NUM_BONE_INFLUENCERS", DNum 0); ("BonesPerMesh", DNum 0);
    ("BONETEXTURE", DBool false);
    ("MORPHTARGETS", DBool false); ("MORPHTARGETS_NORMAL", DBool false);
    ("MORPHTARGETS_TANGENT", DBool false); ("MORPHTARGETS_UV", DBool false);
    ("NUM_MORPH_INFLUENCERS", DNum 0); ("MORPHTARGETS_TEXTURE", DBool false);
    ("IMAGEPROCESSING", DBool false); ("VIGNETTE", DBool false);
    ("VIGNETTEBLENDMODEMULTIPLY", DBool false);
    ("VIGNETTEBLENDMODEOPAQUE", DBool false);
    ("TONEMAPPING", DNum 0); ("CONTRAST", DBool false);
    ("EXPOSURE", DBool false); ("COLORCURVES", DBool false);
    ("COLORGRADING", DBool false); ("COLORGRADING3D", DBool false);
    ("SAMPLER3DGREENDEPTH", DBool false); ("SAMPLER3DBGRMAP", DBool false);
    ("DITHER", DBool false); ("IMAGEPROCESSINGPOSTPROCESS", DBool false);
    ("SKIPFINALCOLORCLAMP", DBool false);
    ("BUMPDIRECTUV", DNum 0);
    ("CAMERA_ORTHOGRAPHIC", DBool false); ("CAMERA_PERSPECTIVE", DBool false) ].

(** [new NodeMaterialDefines()]: every declared property at its initial
    value; a fresh defines object is dirty in every category (the base
    class constructor, modelled from the spec as for the flags above). *)
Definition newNodeMaterialDefines : NodeMaterialDefines :=
  mkDefines (list_to_map initialValues) (map fst initialValues) true
    true true true false true true true true.

Section SetValue.

(** Whether [name] is a field or a method that a defines object has besides
    its defines: [_keys], [isDirty], [reset], [setValue] and the others that
    the class and its base class [MaterialDefines] (outside these files)
    declare. *)
Variable isMember : string → bool.

(** [setValue(name, value, markAsUnprocessedIfDirty)].  [this[name]] reads
    a define or, for a name that is no define, a field or a method of the
    object, and [undefined] only when the object has neither.  A call that
    names a field or a method pushes no key and writes over the member:
    what the object is then is not a defines object of the model, and the
    call has no result here ([None]). *)
Definition setValue (name : string) (value : DefineValue)
    (markAsUnprocessedIfDirty : bool) (d : NodeMaterialDefines)
  : option NodeMaterialDefines :=
  match getDefine d name with
  | None =>
      if isMember name then None
      else
        (* this[name] === undefined *)
        let d1 :=
          mkDefines (values d) (_keys d ++ [name]) (_isDirty d)
            (_areAttributesDirty d) (_areMiscDirty d) (_areLightsDirty d)
            (_areLightsDisposed d) (_areTexturesDirty d) (_areFresnelDirty d)
            (_areImageProcessingDirty d) (_arePrePassDirty d) in
        let d2 := if markAsUnprocessedIfDirty then markAsUnprocessed d1 else d1 in
        Some (setDefine name value d2)
  | Some old =>
      let d2 :=
        if markAsUnprocessedIfDirty && bool_decide (old ≠ value)
        then markAsUnprocessed d else d in
      Some (setDefine name value d2)
  end.

End SetValue.

(** ** Meshes *)

(** What the specialization layer reads of a mesh. *)
Record AbstractMesh := mkMesh {
  isVerticesDataPresent : string → bool;
  useVertexColors : bool;
  visibility : Z
}.

(** [VertexBuffer.NormalKind], [TangentKind], [ColorKind]: the kind names
    of the vertex buffers (declared in the buffer module, outside these
    files). *)
Definition NormalKind : string := "normal".
Definition TangentKind : string := "tangent".
Definition ColorKind : string := "color".

(** [Constants.MAX_SUPPORTED_UV_SETS]; class [NodeMaterialDefines] declares
    [UV1] to [UV6]. *)
Definition MAX_SUPPORTED_UV_SETS : nat := 6.

(** The decimal notation of [i], as [String(i)] gives it. *)
Definition numberToString (i : nat) : string :=
  NilZero.string_of_uint (Nat.to_uint i).

(** ["UV" + i] *)
Definition uvDefine (i : nat) : string := "UV" +:+ numberToString i.

(** [`uv${i === 1 ? "" : i}`] *)
Definition uvKind (i : nat) : string :=
  "uv" +:+ (if Nat.eqb i 1 then "" else numberToString i).

(** The loop over the uv sets of [_prepareDefinesForAttributes], from index
    [i] for [n] iterations, threading [defines] and [uvChanged]. *)
Fixpoint uvLoop (mesh : AbstractMesh) (n i : nat)
    (acc : NodeMaterialDefines * bool) : NodeMaterialDefines * bool :=
  match n with
  | O => acc
  | S n' =>
      let '(defines, uvChanged) := acc in
      let oldUV := getDefine defines (uvDefine i) in
      let defines' :=
        setDefine (uvDefine i) (DBool (isVerticesDataPresent mesh (uvKind i))) defines in
      let uvChanged' :=
        uvChanged || bool_decide (getDefine defines' (uvDefine i) ≠ oldUV) in
      uvLoop mesh n' (S i) (defines', uvChanged')
  end.

Section Specialization.

(** The scene, and the helpers of [materialHelper.functions], are outside
    these files. *)
Context {Scene : Type}.
Variable PrepareDefinesForPrePass : Scene → NodeMaterialDefines → bool → NodeMaterialDefines.
Variable PrepareDefinesForCamera : Scene → NodeMaterialDefines → NodeMaterialDefines * bool.
Variable useOrderIndependentTransparency : Scene → bool.
Variable needAlphaBlendingForMesh : AbstractMesh → bool.

(** The attribute values of [defines] once the mesh has been read: the
    assignments of [_prepareDefinesForAttributes] before the prepass
    helper runs. *)
Definition readAttributes (mesh : AbstractMesh) (defines : NodeMaterialDefines)
  : NodeMaterialDefines * bool :=
  let defines := setDefine "NORMAL" (DBool (isVerticesDataPresent mesh NormalKind)) defines in
  let defines := setDefine "TANGENT" (DBool (isVerticesDataPresent mesh TangentKind)) defines in
  let hasVertexColors := useVertexColors mesh && isVerticesDataPresent mesh ColorKind in
  let defines := setDefine "VERTEXCOLOR_NME" (DBool hasVertexColors) defines in
  uvLoop mesh MAX_SUPPORTED_UV_SETS 1 (defines, false).

(** [_prepareDefinesForAttributes(mesh, defines)] *)
Definition _prepareDefinesForAttributes (scene : Scene) (mesh : AbstractMesh)
    (defines : NodeMaterialDefines) : NodeMaterialDefines :=
  let oldNormal := getDefine defines "NORMAL" in
  let oldTangent := getDefine defines "TANGENT" in
  let oldColor := getDefine defines "VERTEXCOLOR_NME" in
  let '(defines1, uvChanged) := readAttributes mesh defines in
  (* PrePass *)
  let oit := needAlphaBlendingForMesh mesh && useOrderIndependentTransparency scene in
  let defines2 := PrepareDefinesForPrePass scene defines1 (negb oit) in
  if bool_decide (oldNormal ≠ getDefine defines2 "NORMAL")
     || bool_decide (oldTangent ≠ getDefine defines2 "TANGENT")
     || bool_decide (oldColor ≠ getDefine defines2 "VERTEXCOLOR_NME")
     || uvChanged
  then markAsAttributesDirty defines2
  else defines2.

End Specialization.

(** ** Compilation states and shared data *)

(** What [CoreNodeMaterial] reads and writes of a build state. *)
Record CoreNodeMaterialBuildState := mkBuildState {
  compilationString : string;
  _builtCompilationString : string;
  uniforms : list string;
  samplers : list string;
  attributes : list string
}.

Record Hints := mkHints {
  needWorldViewMatrix : bool;
  needWorldViewProjectionMatrix : bool
}.

(** The lists of the shared build data used by the specialization layer. *)
Record SharedData := mkSharedData {
  blocksWithDefines : list BlockId;
  repeatableContentBlocks : list BlockId;
  dynamicUniformBlocks : list BlockId;
  blocksWithFallbacks : list BlockId;
  bindableBlocks : list BlockId;
  forcedBindableBlocks : list BlockId;
  inputBlocks : list BlockId;
  hints : Hints
}.

(** Calls into blocks made by [_processDefines], in the order made. *)
Inductive DefinesCall :=
| CallInitializeDefines (b : BlockId)
| CallPrepareDefines (b : BlockId)
| CallReplaceRepeatableContent (b : BlockId)
| CallUpdateUniformsAndSamples (b : BlockId)
| CallProvideFallbacks (b : BlockId).

(** [u => { if (merged.indexOf(u) === -1) merged.push(u) }] *)
Definition pushIfAbsent (merged : list string) (u : string) : list string :=
  if (indexOf merged u =? -1)%Z then merged ++ [u] else merged.

(** [other.forEach(u => ...)] onto the array [merged]. *)
Definition mergeInto (merged other : list string) : list string :=
  foldl pushIfAbsent merged other.

Section ProcessDefines.

Context {SubMesh Fallbacks : Type}.
Variable newEffectFallbacks : Fallbacks.
(** The methods of the blocks. *)
Variable initializeDefines :
  BlockId → AbstractMesh → NodeMaterialDefines → bool → NodeMaterialDefines.
Variable prepareDefines :
  BlockId → AbstractMesh → NodeMaterialDefines → bool → option SubMesh → NodeMaterialDefines.
Variable replaceRepeatableContent :
  BlockId → CoreNodeMaterialBuildState → CoreNodeMaterialBuildState →
  AbstractMesh → NodeMaterialDefines →
  CoreNodeMaterialBuildState * CoreNodeMaterialBuildState.
Variable updateUniformsAndSamples :
  BlockId → CoreNodeMaterialBuildState → NodeMaterialDefines → list string →
  CoreNodeMaterialBuildState * list string.
Variable provideFallbacks : BlockId → AbstractMesh → Fallbacks → Fallbacks.

(** The fields of the material used by [_processDefines]. *)
Record Compiled := mkCompiled {
  _vertexCompilationState : CoreNodeMaterialBuildState;
  _fragmentCompilationState : CoreNodeMaterialBuildState;
  _sharedData : SharedData
}.

Record ProcessResult := mkResult {
  lightDisposed : bool;
  uniformBuffers : list string;
  mergedUniforms : list string;
  mergedSamplers : list string;
  fallbacks : Fallbacks
}.

(** The defines once every block with defines has initialized and prepared
    them: the part of [_processDefines] before the dirty test. *)
Definition preparedDefines (cameraDefines : NodeMaterialDefines * bool)
    (this : Compiled) (mesh : AbstractMesh) (useInstances : bool)
    (subMesh : option SubMesh) : NodeMaterialDefines :=
  let defines :=
    if cameraDefines.2 then markAsMiscDirty cameraDefines.1 else cameraDefines.1 in
  let defines :=
    foldl (λ d b, initializeDefines b mesh d useInstances) defines
      (blocksWithDefines (_sharedData this)) in
  foldl (λ d b, prepareDefines b mesh d useInstances subMesh) defines
    (blocksWithDefines (_sharedData this)).

(** The two stage texts reset to the built text and every repeatable
    content block spliced in. *)
Definition splicedStates (this : Compiled) (mesh : AbstractMesh)
    (defines : NodeMaterialDefines)
  : CoreNodeMaterialBuildState * CoreNodeMaterialBuildState :=
  let v := _vertexCompilationState this in
  let f := _fragmentCompilationState this in
  let v := mkBuildState (_builtCompilationString v) (_builtCompilationString v)
             (uniforms v) (samplers v) (attributes v) in
  let f := mkBuildState (_builtCompilationString f) (_builtCompilationString f)
             (uniforms f) (samplers f) (attributes f) in
  foldl (λ vf b, replaceRepeatableContent b vf.1 vf.2 mesh defines) (v, f)
    (repeatableContentBlocks (_sharedData this)).

(** The vertex state and the uniform buffers once every dynamic uniform
    block has run. *)
Definition dynamicUniforms (this : Compiled) (v : CoreNodeMaterialBuildState)
    (defines : NodeMaterialDefines) : CoreNodeMaterialBuildState * list string :=
  foldl (λ vu b, updateUniformsAndSamples b vu.1 defines vu.2) (v, [])
    (dynamicUniformBlocks (_sharedData this)).

(** [_processDefines(mesh, defines, useInstances, subMesh)], given the
    outcome [cameraDefines] of [PrepareDefinesForCamera(scene, defines)].
    The merged lists are the arrays of the vertex state, which are
    extended in place.  Returns the material, the defines, the result
    ([None] for [null]) and the calls made into blocks. *)
Definition _processDefines (cameraDefines : NodeMaterialDefines * bool)
    (this : Compiled) (mesh : AbstractMesh) (useInstances : bool)
    (subMesh : option SubMesh)
  : Compiled * NodeMaterialDefines * option ProcessResult * list DefinesCall :=
  let sd := _sharedData this in
  let defines := preparedDefines cameraDefines this mesh useInstances subMesh in
  let log := map CallInitializeDefines (blocksWithDefines sd)
             ++ map CallPrepareDefines (blocksWithDefines sd) in
  (* Need to recompile? *)
  if isDirty defines then
    let lightDisposed := _areLightsDisposed defines in
    let defines := markAsProcessed defines in
    (* Repeatable content generators *)
    let '(v, f) := splicedStates this mesh defines in
    (* Uniforms *)
    let '(v, uniformBuffers) := dynamicUniforms this v defines in
    let mergedUniforms := mergeInto (uniforms v) (uniforms f) in
    (* Samplers *)
    let mergedSamplers := mergeInto (samplers v) (samplers f) in
    let v := mkBuildState (compilationString v) (_builtCompilationString v)
               mergedUniforms mergedSamplers (attributes v) in
    let fallbacks :=
      foldl (λ fb b, provideFallbacks b mesh fb) newEffectFallbacks
        (blocksWithFallbacks sd) in
    (mkCompiled v f sd, defines,
     Some (mkResult lightDisposed uniformBuffers mergedUniforms mergedSamplers fallbacks),
     log ++ map CallReplaceRepeatableContent (repeatableContentBlocks sd)
         ++ map CallUpdateUniformsAndSamples (dynamicUniformBlocks sd)
         ++ map CallProvideFallbacks (blocksWithFallbacks sd))
  else
    (this, defines, None, log).

End ProcessDefines.

(** ** Binding *)

(** What [bindForSubMesh] pushes to the effect, in the order pushed. *)
Inductive BindCall :=
| TransmitWorld (inputBlock : BlockId)
| Bind (block : BlockId)
| Transmit (inputBlock : BlockId)
| AfterBind.

Section Binding.

Context {Effect Matrix : Type}.
Variable multiply : Matrix → Matrix → Matrix.
Variable viewMatrix transformMatrix : Matrix.

(** The fields of the material used when binding. *)
Record Bound := mkBound {
  boundSharedData : SharedData;
  isFrozen : bool;
  _activeEffect : option Effect;
  _cachedWorldViewMatrix : Matrix;
  _cachedWorldViewProjectionMatrix : Matrix
}.

(** [bindOnlyWorldMatrix(world)] *)
Definition bindOnlyWorldMatrix (world : Matrix) (this : Bound) : Bound * list BindCall :=
  match _activeEffect this with
  | None => (this, [])
  | Some _ =>
      let h := hints (boundSharedData this) in
      let wv := if needWorldViewMatrix h then multiply world viewMatrix
                else _cachedWorldViewMatrix this in
      let wvp := if needWorldViewProjectionMatrix h then multiply world transformMatrix
                 else _cachedWorldViewProjectionMatrix this in
      (mkBound (boundSharedData this) (isFrozen this) (_activeEffect this) wv wvp,
       (* Connection points *)
       map TransmitWorld (inputBlocks (boundSharedData this)))
  end.

(** [bindForSubMesh(world, mesh, subMesh)], given [subMesh.effect] and the
    answer [mustRebind] of [_mustRebind] of the base class. *)
Definition bindForSubMesh (world : Matrix) (effect : option Effect)
    (mustRebind : bool) (this : Bound) : Bound * list BindCall :=
  match effect with
  | None => (this, [])
  | Some e =>
      let this := mkBound (boundSharedData this) (isFrozen this) (Some e)
                    (_cachedWorldViewMatrix this)
                    (_cachedWorldViewProjectionMatrix this) in
      (* Matrices *)
      let '(this, log) := bindOnlyWorldMatrix world this in
      let sharedData := boundSharedData this in
      let log :=
        if mustRebind then
          log
          (* Bindable blocks *)
          ++ map Bind (bindableBlocks sharedData)
          ++ map Bind (forcedBindableBlocks sharedData)
          (* Connection points *)
          ++ map Transmit (inputBlocks sharedData)
        else if negb (isFrozen this) then
          log ++ map Bind (forcedBindableBlocks sharedData)
        else log in
      (this, log ++ [AfterBind])
  end.

End Binding.

(** ** The merged lists, as the spec words them *)

(** The elements of [l], each once, in the order of their first
    occurrence. *)
Fixpoint firstOccurrences (l : list string) : list string :=
  match l with
  | [] => []
  | x :: l' => x :: filter (λ y, y ≠ x) (firstOccurrences l')
  end.

(** "every fragment-stage uniform not already present" in the vertex
    list. *)
Definition notAlreadyPresent (vertex fragment : list string) : list string :=
  firstOccurrences (filter (λ u, u ∉ vertex) fragment).

Lemma elem_of_firstOccurrences (l : list string) (x : string) :
  x ∈ firstOccurrences l ↔ x ∈ l.
Proof.
  induction l as [|y l IH]; simpl; [done|].
  rewrite !elem_of_cons, list_elem_of_filter, IH.
  destruct (decide (x = y)); naive_solver.
Qed.

Lemma NoDup_firstOccurrences (l : list string) : NoDup (firstOccurrences l).
Proof.
  induction l as [|y l IH]; simpl; [constructor|].
  constructor; [|by apply NoDup_filter].
  rewrite list_elem_of_filter. naive_solver.
Qed.

Lemma filter_id_Forall {A} (P : A → Prop) `{!∀ x, Decision (P x)} (l : list A) :
  Forall P l → filter P l = l.
Proof.
  induction 1 as [|x l Hx Hl IH]; [done|].
  rewrite filter_cons_True by done. by rewrite IH.
Qed.

Lemma filter_firstOccurrences (P : string → Prop) `{!∀ x, Decision (P x)}
    (l : list string) :
  filter P (firstOccurrences l) = firstOccurrences (filter P l).
Proof.
  induction l as [|x l IH]; simpl; [done|].
  destruct (decide (P x)) as [HP|HP].
  - rewrite !filter_cons_True by done. simpl. f_equal.
    rewrite <- IH, !list_filter_filter. apply list_filter_iff. naive_solver.
  - rewrite !filter_cons_False by done.
    rewrite list_filter_filter, <- IH.
    apply list_filter_iff. intros y. split; [tauto|].
    intros HPy. split; [done | congruence].
Qed.

Lemma pushIfAbsent_spec (merged : list string) (u : string) :
  pushIfAbsent merged u = if decide (u ∈ merged) then merged else merged ++ [u].
Proof.
  unfold pushIfAbsent.
  destruct (Z.eqb_spec (indexOf merged u) (-1)) as [He|He].
  - apply indexOf_absent in He. by rewrite decide_False.
  - apply indexOf_present in He. by rewrite decide_True.
Qed.

(** The merge loop computes the vertex list followed by what was not
    already present. *)
Lemma mergeInto_spec (vertex fragment : list string) :
  mergeInto vertex fragment = vertex ++ notAlreadyPresent vertex fragment.
Proof.
  unfold mergeInto, notAlreadyPresent.
  revert vertex. induction fragment as [|u f IH]; intros v; simpl.
  - by rewrite app_nil_r.
  - rewrite pushIfAbsent_spec. destruct (decide (u ∈ v)) as [Hin|Hin].
    + rewrite IH, filter_cons_False; [done | intros Hn; exact (Hn Hin)].
    + rewrite IH, filter_cons_True by done. simpl.
      rewrite <- app_assoc. simpl. do 2 f_equal.
      rewrite filter_firstOccurrences, list_filter_filter.
      f_equal. apply list_filter_iff. intros x.
      rewrite not_elem_of_app, not_elem_of_cons. pose proof (not_elem_of_nil x). tauto.
Qed.

Lemma firstOccurrences_sublist (l : list string) : firstOccurrences l `sublist_of` l.
Proof.
  induction l as [|x l IH]; simpl; [done|].
  apply sublist_skip. etrans; [apply sublist_filter | done].
Qed.

(** [merged] is "stage order first, de-duplicated": the vertex list as it
    is, then the fragment entries that the vertex list does not hold, each
    once, in fragment order. *)
Definition stageOrderMerge (vertex fragment merged : list string) : Prop :=
  ∃ added,
    merged = vertex ++ added
    ∧ added = notAlreadyPresent vertex fragment
    ∧ NoDup added
    ∧ added `sublist_of` fragment
    ∧ ∀ u, u ∈ added ↔ u ∈ fragment ∧ u ∉ vertex.

Lemma mergeInto_stageOrderMerge (vertex fragment : list string) :
  stageOrderMerge vertex fragment (mergeInto vertex fragment).
Proof.
  exists (notAlreadyPresent vertex fragment).
  split; [apply mergeInto_spec|]. split; [done|].
  unfold notAlreadyPresent.
  split; [apply NoDup_firstOccurrences|]. split.
  - etrans; [apply firstOccurrences_sublist | apply sublist_filter].
  - intros u. rewrite elem_of_firstOccurrences, list_elem_of_filter. tauto.
Qed.

(** Calls that specialize the program again: splicing of repeatable
    content, uniform updates and fallback collection. *)
Definition isSpecializationWork (c : DefinesCall) : bool :=
  match c with
  | CallReplaceRepeatableContent _ | CallUpdateUniformsAndSamples _
  | CallProvideFallbacks _ => true
  | CallInitializeDefines _ | CallPrepareDefines _ => false
  end.

Section ProcessDefinesFacts.

Context {SubMesh Fallbacks : Type}.
Variable newEffectFallbacks : Fallbacks.
Variable initializeDefines :
  BlockId → AbstractMesh → NodeMaterialDefines → bool → NodeMaterialDefines.
Variable prepareDefines :
  BlockId → AbstractMesh → NodeMaterialDefines → bool → option SubMesh → NodeMaterialDefines.
Variable replaceRepeatableContent :
  BlockId → CoreNodeMaterialBuildState → CoreNodeMaterialBuildState →
  AbstractMesh → NodeMaterialDefines →
  CoreNodeMaterialBuildState * CoreNodeMaterialBuildState.
Variable updateUniformsAndSamples :
  BlockId → CoreNodeMaterialBuildState → NodeMaterialDefines → list string →
  CoreNodeMaterialBuildState * list string.
Variable provideFallbacks : BlockId → AbstractMesh → Fallbacks → Fallbacks.

Let prepared := preparedDefines initializeDefines prepareDefines.
Let process :=
  _processDefines newEffectFallbacks initializeDefines prepareDefines
    replaceRepeatableContent updateUniformsAndSamples provideFallbacks.

(** The vertex and fragment states at the point where [_processDefines]
    merges their lists: after splicing and the dynamic uniform blocks. *)
Definition stagesAtMerge (this : Compiled) (mesh : AbstractMesh)
    (defines : NodeMaterialDefines)
  : CoreNodeMaterialBuildState * CoreNodeMaterialBuildState :=
  let vf := splicedStates replaceRepeatableContent this mesh defines in
  ((dynamicUniforms updateUniformsAndSamples this vf.1 defines).1, vf.2).

(** The calls that every [_processDefines] makes: each block with defines
    initializes the defines, then each prepares them. *)
Definition preparationCalls (this : Compiled) : list DefinesCall :=
  map CallInitializeDefines (blocksWithDefines (_sharedData this))
  ++ map CallPrepareDefines (blocksWithDefines (_sharedData this)).

(** C4 (as amended). [_processDefines] returns [null] exactly when the
    dirty flag of the defines is clear once the blocks have prepared them.
    It then leaves the material (both stage texts and their uniform and
    sampler lists) as it was, returns the defines as prepared, and calls no
    block to splice repeatable content, update uniforms or provide
    fallbacks: the calls made are those that prepare the defines. *)
Theorem processDefines_cache_hit
    (cameraDefines : NodeMaterialDefines * bool) (this : Compiled)
    (mesh : AbstractMesh) (useInstances : bool) (subMesh : option SubMesh) :
  ((process cameraDefines this mesh useInstances subMesh).1.2 = None
   ↔ isDirty (prepared cameraDefines this mesh useInstances subMesh) = false)
  ∧ (isDirty (prepared cameraDefines this mesh useInstances subMesh) = false →
     process cameraDefines this mesh useInstances subMesh
     = (this, prepared cameraDefines this mesh useInstances subMesh, None,
        preparationCalls this)
     ∧ Forall (λ c, isSpecializationWork c = false) (preparationCalls this)).
Proof.
  subst prepared process. unfold _processDefines.
  destruct (isDirty (preparedDefines _ _ _ _ _ _ _)) eqn:Hdirty.
  - destruct (splicedStates _ _ _ _) as [v f].
    destruct (dynamicUniforms _ _ _ _) as [v' ub]. cbn [fst snd].
    split; [split; intros; done | intros; done].
  - cbn [fst snd]. split; [done|]. intros _. split; [reflexivity|].
    apply Forall_app; split; apply Forall_forall; intros c Hc;
      apply list_elem_of_fmap in Hc as (b & -> & _); reflexivity.
Qed.

(** C6. On a cache miss the merged uniform list is the vertex list in its
    order followed by the fragment uniforms it does not hold, each once;
    the sampler lists are merged the same way; the merged lists are the
    arrays of the vertex state. *)
Theorem processDefines_merged_lists
    (cameraDefines : NodeMaterialDefines * bool) (this : Compiled)
    (mesh : AbstractMesh) (useInstances : bool) (subMesh : option SubMesh) :
  isDirty (prepared cameraDefines this mesh useInstances subMesh) = true →
  ∃ this' defines' r log,
    process cameraDefines this mesh useInstances subMesh
    = (this', defines', Some r, log)
    ∧ defines' = markAsProcessed (prepared cameraDefines this mesh useInstances subMesh)
    ∧ stageOrderMerge
        (uniforms (stagesAtMerge this mesh defines').1)
        (uniforms (stagesAtMerge this mesh defines').2)
        (mergedUniforms r)
    ∧ stageOrderMerge
        (samplers (stagesAtMerge this mesh defines').1)
        (samplers (stagesAtMerge this mesh defines').2)
        (mergedSamplers r)
    ∧ uniforms (_vertexCompilationState this') = mergedUniforms r
    ∧ samplers (_vertexCompilationState this') = mergedSamplers r.
Proof.
  intros Hdirty. subst prepared process. unfold _processDefines, stagesAtMerge.
  rewrite Hdirty.
  destruct (splicedStates _ _ _ _) as [v f] eqn:Hs.
  destruct (dynamicUniforms _ _ _ _) as [v' ub] eqn:Hd.
  do 4 eexists. split; [reflexivity|]. split; [reflexivity|].
  simpl. rewrite Hs. simpl. rewrite Hd. simpl.
  repeat split; auto using mergeInto_stageOrderMerge.
Qed.

End ProcessDefinesFacts.

(** *** Binding order *)

Definition isInputPush (c : BindCall) : bool :=
  match c with TransmitWorld _ | Transmit _ => true | _ => false end.

Definition isBlockBind (c : BindCall) : bool :=
  match c with Bind _ => true | _ => false end.

(** The order "input blocks, then bindable blocks, then forced bindable
    blocks" asks at least that no value of an input block is pushed after a
    block was bound. *)
Definition inputsBeforeBinds (log : list BindCall) : Prop :=
  ∀ i j c d,
    log !! i = Some c → log !! j = Some d →
    isInputPush c = true → isBlockBind d = true → i < j.

Section BindingFacts.

Context {Effect Matrix : Type}.
Variable multiply : Matrix → Matrix → Matrix.
Variable viewMatrix transformMatrix : Matrix.

(** C1 (as amended). With an effect on the sub mesh and a rebind required,
    [bindForSubMesh] first transmits the world matrices to every input
    block, then binds every bindable block, then every forced bindable
    block, then transmits the value of every input block, and ends with
    [_afterBind]. *)
Theorem bindForSubMesh_rebind_order (world : Matrix) (effect : Effect)
    (this : Bound (Effect := Effect) (Matrix := Matrix)) :
  (bindForSubMesh multiply viewMatrix transformMatrix world (Some effect) true this).2
  = map TransmitWorld (inputBlocks (boundSharedData this))
    ++ map Bind (bindableBlocks (boundSharedData this))
    ++ map Bind (forcedBindableBlocks (boundSharedData this))
    ++ map Transmit (inputBlocks (boundSharedData this))
    ++ [AfterBind].
Proof.
  unfold bindForSubMesh, bindOnlyWorldMatrix. simpl.
  by rewrite <- !app_assoc.
Qed.

End BindingFacts.

(** A material with one input block (1), one bindable block (2) and one
    forced bindable block (3). *)
Definition oneOfEach : Bound (Effect := unit) (Matrix := unit) :=
  mkBound (mkSharedData [] [] [] [] [2] [3] [1] (mkHints false false))
    false None tt tt.

(** C1 (as stated) fails: the value of input block 1 is transmitted after
    blocks 2 and 3 were bound. *)
Lemma bindForSubMesh_inputs_not_first :
  (bindForSubMesh (λ _ _, tt) tt tt tt (Some tt) true oneOfEach).2
  = [TransmitWorld 1; Bind 2; Bind 3; Transmit 1; AfterBind]
  ∧ ¬ inputsBeforeBinds
        (bindForSubMesh (λ _ _, tt) tt tt tt (Some tt) true oneOfEach).2.
Proof.
  split; [reflexivity|].
  intros H. specialize (H 3 1 (Transmit 1) (Bind 2)).
  simpl in H. specialize (H eq_refl eq_refl eq_refl eq_refl). lia.
Qed.

(** *** Attribute defines *)

(** The defines that [_prepareDefinesForAttributes] reads off the mesh. *)
Definition attributeDefines : list string :=
  ["NORMAL"; "TANGENT"; "VERTEXCOLOR_NME";
   "UV1"; "UV2"; "UV3"; "UV4"; "UV5"; "UV6"].

Lemma getDefine_setDefine (k k' : string) (v : DefineValue) (d : NodeMaterialDefines) :
  getDefine (setDefine k v d) k'
  = if decide (k = k') then Some v else getDefine d k'.
Proof. unfold getDefine, setDefine; simpl. apply lookup_insert. Qed.

Lemma categories_setDefine k v d : categories (setDefine k v d) = categories d.
Proof. reflexivity. Qed.

Section AttributeFacts.

Context {Scene : Type}.
Variable PrepareDefinesForPrePass : Scene → NodeMaterialDefines → bool → NodeMaterialDefines.
Variable useOrderIndependentTransparency : Scene → bool.
Variable needAlphaBlendingForMesh : AbstractMesh → bool.

(** The defines as the prepass helper returns them inside
    [_prepareDefinesForAttributes]. *)
Definition afterPrePass (scene : Scene) (mesh : AbstractMesh)
    (defines : NodeMaterialDefines) : NodeMaterialDefines :=
  PrepareDefinesForPrePass scene (readAttributes mesh defines).1
    (negb (needAlphaBlendingForMesh mesh && useOrderIndependentTransparency scene)).

Lemma readAttributes_flags mesh d :
  categories (readAttributes mesh d).1 = categories d
  ∧ _isDirty (readAttributes mesh d).1 = _isDirty d.
Proof. done. Qed.

(** What [readAttributes] leaves in an attribute define, and when it
    reports a change of a uv set. *)
Lemma readAttributes_changed mesh d k :
  k ∈ attributeDefines →
  getDefine (readAttributes mesh d).1 k ≠ getDefine d k →
  bool_decide (getDefine d "NORMAL" ≠ getDefine (readAttributes mesh d).1 "NORMAL")
  || bool_decide (getDefine d "TANGENT" ≠ getDefine (readAttributes mesh d).1 "TANGENT")
  || bool_decide (getDefine d "VERTEXCOLOR_NME"
                  ≠ getDefine (readAttributes mesh d).1 "VERTEXCOLOR_NME")
  || (readAttributes mesh d).2 = true.
Proof.
  intros Hk Hne.
  unfold readAttributes, MAX_SUPPORTED_UV_SETS in *. cbn [uvLoop] in *.
  change (uvDefine 1) with "UV1" in *. change (uvDefine 2) with "UV2" in *.
  change (uvDefine 3) with "UV3" in *. change (uvDefine 4) with "UV4" in *.
  change (uvDefine 5) with "UV5" in *. change (uvDefine 6) with "UV6" in *.
  cbn [fst snd] in *.
  repeat (rewrite getDefine_setDefine in Hne; simpl in Hne).
  repeat (rewrite getDefine_setDefine; simpl).
  unfold attributeDefines in Hk.
  repeat (apply elem_of_cons in Hk as [->|Hk]); [..|by apply elem_of_nil in Hk];
    simpl in Hne;
    repeat match goal with
    | |- context [bool_decide ?P] => destruct (bool_decide_reflect P); simpl; try done
    end; congruence.
Qed.

(** C5. When the mesh changes an attribute-derived define (say a vertex
    color channel appears) and the prepass helper finds nothing to mark,
    [_prepareDefinesForAttributes] sets the attributes category (and the
    dirty flag) and leaves every other category as it was. *)
Theorem prepareDefinesForAttributes_marks_attributes_only
    (scene : Scene) (mesh : AbstractMesh) (defines : NodeMaterialDefines)
    (k : string) :
  k ∈ attributeDefines →
  getDefine (readAttributes mesh defines).1 k ≠ getDefine defines k →
  categories (afterPrePass scene mesh defines) = categories defines →
  (∀ a, a ∈ attributeDefines →
        getDefine (afterPrePass scene mesh defines) a
        = getDefine (readAttributes mesh defines).1 a) →
  categories
    (_prepareDefinesForAttributes PrepareDefinesForPrePass
       useOrderIndependentTransparency needAlphaBlendingForMesh scene mesh defines)
  = mkCategories true
      (_areMiscDirty defines) (_areLightsDirty defines)
      (_areLightsDisposed defines) (_areTexturesDirty defines)
      (_areFresnelDirty defines) (_areImageProcessingDirty defines)
      (_arePrePassDirty defines)
  ∧ isDirty
      (_prepareDefinesForAttributes PrepareDefinesForPrePass
         useOrderIndependentTransparency needAlphaBlendingForMesh scene mesh defines)
    = true.
Proof.
  intros Hk Hne Hcat Hsame.
  pose proof (readAttributes_changed mesh defines k Hk Hne) as Hch.
  unfold _prepareDefinesForAttributes. unfold afterPrePass in *.
  destruct (readAttributes mesh defines) as [d1 uvChanged] eqn:Hr.
  simpl in *.
  rewrite !Hsame by (unfold attributeDefines; set_solver).
  rewrite Hch.
  unfold categories in *. simpl. split; [|done].
  injection Hcat as _ -> -> -> -> -> -> ->. done.
Qed.

End AttributeFacts.

(** *** Concrete materials and meshes *)

(** A compiled material with two vertex uniforms and three fragment
    uniforms, one of them shared with the vertex stage and one repeated. *)
Definition sampleCompiled : Compiled :=
  mkCompiled
    (mkBuildState "" "void main() {}" ["world"; "view"] ["diffuse"] ["position"])
    (mkBuildState "" "void main() {}" ["view"; "color"; "color"] ["diffuse"; "bump"] [])
    (mkSharedData [7] [] [] [] [] [] [] (mkHints false false)).

(** A mesh with positions and normals only. *)
Definition plainMesh : AbstractMesh :=
  mkMesh (λ kind, bool_decide (kind = "position" ∨ kind = "normal")) true 1.

(** The same mesh with a vertex color channel. *)
Definition coloredMesh : AbstractMesh :=
  mkMesh (λ kind, bool_decide (kind = "position" ∨ kind = "normal" ∨ kind = "color"))
    true 1.

(** The defines of [plainMesh] once processed. *)
Definition plainDefines : NodeMaterialDefines :=
  markAsProcessed
    (setDefine "NORMAL" (DBool true) newNodeMaterialDefines).

(** Defines that were processed and then marked as unprocessed, as
    [isReadyForSubMesh] does while a new effect compiles: the dirty flag is
    set and no category is. *)
Definition unprocessedDefines : NodeMaterialDefines := markAsUnprocessed plainDefines.

(** The compiled material above with a repeatable content block (7) and a
    block with fallbacks (8), and no block with defines. *)
Definition repeatableCompiled : Compiled :=
  mkCompiled (_vertexCompilationState sampleCompiled)
    (_fragmentCompilationState sampleCompiled)
    (mkSharedData [] [7] [] [8] [] [] [] (mkHints false false)).

(** C4 (as stated) fails: with no dirty category set after the blocks have
    prepared the defines, but the dirty flag set, [_processDefines] returns
    a result, having called block 7 to splice its repeatable content,
    merged the uniform lists and called block 8 for its fallbacks. *)
Lemma processDefines_unprocessed_recompiles :
  categories
    (preparedDefines (SubMesh := unit) (λ _ _ d _, d) (λ _ _ d _ _, d)
       (unprocessedDefines, false) repeatableCompiled plainMesh false None)
  = mkCategories false false false false false false false false
  ∧ (_processDefines (SubMesh := unit) (Fallbacks := list nat) []
       (λ _ _ d _, d) (λ _ _ d _ _, d)
       (λ _ v f _ _, (v, f)) (λ _ v _ ub, (v, ub)) (λ b _ fb, b :: fb)
       (unprocessedDefines, false) repeatableCompiled plainMesh false None).2
    = [CallReplaceRepeatableContent 7; CallProvideFallbacks 8]
  ∧ mergedUniforms
      <$> (_processDefines (SubMesh := unit) (Fallbacks := list nat) []
             (λ _ _ d _, d) (λ _ _ d _ _, d)
             (λ _ v f _ _, (v, f)) (λ _ v _ ub, (v, ub)) (λ b _ fb, b :: fb)
             (unprocessedDefines, false) repeatableCompiled plainMesh false None).1.2
    = Some ["world"; "view"; "color"].
Proof. repeat split; vm_compute; reflexivity. Qed.

(** On defines that are not dirty the sample is left as it was. *)
Example processDefines_cache_hit_sample :
  _processDefines (SubMesh := unit) (Fallbacks := list nat) []
    (λ _ _ d _, d) (λ _ _ d _ _, d)
    (λ _ v f _ _, (v, f)) (λ _ v _ ub, (v, ub)) (λ b _ fb, b :: fb)
    (plainDefines, false) repeatableCompiled plainMesh false None
  = (repeatableCompiled, plainDefines, None, []).
Proof. reflexivity. Qed.

Lemma processDefines_merged_lists_witness :
  isDirty
    (preparedDefines (SubMesh := unit) (λ _ _ d _, d)
       (λ _ _ d _ _, markAsAttributesDirty d)
       (plainDefines, false) sampleCompiled plainMesh false None) = true
  ∧ ∃ this' defines' r log,
      _processDefines (SubMesh := unit) (Fallbacks := list nat) []
        (λ _ _ d _, d) (λ _ _ d _ _, markAsAttributesDirty d)
        (λ _ v f _ _, (v, f)) (λ _ v _ ub, (v, ub)) (λ b _ fb, b :: fb)
        (plainDefines, false) sampleCompiled plainMesh false None
      = (this', defines', Some r, log)
      ∧ defines'
        = markAsProcessed
            (preparedDefines (SubMesh := unit) (λ _ _ d _, d)
               (λ _ _ d _ _, markAsAttributesDirty d)
               (plainDefines, false) sampleCompiled plainMesh false None)
      ∧ stageOrderMerge
          (uniforms (stagesAtMerge (λ _ v f _ _, (v, f)) (λ _ v _ ub, (v, ub))
                       sampleCompiled plainMesh defines').1)
          (uniforms (stagesAtMerge (λ _ v f _ _, (v, f)) (λ _ v _ ub, (v, ub))
                       sampleCompiled plainMesh defines').2)
          (mergedUniforms r)
      ∧ stageOrderMerge
          (samplers (stagesAtMerge (λ _ v f _ _, (v, f)) (λ _ v _ ub, (v, ub))
                       sampleCompiled plainMesh defines').1)
          (samplers (stagesAtMerge (λ _ v f _ _, (v, f)) (λ _ v _ ub, (v, ub))
                       sampleCompiled plainMesh defines').2)
          (mergedSamplers r)
      ∧ uniforms (_vertexCompilationState this') = mergedUniforms r
      ∧ samplers (_vertexCompilationState this') = mergedSamplers r.
Proof.
  split; [reflexivity|].
  apply (processDefines_merged_lists (SubMesh := unit) (Fallbacks := list nat) []
           (λ _ _ d _, d) (λ _ _ d _ _, markAsAttributesDirty d)
           (λ _ v f _ _, (v, f)) (λ _ v _ ub, (v, ub)) (λ b _ fb, b :: fb)
           (plainDefines, false) sampleCompiled plainMesh false None).
  reflexivity.
Defined.

(** The merge on the sample: ["view"] is shared and ["color"] repeated. *)
Example mergeInto_sample :
  mergeInto ["world"; "view"] ["view"; "color"; "color"] = ["world"; "view"; "color"].
Proof. reflexivity. Qed.

Lemma prepareDefinesForAttributes_marks_attributes_only_witness :
  ("VERTEXCOLOR_NME" ∈ attributeDefines
   ∧ getDefine (readAttributes coloredMesh plainDefines).1 "VERTEXCOLOR_NME"
     ≠ getDefine plainDefines "VERTEXCOLOR_NME")
  ∧ categories
      (_prepareDefinesForAttributes (Scene := unit) (λ _ d _, d) (λ _, false)
         (λ _, false) tt coloredMesh plainDefines)
    = mkCategories true false false false false false false false
  ∧ isDirty
      (_prepareDefinesForAttributes (Scene := unit) (λ _ d _, d) (λ _, false)
         (λ _, false) tt coloredMesh plainDefines)
    = true.
Proof.
  assert (Hk : "VERTEXCOLOR_NME" ∈ attributeDefines)
    by (unfold attributeDefines; set_solver).
  assert (Hne : getDefine (readAttributes coloredMesh plainDefines).1 "VERTEXCOLOR_NME"
                ≠ getDefine plainDefines "VERTEXCOLOR_NME") by (vm_compute; congruence).
  split; [by split|].
  apply (prepareDefinesForAttributes_marks_attributes_only (Scene := unit)
           (λ _ d _, d) (λ _, false) (λ _, false) tt coloredMesh plainDefines
           "VERTEXCOLOR_NME" Hk Hne); [reflexivity | reflexivity].
Defined.

(** ** Defines: [setValue] *)

(** The key list of a defines object names each property that is set, once. *)
Definition keysInStep (d : NodeMaterialDefines) : Prop :=
  NoDup (_keys d) ∧ ∀ k, k ∈ _keys d ↔ is_Some (getDefine d k).

Lemma newNodeMaterialDefines_keysInStep : keysInStep newNodeMaterialDefines.
Proof.
  split.
  - apply (bool_decide_unpack (NoDup (_keys newNodeMaterialDefines))). by vm_compute.
  - intros k. unfold getDefine, newNodeMaterialDefines. cbn [values _keys].
    rewrite <- elem_of_dom, dom_list_to_map_L, elem_of_list_to_set. done.
Qed.

Section SetValueFacts.

Variable isMember : string → bool.

(** X14. [setValue] keeps the key list in step with the properties: for a
    name that is not a field or a method of the object, when each property
    that is set is named once in [_keys], the call returns defines where
    the same holds, the name given is among the keys, and it reads as the
    value given while every other property reads as before. *)
Theorem setValue_keys_in_step (name : string) (value : DefineValue)
    (markAsUnprocessedIfDirty : bool) (d : NodeMaterialDefines) :
  isMember name = false →
  keysInStep d →
  ∃ d',
    setValue isMember name value markAsUnprocessedIfDirty d = Some d'
    ∧ keysInStep d'
    ∧ name ∈ _keys d'
    ∧ _keys d' = (if decide (is_Some (getDefine d name)) then _keys d
                  else _keys d ++ [name])
    ∧ ∀ k, getDefine d' k = if decide (name = k) then Some value else getDefine d k.
Proof.
  intros Hmember [Hnd Hkeys]. unfold setValue. rewrite Hmember.
  destruct (getDefine d name) as [old|] eqn:Hname.
  - eexists. split; [reflexivity|].
    assert (Hk : _keys (setDefine name value
                   (if markAsUnprocessedIfDirty && bool_decide (old ≠ value)
                    then markAsUnprocessed d else d)) = _keys d)
      by (by destruct (markAsUnprocessedIfDirty && _)).
    assert (Hget : ∀ k, getDefine (setDefine name value
                     (if markAsUnprocessedIfDirty && bool_decide (old ≠ value)
                      then markAsUnprocessed d else d)) k
                   = if decide (name = k) then Some value else getDefine d k).
    { intros k. rewrite getDefine_setDefine. destruct (decide (name = k)); [done|].
      by destruct (markAsUnprocessedIfDirty && _). }
    rewrite decide_True by (by eexists).
    split; [split|split; [|split; [done|done]]].
    + by rewrite Hk.
    + intros k. rewrite Hk, Hget, Hkeys. destruct (decide (name = k)) as [<-|]; [|done].
      rewrite Hname. split; by eexists.
    + rewrite Hk. apply Hkeys. by eexists.
  - eexists. split; [reflexivity|].
    set (d1 := mkDefines _ _ _ _ _ _ _ _ _ _ _).
    assert (Hk : _keys (setDefine name value
                   (if markAsUnprocessedIfDirty then markAsUnprocessed d1 else d1))
                 = _keys d ++ [name])
      by (by destruct markAsUnprocessedIfDirty).
    assert (Hget : ∀ k, getDefine (setDefine name value
                     (if markAsUnprocessedIfDirty then markAsUnprocessed d1 else d1)) k
                   = if decide (name = k) then Some value else getDefine d k).
    { intros k. rewrite getDefine_setDefine. destruct (decide (name = k)); [done|].
      by destruct markAsUnprocessedIfDirty. }
    rewrite decide_False by (intros [? ?]; done).
    assert (name ∉ _keys d) as Hnew.
    { intros Hin%Hkeys. rewrite Hname in Hin. by destruct Hin. }
    split; [split|split; [|split; [done|done]]].
    + rewrite Hk. apply NoDup_app. split; [done|]. split; [|apply NoDup_singleton].
      intros k Hin ->%list_elem_of_singleton. done.
    + intros k. rewrite Hk, Hget, elem_of_app, list_elem_of_singleton, Hkeys.
      destruct (decide (name = k)) as [->|Hne].
      * split; [by eexists | by right].
      * split; [intros [?|?]; [done | congruence] | by left].
    + rewrite Hk. apply elem_of_app. right. by left.
Qed.

(** X15. Setting a property to the value it has changes nothing: no key is
    added and the defines are not marked as unprocessed, also with
    [markAsUnprocessedIfDirty] set. *)
Theorem setValue_same_value (name : string) (value : DefineValue)
    (markAsUnprocessedIfDirty : bool) (d : NodeMaterialDefines) :
  getDefine d name = Some value →
  setValue isMember name value markAsUnprocessedIfDirty d = Some d.
Proof.
  intros Hv. unfold setValue. rewrite Hv. cbn zeta.
  rewrite (bool_decide_eq_false_2 (value ≠ value)) by (intros H; by apply H).
  rewrite andb_false_r. unfold setDefine. unfold getDefine in Hv.
  rewrite (insert_id _ _ _ Hv). by destruct d.
Qed.

End SetValueFacts.

(** ** Merged lists, merged again *)

Lemma filter_none {A} (P : A → Prop) `{!∀ x, Decision (P x)} (l : list A) :
  Forall (λ x, ¬ P x) l → filter P l = [].
Proof.
  induction 1 as [|x l Hx Hl IH]; [done|].
  by rewrite filter_cons_False.
Qed.

(** X16. Merging the fragment list into a vertex list that is already the
    result of that merge adds nothing.  [_processDefines] writes the merged
    list over the vertex list, so a cache miss that finds both lists as the
    last one left them does not grow the merged list. *)
Theorem mergeInto_again (vertex fragment : list string) :
  mergeInto (mergeInto vertex fragment) fragment = mergeInto vertex fragment.
Proof.
  rewrite (mergeInto_spec (mergeInto vertex fragment) fragment).
  assert (filter (λ u, u ∉ mergeInto vertex fragment) fragment = []) as Hnone.
  { apply filter_none, Forall_forall. intros u Hu Habsent. apply Habsent.
    destruct (mergeInto_stageOrderMerge vertex fragment) as (added & -> & _ & _ & _ & Hadded).
    apply elem_of_app. destruct (decide (u ∈ vertex)); [by left|].
    right. by apply Hadded. }
  unfold notAlreadyPresent. rewrite Hnone. simpl. by rewrite app_nil_r.
Qed.

(** ** Attribute defines, read a second time *)

(** What [readAttributes] leaves in the attribute defines depends on the
    mesh alone. *)
Lemma readAttributes_values mesh d d0 k :
  k ∈ attributeDefines →
  getDefine (readAttributes mesh d).1 k = getDefine (readAttributes mesh d0).1 k.
Proof.
  intros Hk.
  unfold readAttributes, MAX_SUPPORTED_UV_SETS. cbn [uvLoop].
  change (uvDefine 1) with "UV1". change (uvDefine 2) with "UV2".
  change (uvDefine 3) with "UV3". change (uvDefine 4) with "UV4".
  change (uvDefine 5) with "UV5". change (uvDefine 6) with "UV6".
  cbn [fst snd].
  unfold attributeDefines in Hk.
  repeat (apply elem_of_cons in Hk as [->|Hk]); [..|by apply elem_of_nil in Hk];
    repeat (rewrite getDefine_setDefine; simpl); reflexivity.
Qed.

(** On defines that hold what the mesh gives, reading the mesh again
    changes no attribute define and reports no change of a uv set. *)
Lemma readAttributes_again mesh d d0 :
  (∀ k, k ∈ attributeDefines →
        getDefine d k = getDefine (readAttributes mesh d0).1 k) →
  (readAttributes mesh d).2 = false
  ∧ ∀ k, k ∈ attributeDefines → getDefine (readAttributes mesh d).1 k = getDefine d k.
Proof.
  intros Hd. split.
  - assert (H1 := Hd "UV1"). assert (H2 := Hd "UV2"). assert (H3 := Hd "UV3").
    assert (H4 := Hd "UV4"). assert (H5 := Hd "UV5"). assert (H6 := Hd "UV6").
    unfold readAttributes, MAX_SUPPORTED_UV_SETS in *. cbn [uvLoop] in *.
    change (uvDefine 1) with "UV1" in *. change (uvDefine 2) with "UV2" in *.
    change (uvDefine 3) with "UV3" in *. change (uvDefine 4) with "UV4" in *.
    change (uvDefine 5) with "UV5" in *. change (uvDefine 6) with "UV6" in *.
    cbn [fst snd] in *.
    repeat (rewrite getDefine_setDefine in H1; simpl in H1).
    repeat (rewrite getDefine_setDefine in H2; simpl in H2).
    repeat (rewrite getDefine_setDefine in H3; simpl in H3).
    repeat (rewrite getDefine_setDefine in H4; simpl in H4).
    repeat (rewrite getDefine_setDefine in H5; simpl in H5).
    repeat (rewrite getDefine_setDefine in H6; simpl in H6).
    repeat (rewrite getDefine_setDefine; simpl).
    rewrite H1, H2, H3, H4, H5, H6 by (apply (bool_decide_unpack _); by vm_compute).
    repeat match goal with
    | |- context [bool_decide ?P] => destruct (bool_decide_reflect P); simpl; try done
    end.
  - intros k Hk. rewrite (Hd k Hk). by apply readAttributes_values.
Qed.

Section AttributeFactsAgain.

Context {Scene : Type}.
Variable PrepareDefinesForPrePass : Scene → NodeMaterialDefines → bool → NodeMaterialDefines.
Variable useOrderIndependentTransparency : Scene → bool.
Variable needAlphaBlendingForMesh : AbstractMesh → bool.

Let prepare :=
  _prepareDefinesForAttributes PrepareDefinesForPrePass
    useOrderIndependentTransparency needAlphaBlendingForMesh.

(** X17. When the prepass helper leaves the attribute defines, the dirty
    categories and the dirty flag as they are, a second
    [_prepareDefinesForAttributes] for the same mesh, on the defines that
    the first one left and that were then marked as processed, marks
    nothing: every category and the dirty flag stay clear, and the
    attribute defines keep their values. *)
Theorem prepareDefinesForAttributes_second_check
    (scene : Scene) (mesh : AbstractMesh) (defines : NodeMaterialDefines) :
  (∀ s d b,
     categories (PrepareDefinesForPrePass s d b) = categories d
     ∧ isDirty (PrepareDefinesForPrePass s d b) = isDirty d
     ∧ ∀ a, a ∈ attributeDefines →
            getDefine (PrepareDefinesForPrePass s d b) a = getDefine d a) →
  categories (prepare scene mesh (markAsProcessed (prepare scene mesh defines)))
  = mkCategories false false false false false false false false
  ∧ isDirty (prepare scene mesh (markAsProcessed (prepare scene mesh defines))) = false
  ∧ ∀ a, a ∈ attributeDefines →
         getDefine (prepare scene mesh (markAsProcessed (prepare scene mesh defines))) a
         = getDefine (prepare scene mesh defines) a.
Proof.
  intros Hpp. subst prepare.
  set (first := _prepareDefinesForAttributes _ _ _ scene mesh defines).
  assert (Hfirst : ∀ a, a ∈ attributeDefines →
            getDefine (markAsProcessed first) a
            = getDefine (readAttributes mesh defines).1 a).
  { intros a Ha. subst first. unfold _prepareDefinesForAttributes.
    destruct (readAttributes mesh defines) as [d1 uvChanged]. cbn [fst].
    destruct (Hpp scene d1
                (negb (needAlphaBlendingForMesh mesh
                       && useOrderIndependentTransparency scene))) as (_ & _ & Hsame).
    destruct (_ || uvChanged); unfold getDefine, markAsProcessed, markAsAttributesDirty;
      cbn [values]; by apply Hsame. }
  destruct (readAttributes_again mesh (markAsProcessed first) defines Hfirst)
    as [Huv Hkeep].
  unfold _prepareDefinesForAttributes.
  destruct (readAttributes mesh (markAsProcessed first)) as [d2 uvChanged] eqn:Hr.
  cbn [fst snd] in Huv, Hkeep. subst uvChanged.
  destruct (Hpp scene d2
              (negb (needAlphaBlendingForMesh mesh
                     && useOrderIndependentTransparency scene))) as (Hcat & Hdirty & Hsame).
  rewrite !Hsame, !Hkeep by (apply (bool_decide_unpack _); by vm_compute).
  rewrite !(bool_decide_eq_false_2 (_ ≠ _)) by (intros H; by apply H).
  cbn [orb].
  pose proof (readAttributes_flags mesh (markAsProcessed first)) as [Hc Hd].
  rewrite Hr in Hc, Hd. cbn [fst] in Hc, Hd.
  split; [by rewrite Hcat, Hc|]. split; [by rewrite Hdirty; unfold isDirty; rewrite Hd|].
  intros a Ha. rewrite Hsame, Hkeep by done. done.
Qed.

End AttributeFactsAgain.

(** *** The extra facts on concrete defines *)

(** The names of some members of a defines object. *)
Definition someMembers (name : string) : bool :=
  bool_decide (name ∈ ["_keys"; "isDirty"; "reset"; "setValue"; "markAsUnprocessed"]).

Lemma setValue_keys_in_step_witness :
  ∃ d',
    setValue someMembers "AMBIENT" (DNum 2) true newNodeMaterialDefines = Some d'
    ∧ keysInStep d'
    ∧ "AMBIENT" ∈ _keys d'
    ∧ _keys d' = (if decide (is_Some (getDefine newNodeMaterialDefines "AMBIENT"))
                  then _keys newNodeMaterialDefines
                  else _keys newNodeMaterialDefines ++ ["AMBIENT"])
    ∧ ∀ k, getDefine d' k = if decide ("AMBIENT" = k) then Some (DNum 2)
                            else getDefine newNodeMaterialDefines k.
Proof.
  apply (setValue_keys_in_step someMembers "AMBIENT" (DNum 2) true newNodeMaterialDefines).
  - reflexivity.
  - apply newNodeMaterialDefines_keysInStep.
Defined.

(** A call that names a method of the object pushes no key; the model has
    no defines object for what it leaves. *)
Example setValue_reset :
  setValue someMembers "reset" (DNum 1) false newNodeMaterialDefines = None.
Proof. reflexivity. Qed.

Lemma setValue_same_value_witness :
  setValue someMembers "NORMAL" (DBool true) true plainDefines = Some plainDefines.
Proof.
  apply (setValue_same_value someMembers "NORMAL" (DBool true) true plainDefines).
  vm_compute. reflexivity.
Defined.

Lemma prepareDefinesForAttributes_second_check_witness :
  categories
    (_prepareDefinesForAttributes (Scene := unit) (λ _ d _, d) (λ _, false) (λ _, false)
       tt coloredMesh
       (markAsProcessed
          (_prepareDefinesForAttributes (Scene := unit) (λ _ d _, d) (λ _, false)
             (λ _, false) tt coloredMesh plainDefines)))
  = mkCategories false false false false false false false false
  ∧ isDirty
      (_prepareDefinesForAttributes (Scene := unit) (λ _ d _, d) (λ _, false) (λ _, false)
         tt coloredMesh
         (markAsProcessed
            (_prepareDefinesForAttributes (Scene := unit) (λ _ d _, d) (λ _, false)
               (λ _, false) tt coloredMesh plainDefines)))
    = false
  ∧ ∀ a, a ∈ attributeDefines →
         getDefine
           (_prepareDefinesForAttributes (Scene := unit) (λ _ d _, d) (λ _, false)
              (λ _, false) tt coloredMesh
              (markAsProcessed
                 (_prepareDefinesForAttributes (Scene := unit) (λ _ d _, d) (λ _, false)
                    (λ _, false) tt coloredMesh plainDefines))) a
         = getDefine
             (_prepareDefinesForAttributes (Scene := unit) (λ _ d _, d) (λ _, false)
                (λ _, false) tt coloredMesh plainDefines) a.
Proof.
  apply (prepareDefinesForAttributes_second_check (Scene := unit) (λ _ d _, d)
           (λ _, false) (λ _, false) tt coloredMesh plainDefines).
  intros s d b. split; [reflexivity|]. split; [reflexivity|]. intros a _. reflexivity.
Defined.

End Core.

(* ===================================================================== *)
(** * The node material class *)
(* ===================================================================== *)
Module NodeMat.

(** ** Blocks *)

(** [NodeMaterialBlockTargets]: the enumeration is declared outside these
    files; its members are bit flags, tested with [&] by [addOutputNode]. *)
Definition Vertex : Z := 1.
Definition Fragment : Z := 2.
Definition Neutral : Z := 4.
Definition VertexAndFragment : Z := Z.lor Vertex Fragment.

(** [NodeMaterialModes] *)
Inductive NodeMaterialModes :=
| Material
| PostProcess
| Particle
| ProceduralTexture.

#[global] Instance NodeMaterialModes_eq_dec : EqDecision NodeMaterialModes.
Proof. solve_decision. Defined.

(** An input connection point.  [connectedPoint] is the output it is
    linked to, given by the block that owns that output ([ownerBlock]) and
    the name of the output. *)
Record InputPoint := mkInput {
  inputName : string;
  connectedPoint : option (BlockId * string);
  inputVariableName : string
}.

(** An output connection point. *)
Record OutputPoint := mkOutput {
  outputName : string;
  outputVariableName : string
}.

(** What the material reads and writes of a block.  [target] is [None] for
    [null]; [entryPoint] is the teleport-in block of a teleport-out
    block, and [_tempEntryPointUniqueId] the id of that block as read from
    a serialized teleport-out block, until the pair is reconnected. *)
Record NodeMaterialBlock := mkBlock {
  name : string;
  uniqueId : Z;
  className : string;
  target : option Z;
  isUnique : bool;
  isInput : bool;
  isFinalMerger : bool;
  isTeleportOut : bool;
  entryPoint : option BlockId;
  inputs : list InputPoint;
  outputs : list OutputPoint;
  buildId : Z;
  _preparationId : Z;
  _tempEntryPointUniqueId : option Z
}.

#[global] Instance InputPoint_eq_dec : EqDecision InputPoint.
Proof. solve_decision. Defined.
#[global] Instance OutputPoint_eq_dec : EqDecision OutputPoint.
Proof. solve_decision. Defined.
#[global] Instance NodeMaterialBlock_eq_dec : EqDecision NodeMaterialBlock.
Proof. solve_decision. Defined.

Definition withTarget (t : option Z) (b : NodeMaterialBlock) : NodeMaterialBlock :=
  mkBlock (name b) (uniqueId b) (className b) t (isUnique b) (isInput b)
    (isFinalMerger b) (isTeleportOut b) (entryPoint b) (inputs b) (outputs b)
    (buildId b) (_preparationId b) (_tempEntryPointUniqueId b).

Definition withBuildId (id : Z) (b : NodeMaterialBlock) : NodeMaterialBlock :=
  mkBlock (name b) (uniqueId b) (className b) (target b) (isUnique b) (isInput b)
    (isFinalMerger b) (isTeleportOut b) (entryPoint b) (inputs b) (outputs b)
    id (_preparationId b) (_tempEntryPointUniqueId b).

Definition withPreparationId (id : Z) (b : NodeMaterialBlock) : NodeMaterialBlock :=
  mkBlock (name b) (uniqueId b) (className b) (target b) (isUnique b) (isInput b)
    (isFinalMerger b) (isTeleportOut b) (entryPoint b) (inputs b) (outputs b)
    (buildId b) id (_tempEntryPointUniqueId b).

Definition withInputs (l : list InputPoint) (b : NodeMaterialBlock) : NodeMaterialBlock :=
  mkBlock (name b) (uniqueId b) (className b) (target b) (isUnique b) (isInput b)
    (isFinalMerger b) (isTeleportOut b) (entryPoint b) l (outputs b)
    (buildId b) (_preparationId b) (_tempEntryPointUniqueId b).

Definition withOutputs (l : list OutputPoint) (b : NodeMaterialBlock) : NodeMaterialBlock :=
  mkBlock (name b) (uniqueId b) (className b) (target b) (isUnique b) (isInput b)
    (isFinalMerger b) (isTeleportOut b) (entryPoint b) (inputs b) l
    (buildId b) (_preparationId b) (_tempEntryPointUniqueId b).

Definition withEntryPoint (e : option BlockId) (b : NodeMaterialBlock) : NodeMaterialBlock :=
  mkBlock (name b) (uniqueId b) (className b) (target b) (isUnique b) (isInput b)
    (isFinalMerger b) (isTeleportOut b) e (inputs b) (outputs b)
    (buildId b) (_preparationId b) (_tempEntryPointUniqueId b).

(** ** The material *)

(** What [build] sets of a build state. *)
Record NodeMaterialBuildState := mkState {
  supportUniformBuffers : bool;
  stateTarget : Z;
  uniforms : list string;
  _uniformDeclaration : string;
  _constantDeclaration : string;
  hasVertexState : bool
}.

(** What [build] sets of the shared data. *)
Record NodeMaterialBuildStateSharedData := mkShared {
  sharedFragmentOutputNodes : list BlockId;
  sharedBuildId : Z;
  emitComments : bool;
  verbose : bool;
  allowEmptyVertexProgram : bool
}.

(** The material, with the store of the block objects it can reach.
    [_BuildIdGenerator] is the static counter of the class. *)
Record NodeMaterial := mkMaterial {
  blocks : gmap BlockId NodeMaterialBlock;
  _vertexOutputNodes : list BlockId;
  _fragmentOutputNodes : list BlockId;
  attachedBlocks : list BlockId;
  _mode : NodeMaterialModes;
  _buildId : Z;
  _BuildIdGenerator : Z;
  _buildWasSuccessful : bool;
  optionsEmitComments : bool;
  _vertexCompilationState : option NodeMaterialBuildState;
  _fragmentCompilationState : option NodeMaterialBuildState;
  _sharedData : option NodeMaterialBuildStateSharedData
}.

Definition withBlocks (g : gmap BlockId NodeMaterialBlock) (m : NodeMaterial) : NodeMaterial :=
  mkMaterial g (_vertexOutputNodes m) (_fragmentOutputNodes m) (attachedBlocks m)
    (_mode m) (_buildId m) (_BuildIdGenerator m) (_buildWasSuccessful m)
    (optionsEmitComments m)
    (_vertexCompilationState m) (_fragmentCompilationState m) (_sharedData m).

Definition withVertexOutputNodes (l : list BlockId) (m : NodeMaterial) : NodeMaterial :=
  mkMaterial (blocks m) l (_fragmentOutputNodes m) (attachedBlocks m)
    (_mode m) (_buildId m) (_BuildIdGenerator m) (_buildWasSuccessful m)
    (optionsEmitComments m)
    (_vertexCompilationState m) (_fragmentCompilationState m) (_sharedData m).

Definition withFragmentOutputNodes (l : list BlockId) (m : NodeMaterial) : NodeMaterial :=
  mkMaterial (blocks m) (_vertexOutputNodes m) l (attachedBlocks m)
    (_mode m) (_buildId m) (_BuildIdGenerator m) (_buildWasSuccessful m)
    (optionsEmitComments m)
    (_vertexCompilationState m) (_fragmentCompilationState m) (_sharedData m).

Definition withAttachedBlocks (l : list BlockId) (m : NodeMaterial) : NodeMaterial :=
  mkMaterial (blocks m) (_vertexOutputNodes m) (_fragmentOutputNodes m) l
    (_mode m) (_buildId m) (_BuildIdGenerator m) (_buildWasSuccessful m)
    (optionsEmitComments m)
    (_vertexCompilationState m) (_fragmentCompilationState m) (_sharedData m).

Definition withMode (md : NodeMaterialModes) (m : NodeMaterial) : NodeMaterial :=
  mkMaterial (blocks m) (_vertexOutputNodes m) (_fragmentOutputNodes m)
    (attachedBlocks m) md (_buildId m) (_BuildIdGenerator m) (_buildWasSuccessful m)
    (optionsEmitComments m)
    (_vertexCompilationState m) (_fragmentCompilationState m) (_sharedData m).

Definition withBuildWasSuccessful (b : bool) (m : NodeMaterial) : NodeMaterial :=
  mkMaterial (blocks m) (_vertexOutputNodes m) (_fragmentOutputNodes m)
    (attachedBlocks m) (_mode m) (_buildId m) (_BuildIdGenerator m) b
    (optionsEmitComments m)
    (_vertexCompilationState m) (_fragmentCompilationState m) (_sharedData m).

(** ** Results *)

(** How a call can fail: a [throw] of the code, a property read on
    [undefined], or a recursion deeper than the fuel given to the model. *)
Inductive Error :=
| Thrown (msg : string)
| TypeError
| OutOfFuel.

(** A call ends with a value or fails; either way it leaves a material. *)
Inductive Result (A : Type) :=
| Ok (a : A) (m : NodeMaterial)
| Fail (e : Error) (m : NodeMaterial).
Arguments Ok {A} a m.
Arguments Fail {A} e m.

Definition M (A : Type) : Type := NodeMaterial → Result A.

Definition ret {A} (a : A) : M A := λ m, Ok a m.

Definition bind {A B} (c : M A) (k : A → M B) : M B :=
  λ m, match c m with
       | Ok a m' => k a m'
       | Fail e m' => Fail e m'
       end.

Notation "x <- c ;; k" := (bind c (λ x, k))
  (at level 62, c at level 61, right associativity).
Notation "c ;;; k" := (bind c (λ _, k))
  (at level 62, right associativity).

Definition fail {A} (e : Error) : M A := λ m, Fail e m.
Definition throw {A} (msg : string) : M A := fail (Thrown msg).
Definition get : M NodeMaterial := λ m, Ok m m.
Definition modify (f : NodeMaterial → NodeMaterial) : M unit := λ m, Ok tt (f m).

(** Reading a property of the block object [b]. *)
Definition getBlock (b : BlockId) : M NodeMaterialBlock :=
  λ m, match blocks m !! b with
       | Some blk => Ok blk m
       | None => Fail TypeError m
       end.

(** Writing properties of the block object [b]. *)
Definition updateBlock (b : BlockId) (f : NodeMaterialBlock → NodeMaterialBlock) : M unit :=
  blk <- getBlock b ;;
  modify (λ m, withBlocks (<[b := f blk]> (blocks m)) m).

(** [for (const a of l) body], threading the value [b]. *)
Fixpoint foldM {A B} (f : B → A → M B) (b : B) (l : list A) : M B :=
  match l with
  | [] => ret b
  | a :: l' => b' <- f b a ;; foldM f b' l'
  end.

Definition forEach {A} (l : list A) (body : A → M unit) : M unit :=
  foldM (λ _ a, body a) tt l.

(** ** Output nodes *)

(** [node.target & flag], with [null & flag = 0]. *)
Definition targetAnd (t : option Z) (flag : Z) : Z :=
  match t with
  | Some z => Z.land z flag
  | None => 0
  end.

(** Modelled from the spec: the setter of [target], of the block class
    (outside these files).  A block has "a fixed target affinity
    (vertex-only, fragment-only, or both)": the setter ignores a value that
    shares a stage with the target of the block
    ([(this._target & value) !== 0]) and writes it otherwise. *)
Definition setTarget (value : Z) (b : NodeMaterialBlock) : NodeMaterialBlock :=
  if bool_decide (targetAnd (target b) value ≠ 0%Z) then b
  else withTarget (Some value) b.

(** [_addVertexOutputNode(node)] *)
Definition _addVertexOutputNode (node : BlockId) : M unit :=
  this <- get ;;
  if bool_decide (indexOf (_vertexOutputNodes this) node ≠ (-1)%Z) then ret tt
  else
    updateBlock node (setTarget Vertex) ;;;
    modify (λ m, withVertexOutputNodes (_vertexOutputNodes m ++ [node]) m).

(** [_addFragmentOutputNode(node)] *)
Definition _addFragmentOutputNode (node : BlockId) : M unit :=
  this <- get ;;
  if bool_decide (indexOf (_fragmentOutputNodes this) node ≠ (-1)%Z) then ret tt
  else
    updateBlock node (setTarget Fragment) ;;;
    modify (λ m, withFragmentOutputNodes (_fragmentOutputNodes m ++ [node]) m).

Definition notAnOutputNode : string :=
  "This node is not meant to be an output node. You may want to explicitly set its target value.".

(** [addOutputNode(node)].  The target is read again for the fragment
    test, after the vertex branch ran and went through the setter. *)
Definition addOutputNode (node : BlockId) : M unit :=
  blk <- getBlock node ;;
  match target blk with
  | None => throw notAnOutputNode
  | Some _ =>
      (if bool_decide (targetAnd (target blk) Vertex ≠ 0%Z)
       then _addVertexOutputNode node else ret tt) ;;;
      blk <- getBlock node ;;
      (if bool_decide (targetAnd (target blk) Fragment ≠ 0%Z)
       then _addFragmentOutputNode node else ret tt)
  end.

(** [l.splice(index, 1)] for the index of [x]: the first occurrence of [x]
    removed. *)
Fixpoint removeFirst (x : BlockId) (l : list BlockId) : list BlockId :=
  match l with
  | [] => []
  | y :: l' => if decide (y = x) then l' else y :: removeFirst x l'
  end.

(** [_removeVertexOutputNode(node)] *)
Definition _removeVertexOutputNode (node : BlockId) : M unit :=
  modify (λ m, withVertexOutputNodes (removeFirst node (_vertexOutputNodes m)) m).

(** [_removeFragmentOutputNode(node)] *)
Definition _removeFragmentOutputNode (node : BlockId) : M unit :=
  modify (λ m, withFragmentOutputNodes (removeFirst node (_fragmentOutputNodes m)) m).

(** [removeOutputNode(node)] *)
Definition removeOutputNode (node : BlockId) : M unit :=
  blk <- getBlock node ;;
  match target blk with
  | None => ret tt
  | Some _ =>
      (if bool_decide (targetAnd (target blk) Vertex ≠ 0%Z)
       then _removeVertexOutputNode node else ret tt) ;;;
      blk <- getBlock node ;;
      (if bool_decide (targetAnd (target blk) Fragment ≠ 0%Z)
       then _removeFragmentOutputNode node else ret tt)
  end.

(** [clear()] *)
Definition clear : M unit :=
  modify (λ m, withAttachedBlocks []
                 (withFragmentOutputNodes [] (withVertexOutputNodes [] m))).

(** ** Walks over the graph *)

(** [_gatherBlocks(rootNode, list)]; returns the list as the call leaves
    it ([list] is written [listed], the type of lists having that name). *)
Fixpoint _gatherBlocks (fuel : nat) (rootNode : BlockId) (listed : list BlockId)
  : M (list BlockId) :=
  match fuel with
  | O => fail OutOfFuel
  | S fuel' =>
      if bool_decide (indexOf listed rootNode ≠ (-1)%Z) then ret listed
      else
        let listed := listed ++ [rootNode] in
        root <- getBlock rootNode ;;
        listed <- foldM (λ listed input,
                    match connectedPoint input with
                    | Some (block, _) =>
                        if bool_decide (block ≠ rootNode)
                        then _gatherBlocks fuel' block listed
                        else ret listed
                    | None => ret listed
                    end) listed (inputs root) ;;
        (* Teleportation *)
        if isTeleportOut root then
          match entryPoint root with
          | Some entry => _gatherBlocks fuel' entry listed
          | None => ret listed
          end
        else ret listed
  end.

(** [_resetDualBlocks(node, id)] *)
Fixpoint _resetDualBlocks (fuel : nat) (node : BlockId) (id : Z) : M unit :=
  match fuel with
  | O => fail OutOfFuel
  | S fuel' =>
      blk <- getBlock node ;;
      (if bool_decide (target blk = Some VertexAndFragment)
       then updateBlock node (withBuildId id) else ret tt) ;;;
      forEach (inputs blk) (λ input,
        match connectedPoint input with
        | Some (block, _) =>
            if bool_decide (block ≠ node)
            then _resetDualBlocks fuel' block id
            else ret tt
        | None => ret tt
        end) ;;;
      (* If this is a teleport out, we need to reset the connected block *)
      blk <- getBlock node ;;
      if isTeleportOut blk then
        match entryPoint blk with
        | Some entry => _resetDualBlocks fuel' entry id
        | None => ret tt
        end
      else ret tt
  end.

(** The two build states of a pass. *)
Inductive Stage := VertexStage | FragmentStage.

(** [state.target], as [build] sets it on each state. *)
Definition stageTarget (s : Stage) : Z :=
  match s with VertexStage => Vertex | FragmentStage => Fragment end.

Definition multipleBlocks (className : string) : string :=
  "Cannot have multiple blocks of type " +:+ className +:+ " in the same NodeMaterial".

(** [input.associatedVariableName = ""] for the input at [index] of
    [node]. *)
Definition clearInputVariableName (node : BlockId) (index : nat) : M unit :=
  updateBlock node (λ blk,
    withInputs
      (alter (λ i, mkInput (inputName i) (connectedPoint i) "") index (inputs blk)) blk).

(** [for (const output of node.outputs) output.associatedVariableName = ""] *)
Definition clearOutputVariableNames (node : BlockId) : M unit :=
  updateBlock node (λ blk,
    withOutputs (map (λ o, mkOutput (outputName o) "") (outputs blk)) blk).

Section Build.

(** Methods of blocks, optimizers and build states, which are outside
    these files.  They receive the material and may change it. *)
Variable blockInitialize : BlockId → Stage → NodeMaterial → NodeMaterial.
Variable blockAutoConfigure : BlockId → NodeMaterial → NodeMaterial.
Variable blockBuild : BlockId → Stage → list BlockId → NodeMaterial → NodeMaterial.
Variable optimizers : list (NodeMaterial → NodeMaterial).
Variable finalize : Stage → NodeMaterial → NodeMaterial.
Variable emitErrors : NodeMaterial → option string.
(** What [build] does once it has set [_buildWasSuccessful]: it notifies
    the observers of the build, wipes the defines of the sub meshes that
    use the material and marks the prepass renderer as dirty.  These calls
    go to observers, meshes and the scene, outside these files; they may
    change the material and they may throw. *)
Variable afterBuild : M unit.
Variable supportsUniformBuffers : bool.

(** [_initializeBlock(node, state, nodesToProcessForOtherBuildState,
    autoConfigure)] with [_processInitializeOnLink] (the local
    [processInitializeOnLink]); returns [nodesToProcessForOtherBuildState]
    as the call leaves it. *)
Fixpoint _initializeBlock (fuel : nat) (node : BlockId) (state : Stage)
    (nodesToProcessForOtherBuildState : list BlockId) (autoConfigure : bool)
  : M (list BlockId) :=
  match fuel with
  | O => fail OutOfFuel
  | S fuel' =>
      let processInitializeOnLink (block : BlockId) (nodes : list BlockId)
        : M (list BlockId) :=
        this <- get ;;
        b <- getBlock block ;;
        let nodes :=
          if bool_decide (target b = Some VertexAndFragment) then nodes ++ [block]
          else if bool_decide (stageTarget state = Fragment)
                  && bool_decide (target b = Some Vertex)
                  && bool_decide (_preparationId b ≠ _buildId this)
               then nodes ++ [block]
               else nodes in
        _initializeBlock fuel' block state nodes autoConfigure in
      modify (blockInitialize node state) ;;;
      (if autoConfigure then modify (blockAutoConfigure node) else ret tt) ;;;
      this <- get ;;
      updateBlock node (withPreparationId (_buildId this)) ;;;
      this <- get ;;
      (if bool_decide (indexOf (attachedBlocks this) node = (-1)%Z) then
         blk <- getBlock node ;;
         (if isUnique blk then
            forEach (attachedBlocks this) (λ other,
              o <- getBlock other ;;
              if bool_decide (className o = className blk)
              then throw (multipleBlocks (className blk))
              else ret tt)
          else ret tt) ;;;
         modify (λ m, withAttachedBlocks (attachedBlocks m ++ [node]) m)
       else ret tt) ;;;
      blk <- getBlock node ;;
      nodes <- foldM (λ nodes '(index, input),
                 clearInputVariableName node index ;;;
                 match connectedPoint input with
                 | Some (block, _) =>
                     if bool_decide (block ≠ node)
                     then processInitializeOnLink block nodes
                     else ret nodes
                 | None => ret nodes
                 end) nodesToProcessForOtherBuildState (imap pair (inputs blk)) ;;
      (* Teleportation *)
      blk <- getBlock node ;;
      nodes <- (if isTeleportOut blk then
                  match entryPoint blk with
                  | Some entry => processInitializeOnLink entry nodes
                  | None => ret nodes
                  end
                else ret nodes) ;;
      clearOutputVariableNames node ;;;
      ret nodes
  end.

(** The two initialization loops of [build]; returns [vertexNodes] and
    [fragmentNodes]. *)
Definition initializeBlocks (fuel : nat) (autoConfigure : bool)
  : M (list BlockId * list BlockId) :=
  this <- get ;;
  vf <- foldM (λ '(vertexNodes, fragmentNodes) vertexOutputNode,
          fragmentNodes <- _initializeBlock fuel vertexOutputNode VertexStage
                             fragmentNodes autoConfigure ;;
          ret (vertexNodes ++ [vertexOutputNode], fragmentNodes))
        ([], []) (_vertexOutputNodes this) ;;
  this <- get ;;
  foldM (λ '(vertexNodes, fragmentNodes) fragmentOutputNode,
    vertexNodes <- _initializeBlock fuel fragmentOutputNode FragmentStage
                     vertexNodes autoConfigure ;;
    ret (vertexNodes, fragmentNodes ++ [fragmentOutputNode]))
    vf (_fragmentOutputNodes this).

(** [optimize()] *)
Definition optimize : M unit :=
  forEach optimizers (λ optimizer, modify optimizer).

(** The block of [build] that allocates the two build states and the
    shared data. *)
Definition allocateStates (verbose allowEmptyVertexProgram : bool)
    (m : NodeMaterial) : NodeMaterial :=
  mkMaterial (blocks m) (_vertexOutputNodes m) (_fragmentOutputNodes m)
    (attachedBlocks m) (_mode m) (_buildId m) (_BuildIdGenerator m)
    (_buildWasSuccessful m) (optionsEmitComments m)
    (Some (mkState supportsUniformBuffers Vertex [] "" "" false))
    (Some (mkState supportsUniformBuffers Fragment [] "" "" false))
    (Some (mkShared (_fragmentOutputNodes m) (_buildId m)
             (optionsEmitComments m) verbose allowEmptyVertexProgram)).

(** The assignments of [build] under [// Fragment]: the fragment state
    starts from the uniforms and declarations of the vertex state. *)
Definition inheritVertexState (m : NodeMaterial) : NodeMaterial :=
  match _vertexCompilationState m, _fragmentCompilationState m with
  | Some v, Some f =>
      mkMaterial (blocks m) (_vertexOutputNodes m) (_fragmentOutputNodes m)
        (attachedBlocks m) (_mode m) (_buildId m) (_BuildIdGenerator m)
        (_buildWasSuccessful m) (optionsEmitComments m)
        (_vertexCompilationState m)
        (Some (mkState (supportUniformBuffers f) (stateTarget f) (uniforms v)
                 (_uniformDeclaration v) (_constantDeclaration v) true))
        (_sharedData m)
  | _, _ => m
  end.

(** The loop of [build] over [fragmentNodes] that resets the dual
    blocks. *)
Definition resetDualBlocks (fuel : nat) (fragmentNodes : list BlockId) : M unit :=
  forEach fragmentNodes (λ fragmentOutputNode,
    this <- get ;;
    _resetDualBlocks fuel fragmentOutputNode (_buildId this - 1)).

(** [this._buildId = NodeMaterial._BuildIdGenerator++] *)
Definition nextBuildId (m : NodeMaterial) : NodeMaterial :=
  mkMaterial (blocks m) (_vertexOutputNodes m) (_fragmentOutputNodes m)
    (attachedBlocks m) (_mode m) (_BuildIdGenerator m) (_BuildIdGenerator m + 1)
    (_buildWasSuccessful m) (optionsEmitComments m)
    (_vertexCompilationState m) (_fragmentCompilationState m) (_sharedData m).

Definition noVertexOutputNode : string := "You must define at least one vertexOutputNode".
Definition noFragmentOutputNode : string := "You must define at least one fragmentOutputNode".

(** [build] from [// Optimize] to the assignments under [// Fragment]:
    the vertex stage is built and the fragment state inherits from it. *)
Definition buildVertexStage (vertexNodes : list BlockId) : M unit :=
  (* Optimize *)
  optimize ;;;
  (* Vertex *)
  forEach vertexNodes (λ vertexOutputNode,
    modify (blockBuild vertexOutputNode VertexStage vertexNodes)) ;;;
  (* Fragment *)
  modify inheritVertexState.

(** [build] from the loop that builds the fragment nodes to its end. *)
Definition buildFragmentStage (updateBuildId : bool) (fragmentNodes : list BlockId)
  : M unit :=
  forEach fragmentNodes (λ fragmentOutputNode,
    modify (blockBuild fragmentOutputNode FragmentStage fragmentNodes)) ;;;
  (* Finalize *)
  modify (finalize VertexStage) ;;;
  modify (finalize FragmentStage) ;;;
  (if updateBuildId then modify nextBuildId else ret tt) ;;;
  (* Errors *)
  this <- get ;;
  match emitErrors this with
  | Some msg => throw msg
  | None =>
      modify (withBuildWasSuccessful true) ;;;
      afterBuild
  end.

(** What [build] does once the blocks are initialized: the vertex stage,
    then the reset of the dual blocks, then the fragment stage. *)
Definition buildStages (fuel : nat) (updateBuildId : bool)
    (vertexNodes fragmentNodes : list BlockId) : M unit :=
  buildVertexStage vertexNodes ;;;
  resetDualBlocks fuel fragmentNodes ;;;
  buildFragmentStage updateBuildId fragmentNodes.

(** [build(verbose, updateBuildId, autoConfigure)] *)
Definition build (fuel : nat) (verbose updateBuildId autoConfigure : bool) : M unit :=
  this <- get ;;
  (* First time? *)
  let autoConfigure :=
    if negb (bool_decide (is_Some (_vertexCompilationState this))) && negb autoConfigure
    then true else autoConfigure in
  modify (withBuildWasSuccessful false) ;;;
  this <- get ;;
  let allowEmptyVertexProgram := bool_decide (_mode this = Particle) in
  if bool_decide (length (_vertexOutputNodes this) = 0) && negb allowEmptyVertexProgram
  then throw noVertexOutputNode
  else if bool_decide (length (_fragmentOutputNodes this) = 0)
  then throw noFragmentOutputNode
  else
    (* Compilation state, shared data *)
    modify (allocateStates verbose allowEmptyVertexProgram) ;;;
    (* Initialize blocks *)
    nodes <- initializeBlocks fuel autoConfigure ;;
    buildStages fuel updateBuildId nodes.1 nodes.2.

(** [build] from its first statement to the end of the initialization of
    the blocks, on a material that passes the two structural checks;
    returns [vertexNodes] and [fragmentNodes]. *)
Definition initializeForBuild (fuel : nat) (verbose autoConfigure : bool)
  : M (list BlockId * list BlockId) :=
  this <- get ;;
  let autoConfigure :=
    if negb (bool_decide (is_Some (_vertexCompilationState this))) && negb autoConfigure
    then true else autoConfigure in
  modify (withBuildWasSuccessful false) ;;;
  this <- get ;;
  modify (allocateStates verbose (bool_decide (_mode this = Particle))) ;;;
  initializeBlocks fuel autoConfigure.

End Build.

(** Unfolds the plumbing of [M]. *)
Ltac munfold :=
  repeat progress
    (unfold bind, ret, get, modify, throw, fail, getBlock, updateBlock;
     cbn beta iota).

(** ** Output nodes: facts *)

Definition emptyMaterial : NodeMaterial :=
  mkMaterial ∅ [] [] [] Material 0 1 false false None None None.

(** A block with no connection point. *)
Definition plainBlock (name className : string) (target : option Z) : NodeMaterialBlock :=
  mkBlock name 0 className target false false false false None [] [] 0 0 None.

(** *** Adding an output node *)

Lemma indexOf_test (l : list BlockId) (x : BlockId) :
  bool_decide (indexOf l x ≠ (-1)%Z) = bool_decide (x ∈ l).
Proof. apply bool_decide_ext, indexOf_present. Qed.

Lemma setTarget_same (value : Z) (blk : NodeMaterialBlock) :
  targetAnd (target blk) value ≠ 0%Z → setTarget value blk = blk.
Proof. intros H. unfold setTarget. by rewrite bool_decide_eq_true_2. Qed.

Lemma withBlocks_insert_id (node : BlockId) (blk : NodeMaterialBlock) (m : NodeMaterial) :
  blocks m !! node = Some blk → withBlocks (<[node := blk]> (blocks m)) m = m.
Proof. intros H. rewrite (insert_id _ _ _ H). by destruct m. Qed.

(** The vertex output nodes once [addOutputNode] has run on [node] for a
    target [t], and the fragment output nodes. *)
Definition vertexOutputNodesWith (node : BlockId) (t : Z) (m : NodeMaterial)
  : list BlockId :=
  if bool_decide (Z.land t Vertex ≠ 0%Z) && bool_decide (node ∉ _vertexOutputNodes m)
  then _vertexOutputNodes m ++ [node] else _vertexOutputNodes m.

Definition fragmentOutputNodesWith (node : BlockId) (t : Z) (m : NodeMaterial)
  : list BlockId :=
  if bool_decide (Z.land t Fragment ≠ 0%Z) && bool_decide (node ∉ _fragmentOutputNodes m)
  then _fragmentOutputNodes m ++ [node] else _fragmentOutputNodes m.

(** How [addOutputNode] ends on a block of the store whose target is [t]:
    the block joins the list of each stage that [t] names, unless the list
    holds it, and nothing else changes. *)
Definition afterAddOutputNode (node : BlockId) (t : Z) (m : NodeMaterial) : NodeMaterial :=
  withFragmentOutputNodes (fragmentOutputNodesWith node t m)
    (withVertexOutputNodes (vertexOutputNodesWith node t m) m).

Lemma addVertexOutputNode_spec (node : BlockId) (blk : NodeMaterialBlock)
    (m : NodeMaterial) :
  blocks m !! node = Some blk → targetAnd (target blk) Vertex ≠ 0%Z →
  _addVertexOutputNode node m
  = Ok tt (if bool_decide (node ∉ _vertexOutputNodes m)
           then withVertexOutputNodes (_vertexOutputNodes m ++ [node]) m
           else m).
Proof.
  intros Hblk Hbit. unfold _addVertexOutputNode. munfold. rewrite indexOf_test.
  destruct (decide (node ∈ _vertexOutputNodes m)) as [Hf|Hf].
  - by rewrite (bool_decide_eq_true_2 _ Hf), (bool_decide_eq_false_2 (node ∉ _)) by tauto.
  - rewrite (bool_decide_eq_false_2 _ Hf), (bool_decide_eq_true_2 (node ∉ _)) by done.
    rewrite Hblk, (setTarget_same _ _ Hbit). cbn [_vertexOutputNodes withBlocks].
    by rewrite (withBlocks_insert_id _ _ _ Hblk).
Qed.

Lemma addFragmentOutputNode_spec (node : BlockId) (blk : NodeMaterialBlock)
    (m : NodeMaterial) :
  blocks m !! node = Some blk → targetAnd (target blk) Fragment ≠ 0%Z →
  _addFragmentOutputNode node m
  = Ok tt (if bool_decide (node ∉ _fragmentOutputNodes m)
           then withFragmentOutputNodes (_fragmentOutputNodes m ++ [node]) m
           else m).
Proof.
  intros Hblk Hbit. unfold _addFragmentOutputNode. munfold. rewrite indexOf_test.
  destruct (decide (node ∈ _fragmentOutputNodes m)) as [Hf|Hf].
  - by rewrite (bool_decide_eq_true_2 _ Hf), (bool_decide_eq_false_2 (node ∉ _)) by tauto.
  - rewrite (bool_decide_eq_false_2 _ Hf), (bool_decide_eq_true_2 (node ∉ _)) by done.
    rewrite Hblk, (setTarget_same _ _ Hbit). cbn [_fragmentOutputNodes withBlocks].
    by rewrite (withBlocks_insert_id _ _ _ Hblk).
Qed.

Lemma addOutputNode_cases (node : BlockId) (blk : NodeMaterialBlock) (t : Z)
    (m : NodeMaterial) :
  blocks m !! node = Some blk → target blk = Some t →
  addOutputNode node m = Ok tt (afterAddOutputNode node t m).
Proof.
  intros Hblk Ht.
  unfold addOutputNode, afterAddOutputNode, vertexOutputNodesWith,
    fragmentOutputNodesWith.
  unfold bind at 1. unfold getBlock at 1. rewrite Hblk, Ht. cbn [targetAnd].
  unfold bind at 1.
  assert (Hfrag : ∀ m1, blocks m1 = blocks m →
    (blk <- getBlock node ;;
     (if bool_decide (targetAnd (target blk) Fragment ≠ 0%Z)
      then _addFragmentOutputNode node else ret tt)) m1
    = Ok tt (withFragmentOutputNodes
               (if bool_decide (Z.land t Fragment ≠ 0%Z)
                   && bool_decide (node ∉ _fragmentOutputNodes m1)
                then _fragmentOutputNodes m1 ++ [node] else _fragmentOutputNodes m1) m1)).
  { intros m1 Hm1. unfold bind, getBlock. rewrite Hm1, Hblk, Ht. cbn [targetAnd].
    destruct (bool_decide_reflect (Z.land t Fragment ≠ 0%Z)) as [Hbit|Hbit]; cbn [andb].
    - rewrite (addFragmentOutputNode_spec node blk m1); [|by rewrite Hm1|by rewrite Ht].
      destruct (bool_decide (node ∉ _fragmentOutputNodes m1)); [done|]. by destruct m1.
    - by destruct m1. }
  destruct (bool_decide_reflect (Z.land t Vertex ≠ 0%Z)) as [Hbit|Hbit]; cbn [andb].
  - rewrite (addVertexOutputNode_spec node blk m Hblk) by (by rewrite Ht).
    destruct (bool_decide (node ∉ _vertexOutputNodes m)).
    + by rewrite Hfrag.
    + rewrite Hfrag by done. by destruct m.
  - unfold ret at 1. rewrite Hfrag by done. by destruct m.
Qed.

(** C10 (as amended). For a block whose target is [VertexAndFragment],
    [addOutputNode] appends the block to the vertex output nodes and to the
    fragment output nodes, to each list unless it holds the block, and
    changes nothing else: the target stays [VertexAndFragment], for the
    setter ignores [Vertex] and [Fragment], which share a stage with it. *)
Theorem addOutputNode_dual_block (node : BlockId) (blk : NodeMaterialBlock)
    (m : NodeMaterial) :
  blocks m !! node = Some blk →
  target blk = Some VertexAndFragment →
  ∃ m',
    addOutputNode node m = Ok tt m'
    ∧ m' = withFragmentOutputNodes (_fragmentOutputNodes m')
             (withVertexOutputNodes (_vertexOutputNodes m') m)
    ∧ _vertexOutputNodes m'
      = (if decide (node ∈ _vertexOutputNodes m) then _vertexOutputNodes m
         else _vertexOutputNodes m ++ [node])
    ∧ _fragmentOutputNodes m'
      = (if decide (node ∈ _fragmentOutputNodes m) then _fragmentOutputNodes m
         else _fragmentOutputNodes m ++ [node])
    ∧ blocks m' !! node = Some blk.
Proof.
  intros Hblk Ht. exists (afterAddOutputNode node VertexAndFragment m).
  split; [by apply (addOutputNode_cases node blk)|].
  unfold afterAddOutputNode, vertexOutputNodesWith, fragmentOutputNodesWith.
  rewrite (bool_decide_eq_true_2 (Z.land VertexAndFragment Vertex ≠ 0%Z)) by done.
  rewrite (bool_decide_eq_true_2 (Z.land VertexAndFragment Fragment ≠ 0%Z)) by done.
  cbn [andb _vertexOutputNodes _fragmentOutputNodes withVertexOutputNodes
         withFragmentOutputNodes blocks].
  split; [done|]. split; [|split; [|done]].
  - destruct (decide (node ∈ _vertexOutputNodes m)) as [Hin|Hin].
    + by rewrite bool_decide_eq_false_2 by tauto.
    + by rewrite bool_decide_eq_true_2.
  - destruct (decide (node ∈ _fragmentOutputNodes m)) as [Hin|Hin].
    + by rewrite bool_decide_eq_false_2 by tauto.
    + by rewrite bool_decide_eq_true_2.
Qed.

(** A material whose block 1, of target [VertexAndFragment], is not an
    output node yet. *)
Definition unlistedDualBlock : NodeMaterial :=
  withBlocks {[ 1 := plainBlock "dual" "AddBlock" (Some VertexAndFragment) ]}
    emptyMaterial.

(** The same material with block 1 among the vertex output nodes. *)
Definition listedDualBlock : NodeMaterial :=
  withVertexOutputNodes [1] unlistedDualBlock.

(** C10 (as stated) fails: block 1 lands in the fragment output nodes as
    well as in the vertex output nodes, and its target is still
    [VertexAndFragment]. *)
Lemma addOutputNode_dual_block_in_both_lists :
  ∃ m',
    addOutputNode 1 unlistedDualBlock = Ok tt m'
    ∧ _vertexOutputNodes m' = [1]
    ∧ _fragmentOutputNodes m' = [1]
    ∧ target <$> blocks m' !! 1 = Some (Some VertexAndFragment).
Proof. eexists. split; [vm_compute; reflexivity|]. by vm_compute. Qed.

Lemma addOutputNode_dual_block_witness :
  ∃ m',
    addOutputNode 1 listedDualBlock = Ok tt m'
    ∧ m' = withFragmentOutputNodes (_fragmentOutputNodes m')
             (withVertexOutputNodes (_vertexOutputNodes m') listedDualBlock)
    ∧ _vertexOutputNodes m'
      = (if decide (1 ∈ _vertexOutputNodes listedDualBlock)
         then _vertexOutputNodes listedDualBlock
         else _vertexOutputNodes listedDualBlock ++ [1])
    ∧ _fragmentOutputNodes m'
      = (if decide (1 ∈ _fragmentOutputNodes listedDualBlock)
         then _fragmentOutputNodes listedDualBlock
         else _fragmentOutputNodes listedDualBlock ++ [1])
    ∧ blocks m' !! 1 = Some (plainBlock "dual" "AddBlock" (Some VertexAndFragment)).
Proof.
  apply (addOutputNode_dual_block 1
           (plainBlock "dual" "AddBlock" (Some VertexAndFragment)) listedDualBlock).
  - reflexivity.
  - reflexivity.
Defined.

(** ** Build: the structural errors *)

Section BuildFacts.

Variable blockInitialize : BlockId → Stage → NodeMaterial → NodeMaterial.
Variable blockAutoConfigure : BlockId → NodeMaterial → NodeMaterial.
Variable blockBuild : BlockId → Stage → list BlockId → NodeMaterial → NodeMaterial.
Variable optimizers : list (NodeMaterial → NodeMaterial).
Variable finalize : Stage → NodeMaterial → NodeMaterial.
Variable emitErrors : NodeMaterial → option string.
Variable afterBuild : M unit.
Variable supportsUniformBuffers : bool.

Let run :=
  build blockInitialize blockAutoConfigure blockBuild optimizers finalize
    emitErrors afterBuild supportsUniformBuffers.

(** C2 (as amended). [build] on a material with no fragment output node,
    or with no vertex output node in a mode other than [Particle], throws
    before a build state or the shared data is allocated: the material it
    leaves differs from the one it got in [_buildWasSuccessful] only.  The
    error is the vertex one when the vertex output nodes are missing and
    the mode is not [Particle], and the fragment one otherwise. *)
Theorem build_structural_error (fuel : nat)
    (verbose updateBuildId autoConfigure : bool) (m : NodeMaterial) :
  _fragmentOutputNodes m = []
  ∨ (_vertexOutputNodes m = [] ∧ _mode m ≠ Particle) →
  run fuel verbose updateBuildId autoConfigure m
  = Fail (Thrown (if bool_decide (_vertexOutputNodes m = [] ∧ _mode m ≠ Particle)
                  then noVertexOutputNode else noFragmentOutputNode))
      (withBuildWasSuccessful false m)
  ∧ _vertexCompilationState (withBuildWasSuccessful false m) = _vertexCompilationState m
  ∧ _fragmentCompilationState (withBuildWasSuccessful false m) = _fragmentCompilationState m
  ∧ _sharedData (withBuildWasSuccessful false m) = _sharedData m.
Proof.
  intros H. split; [|done].
  subst run. unfold build. munfold. cbn [_mode _vertexOutputNodes
    _fragmentOutputNodes withBuildWasSuccessful].
  destruct (decide (_vertexOutputNodes m = [] ∧ _mode m ≠ Particle)) as [[Hv Hp]|Hno].
  - rewrite (bool_decide_eq_true_2 (_vertexOutputNodes m = [] ∧ _mode m ≠ Particle))
      by done.
    rewrite Hv. cbn [length].
    rewrite (bool_decide_eq_true_2 (0 = 0)) by done.
    rewrite (bool_decide_eq_false_2 (_mode m = Particle)) by done.
    reflexivity.
  - rewrite (bool_decide_eq_false_2 (_vertexOutputNodes m = [] ∧ _mode m ≠ Particle))
      by done.
    destruct H as [Hf|?]; [|done]. rewrite Hf. cbn [length].
    rewrite (bool_decide_eq_true_2 (0 = 0)) by done.
    destruct (decide (_mode m = Particle)) as [Hp|Hp].
    + rewrite (bool_decide_eq_true_2 _ Hp). by rewrite andb_false_r.
    + rewrite (bool_decide_eq_false_2 _ Hp).
      rewrite bool_decide_eq_false_2; [done|].
      intros Hl. apply Hno. split; [|done]. by apply nil_length_inv.
Qed.

End BuildFacts.

(** C2 (as stated) fails: with no output node at all, in mode [Material],
    the error thrown is the vertex one. *)
Lemma build_no_output_node_at_all :
  build (λ _ _ m, m) (λ _ m, m) (λ _ _ _ m, m) [] (λ _ m, m) (λ _, None)
    (ret tt) true 10 false true false emptyMaterial
  = Fail (Thrown noVertexOutputNode) emptyMaterial
  ∧ noVertexOutputNode ≠ noFragmentOutputNode.
Proof. split; [reflexivity | discriminate]. Qed.

(** A material in mode [Particle] with no output node. *)
Lemma build_structural_error_witness :
  (_fragmentOutputNodes (withMode Particle emptyMaterial) = []
   ∨ (_vertexOutputNodes (withMode Particle emptyMaterial) = []
      ∧ _mode (withMode Particle emptyMaterial) ≠ Particle))
  ∧ build (λ _ _ m, m) (λ _ m, m) (λ _ _ _ m, m) [] (λ _ m, m) (λ _, None)
      (ret tt) true 10 false true false (withMode Particle emptyMaterial)
    = Fail (Thrown noFragmentOutputNode) (withMode Particle emptyMaterial).
Proof.
  split; [by left|].
  apply (build_structural_error (λ _ _ m, m) (λ _ m, m) (λ _ _ _ m, m) []
           (λ _ m, m) (λ _, None) (ret tt) true 10 false true false
           (withMode Particle emptyMaterial)).
  by left.
Defined.

(** ** The graph of a store *)

(** The blocks that the walks visit from [node]: the owners of the outputs
    connected to its inputs, [node] itself apart, in input order, then the
    entry point of a teleport-out block. *)
Definition inputLinks (node : BlockId) (blk : NodeMaterialBlock) : list BlockId :=
  omap (λ input,
          match connectedPoint input with
          | Some (block, _) => if bool_decide (block ≠ node) then Some block else None
          | None => None
          end) (inputs blk).

Definition teleportLinks (blk : NodeMaterialBlock) : list BlockId :=
  if isTeleportOut blk then
    match entryPoint blk with Some entry => [entry] | None => [] end
  else [].

Definition links (node : BlockId) (blk : NodeMaterialBlock) : list BlockId :=
  inputLinks node blk ++ teleportLinks blk.

Definition edge (g : gmap BlockId NodeMaterialBlock) (x y : BlockId) : Prop :=
  ∃ blk, g !! x = Some blk ∧ y ∈ links x blk.

(** [y] is reachable from [x] through input links and entry points. *)
Definition reachable (g : gmap BlockId NodeMaterialBlock) : BlockId → BlockId → Prop :=
  rtc (edge g).

(** Every reference of the store is to a block of the store. *)
Definition closedStore (g : gmap BlockId NodeMaterialBlock) : Prop :=
  ∀ x y, edge g x y → is_Some (g !! y).

(** Every successor of a block of [l] is in [l]. *)
Definition closedList (g : gmap BlockId NodeMaterialBlock) (l : list BlockId) : Prop :=
  ∀ x y, x ∈ l → edge g x y → y ∈ l.

Lemma foldM_app {A B} (f : B → A → M B) (b : B) (l1 l2 : list A) (m : NodeMaterial) :
  foldM f b (l1 ++ l2) m = (b' <- foldM f b l1 ;; foldM f b' l2) m.
Proof.
  revert b m. induction l1 as [|a l1 IH]; intros b m; simpl; [reflexivity|].
  unfold bind. destruct (f b a m) as [b' m'|e m']; [|reflexivity].
  rewrite IH. reflexivity.
Qed.

Lemma foldM_ext {A B} (f g : B → A → M B) (b : B) (l : list A) (m : NodeMaterial) :
  (∀ b a m, f b a m = g b a m) → foldM f b l m = foldM g b l m.
Proof.
  intros Hfg. revert b m. induction l as [|a l IH]; intros b m; simpl; [reflexivity|].
  unfold bind. rewrite Hfg. destruct (g b a m); [apply IH | reflexivity].
Qed.

Lemma foldM_omap {A B C} (sel : A → option C) (f : B → C → M B) (b : B)
    (l : list A) (m : NodeMaterial) :
  foldM (λ b a, match sel a with Some c => f b c | None => ret b end) b l m
  = foldM f b (omap sel l) m.
Proof.
  revert b m. induction l as [|a l IH]; intros b m; simpl; [reflexivity|].
  destruct (sel a) as [c|]; simpl.
  - unfold bind. destruct (f b c m); [apply IH | reflexivity].
  - unfold bind, ret. apply IH.
Qed.

(** One call of [_gatherBlocks] on a block not yet listed visits its links
    in order. *)
Lemma gatherBlocks_unfold (fuel : nat) (root : BlockId) (blk : NodeMaterialBlock)
    (listed : list BlockId) (m : NodeMaterial) :
  blocks m !! root = Some blk →
  root ∉ listed →
  _gatherBlocks (S fuel) root listed m
  = foldM (λ l b, _gatherBlocks fuel b l) (listed ++ [root]) (links root blk) m.
Proof.
  intros Hblk Hnot. apply indexOf_absent in Hnot.
  cbn [_gatherBlocks]. rewrite Hnot.
  rewrite (bool_decide_eq_false_2 ((-1)%Z ≠ (-1)%Z)) by (intros ?; done).
  unfold links. rewrite foldM_app. munfold. rewrite Hblk.
  unfold inputLinks. rewrite <- foldM_omap.
  match goal with
  | |- match foldM ?F _ _ _ with _ => _ end = match foldM ?G _ _ _ with _ => _ end =>
      rewrite (foldM_ext F G)
  end.
  - destruct (foldM _ _ _ m) as [l m'|e m']; [|reflexivity].
    unfold teleportLinks. destruct (isTeleportOut blk); [|reflexivity].
    destruct (entryPoint blk) as [entry|]; [|reflexivity].
    simpl. unfold bind. by destruct (_gatherBlocks fuel entry l m').
  - intros l input m0.
    destruct (connectedPoint input) as [[block ?]|]; [|reflexivity].
    by destruct (bool_decide (block ≠ root)).
Qed.

(** The number of blocks of the store that [l] does not list. *)
Definition unlisted (g : gmap BlockId NodeMaterialBlock) (l : list BlockId) : nat :=
  size (dom g ∖ list_to_set l : gset BlockId).

Lemma unlisted_app_le g (l added : list BlockId) :
  (unlisted g (l ++ added) ≤ unlisted g l)%nat.
Proof.
  unfold unlisted. apply subseteq_size. rewrite list_to_set_app_L. set_solver.
Qed.

Lemma unlisted_snoc_lt g (l : list BlockId) (x : BlockId) :
  is_Some (g !! x) → x ∉ l → (unlisted g (l ++ [x]) < unlisted g l)%nat.
Proof.
  intros Hx Hnot. unfold unlisted. apply subset_size.
  rewrite list_to_set_app_L. apply elem_of_dom in Hx.
  apply strict_spec_alt. split; [set_solver|].
  intros Heq. assert (x ∈ dom g ∖ list_to_set l) as Hin by set_solver.
  rewrite <- Heq in Hin. set_solver.
Qed.

Lemma unlisted_le_size g (l : list BlockId) : (unlisted g l ≤ size g)%nat.
Proof.
  unfold unlisted. rewrite <- size_dom. apply subseteq_size. set_solver.
Qed.

(** What a gather from [roots] makes of the list [l]: it appends blocks
    reachable from the roots, lists nothing twice, lists every root, and
    every successor of an appended block is listed. *)
Definition gathered (g : gmap BlockId NodeMaterialBlock)
    (l roots l' : list BlockId) : Prop :=
  ∃ added,
    l' = l ++ added
    ∧ NoDup l'
    ∧ (∀ r, r ∈ roots → r ∈ l')
    ∧ (∀ x, x ∈ added → ∃ r, r ∈ roots ∧ reachable g r x)
    ∧ (∀ x y, x ∈ added → edge g x y → y ∈ l').

Lemma gathered_nil g (l : list BlockId) : NoDup l → gathered g l [] l.
Proof.
  intros Hnd. exists []. rewrite app_nil_r.
  repeat split; [done|..]; intros *; by rewrite ?elem_of_nil.
Qed.

Lemma gathered_cons g (l l1 l2 : list BlockId) (c : BlockId) (cs : list BlockId) :
  gathered g l [c] l1 → gathered g l1 cs l2 → gathered g l (c :: cs) l2.
Proof.
  intros (a1 & -> & Hnd1 & Hr1 & Hreach1 & Hcl1) (a2 & -> & Hnd2 & Hr2 & Hreach2 & Hcl2).
  exists (a1 ++ a2). rewrite app_assoc. split; [done|]. split; [done|].
  split; [|split].
  - intros r [->|Hr]%elem_of_cons; [|by apply Hr2].
    apply elem_of_app. left. apply Hr1. by apply list_elem_of_singleton.
  - intros x [Hx|Hx]%elem_of_app.
    + destruct (Hreach1 x Hx) as (r & ->%list_elem_of_singleton & Hreach).
      exists c. split; [by left | done].
    + destruct (Hreach2 x Hx) as (r & Hr & Hreach).
      exists r. split; [by right | done].
  - intros x y [Hx|Hx]%elem_of_app Hedge.
    + apply elem_of_app. left. by apply (Hcl1 x).
    + by apply (Hcl2 x).
Qed.

Lemma gathered_root g (l l' : list BlockId) (root : BlockId) (blk : NodeMaterialBlock) :
  g !! root = Some blk →
  gathered g (l ++ [root]) (links root blk) l' →
  gathered g l [root] l'.
Proof.
  intros Hblk (a & -> & Hnd & Hr & Hreach & Hcl).
  exists (root :: a). rewrite <- app_assoc. simpl.
  split; [done|]. rewrite <- app_assoc in Hnd, Hr, Hcl. simpl in *.
  split; [done|]. split; [|split].
  - intros r ->%list_elem_of_singleton. set_solver.
  - intros x [->|Hx]%elem_of_cons.
    + exists root. split; [by apply list_elem_of_singleton | apply rtc_refl].
    + destruct (Hreach x Hx) as (r & Hr' & Hrx).
      exists root. split; [by apply list_elem_of_singleton|].
      eapply rtc_l; [|exact Hrx]. by exists blk.
  - intros x y [->|Hx]%elem_of_cons Hedge.
    + destruct Hedge as (blk' & Hblk' & Hy). rewrite Hblk in Hblk'.
      injection Hblk' as <-. by apply Hr.
    + by apply (Hcl x).
Qed.

Lemma gatherBlocks_gathered (fuel : nat) (m : NodeMaterial) :
  closedStore (blocks m) →
  ∀ (root : BlockId) (l : list BlockId),
    is_Some (blocks m !! root) → NoDup l → (unlisted (blocks m) l < fuel)%nat →
    ∃ l', _gatherBlocks fuel root l m = Ok l' m
          ∧ gathered (blocks m) l [root] l'.
Proof.
  intros Hclosed. induction fuel as [|fuel IH]; intros root l Hroot Hnd Hfuel; [lia|].
  assert (Hfold : ∀ cs l,
    (∀ c, c ∈ cs → is_Some (blocks m !! c)) → NoDup l →
    (unlisted (blocks m) l < fuel)%nat →
    ∃ l', foldM (λ l b, _gatherBlocks fuel b l) l cs m = Ok l' m
          ∧ gathered (blocks m) l cs l').
  { clear root l Hroot Hnd Hfuel.
    induction cs as [|c cs IHcs]; intros l Hcs Hnd Hfuel.
    - exists l. split; [reflexivity | by apply gathered_nil].
    - destruct (IH c l) as (l1 & Hrun1 & Hg1); [apply Hcs; by left | done | done |].
      assert (NoDup l1 ∧ (unlisted (blocks m) l1 < fuel)%nat) as [Hnd1 Hfuel1].
      { destruct Hg1 as (a1 & -> & Hnd1 & _). split; [done|].
        pose proof (unlisted_app_le (blocks m) l a1). lia. }
      destruct (IHcs l1) as (l2 & Hrun2 & Hg2); [|done|done|].
      { intros c' Hc'. apply Hcs. by right. }
      exists l2. split; [|by eapply gathered_cons].
      simpl. unfold bind. by rewrite Hrun1. }
  destruct (decide (root ∈ l)) as [Hin|Hnot].
  - exists l. split.
    + cbn [_gatherBlocks]. apply indexOf_present in Hin.
      by rewrite bool_decide_eq_true_2.
    + exists []. rewrite app_nil_r. repeat split; [done|..].
      * by intros r ->%list_elem_of_singleton.
      * by intros x ?%elem_of_nil.
      * by intros x y ?%elem_of_nil.
  - destruct Hroot as [blk Hblk].
    rewrite (gatherBlocks_unfold fuel root blk l m Hblk Hnot).
    destruct (Hfold (links root blk) (l ++ [root])) as (l' & Hrun & Hg).
    + intros c Hc. apply (Hclosed root). by exists blk.
    + apply NoDup_app. split; [done|]. split; [|apply NoDup_singleton].
      intros x Hx ->%list_elem_of_singleton. done.
    + pose proof (unlisted_snoc_lt (blocks m) l root (ltac:(by eexists)) Hnot). lia.
    + exists l'. split; [done|]. by eapply gathered_root.
Qed.

(** C8. On a store whose references all lead to blocks, with fuel above the
    number of blocks, [_gatherBlocks] returns (it never runs out of fuel and
    leaves the material as it was); it appends to a list without repeats,
    closed under links, the blocks reachable from the root that the list
    does not hold yet, each once.  From the empty list the result lists
    exactly the blocks reachable from the root, each once. *)
Theorem gatherBlocks_each_reachable_block_once
    (fuel : nat) (m : NodeMaterial) (root : BlockId) (listed : list BlockId) :
  closedStore (blocks m) →
  is_Some (blocks m !! root) →
  NoDup listed →
  closedList (blocks m) listed →
  (size (blocks m) < fuel)%nat →
  ∃ added,
    _gatherBlocks fuel root listed m = Ok (listed ++ added) m
    ∧ NoDup (listed ++ added)
    ∧ closedList (blocks m) (listed ++ added)
    ∧ ∀ x, x ∈ listed ++ added ↔ x ∈ listed ∨ reachable (blocks m) root x.
Proof.
  intros Hclosed Hroot Hnd Hcl Hfuel.
  destruct (gatherBlocks_gathered fuel m Hclosed root listed Hroot Hnd)
    as (l' & Hrun & added & -> & Hnd' & Hr & Hreach & Hcl').
  { pose proof (unlisted_le_size (blocks m) listed). lia. }
  exists added. split; [done|]. split; [done|].
  assert (Hall : closedList (blocks m) (listed ++ added)).
  { intros x y [Hx|Hx]%elem_of_app Hedge.
    - apply elem_of_app. left. by apply (Hcl x).
    - by apply (Hcl' x). }
  split; [done|]. intros x. split.
  - intros [Hx|Hx]%elem_of_app; [by left|]. right.
    destruct (Hreach x Hx) as (r & ->%list_elem_of_singleton & Hrx). done.
  - intros [Hx|Hx]; [apply elem_of_app; by left|].
    assert (root ∈ listed ++ added) as Hin
      by (apply Hr; by apply list_elem_of_singleton).
    clear -Hx Hin Hall. induction Hx as [|x y z Hxy _ IH]; [done|].
    apply IH. by apply (Hall x).
Qed.

(** The references of a store all lead to blocks of it: a test that
    computes. *)
Definition closedStoreb (g : gmap BlockId NodeMaterialBlock) : bool :=
  bool_decide
    (map_Forall (λ x blk, Forall (λ y, is_Some (g !! y)) (links x blk)) g).

Lemma closedStoreb_closedStore g : closedStoreb g = true → closedStore g.
Proof.
  intros H%bool_decide_eq_true_1 x y (blk & Hblk & Hy).
  specialize (H x blk Hblk). simpl in H.
  rewrite Forall_forall in H. by apply H.
Qed.

(** A fragment output (1) fed by a teleport-out block (2) and by an input
    block (4); the entry point of the teleport-out block is the teleport-in
    block (3), itself fed by block 4.  Block 4 is reached through an
    ordinary link and through the teleport link. *)
Definition teleportGraph : NodeMaterial :=
  withFragmentOutputNodes [1]
    (withBlocks
       (list_to_map
          [ (1, mkBlock "FragmentOutput" 11 "FragmentOutputBlock" (Some Fragment)
                  true false true false None
                  [mkInput "rgba" (Some (2, "output")) "";
                   mkInput "a" (Some (4, "output")) ""] [] 0 0 None);
            (2, mkBlock "Out" 12 "NodeMaterialTeleportOutBlock" (Some Neutral)
                  false false false true (Some 3)
                  [] [mkOutput "output" ""] 0 0 None);
            (3, mkBlock "In" 13 "NodeMaterialTeleportInBlock" (Some Neutral)
                  false false false false None
                  [mkInput "input" (Some (4, "output")) ""] [] 0 0 None);
            (4, mkBlock "Color" 14 "InputBlock" (Some VertexAndFragment)
                  false true false false None
                  [] [mkOutput "output" ""] 0 0 None) ])
       emptyMaterial).

Example gatherBlocks_teleportGraph :
  _gatherBlocks 5 1 [] teleportGraph = Ok [1; 2; 3; 4] teleportGraph.
Proof. reflexivity. Qed.

Lemma gatherBlocks_each_reachable_block_once_witness :
  ∃ added,
    _gatherBlocks 5 1 [] teleportGraph = Ok ([] ++ added) teleportGraph
    ∧ NoDup ([] ++ added)
    ∧ closedList (blocks teleportGraph) ([] ++ added)
    ∧ ∀ x, x ∈ [] ++ added ↔ x ∈ [] ∨ reachable (blocks teleportGraph) 1 x.
Proof.
  apply (gatherBlocks_each_reachable_block_once 5 teleportGraph 1 []).
  - apply closedStoreb_closedStore. by vm_compute.
  - eexists. vm_compute. reflexivity.
  - constructor.
  - intros x y Hx. by apply elem_of_nil in Hx.
  - vm_compute. lia.
Defined.

(** ** Resetting the dual blocks *)

(** The graph has no cycle: links lead to blocks of lower rank. *)
Definition ranked (rank : BlockId → nat) (g : gmap BlockId NodeMaterialBlock) : Prop :=
  ∀ x y, edge g x y → (rank y < rank x)%nat.

(** What [_resetDualBlocks] does to one block. *)
Definition stamped (id : Z) (blk : NodeMaterialBlock) : NodeMaterialBlock :=
  if bool_decide (target blk = Some VertexAndFragment) then withBuildId id blk else blk.

(** Every block of [g'] is the block of [g] or that block stamped. *)
Definition partlyStamped (id : Z) (g g' : gmap BlockId NodeMaterialBlock) : Prop :=
  ∀ b, g' !! b = g !! b ∨ g' !! b = stamped id <$> g !! b.

(** [m'] is [m] but for its store. *)
Definition sameFields (m m' : NodeMaterial) : Prop := m' = withBlocks (blocks m') m.

Lemma sameFields_refl m : sameFields m m.
Proof. by destruct m. Qed.

Lemma sameFields_trans m1 m2 m3 : sameFields m1 m2 → sameFields m2 m3 → sameFields m1 m3.
Proof. unfold sameFields. intros H1 H2. rewrite H2, H1. by destruct m1. Qed.

Lemma stamped_idemp id blk : stamped id (stamped id blk) = stamped id blk.
Proof.
  unfold stamped. destruct (bool_decide (target blk = Some VertexAndFragment)) eqn:E; simpl.
  - by rewrite E.
  - by rewrite E.
Qed.

Lemma links_stamped id x blk : links x (stamped id blk) = links x blk.
Proof. unfold stamped. by destruct (bool_decide _). Qed.

Lemma partlyStamped_refl id g : partlyStamped id g g.
Proof. intros b. by left. Qed.

Lemma partlyStamped_trans id g1 g2 g3 :
  partlyStamped id g1 g2 → partlyStamped id g2 g3 → partlyStamped id g1 g3.
Proof.
  intros H12 H23 b. destruct (H23 b) as [->| ->]; destruct (H12 b) as [->| ->]; auto.
  right. rewrite <- option_fmap_compose.
  destruct (g1 !! b) as [blk|]; simpl; [|done]. by rewrite stamped_idemp.
Qed.

Lemma partlyStamped_edge id g g' x y : partlyStamped id g g' → edge g' x y ↔ edge g x y.
Proof.
  intros H. unfold edge. destruct (H x) as [->| ->]; [done|].
  destruct (g !! x) as [blk|]; simpl.
  - split.
    + intros (blk' & [= <-] & Hy). exists blk. by rewrite links_stamped in Hy.
    + intros (blk' & [= <-] & Hy). eexists. split; [done|]. by rewrite links_stamped.
  - split; intros (? & ? & _); done.
Qed.

Lemma partlyStamped_reachable id g g' x y :
  partlyStamped id g g' → reachable g' x y ↔ reachable g x y.
Proof.
  intros H. unfold reachable. split; induction 1 as [|a b c Hab _ IH];
    try apply rtc_refl; (eapply rtc_l; [|exact IH]);
    by apply (partlyStamped_edge id g g').
Qed.

Lemma partlyStamped_is_Some id g g' b :
  partlyStamped id g g' → is_Some (g' !! b) ↔ is_Some (g !! b).
Proof. intros H. destruct (H b) as [->| ->]; [done|]. apply fmap_is_Some. Qed.

Lemma partlyStamped_closedStore id g g' :
  partlyStamped id g g' → closedStore g → closedStore g'.
Proof.
  intros H Hc x y Hedge. apply (partlyStamped_is_Some id g g' y H).
  apply (Hc x). by apply (partlyStamped_edge id g g').
Qed.

Lemma partlyStamped_ranked id rank g g' :
  partlyStamped id g g' → ranked rank g → ranked rank g'.
Proof.
  intros H Hr x y Hedge. apply Hr. by apply (partlyStamped_edge id g g').
Qed.

(** [m'] is [m] with some blocks stamped: those of [must] at least, those
    of [may] at most. *)
Definition stampsBetween (id : Z) (must may : BlockId → Prop)
    (m m' : NodeMaterial) : Prop :=
  sameFields m m'
  ∧ partlyStamped id (blocks m) (blocks m')
  ∧ (∀ b, must b → blocks m' !! b = stamped id <$> blocks m !! b)
  ∧ (∀ b, blocks m' !! b ≠ blocks m !! b → may b).

Lemma stampsBetween_refl id m : stampsBetween id (λ _, False) (λ _, False) m m.
Proof.
  split; [apply sameFields_refl|]. split; [apply partlyStamped_refl|].
  split; [by intros b ? | by intros b ?].
Qed.

Lemma stampsBetween_seq id (must1 may1 must2 may2 : BlockId → Prop) m m1 m2 :
  stampsBetween id must1 may1 m m1 →
  stampsBetween id must2 may2 m1 m2 →
  stampsBetween id (λ b, must1 b ∨ must2 b) (λ b, may1 b ∨ may2 b) m m2.
Proof.
  intros (Hf1 & Hp1 & Hs1 & Hc1) (Hf2 & Hp2 & Hs2 & Hc2).
  split; [by eapply sameFields_trans|].
  split; [by eapply partlyStamped_trans|]. split.
  - intros b [Hb|Hb].
    + destruct (Hp2 b) as [->| ->]; rewrite (Hs1 b Hb); [done|].
      rewrite <- option_fmap_compose.
      destruct (blocks m !! b); simpl; [|done]. by rewrite stamped_idemp.
    + rewrite (Hs2 b Hb).
      destruct (Hp1 b) as [->| ->]; [done|].
      rewrite <- option_fmap_compose.
      destruct (blocks m !! b); simpl; [|done]. by rewrite stamped_idemp.
  - intros b Hne.
    destruct (decide (blocks m1 !! b = blocks m !! b)) as [Heq|Hne1].
    + right. apply Hc2. congruence.
    + left. by apply Hc1.
Qed.

Lemma stampsBetween_weaken id (must may must' may' : BlockId → Prop) m m' :
  (∀ b, must' b → must b) → (∀ b, may b → may' b) →
  stampsBetween id must may m m' → stampsBetween id must' may' m m'.
Proof.
  intros Hmust Hmay (Hf & Hp & Hs & Hc).
  split; [done|]. split; [done|]. split; [by auto | by auto].
Qed.

(** A block reachable from one of [roots]. *)
Definition reachableFrom (g : gmap BlockId NodeMaterialBlock) (roots : list BlockId)
    (b : BlockId) : Prop :=
  ∃ r, r ∈ roots ∧ reachable g r b.

(** The outcome of resetting from [roots]: the store alone changes, every
    block reachable from a root is stamped and no other block is
    touched. *)
Definition resetsFrom (id : Z) (roots : list BlockId) (m m' : NodeMaterial) : Prop :=
  stampsBetween id (reachableFrom (blocks m) roots) (reachableFrom (blocks m) roots) m m'.

Lemma resetsFrom_nil id m : resetsFrom id [] m m.
Proof.
  eapply stampsBetween_weaken; [| |apply stampsBetween_refl].
  - by intros b (r & ?%elem_of_nil & _).
  - by intros b ?.
Qed.

Lemma resetsFrom_app id rs1 rs2 m m1 m2 :
  resetsFrom id rs1 m m1 → resetsFrom id rs2 m1 m2 → resetsFrom id (rs1 ++ rs2) m m2.
Proof.
  intros H1 H2.
  assert (Hp : partlyStamped id (blocks m) (blocks m1)) by apply H1.
  eapply stampsBetween_weaken; [| |eapply stampsBetween_seq; [exact H1 | exact H2]].
  - intros b (r & [Hr|Hr]%elem_of_app & Hreach); [left | right]; exists r;
      (split; [done|]); [done|].
    by apply (partlyStamped_reachable id (blocks m) (blocks m1)).
  - intros b [(r & Hr & Hreach)|(r & Hr & Hreach)]; exists r;
      (split; [apply elem_of_app; by auto|]); [done|].
    by apply (partlyStamped_reachable id (blocks m) (blocks m1)).
Qed.

Lemma forEach_omap {A C} (sel : A → option C) (f : C → M unit)
    (l : list A) (m : NodeMaterial) :
  forEach l (λ a, match sel a with Some c => f c | None => ret tt end) m
  = forEach (omap sel l) f m.
Proof.
  unfold forEach. rewrite <- foldM_omap. apply foldM_ext.
  intros [] a m0. reflexivity.
Qed.

Lemma forEach_app {A} (f : A → M unit) (l1 l2 : list A) (m : NodeMaterial) :
  forEach (l1 ++ l2) f m = (forEach l1 f ;;; forEach l2 f) m.
Proof.
  unfold forEach. rewrite foldM_app. unfold bind.
  by destruct (foldM _ _ l1 m) as [[] ?|].
Qed.

(** The first step of [_resetDualBlocks]: the block itself. *)
Definition stampNode (node : BlockId) (id : Z) : M unit :=
  blk <- getBlock node ;;
  if bool_decide (target blk = Some VertexAndFragment)
  then updateBlock node (withBuildId id) else ret tt.

Lemma stampNode_spec node id blk m :
  blocks m !! node = Some blk →
  ∃ m', stampNode node id m = Ok tt m'
        ∧ blocks m' !! node = Some (stamped id blk)
        ∧ stampsBetween id (λ b, b = node) (λ b, b = node) m m'.
Proof.
  intros Hblk. unfold stampNode, stamped. munfold. rewrite Hblk.
  destruct (bool_decide (target blk = Some VertexAndFragment)) eqn:E; munfold.
  - rewrite Hblk. eexists. split; [reflexivity|].
    unfold stampsBetween. cbn [blocks withBlocks].
    split; [apply lookup_insert_eq|].
    split; [by destruct m|]. split; [|split].
    + intros b. destruct (decide (b = node)) as [->|Hne].
      * right. rewrite lookup_insert_eq, Hblk. cbn [fmap option_fmap option_map].
        unfold stamped. by rewrite E.
      * left. by rewrite lookup_insert_ne.
    + intros b ->. rewrite lookup_insert_eq, Hblk. cbn [fmap option_fmap option_map].
      unfold stamped. by rewrite E.
    + intros b Hne. destruct (decide (b = node)); [done|].
      by rewrite lookup_insert_ne in Hne.
  - eexists. split; [reflexivity|]. split; [done|].
    split; [apply sameFields_refl|]. split; [apply partlyStamped_refl|]. split.
    + intros b ->. rewrite Hblk. simpl. unfold stamped. by rewrite E.
    + by intros b ?.
Qed.

Lemma forEach_teleportLinks (f : BlockId → M unit) (blk : NodeMaterialBlock)
    (m : NodeMaterial) :
  (if isTeleportOut blk then
     match entryPoint blk with Some entry => f entry | None => ret tt end
   else ret tt) m
  = forEach (teleportLinks blk) f m.
Proof.
  unfold teleportLinks, forEach. destruct (isTeleportOut blk); [|reflexivity].
  destruct (entryPoint blk) as [entry|]; [|reflexivity].
  simpl. unfold bind, ret. by destruct (f entry m) as [[] ?|].
Qed.

(** [_resetDualBlocks] stamps the block, then visits its input links, then
    its teleport link. *)
Lemma resetDualBlocks_unfold fuel node id blk m :
  blocks m !! node = Some blk →
  _resetDualBlocks (S fuel) node id m
  = (stampNode node id ;;;
     forEach (inputLinks node blk) (λ c, _resetDualBlocks fuel c id) ;;;
     blk <- getBlock node ;;
     forEach (teleportLinks blk) (λ c, _resetDualBlocks fuel c id)) m.
Proof.
  intros Hblk. cbn [_resetDualBlocks]. unfold stampNode.
  assert (Hloop : ∀ m1,
    forEach (inputs blk) (λ input,
      match connectedPoint input with
      | Some (block, _) =>
          if bool_decide (block ≠ node) then _resetDualBlocks fuel block id else ret ()
      | None => ret ()
      end) m1
    = forEach (inputLinks node blk) (λ c, _resetDualBlocks fuel c id) m1).
  { intros m1. unfold inputLinks. rewrite <- forEach_omap.
    unfold forEach. apply foldM_ext. intros [] input m0.
    destruct (connectedPoint input) as [[block ?]|]; [|reflexivity].
    by destruct (bool_decide (block ≠ node)). }
  munfold. rewrite Hblk.
  destruct (bool_decide (target blk = Some VertexAndFragment)); cbn beta iota.
  - rewrite Hblk. rewrite Hloop.
    destruct (forEach _ _ _) as [[] m2|e m2]; [|reflexivity].
    destruct (blocks m2 !! node) as [blk2|]; [|reflexivity].
    apply forEach_teleportLinks.
  - rewrite Hloop.
    destruct (forEach _ _ _) as [[] m2|e m2]; [|reflexivity].
    destruct (blocks m2 !! node) as [blk2|]; [|reflexivity].
    apply forEach_teleportLinks.
Qed.

Lemma resetDualBlocks_resetsFrom (rank : BlockId → nat) (id : Z) (fuel : nat) :
  ∀ (node : BlockId) (m : NodeMaterial),
    closedStore (blocks m) → ranked rank (blocks m) →
    is_Some (blocks m !! node) → (rank node < fuel)%nat →
    ∃ m', _resetDualBlocks fuel node id m = Ok tt m' ∧ resetsFrom id [node] m m'.
Proof.
  induction fuel as [|fuel IH]; intros node m Hclosed Hranked Hnode Hfuel; [lia|].
  assert (Hfold : ∀ cs m,
    closedStore (blocks m) → ranked rank (blocks m) →
    (∀ c, c ∈ cs → is_Some (blocks m !! c) ∧ (rank c < fuel)%nat) →
    ∃ m', forEach cs (λ c, _resetDualBlocks fuel c id) m = Ok tt m'
          ∧ resetsFrom id cs m m').
  { clear node m Hclosed Hranked Hnode Hfuel.
    induction cs as [|c cs IHcs]; intros m Hclosed Hranked Hcs.
    - exists m. split; [reflexivity | apply resetsFrom_nil].
    - destruct (IH c m) as (m1 & Hrun1 & H1); [done|done|apply Hcs; by left..|].
      assert (Hp1 : partlyStamped id (blocks m) (blocks m1)) by apply H1.
      destruct (IHcs m1) as (m2 & Hrun2 & H2).
      + by eapply partlyStamped_closedStore.
      + by eapply partlyStamped_ranked.
      + intros c' Hc'. destruct (Hcs c') as [? ?]; [by right|].
        split; [|done]. by apply (partlyStamped_is_Some id (blocks m)).
      + exists m2. split.
        * unfold forEach in *. simpl. unfold bind. by rewrite Hrun1.
        * by apply (resetsFrom_app id [c] cs m m1 m2). }
  destruct Hnode as [blk Hblk].
  rewrite (resetDualBlocks_unfold fuel node id blk m Hblk).
  destruct (stampNode_spec node id blk m Hblk) as (m1 & Hrun1 & Hblk1 & H1).
  assert (Hp1 : partlyStamped id (blocks m) (blocks m1)) by apply H1.
  assert (Hlinks : ∀ c, c ∈ links node blk →
            is_Some (blocks m !! c) ∧ (rank c < fuel)%nat).
  { intros c Hc. assert (edge (blocks m) node c) as Hedge by (by exists blk).
    split; [by apply (Hclosed node)|]. specialize (Hranked node c Hedge). lia. }
  destruct (Hfold (inputLinks node blk) m1) as (m2 & Hrun2 & H2).
  { by eapply partlyStamped_closedStore. }
  { by eapply partlyStamped_ranked. }
  { intros c Hc. destruct (Hlinks c) as [? ?]; [apply elem_of_app; by left|].
    split; [|done]. by apply (partlyStamped_is_Some id (blocks m)). }
  assert (Hp2 : partlyStamped id (blocks m1) (blocks m2)) by apply H2.
  assert (Hp12 : partlyStamped id (blocks m) (blocks m2))
    by (by eapply partlyStamped_trans).
  assert (Hblk2 : blocks m2 !! node = Some (stamped id blk)).
  { destruct (Hp2 node) as [->| ->]; rewrite Hblk1; [done|].
    simpl. by rewrite stamped_idemp. }
  destruct (Hfold (teleportLinks blk) m2) as (m3 & Hrun3 & H3).
  { by eapply partlyStamped_closedStore. }
  { by eapply partlyStamped_ranked. }
  { intros c Hc. destruct (Hlinks c) as [? ?]; [apply elem_of_app; by right|].
    split; [|done]. by apply (partlyStamped_is_Some id (blocks m)). }
  exists m3. split.
  - unfold bind. rewrite Hrun1, Hrun2. unfold getBlock. rewrite Hblk2.
    replace (teleportLinks (stamped id blk)) with (teleportLinks blk); [done|].
    unfold stamped. by destruct (bool_decide _).
  - eapply stampsBetween_weaken;
      [| |eapply stampsBetween_seq;
            [eapply stampsBetween_seq; [exact H1 | exact H2] | exact H3]].
    + intros b (r & ->%list_elem_of_singleton & Hreach).
      apply rtc_inv in Hreach as [->|(c & (blk' & Hblk' & Hc) & Hreach)];
        [left; by left|].
      rewrite Hblk in Hblk'. injection Hblk' as <-.
      apply elem_of_app in Hc as [Hc|Hc].
      * left. right. exists c. split; [done|].
        by apply (partlyStamped_reachable id (blocks m) (blocks m1)).
      * right. exists c. split; [done|].
        by apply (partlyStamped_reachable id (blocks m) (blocks m2)).
    + intros b [[->|(c & Hc & Hreach)]|(c & Hc & Hreach)].
      * exists node. split; [by apply list_elem_of_singleton | apply rtc_refl].
      * exists node. split; [by apply list_elem_of_singleton|].
        eapply rtc_l; [exists blk; split; [done|]; apply elem_of_app; by left|].
        by apply (partlyStamped_reachable id (blocks m) (blocks m1)).
      * exists node. split; [by apply list_elem_of_singleton|].
        eapply rtc_l; [exists blk; split; [done|]; apply elem_of_app; by right|].
        by apply (partlyStamped_reachable id (blocks m) (blocks m2)).
Qed.

Lemma sameFields_buildId m m' : sameFields m m' → _buildId m' = _buildId m.
Proof. intros ->. reflexivity. Qed.

Lemma resetDualBlocks_resetsFrom_roots (rank : BlockId → nat) (fuel : nat) :
  ∀ (roots : list BlockId) (m : NodeMaterial),
    closedStore (blocks m) → ranked rank (blocks m) →
    (∀ r, r ∈ roots → is_Some (blocks m !! r) ∧ (rank r < fuel)%nat) →
    ∃ m', resetDualBlocks fuel roots m = Ok tt m'
          ∧ resetsFrom (_buildId m - 1) roots m m'.
Proof.
  induction roots as [|r roots IH]; intros m Hclosed Hranked Hroots.
  - exists m. split; [reflexivity | apply resetsFrom_nil].
  - destruct (resetDualBlocks_resetsFrom rank (_buildId m - 1) fuel r m)
      as (m1 & Hrun1 & H1); [done|done|apply Hroots; by left..|].
    assert (Hp1 : partlyStamped (_buildId m - 1) (blocks m) (blocks m1)) by apply H1.
    assert (Hid : _buildId m1 = _buildId m) by (apply sameFields_buildId, H1).
    destruct (IH m1) as (m2 & Hrun2 & H2).
    + by eapply partlyStamped_closedStore.
    + by eapply partlyStamped_ranked.
    + intros r' Hr'. destruct (Hroots r') as [? ?]; [by right|].
      split; [|done]. by apply (partlyStamped_is_Some (_buildId m - 1) (blocks m)).
    + exists m2. split.
      * unfold resetDualBlocks, forEach in *. simpl. unfold bind at 1 2, get.
        by rewrite Hrun1.
      * rewrite Hid in H2.
        by apply (resetsFrom_app (_buildId m - 1) [r] roots m m1 m2).
Qed.

(** The links of a store lead to blocks of lower rank: a test that
    computes. *)
Definition rankedb (rank : BlockId → nat) (g : gmap BlockId NodeMaterialBlock) : bool :=
  bool_decide
    (map_Forall (λ x blk, Forall (λ y, (rank y < rank x)%nat) (links x blk)) g).

Lemma rankedb_ranked rank g : rankedb rank g = true → ranked rank g.
Proof.
  intros H%bool_decide_eq_true_1 x y (blk & Hblk & Hy).
  specialize (H x blk Hblk). simpl in H.
  rewrite Forall_forall in H. by apply H.
Qed.

Example resetDualBlocks_teleportGraph :
  ∃ m',
    resetDualBlocks 5 [1] teleportGraph = Ok tt m'
    ∧ buildId <$> blocks m' !! 4 = Some (-1)%Z
    ∧ buildId <$> blocks m' !! 1 = Some 0%Z.
Proof. eexists. split; [vm_compute; reflexivity|]. by vm_compute. Qed.

(** ** Initialization of the blocks *)

(** The class name of a block and whether the class is unique. *)
Definition kindOf (g : gmap BlockId NodeMaterialBlock) (b : BlockId)
  : option (string * bool) :=
  (λ blk, (className blk, isUnique blk)) <$> g !! b.

(** [blk'] is the block [blk] of identity [b], possibly with links added. *)
Definition blockGrows (b : BlockId) (blk blk' : NodeMaterialBlock) : Prop :=
  className blk' = className blk
  ∧ isUnique blk' = isUnique blk
  ∧ inputLinks b blk ⊆ inputLinks b blk'
  ∧ teleportLinks blk ⊆ teleportLinks blk'.

(** The store [g'] holds the blocks of [g], possibly with links added, and
    possibly more blocks. *)
Definition grows (g g' : gmap BlockId NodeMaterialBlock) : Prop :=
  ∀ b blk, g !! b = Some blk → ∃ blk', g' !! b = Some blk' ∧ blockGrows b blk blk'.

Lemma blockGrows_refl b blk : blockGrows b blk blk.
Proof. by repeat split. Qed.

Lemma blockGrows_trans b blk1 blk2 blk3 :
  blockGrows b blk1 blk2 → blockGrows b blk2 blk3 → blockGrows b blk1 blk3.
Proof.
  intros (Hc1 & Hu1 & Hi1 & Ht1) (Hc2 & Hu2 & Hi2 & Ht2).
  split; [congruence|]. split; [congruence|]. split; set_solver.
Qed.

Lemma grows_refl g : grows g g.
Proof. intros b blk Hblk. exists blk. split; [done | apply blockGrows_refl]. Qed.

Lemma grows_trans g1 g2 g3 : grows g1 g2 → grows g2 g3 → grows g1 g3.
Proof.
  intros H12 H23 b blk1 Hblk1.
  destruct (H12 b blk1 Hblk1) as (blk2 & Hblk2 & Hg12).
  destruct (H23 b blk2 Hblk2) as (blk3 & Hblk3 & Hg23).
  exists blk3. split; [done | by eapply blockGrows_trans].
Qed.

Lemma grows_is_Some g g' b : grows g g' → is_Some (g !! b) → is_Some (g' !! b).
Proof. intros H [blk Hblk]. destruct (H b blk Hblk) as (blk' & -> & _). by eexists. Qed.

Lemma grows_kindOf g g' b : grows g g' → is_Some (g !! b) → kindOf g' b = kindOf g b.
Proof.
  intros H [blk Hblk]. destruct (H b blk Hblk) as (blk' & Hblk' & Hc & Hu & _).
  unfold kindOf. rewrite Hblk, Hblk'. simpl. by rewrite Hc, Hu.
Qed.

Lemma grows_edge g g' x y : grows g g' → edge g x y → edge g' x y.
Proof.
  intros H (blk & Hblk & Hy).
  destruct (H x blk Hblk) as (blk' & Hblk' & _ & _ & Hi & Ht).
  exists blk'. split; [done|]. unfold links in *.
  apply elem_of_app in Hy as [Hy|Hy]; apply elem_of_app; [left | right]; auto.
Qed.

Lemma grows_reachable g g' x y : grows g g' → reachable g x y → reachable g' x y.
Proof.
  intros H. induction 1 as [|a b c Hab _ IH]; [apply rtc_refl|].
  eapply rtc_l; [|exact IH]. by eapply grows_edge.
Qed.

(** The invariant of the walk: references lead to blocks, the graph has no
    cycle, and the attached blocks are blocks of the store. *)
Definition wellFormed (rank : BlockId → nat) (m : NodeMaterial) : Prop :=
  closedStore (blocks m)
  ∧ ranked rank (blocks m)
  ∧ ∀ b, b ∈ attachedBlocks m → is_Some (blocks m !! b).

(** Every unique block of [added] has a class name that no block listed
    before it has. *)
Definition uniqueAdded (g : gmap BlockId NodeMaterialBlock)
    (old added : list BlockId) : Prop :=
  ∀ pre x post cls,
    added = pre ++ x :: post →
    kindOf g x = Some (cls, true) →
    ∀ o u, o ∈ old ++ pre → kindOf g o ≠ Some (cls, u).

(** What a walk leaves of a well-formed material [m]. *)
Definition initialized (rank : BlockId → nat) (m m' : NodeMaterial) : Prop :=
  wellFormed rank m'
  ∧ grows (blocks m) (blocks m')
  ∧ (∃ added,
      attachedBlocks m' = attachedBlocks m ++ added
      ∧ uniqueAdded (blocks m') (attachedBlocks m) added)
  ∧ _vertexOutputNodes m' = _vertexOutputNodes m
  ∧ _fragmentOutputNodes m' = _fragmentOutputNodes m.

Lemma uniqueAdded_nil g old : uniqueAdded g old [].
Proof. intros pre x post cls H. by destruct pre. Qed.

Lemma uniqueAdded_grows g g' old added :
  grows g g' →
  (∀ b, b ∈ old ++ added → is_Some (g !! b)) →
  uniqueAdded g old added → uniqueAdded g' old added.
Proof.
  intros Hg Hdom Hu pre x post cls -> Hx o u Ho.
  rewrite (grows_kindOf g g' x Hg) in Hx by (apply Hdom; set_solver).
  rewrite (grows_kindOf g g' o Hg) by (apply Hdom; set_solver).
  by eapply Hu.
Qed.

Lemma uniqueAdded_app g old a1 a2 :
  uniqueAdded g old a1 → uniqueAdded g (old ++ a1) a2 → uniqueAdded g old (a1 ++ a2).
Proof.
  intros H1 H2 pre x post cls Heq Hx o u Ho.
  apply app_eq_inv in Heq as [(k & -> & Hk)|(k & -> & ->)].
  - destruct k as [|y k]; simpl in Hk.
    + subst a2. eapply (H2 [] x post cls); [done|done|].
      by rewrite !app_nil_r.
    + injection Hk as <- ->. by eapply (H1 pre x k cls).
  - eapply (H2 k x post cls); [done|done|]. by rewrite <- app_assoc.
Qed.

Lemma initialized_refl rank m : wellFormed rank m → initialized rank m m.
Proof.
  intros Hwf. split; [done|]. split; [apply grows_refl|]. split; [|done].
  exists []. rewrite app_nil_r. split; [done | apply uniqueAdded_nil].
Qed.

Lemma initialized_trans rank m1 m2 m3 :
  wellFormed rank m1 →
  initialized rank m1 m2 → initialized rank m2 m3 → initialized rank m1 m3.
Proof.
  intros Hwf1 (Hwf2 & Hg12 & (a1 & Ha1 & Hu1) & Hv1 & Hf1)
    (Hwf3 & Hg23 & (a2 & Ha2 & Hu2) & Hv2 & Hf2).
  split; [done|]. split; [by eapply grows_trans|].
  split; [|split; congruence].
  exists (a1 ++ a2). split; [by rewrite Ha2, Ha1, app_assoc|].
  apply uniqueAdded_app; [|by rewrite <- Ha1].
  eapply uniqueAdded_grows; [exact Hg23| |exact Hu1].
  intros b Hb. rewrite <- Ha1 in Hb. by apply Hwf2.
Qed.

(** Two distinct unique blocks of one class cannot both be attached by a
    walk, unless both were attached before it. *)
Lemma uniqueAdded_two_of_a_kind g old added a b cls :
  uniqueAdded g old added →
  a ≠ b →
  kindOf g a = Some (cls, true) → kindOf g b = Some (cls, true) →
  a ∈ old ++ added → b ∈ old ++ added →
  ¬ (a ∈ old ∧ b ∈ old) →
  False.
Proof.
  intros Hu.
  assert (Hcase : ∀ a b, a ≠ b →
    kindOf g a = Some (cls, true) → kindOf g b = Some (cls, true) →
    a ∈ old ++ added → b ∈ added → False).
  { clear a b. intros a b Hne Ha Hb Hina Hinb.
    apply list_elem_of_split in Hinb as (pre & post & ->).
    destruct (decide (a ∈ old ++ pre)) as [Hin|Hnin].
    - by apply (Hu pre b post cls eq_refl Hb a true Hin).
    - assert (a ∈ post) as (p1 & p2 & ->)%list_elem_of_split by set_solver.
      assert (Heq : pre ++ b :: p1 ++ a :: p2 = (pre ++ b :: p1) ++ a :: p2)
        by (by rewrite <- app_assoc).
      apply (Hu (pre ++ b :: p1) a p2 cls Heq Ha b true); [set_solver | exact Hb]. }
  intros Hne Ha Hb Hina Hinb Hnot.
  destruct (decide (b ∈ added)) as [?|Hb'].
  - by apply (Hcase a b).
  - destruct (decide (a ∈ added)) as [?|Ha'].
    + by apply (Hcase b a).
    + apply Hnot. set_solver.
Qed.

(** A change of a block that keeps its class and its links. *)
Definition keepsShape (f : NodeMaterialBlock → NodeMaterialBlock) : Prop :=
  ∀ b blk,
    className (f blk) = className blk
    ∧ isUnique (f blk) = isUnique blk
    ∧ inputLinks b (f blk) = inputLinks b blk
    ∧ teleportLinks (f blk) = teleportLinks blk.

Lemma keepsShape_links f b blk : keepsShape f → links b (f blk) = links b blk.
Proof. intros H. destruct (H b blk) as (_ & _ & Hi & Ht). unfold links. by rewrite Hi, Ht. Qed.

Lemma keepsShape_withPreparationId id : keepsShape (withPreparationId id).
Proof. by intros b blk. Qed.

Lemma keepsShape_clearOutputs :
  keepsShape (λ blk, withOutputs (map (λ o, mkOutput (outputName o) "") (outputs blk)) blk).
Proof. by intros b blk. Qed.

Lemma omap_alter_same {A B} (sel : A → option B) (f : A → A) (i : nat) (l : list A) :
  (∀ a, sel (f a) = sel a) → omap sel (alter f i l) = omap sel l.
Proof.
  intros Hf. revert i. induction l as [|a l IH]; intros [|i]; try done.
  - cbn. by rewrite Hf.
  - cbn. destruct (sel a); [f_equal|]; apply IH.
Qed.

Lemma keepsShape_clearInput index :
  keepsShape (λ blk,
    withInputs
      (alter (λ i, mkInput (inputName i) (connectedPoint i) "") index (inputs blk)) blk).
Proof.
  intros b blk. repeat split. unfold inputLinks. cbn [inputs withInputs].
  by apply omap_alter_same.
Qed.

Lemma insert_keepsShape_edge f g node blk x y :
  keepsShape f → g !! node = Some blk →
  edge (<[node := f blk]> g) x y ↔ edge g x y.
Proof.
  intros Hf Hblk. unfold edge. destruct (decide (x = node)) as [->|Hne].
  - rewrite lookup_insert_eq. split.
    + intros (blk' & [= <-] & Hy). exists blk. by rewrite keepsShape_links in Hy.
    + intros (blk' & Hblk' & Hy). rewrite Hblk in Hblk'. injection Hblk' as <-.
      eexists. split; [done|]. by rewrite keepsShape_links.
  - by rewrite lookup_insert_ne.
Qed.

Lemma insert_is_Some (g : gmap BlockId NodeMaterialBlock) node blk blk' b :
  g !! node = Some blk → is_Some (<[node := blk']> g !! b) ↔ is_Some (g !! b).
Proof.
  intros Hblk. destruct (decide (b = node)) as [->|Hne].
  - rewrite lookup_insert_eq, Hblk. split; by eexists.
  - by rewrite lookup_insert_ne.
Qed.

Lemma updateBlock_initialized rank f node m :
  wellFormed rank m → is_Some (blocks m !! node) → keepsShape f →
  ∃ m', updateBlock node f m = Ok tt m'
        ∧ initialized rank m m'
        ∧ attachedBlocks m' = attachedBlocks m
        ∧ _buildId m' = _buildId m.
Proof.
  intros (Hclosed & Hranked & Hatt) [blk Hblk] Hf.
  unfold updateBlock. munfold. rewrite Hblk.
  eexists. split; [reflexivity|]. cbn [attachedBlocks withBlocks _buildId].
  split; [|done]. split; [|split].
  - split; [|split]; cbn [blocks attachedBlocks withBlocks].
    + intros x y Hedge%(insert_keepsShape_edge f); [|done..].
      apply (insert_is_Some _ node blk); [done|]. by apply (Hclosed x).
    + intros x y Hedge%(insert_keepsShape_edge f); [|done..]. by apply Hranked.
    + intros b Hb. apply (insert_is_Some _ node blk); [done|]. by apply Hatt.
  - cbn [blocks withBlocks]. intros b blk0 Hblk0.
    destruct (decide (b = node)) as [->|Hne].
    + rewrite lookup_insert_eq. eexists. split; [done|].
      rewrite Hblk in Hblk0. injection Hblk0 as <-.
      destruct (Hf node blk) as (Hc & Hu & Hi & Ht).
      split; [done|]. split; [done|]. by rewrite Hi, Ht.
    + rewrite lookup_insert_ne by done. exists blk0. split; [done | apply blockGrows_refl].
  - split; [|done]. exists []. cbn [attachedBlocks withBlocks]. rewrite app_nil_r.
    split; [done | apply uniqueAdded_nil].
Qed.

(** A method of a block that keeps the material well formed, keeps the
    blocks of the store (it may add links and blocks) and leaves the
    attached blocks and the output nodes alone. *)
Definition wellBehaved (rank : BlockId → nat) (f : NodeMaterial → NodeMaterial) : Prop :=
  ∀ m, wellFormed rank m →
       wellFormed rank (f m)
       ∧ grows (blocks m) (blocks (f m))
       ∧ attachedBlocks (f m) = attachedBlocks m
       ∧ _vertexOutputNodes (f m) = _vertexOutputNodes m
       ∧ _fragmentOutputNodes (f m) = _fragmentOutputNodes m.

Lemma wellBehaved_initialized rank f m :
  wellBehaved rank f → wellFormed rank m → initialized rank m (f m).
Proof.
  intros Hf Hwf. destruct (Hf m Hwf) as (Hwf' & Hg & Ha & Hv & Hfr).
  split; [done|]. split; [done|]. split; [|done]. exists []. rewrite app_nil_r.
  split; [done | apply uniqueAdded_nil].
Qed.

(** The result of a piece of the walk started in [m]: it attaches the
    blocks of [visited] at least, or throws the uniqueness error; it
    neither reads [undefined] nor runs out of fuel. *)
Definition walkOutcome {A} (rank : BlockId → nat) (m : NodeMaterial)
    (visited : BlockId → Prop) (r : Result A) : Prop :=
  match r with
  | Ok _ m' => initialized rank m m' ∧ ∀ x, visited x → x ∈ attachedBlocks m'
  | Fail (Thrown msg) _ => ∃ cls, msg = multipleBlocks cls
  | Fail _ _ => False
  end.

Lemma initialized_attached rank m m' x :
  initialized rank m m' → x ∈ attachedBlocks m → x ∈ attachedBlocks m'.
Proof. intros (_ & _ & (added & -> & _) & _) Hx. apply elem_of_app. by left. Qed.

Lemma walkOutcome_bind {A B} rank (m : NodeMaterial) (V1 V : BlockId → Prop)
    (c : M A) (k : A → M B) :
  wellFormed rank m →
  walkOutcome rank m V1 (c m) →
  (∀ a m1, c m = Ok a m1 → initialized rank m m1 →
           ∃ V2, walkOutcome rank m1 V2 (k a m1) ∧ ∀ x, V x → V1 x ∨ V2 x) →
  walkOutcome rank m V (bind c k m).
Proof.
  intros Hwf H1 H2. unfold bind.
  destruct (c m) as [a m1|e m1] eqn:Hc; [|exact H1].
  destruct H1 as [Hinit1 Hv1].
  destruct (H2 a m1 eq_refl Hinit1) as (V2 & Hk & HV).
  destruct (k a m1) as [b m2|e m2]; [|exact Hk].
  destruct Hk as [Hinit2 Hv2]. split; [by eapply initialized_trans|].
  intros x [Hx|Hx]%HV; [|by apply Hv2].
  eapply initialized_attached; [exact Hinit2 | by apply Hv1].
Qed.

Lemma walkOutcome_weaken {A} rank (m : NodeMaterial) (V V' : BlockId → Prop)
    (r : Result A) :
  (∀ x, V' x → V x) → walkOutcome rank m V r → walkOutcome rank m V' r.
Proof.
  intros HV. destruct r as [a m'|[msg| |] m']; simpl; [|done..].
  intros [Hi Hv]. split; [done | by auto].
Qed.

Section InitializeFacts.

Variable blockInitialize : BlockId → Stage → NodeMaterial → NodeMaterial.
Variable blockAutoConfigure : BlockId → NodeMaterial → NodeMaterial.
Variable rank : BlockId → nat.
Hypothesis initialize_wellBehaved :
  ∀ node state, wellBehaved rank (blockInitialize node state).
Hypothesis autoConfigure_wellBehaved :
  ∀ node, wellBehaved rank (blockAutoConfigure node).

(** The pieces of [_initializeBlock], named. *)

(** The loop that looks for an attached block of the class [cls]. *)
Definition checkUnique (cls : string) (attached : list BlockId) : M unit :=
  forEach attached (λ other,
    o <- getBlock other ;;
    if bool_decide (className o = cls) then throw (multipleBlocks cls) else ret tt).

(** The statement [if (this.attachedBlocks.indexOf(node) === -1) ...]. *)
Definition attachIfNew (this : NodeMaterial) (node : BlockId) : M unit :=
  if bool_decide (indexOf (attachedBlocks this) node = (-1)%Z) then
    blk <- getBlock node ;;
    (if isUnique blk then checkUnique (className blk) (attachedBlocks this)
     else ret tt) ;;;
    modify (λ m, withAttachedBlocks (attachedBlocks m ++ [node]) m)
  else ret tt.

(** [_processInitializeOnLink], calling [_initializeBlock] with [fuel]. *)
Definition processLink (fuel : nat) (state : Stage) (autoConfigure : bool)
    (block : BlockId) (nodes : list BlockId) : M (list BlockId) :=
  this <- get ;;
  b <- getBlock block ;;
  let nodes :=
    if bool_decide (target b = Some VertexAndFragment) then nodes ++ [block]
    else if bool_decide (stageTarget state = Fragment)
            && bool_decide (target b = Some Vertex)
            && bool_decide (_preparationId b ≠ _buildId this)
         then nodes ++ [block]
         else nodes in
  _initializeBlock blockInitialize blockAutoConfigure fuel block state nodes autoConfigure.

(** The loop over the inputs of [node]. *)
Definition visitInputs (fuel : nat) (node : BlockId) (state : Stage)
    (autoConfigure : bool) (nodes : list BlockId) (l : list (nat * InputPoint))
  : M (list BlockId) :=
  foldM (λ nodes '(index, input),
    clearInputVariableName node index ;;;
    match connectedPoint input with
    | Some (block, _) =>
        if bool_decide (block ≠ node)
        then processLink fuel state autoConfigure block nodes
        else ret nodes
    | None => ret nodes
    end) nodes l.

(** The visit of the entry point of a teleport-out block. *)
Definition visitTeleport (fuel : nat) (state : Stage) (autoConfigure : bool)
    (blk : NodeMaterialBlock) (nodes : list BlockId) : M (list BlockId) :=
  if isTeleportOut blk then
    match entryPoint blk with
    | Some entry => processLink fuel state autoConfigure entry nodes
    | None => ret nodes
    end
  else ret nodes.

Lemma initializeBlock_unfold fuel node state nodes autoConfigure :
  _initializeBlock blockInitialize blockAutoConfigure (S fuel) node state nodes
    autoConfigure
  = (modify (blockInitialize node state) ;;;
     (if autoConfigure then modify (blockAutoConfigure node) else ret tt) ;;;
     this <- get ;;
     updateBlock node (withPreparationId (_buildId this)) ;;;
     this <- get ;;
     attachIfNew this node ;;;
     blk <- getBlock node ;;
     nodes <- visitInputs fuel node state autoConfigure nodes (imap pair (inputs blk)) ;;
     blk <- getBlock node ;;
     nodes <- visitTeleport fuel state autoConfigure blk nodes ;;
     clearOutputVariableNames node ;;;
     ret nodes).
Proof. reflexivity. Qed.

Lemma checkUnique_spec cls attached m :
  (∀ o, o ∈ attached → is_Some (blocks m !! o)) →
  (checkUnique cls attached m = Ok tt m
   ∧ ∀ o u, o ∈ attached → kindOf (blocks m) o ≠ Some (cls, u))
  ∨ checkUnique cls attached m = Fail (Thrown (multipleBlocks cls)) m.
Proof.
  unfold checkUnique, forEach.
  induction attached as [|o attached IH]; intros Hdom.
  - left. split; [reflexivity|]. by intros o u ?%elem_of_nil.
  - destruct (Hdom o) as [blk Hblk]; [by left|].
    simpl. munfold. rewrite Hblk.
    destruct (bool_decide (className blk = cls)) eqn:E; cbn beta iota.
    + by right.
    + apply bool_decide_eq_false_1 in E.
      destruct IH as [[Hrun Hno]|Hrun]; [intros; apply Hdom; by right| |].
      * left. split; [done|]. intros o' u [->|Ho']%elem_of_cons; [|by apply Hno].
        unfold kindOf. rewrite Hblk. simpl. congruence.
      * by right.
Qed.

Lemma attachIfNew_spec node m :
  wellFormed rank m → is_Some (blocks m !! node) →
  walkOutcome rank m (λ x, x = node) (attachIfNew m node m).
Proof.
  intros Hwf [blk Hblk]. unfold attachIfNew.
  destruct (bool_decide (indexOf (attachedBlocks m) node = (-1)%Z)) eqn:E.
  - munfold. rewrite Hblk.
    assert (Hpush : wellFormed rank (withAttachedBlocks (attachedBlocks m ++ [node]) m)).
    { destruct Hwf as (Hc & Hr & Ha). split; [done|]. split; [done|].
      simpl. intros b [Hb| ->%list_elem_of_singleton]%elem_of_app; [by apply Ha | by eexists]. }
    destruct (isUnique blk) eqn:Hu.
    + destruct (checkUnique_spec (className blk) (attachedBlocks m) m)
        as [[-> Hno]| ->]; [apply Hwf| |by eexists].
      simpl. split.
      * split; [done|]. split; [apply grows_refl|]. split; [|done].
        exists [node]. split; [done|].
        intros pre x post cls Heq Hx o u Ho.
        destruct pre as [|? [|? ?]]; try done. injection Heq as <- <-.
        rewrite app_nil_r in Ho. cbn [blocks withAttachedBlocks] in *.
        unfold kindOf in Hx. rewrite Hblk in Hx. injection Hx as <-.
        by apply Hno.
      * intros x ->. apply elem_of_app. right. by apply list_elem_of_singleton.
    + simpl. split.
      * split; [done|]. split; [apply grows_refl|]. split; [|done].
        exists [node]. split; [done|].
        intros pre x post cls Heq Hx o u Ho.
        destruct pre as [|? [|? ?]]; try done. injection Heq as <- <-.
        cbn [blocks withAttachedBlocks] in *.
        unfold kindOf in Hx. rewrite Hblk in Hx. simpl in Hx. congruence.
      * intros x ->. apply elem_of_app. right. by apply list_elem_of_singleton.
  - simpl. split; [by apply initialized_refl|].
    intros x ->. apply bool_decide_eq_false_1 in E. by apply indexOf_present.
Qed.

Lemma walkOutcome_ok {A} m m' (a : A) :
  initialized rank m m' → walkOutcome rank m (λ _, False) (Ok a m').
Proof. intros H. split; [done | by intros x ?]. Qed.

(** A step that returns and attaches nothing. *)
Lemma walk_neutral {A B} (V : NodeMaterial → BlockId → Prop) m (c : M A) (k : A → M B) :
  wellFormed rank m →
  (∀ m1 x, grows (blocks m) (blocks m1) → V m x → V m1 x) →
  (∃ a m1, c m = Ok a m1 ∧ initialized rank m m1
           ∧ (wellFormed rank m1 → grows (blocks m) (blocks m1) →
              walkOutcome rank m1 (V m1) (k a m1))) →
  walkOutcome rank m (V m) (bind c k m).
Proof.
  intros Hwf Hmono (a & m1 & Hrun & Hinit & Hk).
  apply (walkOutcome_bind rank m (λ _, False)); [done| |].
  - rewrite Hrun. by apply walkOutcome_ok.
  - intros a' m1' Hrun' _. rewrite Hrun in Hrun'. injection Hrun' as <- <-.
    exists (V m1). split; [apply Hk; apply Hinit|].
    intros x Hx. right. eapply Hmono; [apply Hinit | done].
Qed.

Section Walk.

Variable fuel : nat.
Variable state : Stage.
Variable autoConfigure : bool.
Hypothesis IHfuel :
  ∀ node nodes m,
    wellFormed rank m → is_Some (blocks m !! node) → (rank node < fuel)%nat →
    walkOutcome rank m (reachable (blocks m) node)
      (_initializeBlock blockInitialize blockAutoConfigure fuel node state nodes
         autoConfigure m).

Lemma processLink_walk block nodes m :
  wellFormed rank m → is_Some (blocks m !! block) → (rank block < fuel)%nat →
  walkOutcome rank m (reachable (blocks m) block)
    (processLink fuel state autoConfigure block nodes m).
Proof.
  intros Hwf [b Hb] Hrank. unfold processLink. munfold. rewrite Hb.
  apply IHfuel; [done | by eexists | done].
Qed.

(** The blocks reachable from the owners of the outputs connected to the
    inputs of [l], [node] apart. *)
Definition viaInputs (node : BlockId) (l : list (nat * InputPoint))
    (m : NodeMaterial) (x : BlockId) : Prop :=
  ∃ i input c s,
    (i, input) ∈ l ∧ connectedPoint input = Some (c, s) ∧ c ≠ node
    ∧ reachable (blocks m) c x.

Lemma visitInputs_walk node l :
  ∀ nodes m,
    wellFormed rank m → is_Some (blocks m !! node) →
    (∀ i input c s, (i, input) ∈ l → connectedPoint input = Some (c, s) → c ≠ node →
                    is_Some (blocks m !! c) ∧ (rank c < fuel)%nat) →
    walkOutcome rank m (viaInputs node l m)
      (visitInputs fuel node state autoConfigure nodes l m).
Proof.
  induction l as [|[index input] l IHl]; intros nodes m Hwf Hnode Hl.
  - simpl. split; [by apply initialized_refl|].
    by intros x (i & inp & c & s & ?%elem_of_nil & _).
  - unfold visitInputs. cbn [foldM]. fold (visitInputs fuel node state autoConfigure).
    apply (walkOutcome_bind rank m
             (λ x, ∃ c s, connectedPoint input = Some (c, s) ∧ c ≠ node
                          ∧ reachable (blocks m) c x)); [done| |].
    + (* the body *)
      destruct (updateBlock_initialized rank _ node m Hwf Hnode
                  (keepsShape_clearInput index)) as (m1 & Hrun1 & Hinit1 & _).
      unfold clearInputVariableName. unfold bind at 1. rewrite Hrun1.
      assert (Hwf1 : wellFormed rank m1) by apply Hinit1.
      assert (Hg1 : grows (blocks m) (blocks m1)) by apply Hinit1.
      destruct (connectedPoint input) as [[c s]|] eqn:Hcp.
      * destruct (bool_decide (c ≠ node)) eqn:E.
        -- apply bool_decide_eq_true_1 in E.
           destruct (Hl index input c s) as [Hc Hrank]; [by left|done|done|].
           pose proof (processLink_walk c nodes m1 Hwf1
                         (grows_is_Some _ _ _ Hg1 Hc) Hrank) as Hw.
           destruct (processLink _ _ _ c nodes m1) as [nodes' m2|[msg| |] m2];
             simpl in *; try done.
           destruct Hw as [Hinit2 Hv2]. split; [by eapply initialized_trans|].
           intros x (c' & s' & [= <- <-] & _ & Hreach). apply Hv2.
           by eapply grows_reachable.
        -- apply bool_decide_eq_false_1 in E. simpl. split; [done|].
           intros x (c' & s' & [= <- <-] & Hne & _). by destruct E.
      * simpl. split; [done|]. by intros x (c' & s' & ? & _).
    + intros nodes' m1 Hrun Hinit1.
      assert (Hwf1 : wellFormed rank m1) by apply Hinit1.
      assert (Hg1 : grows (blocks m) (blocks m1)) by apply Hinit1.
      exists (viaInputs node l m1). split.
      * apply IHl; [done | by eapply grows_is_Some |].
        intros i inp c s Hin Hcp Hne.
        destruct (Hl i inp c s) as [Hc Hrank]; [by right|done|done|].
        split; [by eapply grows_is_Some | done].
      * intros x (i & inp & c & s & [[= <- <-]|Hin]%elem_of_cons & Hcp & Hne & Hreach).
        -- left. by exists c, s.
        -- right. exists i, inp, c, s. repeat split; try done.
           by eapply grows_reachable.
Qed.

Lemma elem_of_inputLinks node blk c :
  c ∈ inputLinks node blk
  ↔ ∃ input s, input ∈ inputs blk ∧ connectedPoint input = Some (c, s) ∧ c ≠ node.
Proof.
  unfold inputLinks. rewrite list_elem_of_omap. split.
  - intros (input & Hin & Hsel). destruct (connectedPoint input) as [[c' s]|] eqn:Hcp; [|done].
    destruct (bool_decide (c' ≠ node)) eqn:E; [|done]. injection Hsel as ->.
    apply bool_decide_eq_true_1 in E. by exists input, s.
  - intros (input & s & Hin & Hcp & Hne). exists input. split; [done|].
    rewrite Hcp. by rewrite bool_decide_eq_true_2.
Qed.

Lemma elem_of_imap_pair {A} (l : list A) (i : nat) (a : A) :
  (i, a) ∈ imap pair l → a ∈ l.
Proof.
  intros (j & a' & [= -> ->] & Hl)%elem_of_lookup_imap. by eapply list_elem_of_lookup_2.
Qed.

Lemma elem_of_imap_pair_2 {A} (l : list A) (a : A) :
  a ∈ l → ∃ i, (i, a) ∈ imap pair l.
Proof.
  intros (i & Hi)%list_elem_of_lookup_1. exists i.
  apply elem_of_lookup_imap. by exists i, a.
Qed.

Lemma visitTeleport_walk node blk nodes m :
  wellFormed rank m → blocks m !! node = Some blk → (rank node < S fuel)%nat →
  walkOutcome rank m
    (λ x, ∃ c, c ∈ teleportLinks blk ∧ reachable (blocks m) c x)
    (visitTeleport fuel state autoConfigure blk nodes m).
Proof.
  intros Hwf Hblk Hrank. unfold visitTeleport, teleportLinks.
  destruct (isTeleportOut blk) eqn:Ht.
  - destruct (entryPoint blk) as [entry|] eqn:He.
    + assert (edge (blocks m) node entry) as Hedge.
      { exists blk. split; [done|]. unfold links, teleportLinks. rewrite Ht, He.
        apply elem_of_app. right. by apply list_elem_of_singleton. }
      destruct Hwf as (Hc & Hr & Ha).
      eapply walkOutcome_weaken; [|apply processLink_walk].
      * by intros x (c & ->%list_elem_of_singleton & Hreach).
      * done.
      * by apply (Hc node).
      * specialize (Hr node entry Hedge). lia.
    + simpl. split; [by apply initialized_refl|]. by intros x (c & ?%elem_of_nil & _).
  - simpl. split; [by apply initialized_refl|]. by intros x (c & ?%elem_of_nil & _).
Qed.

Lemma visitLinks_walk node nodes m :
  wellFormed rank m → is_Some (blocks m !! node) → (rank node < S fuel)%nat →
  walkOutcome rank m
    (λ x, ∃ c, edge (blocks m) node c ∧ reachable (blocks m) c x)
    ((blk <- getBlock node ;;
      nodes <- visitInputs fuel node state autoConfigure nodes (imap pair (inputs blk)) ;;
      blk <- getBlock node ;;
      nodes <- visitTeleport fuel state autoConfigure blk nodes ;;
      clearOutputVariableNames node ;;;
      ret nodes) m).
Proof.
  intros Hwf [blk Hblk] Hrank.
  unfold bind at 1. unfold getBlock at 1. rewrite Hblk.
  apply (walkOutcome_bind rank m (viaInputs node (imap pair (inputs blk)) m)); [done| |].
  - apply visitInputs_walk; [done | by eexists |].
    intros i input c s Hin%elem_of_imap_pair Hcp Hne.
    assert (edge (blocks m) node c) as Hedge.
    { exists blk. split; [done|]. apply elem_of_app. left.
      apply elem_of_inputLinks. by exists input, s. }
    destruct Hwf as (Hc & Hr & Ha). split; [by apply (Hc node)|].
    specialize (Hr node c Hedge). lia.
  - intros nodes1 m1 _ Hinit1.
    assert (Hwf1 : wellFormed rank m1) by apply Hinit1.
    assert (Hg1 : grows (blocks m) (blocks m1)) by apply Hinit1.
    destruct (Hg1 node blk Hblk) as (blk1 & Hblk1 & _ & _ & _ & Htele).
    exists (λ x, ∃ c, c ∈ teleportLinks blk1 ∧ reachable (blocks m1) c x). split.
    + unfold bind at 1. unfold getBlock at 1. rewrite Hblk1.
      apply (walkOutcome_bind rank m1
               (λ x, ∃ c, c ∈ teleportLinks blk1 ∧ reachable (blocks m1) c x));
        [done | by apply (visitTeleport_walk node) |].
      intros nodes2 m2 _ Hinit2.
      assert (Hwf2 : wellFormed rank m2) by apply Hinit2.
      exists (λ _, False). split; [|by auto].
      destruct (updateBlock_initialized rank _ node m2 Hwf2
                  (grows_is_Some _ _ _ (proj1 (proj2 Hinit2)) (ltac:(by eexists)))
                  keepsShape_clearOutputs) as (m3 & Hrun3 & Hinit3 & _).
      unfold clearOutputVariableNames, bind. rewrite Hrun3.
      by apply walkOutcome_ok.
    + intros x (c & (blk' & Hblk' & Hc) & Hreach).
      rewrite Hblk in Hblk'. injection Hblk' as <-.
      apply elem_of_app in Hc as [Hc|Hc].
      * left. apply elem_of_inputLinks in Hc as (input & s & Hin & Hcp & Hne).
        destruct (elem_of_imap_pair_2 _ _ Hin) as [i Hi].
        by exists i, input, c, s.
      * right. exists c. split; [by apply Htele | by eapply grows_reachable].
Qed.

Lemma initializeBlock_step node nodes m :
  wellFormed rank m → is_Some (blocks m !! node) → (rank node < S fuel)%nat →
  walkOutcome rank m (reachable (blocks m) node)
    (_initializeBlock blockInitialize blockAutoConfigure (S fuel) node state nodes
       autoConfigure m).
Proof.
  intros Hwf Hnode Hrank. rewrite initializeBlock_unfold.
  assert (Hmono : ∀ m m1 x, grows (blocks m) (blocks m1) →
            reachable (blocks m) node x → reachable (blocks m1) node x)
    by (intros; by eapply grows_reachable).
  (* node.initialize(state) *)
  apply (walk_neutral (λ m x, reachable (blocks m) node x)); [done | by apply Hmono |].
  exists tt, (blockInitialize node state m). split; [reflexivity|].
  split; [by apply wellBehaved_initialized|]. intros Hwf1 Hg1.
  assert (Hnode1 := grows_is_Some _ _ _ Hg1 Hnode).
  set (m1 := blockInitialize node state m) in *. clearbody m1. clear Hg1.
  (* node.autoConfigure(this) *)
  apply (walk_neutral (λ m x, reachable (blocks m) node x)); [done | by apply Hmono |].
  exists tt, (if autoConfigure then blockAutoConfigure node m1 else m1).
  split; [by destruct autoConfigure|].
  split; [destruct autoConfigure;
            [by apply wellBehaved_initialized | by apply initialized_refl]|].
  intros Hwf2 Hg2. assert (Hnode2 := grows_is_Some _ _ _ Hg2 Hnode1).
  set (m2 := if autoConfigure then _ else _) in *. clearbody m2. clear Hg2.
  (* node._preparationId = this._buildId *)
  unfold bind at 1. unfold get at 1.
  apply (walk_neutral (λ m x, reachable (blocks m) node x)); [done | by apply Hmono |].
  destruct (updateBlock_initialized rank (withPreparationId (_buildId m2)) node m2
              Hwf2 Hnode2 (keepsShape_withPreparationId _))
    as (m3 & Hrun3 & Hinit3 & _).
  exists tt, m3. split; [done|]. split; [done|]. intros Hwf3 Hg3.
  assert (Hnode3 := grows_is_Some _ _ _ Hg3 Hnode2). clear Hg3 Hinit3 Hrun3.
  (* attachedBlocks *)
  unfold bind at 1. unfold get at 1.
  apply (walkOutcome_bind rank m3 (λ x, x = node)); [done | by apply attachIfNew_spec |].
  intros [] m4 _ Hinit4.
  assert (Hwf4 : wellFormed rank m4) by apply Hinit4.
  assert (Hg4 : grows (blocks m3) (blocks m4)) by apply Hinit4.
  exists (λ x, ∃ c, edge (blocks m4) node c ∧ reachable (blocks m4) c x). split.
  - apply visitLinks_walk; [done | by eapply grows_is_Some | done].
  - intros x [->|(c & Hedge & Hreach)]%rtc_inv; [by left|]. right.
    exists c. split; [by eapply grows_edge | by eapply grows_reachable].
Qed.

End Walk.

(** The walk from a block of a well-formed material, with fuel above the
    rank of the block, attaches every block reachable from it or throws
    the uniqueness error. *)
Lemma initializeBlock_walk (fuel : nat) :
  ∀ state autoConfigure node nodes m,
    wellFormed rank m → is_Some (blocks m !! node) → (rank node < fuel)%nat →
    walkOutcome rank m (reachable (blocks m) node)
      (_initializeBlock blockInitialize blockAutoConfigure fuel node state nodes
         autoConfigure m).
Proof.
  induction fuel as [|fuel IH]; intros state autoConfigure node nodes m Hwf Hnode Hrank;
    [lia|].
  apply initializeBlock_step; [|done..].
  intros node' nodes' m'. apply IH.
Qed.

Lemma initializeRoots_walk {Acc} (fuel : nat) (state : Stage) (autoConfigure : bool)
    (sel : Acc → list BlockId) (upd : Acc → BlockId → list BlockId → Acc)
    (roots : list BlockId) :
  ∀ acc m,
    wellFormed rank m →
    (∀ r, r ∈ roots → is_Some (blocks m !! r) ∧ (rank r < fuel)%nat) →
    walkOutcome rank m (reachableFrom (blocks m) roots)
      (foldM (λ acc node,
         nodes <- _initializeBlock blockInitialize blockAutoConfigure fuel node
                    state (sel acc) autoConfigure ;;
         ret (upd acc node nodes)) acc roots m).
Proof.
  induction roots as [|r roots IH]; intros acc m Hwf Hroots.
  - simpl. split; [by apply initialized_refl|].
    by intros x (r & ?%elem_of_nil & _).
  - cbn [foldM].
    apply (walkOutcome_bind rank m (reachable (blocks m) r)); [done| |].
    + pose proof (initializeBlock_walk fuel state autoConfigure r (sel acc) m Hwf) as Hw.
      destruct (Hroots r) as [Hr Hrank]; [by left|]. specialize (Hw Hr Hrank).
      unfold bind.
      by destruct (_initializeBlock _ _ _ _ _ _ _ m) as [nodes m1|[msg| |] m1].
    + intros acc1 m1 _ Hinit1.
      assert (Hwf1 : wellFormed rank m1) by apply Hinit1.
      assert (Hg1 : grows (blocks m) (blocks m1)) by apply Hinit1.
      exists (reachableFrom (blocks m1) roots). split.
      * apply IH; [done|]. intros r' Hr'. destruct (Hroots r') as [? ?]; [by right|].
        split; [by eapply grows_is_Some | done].
      * intros x (r' & [->|Hr']%elem_of_cons & Hreach); [by left|].
        right. exists r'. split; [done | by eapply grows_reachable].
Qed.

Lemma initializeBlocks_walk (fuel : nat) (autoConfigure : bool) (m : NodeMaterial) :
  wellFormed rank m →
  (∀ r, r ∈ _vertexOutputNodes m ++ _fragmentOutputNodes m →
        is_Some (blocks m !! r) ∧ (rank r < fuel)%nat) →
  walkOutcome rank m
    (reachableFrom (blocks m) (_vertexOutputNodes m ++ _fragmentOutputNodes m))
    (initializeBlocks blockInitialize blockAutoConfigure fuel autoConfigure m).
Proof.
  intros Hwf Hroots. unfold initializeBlocks.
  unfold bind at 1. unfold get at 1.
  apply (walkOutcome_bind rank m (reachableFrom (blocks m) (_vertexOutputNodes m)));
    [done| |].
  - erewrite foldM_ext;
      [apply (initializeRoots_walk fuel VertexStage autoConfigure snd
                (λ acc node nodes, (acc.1 ++ [node], nodes)))|].
    + done.
    + intros r Hr. apply Hroots, elem_of_app. by left.
    + by intros [vn fn] node m0.
  - intros vf m1 _ Hinit1.
    assert (Hwf1 : wellFormed rank m1) by apply Hinit1.
    assert (Hg1 : grows (blocks m) (blocks m1)) by apply Hinit1.
    destruct Hinit1 as (_ & _ & _ & _ & Hfrag).
    exists (reachableFrom (blocks m1) (_fragmentOutputNodes m)). split.
    + unfold bind at 1. unfold get at 1. rewrite Hfrag.
      erewrite foldM_ext;
        [apply (initializeRoots_walk fuel FragmentStage autoConfigure fst
                  (λ acc node nodes, (nodes, acc.2 ++ [node])))|].
      * done.
      * intros r Hr. destruct (Hroots r) as [? ?]; [apply elem_of_app; by right|].
        split; [by eapply grows_is_Some | done].
      * by intros [vn fn] node m0.
    + intros x (r & [Hr|Hr]%elem_of_app & Hreach).
      * left. by exists r.
      * right. exists r. split; [done | by eapply grows_reachable].
Qed.

(** *** The nodes kept for the other build state *)

(** From [nodes] to [nodes'] a walk pushes blocks, which are attached in
    [m']. *)
Definition pushes (nodes nodes' : list BlockId) (m' : NodeMaterial) : Prop :=
  ∃ pushed, nodes' = nodes ++ pushed ∧ ∀ x, x ∈ pushed → x ∈ attachedBlocks m'.

Lemma pushes_refl nodes m : pushes nodes nodes m.
Proof. exists []. split; [by rewrite app_nil_r|]. by intros x ?%elem_of_nil. Qed.

Lemma pushes_trans nodes1 nodes2 nodes3 m2 m3 :
  pushes nodes1 nodes2 m2 → initialized rank m2 m3 → pushes nodes2 nodes3 m3 →
  pushes nodes1 nodes3 m3.
Proof.
  intros (p1 & -> & H1) Hinit (p2 & -> & H2). exists (p1 ++ p2).
  split; [by rewrite app_assoc|].
  intros x [Hx|Hx]%elem_of_app; [|by apply H2].
  eapply initialized_attached; [done | by apply H1].
Qed.

Lemma pushes_snoc nodes nodes' x m' :
  x ∈ attachedBlocks m' → pushes (nodes ++ [x]) nodes' m' → pushes nodes nodes' m'.
Proof.
  intros Hx (p & -> & Hp). exists (x :: p). split; [by rewrite <- app_assoc|].
  intros y [->|Hy]%elem_of_cons; [done | by apply Hp].
Qed.

Section Pushes.

Variable fuel : nat.
Variable state : Stage.
Variable autoConfigure : bool.
Hypothesis IHpushes :
  ∀ node nodes m nodes' m',
    wellFormed rank m → is_Some (blocks m !! node) → (rank node < fuel)%nat →
    _initializeBlock blockInitialize blockAutoConfigure fuel node state nodes
      autoConfigure m = Ok nodes' m' →
    pushes nodes nodes' m'.

Lemma processLink_pushes block nodes m nodes' m' :
  wellFormed rank m → is_Some (blocks m !! block) → (rank block < fuel)%nat →
  processLink fuel state autoConfigure block nodes m = Ok nodes' m' →
  pushes nodes nodes' m' ∧ initialized rank m m'.
Proof.
  intros Hwf [b Hb] Hrank Hrun.
  pose proof (processLink_walk fuel state autoConfigure
                (initializeBlock_walk fuel state autoConfigure) block nodes m Hwf
                (ex_intro _ b Hb) Hrank) as Hw.
  rewrite Hrun in Hw. destruct Hw as [Hinit Hvis].
  assert (block ∈ attachedBlocks m') as Hblock by apply Hvis, rtc_refl.
  split; [|done].
  unfold processLink in Hrun. revert Hrun. munfold. rewrite Hb. intros Hrun.
  apply IHpushes in Hrun; [|done|by eexists|done].
  destruct (bool_decide (target b = Some VertexAndFragment));
    [by apply (pushes_snoc _ _ block)|].
  destruct (_ && _); [by apply (pushes_snoc _ _ block) | done].
Qed.

Lemma visitInputs_pushes node l :
  ∀ nodes m nodes' m',
    wellFormed rank m → is_Some (blocks m !! node) →
    (∀ i input c s, (i, input) ∈ l → connectedPoint input = Some (c, s) → c ≠ node →
                    is_Some (blocks m !! c) ∧ (rank c < fuel)%nat) →
    visitInputs fuel node state autoConfigure nodes l m = Ok nodes' m' →
    pushes nodes nodes' m' ∧ initialized rank m m'.
Proof.
  induction l as [|[index input] l IHl]; intros nodes m nodes' m' Hwf Hnode Hl Hrun.
  - simpl in Hrun. injection Hrun as <- <-.
    split; [apply pushes_refl | by apply initialized_refl].
  - unfold visitInputs in Hrun. cbn [foldM] in Hrun.
    fold (visitInputs fuel node state autoConfigure) in Hrun.
    destruct (updateBlock_initialized rank _ node m Hwf Hnode
                (keepsShape_clearInput index)) as (m1 & Hrun1 & Hinit1 & _).
    assert (Hwf1 : wellFormed rank m1) by apply Hinit1.
    assert (Hg1 : grows (blocks m) (blocks m1)) by apply Hinit1.
    unfold bind at 1 in Hrun. unfold bind at 1 in Hrun.
    unfold clearInputVariableName in Hrun. rewrite Hrun1 in Hrun.
    assert (Hbody : ∀ nodes1 m2,
      match connectedPoint input with
      | Some (block, _) =>
          if bool_decide (block ≠ node)
          then processLink fuel state autoConfigure block nodes
          else ret nodes
      | None => ret nodes
      end m1 = Ok nodes1 m2 →
      pushes nodes nodes1 m2 ∧ initialized rank m1 m2).
    { intros nodes1 m2 Hb. destruct (connectedPoint input) as [[c s]|] eqn:Hcp.
      - destruct (bool_decide_reflect (c ≠ node)) as [Hne|Heq].
        + destruct (Hl index input c s) as [Hc Hrank]; [by left|done|done|].
          apply (processLink_pushes c); [done | by eapply grows_is_Some | done | done].
        + injection Hb as <- <-. split; [apply pushes_refl | by apply initialized_refl].
      - injection Hb as <- <-. split; [apply pushes_refl | by apply initialized_refl]. }
    destruct (match connectedPoint input with _ => _ end m1) as [nodes1 m2|e m2]
      eqn:Hb; [|done].
    destruct (Hbody nodes1 m2 eq_refl) as [Hp12 Hinit12].
    assert (Hwf2 : wellFormed rank m2) by apply Hinit12.
    assert (Hg2 : grows (blocks m1) (blocks m2)) by apply Hinit12.
    destruct (IHl nodes1 m2 nodes' m') as [Hp2 Hinit2]; [done| | |done|].
    + do 2 (eapply grows_is_Some; [done|]). done.
    + intros i inp c s Hin Hcp Hne.
      destruct (Hl i inp c s) as [Hc Hrank]; [by right|done|done|].
      split; [|done]. do 2 (eapply grows_is_Some; [done|]). done.
    + split; [by eapply pushes_trans|].
      eapply initialized_trans; [done | |done].
      eapply initialized_trans; [done | done | done].
Qed.

Lemma visitTeleport_pushes node blk nodes m nodes' m' :
  wellFormed rank m → blocks m !! node = Some blk → (rank node < S fuel)%nat →
  visitTeleport fuel state autoConfigure blk nodes m = Ok nodes' m' →
  pushes nodes nodes' m' ∧ initialized rank m m'.
Proof.
  intros Hwf Hblk Hrank Hrun. unfold visitTeleport in Hrun.
  destruct (isTeleportOut blk) eqn:Ht.
  - destruct (entryPoint blk) as [entry|] eqn:He.
    + assert (edge (blocks m) node entry) as Hedge.
      { exists blk. split; [done|]. unfold links, teleportLinks. rewrite Ht, He.
        apply elem_of_app. right. by apply list_elem_of_singleton. }
      destruct Hwf as (Hc & Hr & Ha).
      apply (processLink_pushes entry); [done | by apply (Hc node) | | done].
      specialize (Hr node entry Hedge). lia.
    + injection Hrun as <- <-. split; [apply pushes_refl | by apply initialized_refl].
  - injection Hrun as <- <-. split; [apply pushes_refl | by apply initialized_refl].
Qed.

Lemma initializeBlock_pushes_step node nodes m nodes' m' :
  wellFormed rank m → is_Some (blocks m !! node) → (rank node < S fuel)%nat →
  _initializeBlock blockInitialize blockAutoConfigure (S fuel) node state nodes
    autoConfigure m = Ok nodes' m' →
  pushes nodes nodes' m'.
Proof.
  intros Hwf Hnode Hrank Hrun. rewrite initializeBlock_unfold in Hrun.
  (* node.initialize(state) *)
  unfold bind at 1 in Hrun. unfold modify at 1 in Hrun.
  pose proof (wellBehaved_initialized rank _ m (initialize_wellBehaved node state) Hwf)
    as Hinit1.
  set (m1 := blockInitialize node state m) in *.
  assert (Hwf1 : wellFormed rank m1) by apply Hinit1.
  assert (Hnode1 : is_Some (blocks m1 !! node))
    by (eapply grows_is_Some; [apply Hinit1 | done]).
  clearbody m1. clear Hinit1.
  (* node.autoConfigure(this) *)
  unfold bind at 1 in Hrun.
  assert (∃ m2, (if autoConfigure then modify (blockAutoConfigure node) else ret tt) m1
                = Ok tt m2 ∧ initialized rank m1 m2) as (m2 & Hrun2 & Hinit2).
  { destruct autoConfigure; eexists; (split; [reflexivity|]);
      [by apply wellBehaved_initialized | by apply initialized_refl]. }
  rewrite Hrun2 in Hrun.
  assert (Hwf2 : wellFormed rank m2) by apply Hinit2.
  assert (Hnode2 : is_Some (blocks m2 !! node))
    by (eapply grows_is_Some; [apply Hinit2 | done]).
  clear Hrun2 Hinit2.
  (* node._preparationId = this._buildId *)
  unfold bind at 1 in Hrun. unfold get at 1 in Hrun.
  destruct (updateBlock_initialized rank (withPreparationId (_buildId m2)) node m2
              Hwf2 Hnode2 (keepsShape_withPreparationId _))
    as (m3 & Hrun3 & Hinit3 & _).
  unfold bind at 1 in Hrun. rewrite Hrun3 in Hrun.
  assert (Hwf3 : wellFormed rank m3) by apply Hinit3.
  assert (Hnode3 : is_Some (blocks m3 !! node))
    by (eapply grows_is_Some; [apply Hinit3 | done]).
  clear Hrun3 Hinit3.
  (* attachedBlocks *)
  unfold bind at 1 in Hrun. unfold get at 1 in Hrun.
  unfold bind at 1 in Hrun.
  pose proof (attachIfNew_spec node m3 Hwf3 Hnode3) as Hw4.
  destruct (attachIfNew m3 node m3) as [[] m4|e m4]; [|done].
  destruct Hw4 as [Hinit4 _].
  assert (Hwf4 : wellFormed rank m4) by apply Hinit4.
  assert (Hnode4 : is_Some (blocks m4 !! node))
    by (eapply grows_is_Some; [apply Hinit4 | done]).
  clear Hinit4. destruct Hnode4 as [blk4 Hblk4].
  (* the inputs *)
  unfold bind at 1 in Hrun. unfold getBlock at 1 in Hrun. rewrite Hblk4 in Hrun.
  unfold bind at 1 in Hrun.
  destruct (visitInputs fuel node state autoConfigure nodes (imap pair (inputs blk4)) m4)
    as [nodes5 m5|e m5] eqn:Hrun5; [|done].
  destruct (visitInputs_pushes node (imap pair (inputs blk4)) nodes m4 nodes5 m5)
    as [Hp5 Hinit5]; [done | by eexists | | done |].
  { intros i input c s Hin%elem_of_imap_pair Hcp Hne.
    assert (edge (blocks m4) node c) as Hedge.
    { exists blk4. split; [done|]. apply elem_of_app. left.
      apply elem_of_inputLinks. by exists input, s. }
    destruct Hwf4 as (Hc & Hr & Ha). split; [by apply (Hc node)|].
    specialize (Hr node c Hedge). lia. }
  assert (Hwf5 : wellFormed rank m5) by apply Hinit5.
  destruct (proj1 (proj2 Hinit5) node blk4 Hblk4) as (blk5 & Hblk5 & _).
  (* the teleport link *)
  unfold bind at 1 in Hrun. unfold getBlock at 1 in Hrun. rewrite Hblk5 in Hrun.
  unfold bind at 1 in Hrun.
  destruct (visitTeleport fuel state autoConfigure blk5 nodes5 m5)
    as [nodes6 m6|e m6] eqn:Hrun6; [|done].
  destruct (visitTeleport_pushes node blk5 nodes5 m5 nodes6 m6) as [Hp6 Hinit6];
    [done..|].
  assert (Hwf6 : wellFormed rank m6) by apply Hinit6.
  destruct (proj1 (proj2 Hinit6) node blk5 Hblk5) as (blk6 & Hblk6 & _).
  (* the outputs *)
  destruct (updateBlock_initialized rank _ node m6 Hwf6 (ex_intro _ blk6 Hblk6)
              keepsShape_clearOutputs) as (m7 & Hrun7 & Hinit7 & _).
  unfold bind at 1 in Hrun. unfold clearOutputVariableNames in Hrun.
  rewrite Hrun7 in Hrun. injection Hrun as <- <-.
  eapply pushes_trans; [exact Hp5 | |].
  - eapply initialized_trans; [done | exact Hinit6 | exact Hinit7].
  - destruct Hp6 as (p & -> & Hp). exists p. split; [done|].
    intros x Hx. eapply initialized_attached; [exact Hinit7 | by apply Hp].
Qed.

End Pushes.

(** The blocks that a walk pushes for the other build state are attached
    when the walk returns. *)
Lemma initializeBlock_pushes (fuel : nat) :
  ∀ state autoConfigure node nodes m nodes' m',
    wellFormed rank m → is_Some (blocks m !! node) → (rank node < fuel)%nat →
    _initializeBlock blockInitialize blockAutoConfigure fuel node state nodes
      autoConfigure m = Ok nodes' m' →
    pushes nodes nodes' m'.
Proof.
  induction fuel as [|fuel IH]; intros state autoConfigure node nodes m nodes' m'
    Hwf Hnode Hrank Hrun; [lia|].
  eapply (initializeBlock_pushes_step fuel state autoConfigure); [|done..].
  intros node0 nodes0 m0 nodes0' m0'. apply IH.
Qed.

(** The first initialization loop of [build] lists the vertex output
    nodes; the blocks it pushes for the fragment stage are attached. *)
Lemma initializeVertexRoots_nodes (fuel : nat) (autoConfigure : bool)
    (roots : list BlockId) :
  ∀ vn fn m vn' fn' m',
    wellFormed rank m →
    (∀ r, r ∈ roots → is_Some (blocks m !! r) ∧ (rank r < fuel)%nat) →
    foldM (λ '(vertexNodes, fragmentNodes) vertexOutputNode,
      fragmentNodes <- _initializeBlock blockInitialize blockAutoConfigure fuel
                         vertexOutputNode VertexStage fragmentNodes autoConfigure ;;
      ret (vertexNodes ++ [vertexOutputNode], fragmentNodes))
      (vn, fn) roots m = Ok (vn', fn') m' →
    vn' = vn ++ roots ∧ pushes fn fn' m' ∧ initialized rank m m'
    ∧ ∀ r, r ∈ roots → r ∈ attachedBlocks m'.
Proof.
  induction roots as [|r roots IH]; intros vn fn m vn' fn' m' Hwf Hroots Hrun.
  - simpl in Hrun. injection Hrun as <- <- <-. rewrite app_nil_r.
    split; [done|]. split; [apply pushes_refl|]. split; [by apply initialized_refl|].
    by intros r ?%elem_of_nil.
  - cbn [foldM] in Hrun. unfold bind at 1 in Hrun. unfold bind at 1 in Hrun.
    destruct (Hroots r) as [Hr Hrank]; [by left|].
    pose proof (initializeBlock_walk fuel VertexStage autoConfigure r fn m Hwf Hr Hrank)
      as Hw.
    destruct (_initializeBlock _ _ fuel r VertexStage fn autoConfigure m)
      as [fn1 m1|e m1] eqn:Hrun1; [|done].
    destruct Hw as [Hinit1 Hvis1].
    pose proof (initializeBlock_pushes fuel _ _ _ _ _ _ _ Hwf Hr Hrank Hrun1) as Hp1.
    assert (Hwf1 : wellFormed rank m1) by apply Hinit1.
    unfold ret at 1 in Hrun.
    destruct (IH (vn ++ [r]) fn1 m1 vn' fn' m' Hwf1) as (Hvn & Hp2 & Hinit2 & Hatt2);
      [|done|].
    { intros r' Hr'. destruct (Hroots r') as [? ?]; [by right|].
      split; [|done]. eapply grows_is_Some; [apply Hinit1 | done]. }
    split; [by rewrite Hvn, <- app_assoc|].
    split; [by eapply pushes_trans|].
    split; [by eapply initialized_trans|].
    intros r' [->|Hr']%elem_of_cons; [|by apply Hatt2].
    eapply initialized_attached; [exact Hinit2 | apply Hvis1, rtc_refl].
Qed.

(** The second loop lists the fragment output nodes after the blocks
    pushed by the first one. *)
Lemma initializeFragmentRoots_nodes (fuel : nat) (autoConfigure : bool)
    (roots : list BlockId) :
  ∀ vn fn m vn' fn' m',
    wellFormed rank m →
    (∀ r, r ∈ roots → is_Some (blocks m !! r) ∧ (rank r < fuel)%nat) →
    foldM (λ '(vertexNodes, fragmentNodes) fragmentOutputNode,
      vertexNodes <- _initializeBlock blockInitialize blockAutoConfigure fuel
                       fragmentOutputNode FragmentStage vertexNodes autoConfigure ;;
      ret (vertexNodes, fragmentNodes ++ [fragmentOutputNode]))
      (vn, fn) roots m = Ok (vn', fn') m' →
    fn' = fn ++ roots ∧ pushes vn vn' m' ∧ initialized rank m m'
    ∧ ∀ r, r ∈ roots → r ∈ attachedBlocks m'.
Proof.
  induction roots as [|r roots IH]; intros vn fn m vn' fn' m' Hwf Hroots Hrun.
  - simpl in Hrun. injection Hrun as <- <- <-. rewrite app_nil_r.
    split; [done|]. split; [apply pushes_refl|]. split; [by apply initialized_refl|].
    by intros r ?%elem_of_nil.
  - cbn [foldM] in Hrun. unfold bind at 1 in Hrun. unfold bind at 1 in Hrun.
    destruct (Hroots r) as [Hr Hrank]; [by left|].
    pose proof (initializeBlock_walk fuel FragmentStage autoConfigure r vn m Hwf Hr Hrank)
      as Hw.
    destruct (_initializeBlock _ _ fuel r FragmentStage vn autoConfigure m)
      as [vn1 m1|e m1] eqn:Hrun1; [|done].
    destruct Hw as [Hinit1 Hvis1].
    pose proof (initializeBlock_pushes fuel _ _ _ _ _ _ _ Hwf Hr Hrank Hrun1) as Hp1.
    assert (Hwf1 : wellFormed rank m1) by apply Hinit1.
    unfold ret at 1 in Hrun.
    destruct (IH vn1 (fn ++ [r]) m1 vn' fn' m' Hwf1) as (Hfn & Hp2 & Hinit2 & Hatt2);
      [|done|].
    { intros r' Hr'. destruct (Hroots r') as [? ?]; [by right|].
      split; [|done]. eapply grows_is_Some; [apply Hinit1 | done]. }
    split; [by rewrite Hfn, <- app_assoc|].
    split; [by eapply pushes_trans|].
    split; [by eapply initialized_trans|].
    intros r' [->|Hr']%elem_of_cons; [|by apply Hatt2].
    eapply initialized_attached; [exact Hinit2 | apply Hvis1, rtc_refl].
Qed.

(** What the initialization loops return: [fragmentNodes] ends with the
    fragment output nodes, and every block of it is attached. *)
Lemma initializeBlocks_nodes (fuel : nat) (autoConfigure : bool)
    (m : NodeMaterial) (nodes : list BlockId * list BlockId) (m' : NodeMaterial) :
  wellFormed rank m →
  (∀ r, r ∈ _vertexOutputNodes m ++ _fragmentOutputNodes m →
        is_Some (blocks m !! r) ∧ (rank r < fuel)%nat) →
  initializeBlocks blockInitialize blockAutoConfigure fuel autoConfigure m
  = Ok nodes m' →
  initialized rank m m'
  ∧ (∃ pushed, nodes.2 = pushed ++ _fragmentOutputNodes m)
  ∧ ∀ x, x ∈ nodes.2 → x ∈ attachedBlocks m'.
Proof.
  intros Hwf Hroots Hrun. unfold initializeBlocks in Hrun.
  unfold bind at 1 in Hrun. unfold get at 1 in Hrun. unfold bind at 1 in Hrun.
  destruct (foldM _ ([], []) (_vertexOutputNodes m) m) as [[vn1 fn1] m1|e m1] eqn:Hrun1;
    [|done].
  destruct (initializeVertexRoots_nodes fuel autoConfigure _ _ _ _ _ _ _ Hwf
              (λ r Hr, Hroots r (proj2 (elem_of_app _ _ r) (or_introl Hr))) Hrun1)
    as (_ & (p1 & Hfn1 & Hp1) & Hinit1 & _).
  simpl in Hfn1. subst fn1.
  assert (Hwf1 : wellFormed rank m1) by apply Hinit1.
  assert (Hg1 : grows (blocks m) (blocks m1)) by apply Hinit1.
  assert (Hf1 : _fragmentOutputNodes m1 = _fragmentOutputNodes m) by apply Hinit1.
  unfold bind at 1 in Hrun. unfold get at 1 in Hrun. rewrite Hf1 in Hrun.
  destruct nodes as [vn fn].
  destruct (initializeFragmentRoots_nodes fuel autoConfigure _ _ _ _ _ _ _ Hwf1
              (λ r Hr, conj (grows_is_Some _ _ _ Hg1
                               (proj1 (Hroots r (proj2 (elem_of_app _ _ r) (or_intror Hr)))))
                            (proj2 (Hroots r (proj2 (elem_of_app _ _ r) (or_intror Hr)))))
              Hrun)
    as (Hfn & _ & Hinit2 & Hatt2).
  split; [by eapply initialized_trans|].
  cbn [snd]. split; [by exists p1|].
  rewrite Hfn. intros x [Hx|Hx]%elem_of_app; [|by apply Hatt2].
  eapply initialized_attached; [exact Hinit2 | by apply Hp1].
Qed.

Variable blockBuild : BlockId → Stage → list BlockId → NodeMaterial → NodeMaterial.
Variable optimizers : list (NodeMaterial → NodeMaterial).
Variable finalize : Stage → NodeMaterial → NodeMaterial.
Variable emitErrors : NodeMaterial → option string.
Variable afterBuild : M unit.
Variable supportsUniformBuffers : bool.

(** On a material that passes the two structural checks, [build] is the
    initialization followed by the stages. *)
Lemma build_after_checks (fuel : nat) (verbose updateBuildId autoConfigure : bool)
    (m : NodeMaterial) :
  _fragmentOutputNodes m ≠ [] →
  _vertexOutputNodes m ≠ [] ∨ _mode m = Particle →
  build blockInitialize blockAutoConfigure blockBuild optimizers finalize
    emitErrors afterBuild supportsUniformBuffers
    fuel verbose updateBuildId autoConfigure m
  = (nodes <- initializeForBuild blockInitialize blockAutoConfigure
               supportsUniformBuffers fuel verbose autoConfigure ;;
     buildStages blockBuild optimizers finalize emitErrors afterBuild
       fuel updateBuildId nodes.1 nodes.2) m.
Proof.
  intros Hfrag Hvert.
  unfold build, initializeForBuild. unfold bind at 1. unfold get at 1.
  unfold bind at 1. unfold modify at 1. unfold bind at 1. unfold get at 1.
  cbn [_vertexOutputNodes _fragmentOutputNodes _mode withBuildWasSuccessful].
  assert (Hv : bool_decide (length (_vertexOutputNodes m) = 0)
               && negb (bool_decide (_mode m = Particle)) = false).
  { destruct Hvert as [Hv|Hp].
    - rewrite bool_decide_eq_false_2; [done|]. by intros ?%nil_length_inv.
    - rewrite (bool_decide_eq_true_2 _ Hp). apply andb_false_r. }
  rewrite Hv. rewrite bool_decide_eq_false_2 by (by intros ?%nil_length_inv).
  reflexivity.
Qed.

(** The initialization of [build] runs the two loops on the material with
    its build states allocated. *)
Lemma initializeForBuild_unfold (fuel : nat) (verbose autoConfigure : bool)
    (m : NodeMaterial) :
  initializeForBuild blockInitialize blockAutoConfigure supportsUniformBuffers
    fuel verbose autoConfigure m
  = initializeBlocks blockInitialize blockAutoConfigure fuel
      (if negb (bool_decide (is_Some (_vertexCompilationState m))) && negb autoConfigure
       then true else autoConfigure)
      (allocateStates supportsUniformBuffers verbose (bool_decide (_mode m = Particle))
         (withBuildWasSuccessful false m)).
Proof. reflexivity. Qed.

(** C7 (as amended). Take a well-formed material without cycle that passes
    the structural checks of [build], and two distinct blocks of one class
    restricted to one instance, both reachable from the output nodes and
    not both attached already.  Then the initialization of the blocks in
    [build] raises the uniqueness error, and [build] ends there with that
    error and the material as the initialization left it, whatever the
    blocks, the optimizers and the build states would do in the stages: no
    stage is built. *)
Theorem build_uniqueness_error (fuel : nat)
    (verbose autoConfigure : bool) (m : NodeMaterial)
    (a b : BlockId) (cls : string) :
  wellFormed rank m →
  (∀ r, r ∈ _vertexOutputNodes m ++ _fragmentOutputNodes m →
        is_Some (blocks m !! r) ∧ (rank r < fuel)%nat) →
  _fragmentOutputNodes m ≠ [] →
  _vertexOutputNodes m ≠ [] ∨ _mode m = Particle →
  a ≠ b →
  kindOf (blocks m) a = Some (cls, true) →
  kindOf (blocks m) b = Some (cls, true) →
  reachableFrom (blocks m) (_vertexOutputNodes m ++ _fragmentOutputNodes m) a →
  reachableFrom (blocks m) (_vertexOutputNodes m ++ _fragmentOutputNodes m) b →
  ¬ (a ∈ attachedBlocks m ∧ b ∈ attachedBlocks m) →
  ∃ c m',
    initializeForBuild blockInitialize blockAutoConfigure supportsUniformBuffers
      fuel verbose autoConfigure m
    = Fail (Thrown (multipleBlocks c)) m'
    ∧ ∀ blockBuild' optimizers' finalize' emitErrors' afterBuild' updateBuildId,
        build blockInitialize blockAutoConfigure blockBuild' optimizers' finalize'
          emitErrors' afterBuild' supportsUniformBuffers
          fuel verbose updateBuildId autoConfigure m
        = Fail (Thrown (multipleBlocks c)) m'.
Proof.
  intros Hwf Hroots Hfrag Hvert Hab Ha Hb Hra Hrb Hnot.
  assert (∃ c m',
    initializeForBuild blockInitialize blockAutoConfigure supportsUniformBuffers
      fuel verbose autoConfigure m
    = Fail (Thrown (multipleBlocks c)) m') as (c & m' & Hrun).
  { rewrite initializeForBuild_unfold.
    set (acfg := if _ && _ then true else autoConfigure).
    set (m1 := allocateStates _ _ _ _).
    assert (Hwf1 : wellFormed rank m1) by exact Hwf.
    pose proof (initializeBlocks_walk fuel acfg m1 Hwf1 Hroots) as Hw.
    destruct (initializeBlocks _ _ fuel acfg m1) as [nodes m2|[msg| |] m2];
      simpl in Hw; [|by destruct Hw as [c ->]; eauto|done..].
    exfalso. destruct Hw as [(Hwf2 & Hg & (added & Hadd & Hu) & _) Hvis].
    apply (uniqueAdded_two_of_a_kind (blocks m2) (attachedBlocks m1) added a b cls);
      try done.
    - rewrite (grows_kindOf (blocks m1) (blocks m2)); [done..|].
      unfold kindOf in Ha. cbn [blocks m1 allocateStates withBuildWasSuccessful].
      destruct (blocks m !! a); [by eexists | done].
    - rewrite (grows_kindOf (blocks m1) (blocks m2)); [done..|].
      unfold kindOf in Hb. cbn [blocks m1 allocateStates withBuildWasSuccessful].
      destruct (blocks m !! b); [by eexists | done].
    - rewrite <- Hadd. by apply Hvis.
    - rewrite <- Hadd. by apply Hvis. }
  exists c, m'. split; [done|].
  intros blockBuild' optimizers' finalize' emitErrors' afterBuild' updateBuildId.
  unfold build. unfold bind at 1. unfold get at 1.
  unfold bind at 1. unfold modify at 1. unfold bind at 1. unfold get at 1.
  cbn [_vertexOutputNodes _fragmentOutputNodes _mode withBuildWasSuccessful].
  assert (Hv : bool_decide (length (_vertexOutputNodes m) = 0)
               && negb (bool_decide (_mode m = Particle)) = false).
  { destruct Hvert as [Hv|Hp].
    - rewrite bool_decide_eq_false_2; [done|]. by intros ?%nil_length_inv.
    - rewrite (bool_decide_eq_true_2 _ Hp). apply andb_false_r. }
  rewrite Hv. rewrite bool_decide_eq_false_2 by (by intros ?%nil_length_inv).
  rewrite initializeForBuild_unfold in Hrun.
  unfold bind at 1. unfold modify at 1. unfold bind at 1.
  by rewrite Hrun.
Qed.

(** *** The vertex stage keeps the graph *)

Lemma forEach_wellBehaved {A} (l : list A) (f : A → NodeMaterial → NodeMaterial) :
  ∀ m,
    (∀ a, a ∈ l → wellBehaved rank (f a)) → wellFormed rank m →
    ∃ m', forEach l (λ a, modify (f a)) m = Ok tt m'
          ∧ wellFormed rank m'
          ∧ grows (blocks m) (blocks m')
          ∧ attachedBlocks m' = attachedBlocks m
          ∧ _fragmentOutputNodes m' = _fragmentOutputNodes m.
Proof.
  induction l as [|a l IH]; intros m Hf Hwf.
  - exists m. split; [reflexivity|]. split; [done|]. split; [apply grows_refl | done].
  - destruct (Hf a (list_elem_of_here _ _) m Hwf) as (Hwf1 & Hg1 & Ha1 & _ & Hf1).
    destruct (IH (f a m)) as (m' & Hrun & Hwf' & Hg' & Ha' & Hf');
      [intros a' Ha'; apply Hf; by right | done |].
    exists m'. split; [exact Hrun|]. split; [done|].
    split; [by eapply grows_trans|]. split; congruence.
Qed.

Lemma buildVertexStage_wellFormed (vertexNodes : list BlockId) (m : NodeMaterial) :
  (∀ node state nodes, wellBehaved rank (blockBuild node state nodes)) →
  Forall (wellBehaved rank) optimizers →
  wellFormed rank m →
  ∃ m', buildVertexStage blockBuild optimizers vertexNodes m = Ok tt m'
        ∧ wellFormed rank m'
        ∧ grows (blocks m) (blocks m')
        ∧ attachedBlocks m' = attachedBlocks m
        ∧ _fragmentOutputNodes m' = _fragmentOutputNodes m.
Proof.
  intros Hbuild Hopt Hwf. unfold buildVertexStage, optimize.
  destruct (forEach_wellBehaved optimizers (λ optimizer, optimizer) m)
    as (m1 & Hrun1 & Hwf1 & Hg1 & Ha1 & Hf1);
    [intros o Ho; by apply (proj1 (Forall_forall _ _) Hopt) | done |].
  destruct (forEach_wellBehaved vertexNodes
              (λ vertexOutputNode, blockBuild vertexOutputNode VertexStage vertexNodes) m1)
    as (m2 & Hrun2 & Hwf2 & Hg2 & Ha2 & Hf2); [by intros | done |].
  unfold bind at 1. rewrite Hrun1. unfold bind at 1. rewrite Hrun2.
  exists (inheritVertexState m2). split; [reflexivity|].
  assert (blocks (inheritVertexState m2) = blocks m2
          ∧ attachedBlocks (inheritVertexState m2) = attachedBlocks m2
          ∧ _fragmentOutputNodes (inheritVertexState m2) = _fragmentOutputNodes m2)
    as (Hb & Ha & Hf).
  { unfold inheritVertexState.
    by destruct (_vertexCompilationState m2), (_fragmentCompilationState m2). }
  split; [|split; [|split]].
  - unfold wellFormed. rewrite Hb, Ha. exact Hwf2.
  - rewrite Hb. by eapply grows_trans.
  - congruence.
  - congruence.
Qed.


End InitializeFacts.

Lemma wellBehaved_id rank : wellBehaved rank (λ m, m).
Proof. intros m Hwf. split; [done|]. split; [apply grows_refl | done]. Qed.

(** A fragment output (1) fed by two blocks (2 and 3) of one class that is
    restricted to one instance, and a vertex output (4); [attached] are
    the attached blocks. *)
Definition twoOfAKind (attached : list BlockId) : NodeMaterial :=
  withAttachedBlocks attached
    (withFragmentOutputNodes [1]
       (withVertexOutputNodes [4]
          (withBlocks
             (list_to_map
                [ (1, mkBlock "FragmentOutput" 11 "FragmentOutputBlock" (Some Fragment)
                        false false true false None
                        [mkInput "rgb" (Some (2, "output")) "";
                         mkInput "a" (Some (3, "output")) ""] [] 0 0 None);
                  (2, mkBlock "First" 12 "FragDepthBlock" (Some Fragment)
                        true false false false None
                        [] [mkOutput "output" ""] 0 0 None);
                  (3, mkBlock "Second" 13 "FragDepthBlock" (Some Fragment)
                        true false false false None
                        [] [mkOutput "output" ""] 0 0 None);
                  (4, mkBlock "VertexOutput" 14 "VertexOutputBlock" (Some Vertex)
                        false false true false None [] [] 0 0 None) ])
             emptyMaterial))).

Lemma twoOfAKind_reachable attached b :
  b = 2 ∨ b = 3 →
  reachableFrom (blocks (twoOfAKind attached))
    (_vertexOutputNodes (twoOfAKind attached)
     ++ _fragmentOutputNodes (twoOfAKind attached)) b.
Proof.
  intros Hb. exists 1. split; [set_solver|]. apply rtc_once.
  eexists. split; [vm_compute; reflexivity|].
  destruct Hb as [-> | ->]; vm_compute; set_solver.
Qed.

(** C7 (as stated) fails: when the two blocks of the restricted class are
    attached already (as [parseSerializedObject] leaves them), [build]
    initializes the blocks without error and succeeds. *)
Lemma build_two_attached_blocks_of_a_kind :
  kindOf (blocks (twoOfAKind [4; 1; 2; 3])) 2 = Some ("FragDepthBlock", true)
  ∧ kindOf (blocks (twoOfAKind [4; 1; 2; 3])) 3 = Some ("FragDepthBlock", true)
  ∧ reachable (blocks (twoOfAKind [4; 1; 2; 3])) 1 2
  ∧ reachable (blocks (twoOfAKind [4; 1; 2; 3])) 1 3
  ∧ ∃ m',
      build (λ _ _ m, m) (λ _ m, m) (λ _ _ _ m, m) [] (λ _ m, m) (λ _, None)
        (ret tt) true 10 false true false (twoOfAKind [4; 1; 2; 3])
      = Ok tt m'
      ∧ _buildWasSuccessful m' = true.
Proof.
  split; [reflexivity|]. split; [reflexivity|].
  split; [|split].
  - apply rtc_once. eexists. split; [vm_compute; reflexivity|]. vm_compute. set_solver.
  - apply rtc_once. eexists. split; [vm_compute; reflexivity|]. vm_compute. set_solver.
  - eexists. split; [vm_compute; reflexivity | reflexivity].
Qed.

Lemma build_uniqueness_error_witness :
  ∃ c m',
    initializeForBuild (λ _ _ m, m) (λ _ m, m) true 10 false false (twoOfAKind [])
    = Fail (Thrown (multipleBlocks c)) m'
    ∧ ∀ blockBuild' optimizers' finalize' emitErrors' afterBuild' updateBuildId,
        build (λ _ _ m, m) (λ _ m, m) blockBuild' optimizers' finalize'
          emitErrors' afterBuild' true 10 false updateBuildId false (twoOfAKind [])
        = Fail (Thrown (multipleBlocks c)) m'.
Proof.
  apply (build_uniqueness_error (λ _ _ m, m) (λ _ m, m)
           (λ b, if bool_decide (b = 1) then 1 else 0)
           (λ _ _, wellBehaved_id _) (λ _, wellBehaved_id _) true
           10 false false (twoOfAKind []) 2 3 "FragDepthBlock").
  - split; [apply closedStoreb_closedStore; by vm_compute|].
    split; [apply rankedb_ranked; by vm_compute|].
    by intros b ?%elem_of_nil.
  - intros r Hr. assert (r = 4 ∨ r = 1) as [-> | ->] by set_solver.
    + split; [eexists; vm_compute; reflexivity | simpl; lia].
    + split; [eexists; vm_compute; reflexivity | simpl; lia].
  - done.
  - by left.
  - done.
  - reflexivity.
  - reflexivity.
  - apply twoOfAKind_reachable. by left.
  - apply twoOfAKind_reachable. by right.
  - by intros [?%elem_of_nil _].
Defined.

(** The graph of [teleportGraph] with a vertex output (5) fed by block 4:
    the block 4, of target [VertexAndFragment], is reached from the vertex
    output and from the fragment output. *)
Definition dualGraph : NodeMaterial :=
  withVertexOutputNodes [5]
    (withBlocks
       (<[5 := mkBlock "VertexOutput" 15 "VertexOutputBlock" (Some Vertex)
                 true false true false None
                 [mkInput "vector" (Some (4, "output")) ""] [] 0 0 None]>
          (blocks teleportGraph))
       teleportGraph).


(** On [dualGraph] the initialization returns, the block 4 is among the
    fragment nodes of [build], and the reset loop, run after the vertex
    stage, stamps the block 4 alone. *)
Example build_dualGraph :
  ∃ m1 m2 m3,
    initializeForBuild (λ _ _ m, m) (λ _ m, m) true 6 false false dualGraph
    = Ok ([5; 4; 4], [4; 1]) m1
    ∧ buildVertexStage (λ _ _ _ m, m) [] [5; 4; 4] m1 = Ok tt m2
    ∧ resetDualBlocks 6 [4; 1] m2 = Ok tt m3
    ∧ _buildId m2 = 0%Z
    ∧ buildId <$> blocks m3 !! 4 = Some (-1)%Z
    ∧ buildId <$> blocks m3 !! 1 = Some 0%Z.
Proof.
  do 3 eexists. split; [vm_compute; reflexivity|].
  split; [vm_compute; reflexivity|]. split; [vm_compute; reflexivity|].
  by vm_compute.
Qed.

Example build_two_of_a_kind :
  ∃ m',
    build (λ _ _ m, m) (λ _ m, m) (λ _ _ _ m, m) [] (λ _ m, m) (λ _, None)
      (ret tt) true 10 false true false (twoOfAKind [])
    = Fail (Thrown "Cannot have multiple blocks of type FragDepthBlock in the same NodeMaterial") m'.
Proof. eexists. vm_compute. reflexivity. Qed.

(** ** Serialization *)

(** Modelled from the spec: the serialized form of an input connection
    point, written by the connection point class (outside these files).
    The exchange format lists [{inputName, targetBlockId,
    targetConnectionName}]; the last two are present for a connected input
    only. *)
Record SerializedInput := mkSerializedInput {
  serializedInputName : string;
  serializedConnection : option (Z * string)
}.

(** Modelled from the spec: the serialized form of a block, written by
    [block.serialize()] (outside these files): [{id, customType,
    ...block-specific fields, inputs}].  The block-specific fields kept
    are the name, the target and, for a teleport-out block, the id of its
    entry point. *)
Record SerializedBlock := mkSerializedBlock {
  serializedId : Z;
  customType : string;
  serializedName : string;
  serializedTarget : option Z;
  serializedEntryPoint : option Z;
  serializedInputs : list SerializedInput
}.

(** The serialized material: [blocks], [outputNodes] (absent when a
    selection of blocks is serialized) and the mode. *)
Record SerializedMaterial := mkSerializedMaterial {
  serializedBlocks : list SerializedBlock;
  outputNodes : option (list Z);
  serializedMode : option NodeMaterialModes
}.

(** [l.map(f)] for a call [f] that can fail. *)
Definition mapM {A B} (f : A → M B) (l : list A) : M (list B) :=
  foldM (λ acc a, b <- f a ;; ret (acc ++ [b])) [] l.

(** Modelled from the spec: [input.serialize()]. *)
Definition serializeInput (input : InputPoint) : M SerializedInput :=
  match connectedPoint input with
  | Some (ownerBlock, outputName) =>
      owner <- getBlock ownerBlock ;;
      ret (mkSerializedInput (inputName input) (Some (uniqueId owner, outputName)))
  | None => ret (mkSerializedInput (inputName input) None)
  end.

(** Modelled from the spec: [block.serialize()]. *)
Definition serializeBlock (block : BlockId) : M SerializedBlock :=
  blk <- getBlock block ;;
  inputs <- mapM serializeInput (inputs blk) ;;
  entry <- (if isTeleportOut blk then
              match entryPoint blk with
              | Some entry => e <- getBlock entry ;; ret (Some (uniqueId e))
              | None => ret None
              end
            else ret None) ;;
  ret (mkSerializedBlock (uniqueId blk) ("BABYLON." +:+ className blk) (name blk)
         (target blk) entry inputs).

(** [serialize(selectedBlocks)]; the editor data is left out.  Without a
    selection the object starts as [SerializationHelper.Serialize(this)],
    which writes the property [_mode] under the name [mode]. *)
Definition serialize (fuel : nat) (selectedBlocks : option (list BlockId))
  : M SerializedMaterial :=
  this <- get ;;
  match selectedBlocks with
  | Some blocks =>
      serialized <- mapM serializeBlock blocks ;;
      ret (mkSerializedMaterial serialized None None)
  | None =>
      (* Outputs *)
      acc <- foldM (λ '(blocks, outputNodes) outputNode,
               blocks <- _gatherBlocks fuel outputNode blocks ;;
               node <- getBlock outputNode ;;
               ret (blocks, outputNodes ++ [uniqueId node]))
             ([], []) (_vertexOutputNodes this) ;;
      acc <- foldM (λ '(blocks, outputNodes) outputNode,
               blocks <- _gatherBlocks fuel outputNode blocks ;;
               node <- getBlock outputNode ;;
               ret (blocks,
                    if (indexOf outputNodes (uniqueId node) =? -1)%Z
                    then outputNodes ++ [uniqueId node] else outputNodes))
             acc (_fragmentOutputNodes this) ;;
      (* Blocks *)
      serialized <- mapM serializeBlock acc.1 ;;
      others <- mapM serializeBlock
                  (filter (λ block, indexOf acc.1 block = (-1)%Z) (attachedBlocks this)) ;;
      ret (mkSerializedMaterial (serialized ++ others) (Some acc.2) (Some (_mode this)))
  end.

(** Modelled from the spec: [block.getInputByName(name)], of the block
    class (outside these files): the exchange format names an input by its
    [inputName]; the first input of that name is returned, here with its
    index. *)
Definition getInputByName (blk : NodeMaterialBlock) (name : string)
  : option (nat * InputPoint) :=
  list_find (λ input, inputName input = name) (inputs blk).

(** Modelled from the spec: [outputPoint.connectTo(inputPoint, true)] for
    the output [outputName] of [block] and the input at [index] of
    [target]: the input is linked to the output. *)
Definition connectTo (block : BlockId) (outputName : string) (target : BlockId)
    (index : nat) : M unit :=
  updateBlock target (λ blk,
    withInputs
      (alter (λ i, mkInput (inputName i) (Some (block, outputName)) (inputVariableName i))
         index (inputs blk)) blk).

(** [_restoreConnections(block, source, map)] *)
Fixpoint _restoreConnections (fuel : nat) (block : BlockId)
    (source : SerializedMaterial) (map : gmap Z BlockId) : M unit :=
  match fuel with
  | O => fail OutOfFuel
  | S fuel' =>
      blk <- getBlock block ;;
      forEach (outputs blk) (λ outputPoint,
        forEach (serializedBlocks source) (λ candidate,
          match map !! serializedId candidate with
          | None => ret tt
          | Some target =>
              forEach (serializedInputs candidate) (λ input,
                match serializedConnection input with
                | Some (targetBlockId, targetConnectionName) =>
                    if bool_decide (map !! targetBlockId = Some block)
                       && bool_decide (targetConnectionName = outputName outputPoint)
                    then
                      t <- getBlock target ;;
                      match getInputByName t (serializedInputName input) with
                      | None => ret tt
                      | Some (index, inputPoint) =>
                          if bool_decide (is_Some (connectedPoint inputPoint))
                          then ret tt
                          else
                            connectTo block (outputName outputPoint) target index ;;;
                            _restoreConnections fuel' target source map
                      end
                    else ret tt
                | None => ret tt
                end)
          end))
  end.

Definition withTempEntryPoint (id : option Z) (b : NodeMaterialBlock) : NodeMaterialBlock :=
  mkBlock (name b) (uniqueId b) (className b) (target b) (isUnique b) (isInput b)
    (isFinalMerger b) (isTeleportOut b) (entryPoint b) (inputs b) (outputs b)
    (buildId b) (_preparationId b) id.

(** Modelled from the spec: [source.attachToEndpoint(teleportOut)] makes
    [source] the entry point of [teleportOut]; the pending id is
    consumed. *)
Definition attachToEndpoint (source teleportOut : BlockId) : M unit :=
  updateBlock teleportOut (λ blk, withTempEntryPoint None (withEntryPoint (Some source) blk)).

Section Parse.

(** [GetClass(customType)] followed by [new blockType()]: the block that
    the constructor of the class makes, if the class is registered. *)
Variable GetClass : string → option NodeMaterialBlock.
(** The unique id that the constructor gives to the block object. *)
Variable uniqueIdFor : BlockId → Z.

(** Modelled from the spec: [block._deserialize(parsedBlock, ...)] on a
    block just constructed: the name, the target and the pending entry
    point id are read from the serialized block. *)
Definition deserializeBlock (constructed : NodeMaterialBlock) (uniqueId : Z)
    (parsedBlock : SerializedBlock) : NodeMaterialBlock :=
  mkBlock (serializedName parsedBlock) uniqueId (className constructed)
    (match serializedTarget parsedBlock with
     | Some t => Some t
     | None => target constructed
     end)
    (isUnique constructed) (isInput constructed) (isFinalMerger constructed)
    (isTeleportOut constructed) (entryPoint constructed)
    (inputs constructed) (outputs constructed)
    (buildId constructed) (_preparationId constructed)
    (serializedEntryPoint parsedBlock).

(** The loop of [parseSerializedObject] under [// Create blocks]; returns
    [map]. *)
Definition createBlocks (source : SerializedMaterial) : M (gmap Z BlockId) :=
  foldM (λ map parsedBlock,
    match GetClass (customType parsedBlock) with
    | Some constructed =>
        this <- get ;;
        let block := fresh (dom (blocks this)) in
        modify (λ m, withBlocks
                       (<[block := deserializeBlock constructed (uniqueIdFor block)
                                     parsedBlock]> (blocks m)) m) ;;;
        modify (λ m, withAttachedBlocks (attachedBlocks m ++ [block]) m) ;;;
        ret (<[serializedId parsedBlock := block]> map)
    | None => ret map
    end) ∅ (serializedBlocks source).

(** The loop under [// Reconnect teleportation]. *)
Definition reconnectTeleportation (map : gmap Z BlockId) : M unit :=
  this <- get ;;
  forEach (attachedBlocks this) (λ block,
    blk <- getBlock block ;;
    if isTeleportOut blk then
      match _tempEntryPointUniqueId blk with
      | Some id =>
          if bool_decide (id ≠ 0%Z) then
            match map !! id with
            | Some source => attachToEndpoint source block
            | None => fail TypeError
            end
          else ret tt
      | None => ret tt
      end
    else ret tt).

(** The loop under [// Connections]. *)
Definition restoreAllConnections (fuel : nat) (source : SerializedMaterial)
    (merge : bool) (map : gmap Z BlockId) : M unit :=
  forEach (serializedBlocks source) (λ parsedBlock,
    match map !! serializedId parsedBlock with
    | None => ret tt
    | Some block =>
        blk <- getBlock block ;;
        if negb (bool_decide (length (inputs blk) = 0)) && negb merge then ret tt
        else _restoreConnections fuel block source map
    end).

(** The loop under [// Outputs]. *)
Definition addOutputNodes (source : SerializedMaterial) (map : gmap Z BlockId) : M unit :=
  match outputNodes source with
  | Some ids =>
      forEach ids (λ outputNodeId,
        match map !! outputNodeId with
        | Some node => addOutputNode node
        | None => fail TypeError
        end)
  | None => ret tt
  end.

(** [parseSerializedObject(source, rootUrl, merge)]; the editor data, the
    comment and the alpha settings are left out. *)
Definition parseSerializedObject (fuel : nat) (source : SerializedMaterial)
    (merge : bool) : M unit :=
  (if negb merge then clear else ret tt) ;;;
  (* Create blocks *)
  map <- createBlocks source ;;
  (* Reconnect teleportation *)
  reconnectTeleportation map ;;;
  (* Connections - Starts with input blocks only (except if in "merge" mode
     where we scan all blocks) *)
  restoreAllConnections fuel source merge map ;;;
  (* Outputs *)
  addOutputNodes source map ;;;
  if negb merge
  then modify (withMode (default Material (serializedMode source)))
  else ret tt.

End Parse.

(** ** The round trip through the serialized form *)

#[global] Instance NodeMaterialBlock_inhabited : Inhabited NodeMaterialBlock :=
  populate (mkBlock "" 0 "" None false false false false None [] [] 0 0 None).

(** The unique id of the block object [b]. *)
Definition idOf (g : gmap BlockId NodeMaterialBlock) (b : BlockId) : Z :=
  uniqueId (g !!! b).

(** The serialized forms that [serialize] writes, as values. *)
Definition serializedInputOf (g : gmap BlockId NodeMaterialBlock) (input : InputPoint)
  : SerializedInput :=
  mkSerializedInput (inputName input)
    (match connectedPoint input with
     | Some (b, o) => Some (idOf g b, o)
     | None => None
     end).

Definition serializedBlockOf (g : gmap BlockId NodeMaterialBlock) (blk : NodeMaterialBlock)
  : SerializedBlock :=
  mkSerializedBlock (uniqueId blk) ("BABYLON." +:+ className blk) (name blk) (target blk)
    (if isTeleportOut blk then idOf g <$> entryPoint blk else None)
    (map (serializedInputOf g) (inputs blk)).

Definition serializedOf (g : gmap BlockId NodeMaterialBlock) (b : BlockId) : SerializedBlock :=
  serializedBlockOf g (g !!! b).

(** [outputNodes] after the loop over the fragment output nodes. *)
Definition pushNewIds (outputNodes ids : list Z) : list Z :=
  foldl (λ outputNodes id,
           if (indexOf outputNodes id =? -1)%Z then outputNodes ++ [id] else outputNodes)
        outputNodes ids.

Lemma mapM_pure {A B} (f : A → M B) (h : A → B) (l : list A) (m : NodeMaterial) :
  (∀ a, a ∈ l → f a m = Ok (h a) m) → mapM f l m = Ok (map h l) m.
Proof.
  intros Hf. unfold mapM.
  enough (∀ acc, foldM (λ acc a, b <- f a ;; ret (acc ++ [b])) acc l m
                 = Ok (acc ++ map h l) m) as H by apply (H []).
  induction l as [|a l IH]; intros acc.
  - by rewrite app_nil_r.
  - cbn [foldM]. unfold bind at 1. unfold bind at 1.
    rewrite Hf by (by left). unfold ret at 1.
    rewrite IH by (intros a' Ha'; apply Hf; by right).
    by rewrite <- app_assoc.
Qed.

Lemma idOf_lookup g b blk : g !! b = Some blk → idOf g b = uniqueId blk.
Proof. intros H. unfold idOf. by rewrite (lookup_total_correct _ _ _ H). Qed.

(** Every output that an input of a block of the store is connected to
    belongs to a block of the store. *)
Lemma closedStore_connected g b blk input src o :
  closedStore g → g !! b = Some blk → input ∈ inputs blk →
  connectedPoint input = Some (src, o) → is_Some (g !! src).
Proof.
  intros Hclosed Hblk Hin Hconn.
  destruct (decide (src = b)) as [->|Hne]; [by eexists|].
  apply (Hclosed b). exists blk. split; [done|].
  unfold links, inputLinks. apply elem_of_app. left.
  apply list_elem_of_omap. exists input. split; [done|].
  rewrite Hconn. by rewrite bool_decide_eq_true_2.
Qed.

Lemma closedStore_entryPoint g b blk entry :
  closedStore g → g !! b = Some blk → isTeleportOut blk = true →
  entryPoint blk = Some entry → is_Some (g !! entry).
Proof.
  intros Hclosed Hblk Hout Hentry. apply (Hclosed b). exists blk. split; [done|].
  unfold links, teleportLinks. rewrite Hout, Hentry. set_solver.
Qed.

Lemma serializeInput_spec m input :
  (∀ src o, connectedPoint input = Some (src, o) → is_Some (blocks m !! src)) →
  serializeInput input m = Ok (serializedInputOf (blocks m) input) m.
Proof.
  intros Hsrc. unfold serializeInput, serializedInputOf.
  destruct (connectedPoint input) as [[src o]|]; [|reflexivity].
  destruct (Hsrc src o eq_refl) as [sblk Hsblk].
  munfold. rewrite Hsblk. by rewrite (idOf_lookup _ _ _ Hsblk).
Qed.

Lemma serializeBlock_spec m b :
  closedStore (blocks m) → is_Some (blocks m !! b) →
  serializeBlock b m = Ok (serializedOf (blocks m) b) m.
Proof.
  intros Hclosed [blk Hblk]. unfold serializeBlock, serializedOf.
  rewrite (lookup_total_correct _ _ _ Hblk).
  unfold bind at 1. unfold getBlock at 1. rewrite Hblk.
  unfold bind at 1.
  rewrite (mapM_pure serializeInput (serializedInputOf (blocks m))).
  2:{ intros input Hin. apply serializeInput_spec. intros src o Hconn.
      by eapply closedStore_connected. }
  unfold serializedBlockOf.
  destruct (isTeleportOut blk) eqn:Hout; [|reflexivity].
  destruct (entryPoint blk) as [entry|] eqn:Hentry; [|reflexivity].
  destruct (closedStore_entryPoint _ _ _ _ Hclosed Hblk Hout Hentry) as [eblk Heblk].
  munfold. rewrite Heblk. simpl. by rewrite (idOf_lookup _ _ _ Heblk).
Qed.

(** The two loops of [serialize] over output nodes: the blocks gathered
    and the ids pushed, [push] being what the loop does with an id. *)
Lemma gatherOutputs_spec (fuel : nat) (m : NodeMaterial)
    (push : list Z → Z → list Z) (roots : list BlockId) :
  closedStore (blocks m) →
  (size (blocks m) < fuel)%nat →
  ∀ (l : list BlockId) (ids : list Z),
    (∀ r, r ∈ roots → is_Some (blocks m !! r)) → NoDup l →
    ∃ l', foldM (λ '(blocks, outputNodes) outputNode,
                   blocks <- _gatherBlocks fuel outputNode blocks ;;
                   node <- getBlock outputNode ;;
                   ret (blocks, push outputNodes (uniqueId node)))
            (l, ids) roots m
          = Ok (l', foldl push ids (map (idOf (blocks m)) roots)) m
          ∧ gathered (blocks m) l roots l'.
Proof.
  intros Hclosed Hfuel. induction roots as [|r roots IH]; intros l ids Hroots Hnd.
  - exists l. split; [reflexivity | by apply gathered_nil].
  - destruct (Hroots r) as [blk Hblk]; [by left|].
    destruct (gatherBlocks_gathered fuel m Hclosed r l) as (l1 & Hrun1 & Hg1);
      [by eexists | done | |].
    { pose proof (unlisted_le_size (blocks m) l). lia. }
    assert (NoDup l1) as Hnd1 by (by destruct Hg1 as (a1 & -> & Hnd1 & _)).
    destruct (IH l1 (push ids (uniqueId blk))) as (l2 & Hrun2 & Hg2); [|done|].
    { intros r' Hr'. apply Hroots. by right. }
    exists l2. split; [|by eapply gathered_cons].
    cbn [foldM map foldl]. unfold bind at 1. unfold bind at 1. rewrite Hrun1.
    munfold. rewrite Hblk. rewrite (idOf_lookup _ _ _ Hblk). exact Hrun2.
Qed.

Lemma gathered_app g (l l1 l2 : list BlockId) (rs1 rs2 : list BlockId) :
  gathered g l rs1 l1 → gathered g l1 rs2 l2 → gathered g l (rs1 ++ rs2) l2.
Proof.
  intros (a1 & -> & Hnd1 & Hr1 & Hreach1 & Hcl1) (a2 & -> & Hnd2 & Hr2 & Hreach2 & Hcl2).
  exists (a1 ++ a2). rewrite app_assoc. split; [done|]. split; [done|].
  split; [|split].
  - intros r [Hr|Hr]%elem_of_app; [|by apply Hr2].
    apply elem_of_app. left. by apply Hr1.
  - intros x [Hx|Hx]%elem_of_app.
    + destruct (Hreach1 x Hx) as (r & Hr & Hreach).
      exists r. split; [apply elem_of_app; by left | done].
    + destruct (Hreach2 x Hx) as (r & Hr & Hreach).
      exists r. split; [apply elem_of_app; by right | done].
  - intros x y [Hx|Hx]%elem_of_app Hedge.
    + apply elem_of_app. left. by apply (Hcl1 x).
    + by apply (Hcl2 x).
Qed.

(** What [serialize()] returns: the serialized forms of the blocks gathered
    from the output nodes, then of the attached blocks not gathered; the
    ids of the output nodes; the mode.  The material is left as it was. *)
Lemma serialize_spec (fuel : nat) (m : NodeMaterial) :
  closedStore (blocks m) →
  (size (blocks m) < fuel)%nat →
  (∀ r, r ∈ _vertexOutputNodes m ++ _fragmentOutputNodes m → is_Some (blocks m !! r)) →
  (∀ b, b ∈ attachedBlocks m → is_Some (blocks m !! b)) →
  ∃ listed,
    gathered (blocks m) [] (_vertexOutputNodes m ++ _fragmentOutputNodes m) listed
    ∧ serialize fuel None m
      = Ok (mkSerializedMaterial
              (map (serializedOf (blocks m))
                 (listed ++ filter (λ block, indexOf listed block = (-1)%Z)
                              (attachedBlocks m)))
              (Some (pushNewIds (map (idOf (blocks m)) (_vertexOutputNodes m))
                       (map (idOf (blocks m)) (_fragmentOutputNodes m))))
              (Some (_mode m))) m.
Proof.
  intros Hclosed Hfuel Hroots Hattached.
  destruct (gatherOutputs_spec fuel m (λ outputNodes id, outputNodes ++ [id])
              (_vertexOutputNodes m) Hclosed Hfuel [] []) as (l1 & Hrun1 & Hg1).
  { intros r Hr. apply Hroots, elem_of_app. by left. }
  { constructor. }
  assert (NoDup l1) as Hnd1 by (by destruct Hg1 as (a1 & -> & Hnd1 & _)).
  destruct (gatherOutputs_spec fuel m
              (λ outputNodes id,
                 if (indexOf outputNodes id =? -1)%Z then outputNodes ++ [id]
                 else outputNodes)
              (_fragmentOutputNodes m) Hclosed Hfuel l1
              (foldl (λ outputNodes id, outputNodes ++ [id]) []
                 (map (idOf (blocks m)) (_vertexOutputNodes m))))
    as (l2 & Hrun2 & Hg2).
  { intros r Hr. apply Hroots, elem_of_app. by right. }
  { done. }
  assert (Hpush : ∀ (ids acc : list Z),
            foldl (λ outputNodes id, outputNodes ++ [id]) acc ids = acc ++ ids).
  { induction ids as [|id ids IH]; intros acc; simpl; [by rewrite app_nil_r|].
    rewrite IH. by rewrite <- app_assoc. }
  rewrite Hpush in Hrun1, Hrun2. simpl in Hrun1, Hrun2.
  assert (Hl2 : ∀ b, b ∈ l2 → is_Some (blocks m !! b)).
  { destruct Hg2 as (a2 & -> & _ & _ & Hreach2 & _).
    destruct Hg1 as (a1 & -> & _ & _ & Hreach1 & _).
    assert (Hreach : ∀ r x, is_Some (blocks m !! r) → reachable (blocks m) r x →
                            is_Some (blocks m !! x)).
    { intros r x Hr Hrx. induction Hrx as [|x y z Hxy _ IH]; [done|].
      apply IH. by apply (Hclosed x). }
    simpl. intros b [Hb|Hb]%elem_of_app.
    - destruct (Hreach1 b Hb) as (r & Hr & Hrb).
      apply (Hreach r); [|done]. apply Hroots, elem_of_app. by left.
    - destruct (Hreach2 b Hb) as (r & Hr & Hrb).
      apply (Hreach r); [|done]. apply Hroots, elem_of_app. by right. }
  exists l2. split; [by eapply gathered_app|].
  unfold serialize. unfold bind at 1. unfold get at 1.
  unfold bind at 1. rewrite Hrun1.
  unfold bind at 1. rewrite Hrun2. cbn [fst snd].
  unfold bind at 1.
  rewrite (mapM_pure serializeBlock (serializedOf (blocks m)))
    by (intros b Hb; apply serializeBlock_spec; [done | by apply Hl2]).
  unfold bind at 1.
  rewrite (mapM_pure serializeBlock (serializedOf (blocks m))).
  2:{ intros b [_ Hb]%list_elem_of_filter. apply serializeBlock_spec; [done|].
      by apply Hattached. }
  unfold ret. by rewrite map_app.
Qed.

(** *** Restoring the connections *)

(** A rule for a loop: [R] relates the states of the loop, [P] holds of
    each, and what an iteration establishes for its item, [Q], stays. *)
Lemma forEach_rule {A} (R : NodeMaterial → NodeMaterial → Prop)
    (P : NodeMaterial → Prop) (Q : A → NodeMaterial → Prop)
    (body : A → M unit) (l : list A) (m : NodeMaterial) :
  (∀ m, R m m) →
  (∀ m1 m2 m3, R m1 m2 → R m2 m3 → R m1 m3) →
  (∀ a m1 m2, Q a m1 → R m1 m2 → Q a m2) →
  P m →
  (∀ a m1, a ∈ l → R m m1 → P m1 →
     ∃ m2, body a m1 = Ok tt m2 ∧ R m1 m2 ∧ P m2 ∧ Q a m2) →
  ∃ m', forEach l body m = Ok tt m' ∧ R m m' ∧ P m' ∧ ∀ a, a ∈ l → Q a m'.
Proof.
  intros Hrefl Htrans Hstable. revert m.
  induction l as [|a l IH]; intros m HP Hbody.
  - exists m. split; [reflexivity|]. split; [apply Hrefl|]. split; [done|].
    intros a Ha. by apply elem_of_nil in Ha.
  - destruct (Hbody a m) as (m1 & Hrun1 & HR1 & HP1 & HQ1); [by left | apply Hrefl | done |].
    destruct (IH m1 HP1) as (m' & Hrun & HR & HP' & HQ).
    { intros a' m2 Ha' HR2 HP2. apply Hbody; [by right | by eapply Htrans | done]. }
    exists m'. split.
    { cbn [forEach foldM]. unfold bind at 1. rewrite Hrun1. exact Hrun. }
    split; [by eapply Htrans|]. split; [done|].
    intros a' [->|Ha']%elem_of_cons; [by eapply Hstable | by apply HQ].
Qed.

(** The connection of the input at index [j] of the block [n]. *)
Definition connection (g : gmap BlockId NodeMaterialBlock) (n : BlockId) (j : nat)
  : option (BlockId * string) :=
  match g !! n with
  | Some blk =>
      match inputs blk !! j with
      | Some input => connectedPoint input
      | None => None
      end
  | None => None
  end.

(** An input keeps its name, and its connection once it has one. *)
Definition inputExtends (input input' : InputPoint) : Prop :=
  inputName input' = inputName input
  ∧ (connectedPoint input = None ∨ connectedPoint input' = connectedPoint input).

(** A block changes by its inputs only, which keep their names and their
    connections. *)
Definition blockExtends (blk blk' : NodeMaterialBlock) : Prop :=
  withInputs (inputs blk) blk' = blk
  ∧ Forall2 inputExtends (inputs blk) (inputs blk').

Lemma inputExtends_refl input : inputExtends input input.
Proof. split; [done | by right]. Qed.

Lemma inputExtends_trans i1 i2 i3 :
  inputExtends i1 i2 → inputExtends i2 i3 → inputExtends i1 i3.
Proof.
  intros [Hn1 Hc1] [Hn2 Hc2]. split; [congruence|].
  destruct Hc1 as [Hc1|Hc1]; [by left|].
  destruct Hc2 as [Hc2|Hc2]; [left | right]; congruence.
Qed.

Lemma inputsExtend_trans l1 l2 l3 :
  Forall2 inputExtends l1 l2 → Forall2 inputExtends l2 l3 → Forall2 inputExtends l1 l3.
Proof.
  intros H. revert l3. induction H as [|i1 i2 l1 l2 Hi _ IH]; intros l3 H23.
  - by inversion H23.
  - inversion H23 as [|? i3 ? l3' Hi' H' ]; subst. constructor; [|by apply IH].
    by eapply inputExtends_trans.
Qed.

Lemma blockExtends_refl blk : blockExtends blk blk.
Proof.
  split; [by destruct blk|]. apply Forall_Forall2_diag, Forall_forall.
  intros ? _. apply inputExtends_refl.
Qed.

Lemma blockExtends_trans b1 b2 b3 :
  blockExtends b1 b2 → blockExtends b2 b3 → blockExtends b1 b3.
Proof.
  intros [H1 F1] [H2 F2]. split.
  - rewrite <- H1 at 2. rewrite <- H2. by destruct b3.
  - by eapply inputsExtend_trans.
Qed.

(** The number of inputs without a connection. *)
Definition unconnected (l : list InputPoint) : nat :=
  length (filter (λ input, connectedPoint input = None) l).

Lemma unconnected_extends l l' :
  Forall2 inputExtends l l' → (unconnected l' ≤ unconnected l)%nat.
Proof.
  unfold unconnected. induction 1 as [|i i' l l' [_ Hc] _ IH]; [done|].
  rewrite !filter_cons.
  destruct (decide (connectedPoint i' = None)) as [Hi'|Hi'];
    destruct (decide (connectedPoint i = None)) as [Hi|Hi]; simpl; try lia.
  destruct Hc as [Hc|Hc]; congruence.
Qed.

(** [outputPoint.connectTo(inputPoint)] on an input without a connection
    leaves one input fewer without a connection. *)
Definition connected (c : BlockId * string) (input : InputPoint) : InputPoint :=
  mkInput (inputName input) (Some c) (inputVariableName input).

Lemma alter_connected_extends c j l input :
  l !! j = Some input → connectedPoint input = None →
  Forall2 inputExtends l (alter (connected c) j l)
  ∧ (unconnected (alter (connected c) j l) < unconnected l)%nat.
Proof.
  unfold unconnected. revert j. induction l as [|i l IH]; intros j Hj Hnone; [done|].
  destruct j as [|j]; simpl in Hj.
  - injection Hj as ->. simpl. split.
    + constructor; [split; [done | by left]|].
      apply Forall_Forall2_diag, Forall_forall. intros ? _. apply inputExtends_refl.
    + rewrite !filter_cons. simpl.
      destruct (decide (Some c = None)) as [|_]; [done|].
      destruct (decide (connectedPoint input = None)); [simpl; lia | done].
  - destruct (IH j Hj Hnone) as [HF Hlt]. split.
    + constructor; [apply inputExtends_refl | done].
    + change (alter (connected c) (S j) (i :: l)) with (i :: alter (connected c) j l).
      rewrite !filter_cons. destruct (decide (connectedPoint i = None)); simpl; lia.
Qed.

(** The first input of a name is the input of that name, when no two
    inputs share a name. *)
Lemma getInputByName_lookup blk j input :
  NoDup (map inputName (inputs blk)) → inputs blk !! j = Some input →
  getInputByName blk (inputName input) = Some (j, input).
Proof.
  intros Hnd Hj. unfold getInputByName.
  destruct (list_find (λ i, inputName i = inputName input) (inputs blk))
    as [[j' input']|] eqn:Hfind.
  - apply list_find_Some in Hfind as (Hj' & Hname & _).
    assert (j' = j) as ->.
    { eapply NoDup_lookup; [exact Hnd| |]; rewrite list_lookup_fmap.
      - by rewrite Hj'.
      - rewrite Hj. simpl. by rewrite Hname. }
    congruence.
  - apply list_find_None in Hfind. rewrite Forall_forall in Hfind.
    exfalso. apply (Hfind input); [|done]. by eapply list_elem_of_lookup_2.
Qed.

Lemma sum_list_with_le {A} (f f' : A → nat) (l : list A) :
  (∀ a, a ∈ l → (f' a ≤ f a)%nat) → (sum_list_with f' l ≤ sum_list_with f l)%nat.
Proof.
  induction l as [|a l IH]; intros H; simpl; [done|].
  pose proof (H a (ltac:(by left))). 
  assert (sum_list_with f' l ≤ sum_list_with f l)%nat
    by (apply IH; intros a' Ha'; apply H; by right).
  lia.
Qed.

Lemma sum_list_with_lt {A} (f f' : A → nat) (l : list A) (x : A) :
  (∀ a, a ∈ l → (f' a ≤ f a)%nat) → x ∈ l → (f' x < f x)%nat →
  (sum_list_with f' l < sum_list_with f l)%nat.
Proof.
  induction l as [|a l IH]; intros H Hx Hlt; [by apply elem_of_nil in Hx|].
  simpl. pose proof (H a (ltac:(by left))).
  assert (sum_list_with f' l ≤ sum_list_with f l)%nat
    by (apply sum_list_with_le; intros a' Ha'; apply H; by right).
  apply elem_of_cons in Hx as [->|Hx]; [lia|].
  assert (sum_list_with f' l < sum_list_with f l)%nat
    by (apply IH; [intros a' Ha'; apply H; by right | done | done]).
  lia.
Qed.

Lemma NoDup_fmap_eq {A B} (f : A → B) (l : list A) (x y : A) :
  NoDup (f <$> l) → x ∈ l → y ∈ l → f x = f y → x = y.
Proof.
  intros Hnd [i Hi]%list_elem_of_lookup [j Hj]%list_elem_of_lookup Heq.
  assert (i = j) as ->.
  { eapply NoDup_lookup; [exact Hnd| |]; rewrite list_lookup_fmap.
    - by rewrite Hi.
    - rewrite Hj. simpl. by rewrite Heq. }
  congruence.
Qed.

(** What the loop under [// Reconnect teleportation] makes of a block
    object. *)
Definition reconnected (idmap : gmap Z BlockId) (blk : NodeMaterialBlock)
  : NodeMaterialBlock :=
  if isTeleportOut blk then
    match _tempEntryPointUniqueId blk with
    | Some id =>
        if bool_decide (id ≠ 0%Z) then
          match idmap !! id with
          | Some source => withTempEntryPoint None (withEntryPoint (Some source) blk)
          | None => blk
          end
        else blk
    | None => blk
    end
  else blk.

(** The pending entry point of a teleport-out block is in [map]. *)
Definition reconnects (idmap : gmap Z BlockId) (blk : NodeMaterialBlock) : Prop :=
  isTeleportOut blk = true →
  ∀ id, _tempEntryPointUniqueId blk = Some id → id ≠ 0%Z → is_Some (idmap !! id).

Lemma reconnectTeleportation_spec (idmap : gmap Z BlockId) (m : NodeMaterial) :
  NoDup (attachedBlocks m) →
  (∀ n, n ∈ attachedBlocks m → ∃ blk, blocks m !! n = Some blk ∧ reconnects idmap blk) →
  ∃ m', reconnectTeleportation idmap m = Ok tt m'
        ∧ sameFields m m'
        ∧ (∀ n, n ∈ attachedBlocks m → blocks m' !! n = reconnected idmap <$> blocks m !! n)
        ∧ (∀ b, b ∉ attachedBlocks m → blocks m' !! b = blocks m !! b).
Proof.
  unfold reconnectTeleportation. unfold bind at 1. unfold get at 1.
  generalize (attachedBlocks m) as N. intros N. revert m.
  induction N as [|n N IH]; intros m Hnd Hblocks.
  - exists m. split; [reflexivity|]. split; [apply sameFields_refl|].
    split; [|done]. intros n Hn. by apply elem_of_nil in Hn.
  - apply NoDup_cons in Hnd as [Hn Hnd].
    destruct (Hblocks n) as (blk & Hblk & Hre); [by left|].
    assert (∃ m1, (blk <- getBlock n ;;
                   if isTeleportOut blk then
                     match _tempEntryPointUniqueId blk with
                     | Some id =>
                         if bool_decide (id ≠ 0%Z) then
                           match idmap !! id with
                           | Some source => attachToEndpoint source n
                           | None => fail TypeError
                           end
                         else ret tt
                     | None => ret tt
                     end
                   else ret tt) m = Ok tt m1
                  ∧ sameFields m m1
                  ∧ blocks m1 = <[n := reconnected idmap blk]> (blocks m))
      as (m1 & Hstep & Hsame1 & Hm1).
    { unfold reconnected, reconnects in *. munfold. rewrite Hblk.
      destruct (isTeleportOut blk).
      2:{ exists m. split; [done|]. split; [apply sameFields_refl|].
          by rewrite insert_id. }
      destruct (_tempEntryPointUniqueId blk) as [id|].
      2:{ exists m. split; [done|]. split; [apply sameFields_refl|].
          by rewrite insert_id. }
      destruct (decide (id ≠ 0%Z)) as [Hid|Hid].
      2:{ rewrite bool_decide_eq_false_2 by done.
          exists m. split; [done|]. split; [apply sameFields_refl|].
          by rewrite insert_id. }
      rewrite bool_decide_eq_true_2 by done.
      destruct (Hre eq_refl id eq_refl Hid) as [source Hsource]. rewrite Hsource.
      unfold attachToEndpoint. munfold. rewrite Hblk.
      eexists. split; [reflexivity|]. split; [|reflexivity].
      unfold sameFields. by destruct m. }
    destruct (IH m1) as (m' & Hrun & Hsame & Hin & Hout); [done| |].
    { intros n' Hn'. rewrite Hm1.
      rewrite lookup_insert_ne by (intros ->; done).
      apply Hblocks. by right. }
    exists m'. split.
    { cbn [forEach foldM]. unfold bind at 1. rewrite Hstep. exact Hrun. }
    split; [by eapply sameFields_trans|]. split.
    + intros x [->|Hx]%elem_of_cons.
      * rewrite Hout by done. rewrite Hm1, lookup_insert_eq. by rewrite Hblk.
      * rewrite Hin by done. rewrite Hm1.
        by rewrite lookup_insert_ne by (intros ->; done).
    + intros b Hb. rewrite not_elem_of_cons in Hb. destruct Hb as [Hbn Hb].
      rewrite Hout by done. rewrite Hm1. by rewrite lookup_insert_ne.
Qed.

Section Restore.

(** The serialized material, the new block objects paired with the
    serialized blocks they were made of, and [map]. *)
Variable source : SerializedMaterial.
Variable np : list (BlockId * SerializedBlock).
Variable idmap : gmap Z BlockId.

Hypothesis np_blocks : np.*2 = serializedBlocks source.
Hypothesis np_NoDup : NoDup np.*1.
Hypothesis idmap_np : ∀ n p, (n, p) ∈ np → idmap !! serializedId p = Some n.

(** The serialized form asks for the input at index [j] of the new block
    [nt] to be connected to the output [o] of the new block [ns]. *)
Definition wanted (nt : BlockId) (j : nat) (ns : BlockId) (o : string) : Prop :=
  ∃ p input id,
    (nt, p) ∈ np ∧ serializedInputs p !! j = Some input
    ∧ serializedConnection input = Some (id, o) ∧ idmap !! id = Some ns.

(** The new blocks that restoring reaches: those without inputs, and those
    with an input that the serialized form connects to a block reached. *)
Inductive visited : BlockId → Prop :=
| visited_start n p : (n, p) ∈ np → serializedInputs p = [] → visited n
| visited_link n j ns o : wanted n j ns o → visited ns → visited n.

(** All the connections wanted from the outputs of [n] are made. *)
Definition complete (g : gmap BlockId NodeMaterialBlock) (n : BlockId) : Prop :=
  ∀ nt j o, wanted nt j n o → connection g nt j = Some (n, o).

(** Every connection of a new block is wanted, and from a block reached. *)
Definition sound (g : gmap BlockId NodeMaterialBlock) : Prop :=
  ∀ nt j ns o, nt ∈ np.*1 → connection g nt j = Some (ns, o) →
               wanted nt j ns o ∧ visited ns.

(** The new blocks have the inputs of their serialized forms, under names
    that differ, and the outputs that the serialized form refers to. *)
Definition shaped (g : gmap BlockId NodeMaterialBlock) : Prop :=
  (∀ n p, (n, p) ∈ np →
     ∃ blk, g !! n = Some blk
            ∧ map inputName (inputs blk) = map serializedInputName (serializedInputs p)
            ∧ NoDup (map inputName (inputs blk)))
  ∧ (∀ nt j ns o, wanted nt j ns o →
       ∃ blk, g !! ns = Some blk ∧ o ∈ map outputName (outputs blk)).

(** From [g] to [g'] the new blocks change by their inputs only, which
    keep their connections; the other blocks are the same. *)
Definition extends (g g' : gmap BlockId NodeMaterialBlock) : Prop :=
  (∀ b, b ∉ np.*1 → g' !! b = g !! b)
  ∧ (∀ n blk, g !! n = Some blk → ∃ blk', g' !! n = Some blk' ∧ blockExtends blk blk')
  ∧ (∀ n, g !! n = None → g' !! n = None).

(** The input at some index of [nt] has a connection in [g'] and had none
    in [g]. *)
Definition newlyConnected (g g' : gmap BlockId NodeMaterialBlock) (nt : BlockId) : Prop :=
  ∃ j, connection g nt j = None ∧ is_Some (connection g' nt j).

(** What restoring makes of a material: connections are added, and every
    block that gained one has all the connections wanted from its outputs. *)
Definition restores (m m' : NodeMaterial) : Prop :=
  sameFields m m'
  ∧ extends (blocks m) (blocks m')
  ∧ (∀ nt, newlyConnected (blocks m) (blocks m') nt → complete (blocks m') nt).

(** The number of inputs of new blocks without a connection. *)
Definition pending (g : gmap BlockId NodeMaterialBlock) : nat :=
  sum_list_with (λ n, from_option (λ blk, unconnected (inputs blk)) 0%nat (g !! n)) np.*1.

Lemma np_functional n p p' : (n, p) ∈ np → (n, p') ∈ np → p = p'.
Proof.
  intros H H'. by injection (NoDup_fmap_eq fst np (n, p) (n, p') np_NoDup H H' eq_refl).
Qed.

Lemma np_fst n p : (n, p) ∈ np → n ∈ np.*1.
Proof. intros H. apply list_elem_of_fmap. by exists (n, p). Qed.

Lemma np_snd n p : (n, p) ∈ np → p ∈ serializedBlocks source.
Proof. intros H. rewrite <- np_blocks. apply list_elem_of_fmap. by exists (n, p). Qed.

Lemma np_fst_inv n : n ∈ np.*1 → ∃ p, (n, p) ∈ np.
Proof. intros ([n' p] & -> & H)%list_elem_of_fmap. by exists p. Qed.

Lemma wanted_functional nt j ns o ns' o' :
  wanted nt j ns o → wanted nt j ns' o' → ns' = ns ∧ o' = o.
Proof.
  intros (p & i & id & Hp & Hi & Hc & Hid) (p' & i' & id' & Hp' & Hi' & Hc' & Hid').
  rewrite <- (np_functional _ _ _ Hp Hp') in Hi'. split; congruence.
Qed.

Lemma wanted_target nt j ns o : wanted nt j ns o → nt ∈ np.*1.
Proof. intros (p & i & id & Hp & _). by eapply np_fst. Qed.

Lemma visited_new n : visited n → n ∈ np.*1.
Proof. intros [? p Hp _|? j ns o Hw _]; [by eapply np_fst | by eapply wanted_target]. Qed.

Lemma extends_refl g : extends g g.
Proof.
  split; [done|]. split; [|done]. intros n blk Hblk. exists blk. split; [done|].
  apply blockExtends_refl.
Qed.

Lemma extends_trans g1 g2 g3 : extends g1 g2 → extends g2 g3 → extends g1 g3.
Proof.
  intros (Ho1 & Hn1 & Hz1) (Ho2 & Hn2 & Hz2). split; [|split].
  - intros b Hb. rewrite Ho2 by done. by apply Ho1.
  - intros n blk Hblk. destruct (Hn1 n blk Hblk) as (blk2 & Hblk2 & He2).
    destruct (Hn2 n blk2 Hblk2) as (blk3 & Hblk3 & He3).
    exists blk3. split; [done|]. by eapply blockExtends_trans.
  - intros n Hnone. by apply Hz2, Hz1.
Qed.

Lemma extends_connection g g' n j c :
  extends g g' → connection g n j = Some c → connection g' n j = Some c.
Proof.
  intros (Ho & Hn & _) Hc. unfold connection in *.
  destruct (g !! n) as [blk|] eqn:Hblk; [|done].
  destruct (Hn n blk Hblk) as (blk' & -> & _ & HF).
  destruct (inputs blk !! j) as [input|] eqn:Hj; [|done].
  destruct (Forall2_lookup_l _ _ _ _ _ HF Hj) as (input' & -> & _ & [Hnone|Hsame]);
    congruence.
Qed.

Lemma extends_complete g g' n : extends g g' → complete g n → complete g' n.
Proof. intros He Hc nt j o Hw. eapply extends_connection; [done|]. by apply Hc. Qed.

Lemma blockExtends_names blk blk' :
  blockExtends blk blk' → map inputName (inputs blk') = map inputName (inputs blk).
Proof.
  intros [_ HF]. induction HF as [|i i' l l' [Hn _] _ IH]; [done|].
  simpl. by rewrite Hn, IH.
Qed.

Lemma blockExtends_outputs blk blk' : blockExtends blk blk' → outputs blk' = outputs blk.
Proof. intros [<- _]. by destruct blk'. Qed.

Lemma extends_shaped g g' : extends g g' → shaped g → shaped g'.
Proof.
  intros (Ho & Hn & _) [Hin Hout]. split.
  - intros n p Hp. destruct (Hin n p Hp) as (blk & Hblk & Hnames & Hnd).
    destruct (Hn n blk Hblk) as (blk' & Hblk' & He).
    exists blk'. split; [done|]. by rewrite (blockExtends_names _ _ He).
  - intros nt j ns o Hw. destruct (Hout nt j ns o Hw) as (blk & Hblk & Ho').
    destruct (Hn ns blk Hblk) as (blk' & Hblk' & He).
    exists blk'. split; [done|]. by rewrite (blockExtends_outputs _ _ He).
Qed.

Lemma extends_pending g g' : extends g g' → (pending g' ≤ pending g)%nat.
Proof.
  intros (Ho & Hn & Hz). apply sum_list_with_le. intros n Hin.
  destruct (g !! n) as [blk|] eqn:Hblk.
  - destruct (Hn n blk Hblk) as (blk' & -> & _ & HF). simpl.
    by apply unconnected_extends.
  - by rewrite (Hz n Hblk).
Qed.

Lemma restores_refl m : restores m m.
Proof.
  split; [apply sameFields_refl|]. split; [apply extends_refl|].
  intros nt (j & Hnone & [c Hsome]). congruence.
Qed.

Lemma restores_trans m1 m2 m3 : restores m1 m2 → restores m2 m3 → restores m1 m3.
Proof.
  intros (Hs1 & He1 & Hc1) (Hs2 & He2 & Hc2).
  split; [by eapply sameFields_trans|]. split; [by eapply extends_trans|].
  intros nt (j & Hnone & Hsome).
  destruct (connection (blocks m2) nt j) as [c|] eqn:Hmid.
  - eapply extends_complete; [done|]. apply Hc1. exists j. split; [done | by eexists].
  - apply Hc2. by exists j.
Qed.

Lemma connectTo_spec b o nt j m blk input :
  blocks m !! nt = Some blk → inputs blk !! j = Some input →
  connectedPoint input = None → nt ∈ np.*1 →
  ∃ m1, connectTo b o nt j m = Ok tt m1
        ∧ sameFields m m1
        ∧ extends (blocks m) (blocks m1)
        ∧ connection (blocks m1) nt j = Some (b, o)
        ∧ (pending (blocks m1) < pending (blocks m))%nat
        ∧ (∀ n' j', (n', j') ≠ (nt, j) →
             connection (blocks m1) n' j' = connection (blocks m) n' j').
Proof.
  intros Hblk Hj Hnone Hnt.
  destruct (alter_connected_extends (b, o) j (inputs blk) input Hj Hnone) as [HF Hlt].
  exists (withBlocks (<[nt := withInputs (alter (connected (b, o)) j (inputs blk)) blk]>
                        (blocks m)) m).
  split. { unfold connectTo. munfold. by rewrite Hblk. }
  split. { unfold sameFields. by destruct m. }
  assert (Hlook : ∀ g', blocks (withBlocks g' m) = g') by (intros g'; by destruct m).
  rewrite Hlook. split; [split; [|split]|split; [|split]].
  - intros x Hx. rewrite lookup_insert_ne; [done|]. by intros ->.
  - intros n blk0 Hblk0. destruct (decide (n = nt)) as [->|Hne].
    + rewrite lookup_insert_eq. eexists. split; [done|].
      rewrite Hblk in Hblk0. injection Hblk0 as <-. split; [by destruct blk | done].
    + rewrite lookup_insert_ne by done. exists blk0. split; [done|].
      apply blockExtends_refl.
  - intros n Hn. rewrite lookup_insert_ne; [done|]. intros ->. congruence.
  - unfold connection. rewrite lookup_insert_eq.
    replace (inputs (withInputs (alter (connected (b, o)) j (inputs blk)) blk))
      with (alter (connected (b, o)) j (inputs blk)) by (by destruct blk).
    rewrite list_lookup_alter, decide_True by done. by rewrite Hj.
  - unfold pending. apply (sum_list_with_lt _ _ _ nt); [|done|].
    + intros n _. destruct (decide (n = nt)) as [->|Hne].
      * rewrite lookup_insert_eq, Hblk. simpl.
        replace (inputs (withInputs (alter (connected (b, o)) j (inputs blk)) blk))
          with (alter (connected (b, o)) j (inputs blk)) by (by destruct blk).
        lia.
      * by rewrite lookup_insert_ne.
    + rewrite lookup_insert_eq, Hblk. simpl.
      replace (inputs (withInputs (alter (connected (b, o)) j (inputs blk)) blk))
        with (alter (connected (b, o)) j (inputs blk)) by (by destruct blk).
      done.
  - intros n' j' Hne. unfold connection.
    destruct (decide (n' = nt)) as [->|Hn']; [|by rewrite lookup_insert_ne].
    rewrite lookup_insert_eq, Hblk.
    replace (inputs (withInputs (alter (connected (b, o)) j (inputs blk)) blk))
      with (alter (connected (b, o)) j (inputs blk)) by (by destruct blk).
    rewrite list_lookup_alter_ne; [done|]. intros ->. done.
Qed.

(** The body of the loop of [_restoreConnections] over the inputs of a
    candidate. *)
Definition restoreInput (fuel : nat) (block : BlockId) (outputPoint : OutputPoint)
    (target : BlockId) (input : SerializedInput) : M unit :=
  match serializedConnection input with
  | Some (targetBlockId, targetConnectionName) =>
      if bool_decide (idmap !! targetBlockId = Some block)
         && bool_decide (targetConnectionName = outputName outputPoint)
      then
        t <- getBlock target ;;
        match getInputByName t (serializedInputName input) with
        | None => ret tt
        | Some (index, inputPoint) =>
            if bool_decide (is_Some (connectedPoint inputPoint))
            then ret tt
            else
              connectTo block (outputName outputPoint) target index ;;;
              _restoreConnections fuel target source idmap
        end
      else ret tt
  | None => ret tt
  end.

Lemma restoreConnections_unfold fuel block :
  _restoreConnections (S fuel) block source idmap
  = (blk <- getBlock block ;;
     forEach (outputs blk) (λ outputPoint,
       forEach (serializedBlocks source) (λ candidate,
         match idmap !! serializedId candidate with
         | None => ret tt
         | Some target =>
             forEach (serializedInputs candidate)
               (restoreInput fuel block outputPoint target)
         end))).
Proof. reflexivity. Qed.

Section RestoreStep.

Variable fuel : nat.
Hypothesis IHfuel :
  ∀ b m, (pending (blocks m) < fuel)%nat → shaped (blocks m) → sound (blocks m) →
         visited b →
    ∃ m', _restoreConnections fuel b source idmap m = Ok tt m'
          ∧ restores m m' ∧ sound (blocks m') ∧ complete (blocks m') b.

(** The states of a call that has one more unit of fuel. *)
Definition ready (m : NodeMaterial) : Prop :=
  shaped (blocks m) ∧ sound (blocks m) ∧ (pending (blocks m) < S fuel)%nat.

(** The connection that the serialized input [input] of [p] asks of the
    output [o] of [b], if it does, is made. *)
Definition linked (b : BlockId) (o : string) (nt : BlockId) (p : SerializedBlock)
    (input : SerializedInput) (m : NodeMaterial) : Prop :=
  ∀ j id, serializedInputs p !! j = Some input →
          serializedConnection input = Some (id, o) → idmap !! id = Some b →
          connection (blocks m) nt j = Some (b, o).

Lemma linked_restores b o nt p input m m' :
  linked b o nt p input m → restores m m' → linked b o nt p input m'.
Proof.
  intros Hl (_ & He & _) j id Hj Hc Hid. eapply extends_connection; [done|].
  by eapply Hl.
Qed.

Lemma ready_restores m m' : ready m → restores m m' → sound (blocks m') → ready m'.
Proof.
  intros (Hsh & _ & Hp) (_ & He & _) Hs. split; [by eapply extends_shaped|].
  split; [done|]. pose proof (extends_pending _ _ He). lia.
Qed.

Lemma restoreInput_restores b op nt p input m :
  ready m → visited b → (nt, p) ∈ np → input ∈ serializedInputs p →
  ∃ m', restoreInput fuel b op nt input m = Ok tt m'
        ∧ restores m m' ∧ ready m' ∧ linked b (outputName op) nt p input m'.
Proof.
  intros (Hsh & Hs & Hp) Hb Hnp Hin. unfold restoreInput.
  destruct (serializedConnection input) as [[tid oname]|] eqn:Hc.
  2:{ exists m. split; [done|]. split; [apply restores_refl|]. split; [done|].
      intros j id _ ?. congruence. }
  destruct (decide (idmap !! tid = Some b)) as [Htid|Htid].
  2:{ rewrite (bool_decide_eq_false_2 _ Htid). cbn [andb].
      exists m. split; [done|]. split; [apply restores_refl|]. split; [done|].
      intros j id _ ? ?. congruence. }
  destruct (decide (oname = outputName op)) as [->|Hname].
  2:{ rewrite (bool_decide_eq_false_2 _ Hname). rewrite andb_false_r.
      exists m. split; [done|]. split; [apply restores_refl|]. split; [done|].
      intros j id _ ? ?. congruence. }
  rewrite !bool_decide_eq_true_2 by done. cbn [andb].
  destruct Hsh as [Hins Houts].
  destruct (Hins nt p Hnp) as (blk & Hblk & Hnames & Hnd).
  apply list_elem_of_lookup in Hin as [j Hj].
  assert (∃ ip, inputs blk !! j = Some ip ∧ inputName ip = serializedInputName input)
    as (ip & Hip & Hipname).
  { assert (map inputName (inputs blk) !! j = Some (serializedInputName input)) as H.
    { rewrite Hnames. change (map ?f ?l) with (f <$> l).
      by rewrite list_lookup_fmap, Hj. }
    change (map ?f ?l) with (f <$> l) in H. rewrite list_lookup_fmap in H.
    destruct (inputs blk !! j) as [ip|]; [|done]. exists ip. split; [done|].
    by injection H. }
  assert (wanted nt j b (outputName op)) as Hw by (by exists p, input, tid).
  assert (Hindex : ∀ j', serializedInputs p !! j' = Some input → j' = j).
  { intros j' Hj'. rewrite Hnames in Hnd.
    eapply NoDup_lookup; [exact Hnd| |];
      change (map ?f ?l) with (f <$> l); rewrite list_lookup_fmap.
    - by rewrite Hj'.
    - by rewrite Hj. }
  unfold bind at 1. unfold getBlock at 1. rewrite Hblk.
  rewrite <- Hipname. rewrite (getInputByName_lookup blk j ip Hnd Hip).
  destruct (connectedPoint ip) as [[ns o]|] eqn:Hcp.
  - rewrite bool_decide_eq_true_2 by (by eexists).
    exists m. split; [done|]. split; [apply restores_refl|]. split; [done|].
    intros j' id Hj' _ _. rewrite (Hindex j' Hj').
    assert (connection (blocks m) nt j = Some (ns, o)) as Hconn
      by (unfold connection; by rewrite Hblk, Hip).
    destruct (Hs nt j ns o (np_fst _ _ Hnp) Hconn) as [Hw' _].
    destruct (wanted_functional _ _ _ _ _ _ Hw Hw') as [-> ->]. done.
  - rewrite bool_decide_eq_false_2 by (intros [? ?]; done).
    destruct (connectTo_spec b (outputName op) nt j m blk ip Hblk Hip Hcp
                (np_fst _ _ Hnp)) as (m1 & Hrun1 & Hsame1 & Hext1 & Hconn1 & Hlt1 & Hrest1).
    assert (sound (blocks m1)) as Hs1.
    { intros nt' j' ns o Hnt' Hconn'.
      destruct (decide ((nt', j') = (nt, j))) as [Heq|Hne].
      - injection Heq as -> ->. rewrite Hconn1 in Hconn'. injection Hconn' as <- <-.
        done.
      - rewrite Hrest1 in Hconn' by done. by apply Hs. }
    destruct (IHfuel nt m1) as (m2 & Hrun2 & (Hsame2 & Hext2 & Hnew2) & Hs2 & Hcomplete2).
    { lia. }
    { eapply extends_shaped; [done|]. by split. }
    { done. }
    { by eapply visited_link. }
    exists m2. split.
    { unfold bind at 1. rewrite Hrun1. exact Hrun2. }
    assert (restores m m2) as Hres.
    { split; [by eapply sameFields_trans|]. split; [by eapply extends_trans|].
      intros x (j' & Hnone & Hsome). destruct (decide (x = nt)) as [->|Hx]; [done|].
      apply Hnew2. exists j'. split; [|done]. rewrite Hrest1; [done|].
      intros [=]. done. }
    split; [done|]. split.
    { apply (ready_restores m); [|done|done]. split; [by split | by split]. }
    intros j' id Hj' _ _. rewrite (Hindex j' Hj').
    by eapply extends_connection.
Qed.

Lemma restoreCandidate_restores b op p m :
  ready m → visited b → p ∈ serializedBlocks source →
  ∃ m', match idmap !! serializedId p with
        | None => ret tt
        | Some target =>
            forEach (serializedInputs p) (restoreInput fuel b op target)
        end m = Ok tt m'
        ∧ restores m m' ∧ ready m'
        ∧ ∀ nt input, (nt, p) ∈ np → input ∈ serializedInputs p →
                      linked b (outputName op) nt p input m'.
Proof.
  intros Hready Hb Hp.
  assert (∃ n, (n, p) ∈ np) as [n Hnp].
  { rewrite <- np_blocks in Hp. apply list_elem_of_fmap in Hp as ([n p'] & -> & Hin).
    by exists n. }
  rewrite (idmap_np _ _ Hnp).
  destruct (forEach_rule restores ready (λ input, linked b (outputName op) n p input)
              (restoreInput fuel b op n) (serializedInputs p) m)
    as (m' & Hrun & Hres & Hready' & Hlinked).
  - apply restores_refl.
  - apply restores_trans.
  - intros input m1 m2. apply linked_restores.
  - done.
  - intros input m1 Hin _ Hready1. by apply (restoreInput_restores b op n p).
  - exists m'. split; [done|]. split; [done|]. split; [done|].
    intros nt input Hnt Hin.
    assert (nt = n) as ->.
    { pose proof (idmap_np _ _ Hnt) as H1. pose proof (idmap_np _ _ Hnp) as H2. congruence. }
    by apply Hlinked.
Qed.

Lemma restoreConnections_step b m :
  ready m → visited b →
  ∃ m', _restoreConnections (S fuel) b source idmap m = Ok tt m'
        ∧ restores m m' ∧ sound (blocks m') ∧ complete (blocks m') b.
Proof.
  intros Hready Hb. rewrite restoreConnections_unfold.
  destruct (np_fst_inv b (visited_new b Hb)) as [pb Hpb].
  pose proof Hready as ([Hins Houts] & _ & _).
  destruct (Hins b pb Hpb) as (blk & Hblk & _).
  unfold bind at 1. unfold getBlock at 1. rewrite Hblk.
  destruct (forEach_rule restores ready
              (λ op m, ∀ p nt input, p ∈ serializedBlocks source → (nt, p) ∈ np →
                                    input ∈ serializedInputs p →
                                    linked b (outputName op) nt p input m)
              (λ outputPoint,
                 forEach (serializedBlocks source) (λ candidate,
                   match idmap !! serializedId candidate with
                   | None => ret tt
                   | Some target =>
                       forEach (serializedInputs candidate)
                         (restoreInput fuel b outputPoint target)
                   end))
              (outputs blk) m)
    as (m' & Hrun & Hres & Hready' & Hlinked).
  - apply restores_refl.
  - apply restores_trans.
  - intros op m1 m2 Hl Hr p nt input Hp Hnt Hin. eapply linked_restores; [|done].
    by apply Hl.
  - done.
  - intros op m1 Hop _ Hready1.
    destruct (forEach_rule restores ready
                (λ p m, ∀ nt input, (nt, p) ∈ np → input ∈ serializedInputs p →
                                    linked b (outputName op) nt p input m)
                (λ candidate,
                   match idmap !! serializedId candidate with
                   | None => ret tt
                   | Some target =>
                       forEach (serializedInputs candidate)
                         (restoreInput fuel b op target)
                   end)
                (serializedBlocks source) m1)
      as (m2 & Hrun2 & Hres2 & Hready2 & Hlinked2).
    + apply restores_refl.
    + apply restores_trans.
    + intros p m2 m3 Hl Hr nt input Hnt Hin. eapply linked_restores; [|done].
      by apply Hl.
    + done.
    + intros p m2 Hp _ Hready2. by apply restoreCandidate_restores.
    + exists m2. split; [done|]. split; [done|]. split; [done|].
      intros p nt input Hp. by apply Hlinked2.
  - exists m'. split; [done|]. split; [done|].
    split; [by destruct Hready' as (_ & ? & _)|].
    intros nt j o Hw. destruct (Houts nt j b o Hw) as (blk' & Hblk' & Ho).
    rewrite Hblk in Hblk'. injection Hblk' as <-.
    apply list_elem_of_fmap in Ho as (op & -> & Hop).
    destruct Hw as (p & input & id & Hnt & Hj & Hc & Hid).
    apply (Hlinked op Hop p nt input (np_snd _ _ Hnt) Hnt
             (list_elem_of_lookup_2 _ _ _ Hj) j id Hj Hc Hid).
Qed.

End RestoreStep.

(** With fuel above the number of inputs without a connection,
    [_restoreConnections] on a block reached returns: it adds connections
    that are wanted, all those wanted from the outputs of the block, and
    all those wanted from a block that gained a connection. *)
Lemma restoreConnections_restores (fuel : nat) :
  ∀ b m, (pending (blocks m) < fuel)%nat → shaped (blocks m) → sound (blocks m) →
         visited b →
    ∃ m', _restoreConnections fuel b source idmap m = Ok tt m'
          ∧ restores m m' ∧ sound (blocks m') ∧ complete (blocks m') b.
Proof.
  induction fuel as [|fuel IH]; intros b m Hp Hsh Hs Hb; [lia|].
  apply (restoreConnections_step fuel IH); [|done].
  split; [done|]. split; [done|]. lia.
Qed.

(** The loop under [// Connections], without merging: from new blocks
    without any connection it makes exactly the connections wanted from a
    block reached. *)
Lemma restoreAllConnections_spec (fuel : nat) (m : NodeMaterial) :
  (pending (blocks m) < fuel)%nat → shaped (blocks m) →
  (∀ n j, n ∈ np.*1 → connection (blocks m) n j = None) →
  ∃ m', restoreAllConnections fuel source false idmap m = Ok tt m'
        ∧ sameFields m m'
        ∧ extends (blocks m) (blocks m')
        ∧ ∀ nt j ns o, nt ∈ np.*1 →
            (connection (blocks m') nt j = Some (ns, o)
             ↔ wanted nt j ns o ∧ visited ns).
Proof.
  intros Hp Hsh Hnone. unfold restoreAllConnections.
  destruct (forEach_rule restores
              (λ m, shaped (blocks m) ∧ sound (blocks m) ∧ (pending (blocks m) < fuel)%nat)
              (λ p m, serializedInputs p = [] → ∀ n, (n, p) ∈ np → complete (blocks m) n)
              (λ parsedBlock,
                 match idmap !! serializedId parsedBlock with
                 | None => ret tt
                 | Some block =>
                     blk <- getBlock block ;;
                     if negb (bool_decide (length (inputs blk) = 0%nat)) && negb false
                     then ret tt
                     else _restoreConnections fuel block source idmap
                 end)
              (serializedBlocks source) m)
    as (m' & Hrun & (Hsame & Hext & Hnew) & (Hsh' & Hs' & _) & Hstart).
  - apply restores_refl.
  - apply restores_trans.
  - intros p m1 m2 Hc (_ & He & _) Hnil n Hn. eapply extends_complete; [done|].
    by apply Hc.
  - split; [done|]. split; [|done]. intros nt j ns o Hnt Hconn.
    rewrite Hnone in Hconn by done. done.
  - intros p m1 Hp1 _ (Hsh1 & Hs1 & Hp1').
    assert (∃ n, (n, p) ∈ np) as [n Hnp].
    { rewrite <- np_blocks in Hp1.
      apply list_elem_of_fmap in Hp1 as ([n p'] & -> & Hin). by exists n. }
    rewrite (idmap_np _ _ Hnp).
    destruct (proj1 Hsh1 n p Hnp) as (blk & Hblk & Hnames & _).
    unfold bind at 1. unfold getBlock at 1. rewrite Hblk.
    assert (length (inputs blk) = length (serializedInputs p)) as Hlen.
    { rewrite <- (length_map inputName), Hnames. apply length_map. }
    destruct (serializedInputs p) as [|input rest] eqn:Hinputs.
    + rewrite bool_decide_eq_true_2 by done. cbn [negb andb].
      destruct (restoreConnections_restores fuel n m1) as (m2 & Hrun2 & Hres2 & Hs2 & Hc2);
        [done | done | done | by eapply visited_start |].
      exists m2. split; [done|]. split; [done|]. split.
      * destruct Hres2 as (_ & He2 & _). split; [by eapply extends_shaped|].
        split; [done|]. pose proof (extends_pending _ _ He2). lia.
      * intros _ n' Hn'.
        assert (n' = n) as ->; [|done].
        pose proof (idmap_np _ _ Hn') as H1. pose proof (idmap_np _ _ Hnp) as H2.
        congruence.
    + rewrite bool_decide_eq_false_2 by (rewrite Hlen; done). cbn [negb andb].
      exists m1. split; [done|]. split; [apply restores_refl|]. split; [done|].
      intros ?. done.
  - assert (Hall : ∀ n, visited n → complete (blocks m') n).
    { induction 1 as [n p Hnp Hnil|n j ns o Hw Hns IH].
      - by apply (Hstart p (np_snd _ _ Hnp)).
      - apply Hnew. exists j. split; [apply Hnone; by eapply wanted_target|].
        rewrite (IH n j o Hw). by eexists. }
    exists m'. split; [done|]. split; [done|]. split; [done|].
    intros nt j ns o Hnt. split; [by apply Hs'|].
    intros [Hw Hv]. by apply Hall.
Qed.

End Restore.

(** *** The output nodes *)

(** The target of the block [n] of the store names the stage [flag]. *)
Definition namesStage (g : gmap BlockId NodeMaterialBlock) (flag : Z) (n : BlockId)
  : Prop :=
  targetAnd (g !! n ≫= target) flag ≠ 0%Z.

#[global] Instance namesStage_dec g flag n : Decision (namesStage g flag n).
Proof. unfold namesStage. apply _. Defined.

Lemma filter_iff_elem {A} (P Q : A → Prop) `{!∀ x, Decision (P x)}
    `{!∀ x, Decision (Q x)} (l : list A) :
  (∀ x, x ∈ l → (P x ↔ Q x)) → filter P l = filter Q l.
Proof.
  induction l as [|x l IH]; intros Hl; [done|].
  assert (filter P l = filter Q l) as Heq by (apply IH; intros y Hy; apply Hl; by right).
  destruct (decide (P x)) as [HP|HP].
  - rewrite !filter_cons_True; [by rewrite Heq | by apply (Hl x); [left|] | done].
  - rewrite !filter_cons_False; [done | | done].
    intros HQ. apply HP. apply (Hl x); [by left | done].
Qed.

(** The loop under [// Outputs] over ids of new blocks, none of them an
    output node yet: each block joins the list of every stage that its
    target names, in the order of the ids. *)
Lemma addOutputNodes_loop (idmap : gmap Z BlockId) :
  ∀ (ids : list Z) (nodes : list BlockId) (m : NodeMaterial),
    Forall2 (λ id n, idmap !! id = Some n) ids nodes →
    NoDup nodes →
    (∀ n, n ∈ nodes → n ∉ _vertexOutputNodes m ∧ n ∉ _fragmentOutputNodes m) →
    (∀ n, n ∈ nodes → ∃ blk, blocks m !! n = Some blk ∧ is_Some (target blk)) →
    ∃ m',
      forEach ids (λ outputNodeId,
        match idmap !! outputNodeId with
        | Some node => addOutputNode node
        | None => fail TypeError
        end) m = Ok tt m'
      ∧ m' = withFragmentOutputNodes (_fragmentOutputNodes m')
               (withVertexOutputNodes (_vertexOutputNodes m') m)
      ∧ _vertexOutputNodes m'
        = _vertexOutputNodes m ++ filter (namesStage (blocks m) Vertex) nodes
      ∧ _fragmentOutputNodes m'
        = _fragmentOutputNodes m ++ filter (namesStage (blocks m) Fragment) nodes.
Proof.
  intros ids nodes m HF. revert m.
  induction HF as [|id n ids nodes Hid _ IH]; intros m Hnd Hnew Hnodes.
  - exists m. split; [reflexivity|]. rewrite !filter_nil, !app_nil_r.
    split; [by destruct m | done].
  - cbn [forEach foldM]. unfold bind at 1. rewrite Hid.
    destruct (Hnodes n) as (blk & Hblk & [t Ht]); [by left|].
    rewrite (addOutputNode_cases n blk t m Hblk Ht).
    change (foldM _ tt ids) with (forEach ids (λ outputNodeId,
      match idmap !! outputNodeId with
      | Some node => addOutputNode node
      | None => fail TypeError
      end)).
    apply NoDup_cons in Hnd as [Hn Hnd].
    destruct (Hnew n) as [Hnv Hnf]; [by left|].
    assert (Hm1 : blocks (afterAddOutputNode n t m) = blocks m
                  ∧ _vertexOutputNodes (afterAddOutputNode n t m)
                    = vertexOutputNodesWith n t m
                  ∧ _fragmentOutputNodes (afterAddOutputNode n t m)
                    = fragmentOutputNodesWith n t m) by done.
    destruct Hm1 as (Hb1 & Hv1 & Hf1).
    assert (Hv : vertexOutputNodesWith n t m
                 = _vertexOutputNodes m ++ filter (namesStage (blocks m) Vertex) [n]).
    { unfold vertexOutputNodesWith. rewrite (bool_decide_eq_true_2 _ Hnv), andb_true_r.
      destruct (bool_decide_reflect (Z.land t Vertex ≠ 0%Z)) as [Hbit|Hbit].
      - rewrite filter_cons_True; [done|]. unfold namesStage. by rewrite Hblk; simpl; rewrite Ht.
      - rewrite filter_cons_False; [by rewrite app_nil_r|].
        unfold namesStage. by rewrite Hblk; simpl; rewrite Ht. }
    assert (Hf : fragmentOutputNodesWith n t m
                 = _fragmentOutputNodes m ++ filter (namesStage (blocks m) Fragment) [n]).
    { unfold fragmentOutputNodesWith. rewrite (bool_decide_eq_true_2 _ Hnf), andb_true_r.
      destruct (bool_decide_reflect (Z.land t Fragment ≠ 0%Z)) as [Hbit|Hbit].
      - rewrite filter_cons_True; [done|]. unfold namesStage. by rewrite Hblk; simpl; rewrite Ht.
      - rewrite filter_cons_False; [by rewrite app_nil_r|].
        unfold namesStage. by rewrite Hblk; simpl; rewrite Ht. }
    destruct (IH (afterAddOutputNode n t m)) as (m' & Hrun & Hm' & Hv' & Hf').
    + done.
    + intros n' Hn'. destruct (Hnew n') as [Hv0 Hf0]; [by right|].
      assert (n' ≠ n) by (intros ->; done).
      rewrite Hv1, Hf1, Hv, Hf. split.
      * intros [?|Hin%list_elem_of_filter]%elem_of_app; [done|].
        destruct Hin as [_ ->%list_elem_of_singleton]. done.
      * intros [?|Hin%list_elem_of_filter]%elem_of_app; [done|].
        destruct Hin as [_ ->%list_elem_of_singleton]. done.
    + intros n' Hn'. rewrite Hb1. apply Hnodes. by right.
    + exists m'. split; [exact Hrun|].
      rewrite Hb1, Hv1, Hv in Hv'. rewrite Hb1, Hf1, Hf in Hf'.
      split; [|split].
      * rewrite Hm'. unfold afterAddOutputNode. by destruct m.
      * rewrite Hv', <- app_assoc. f_equal.
        change (n :: nodes) with ([n] ++ nodes). by rewrite filter_app.
      * rewrite Hf', <- app_assoc. f_equal.
        change (n :: nodes) with ([n] ++ nodes). by rewrite filter_app.
Qed.

Lemma sameFields_lists m m' :
  sameFields m m' →
  attachedBlocks m' = attachedBlocks m
  ∧ _vertexOutputNodes m' = _vertexOutputNodes m
  ∧ _fragmentOutputNodes m' = _fragmentOutputNodes m
  ∧ _mode m' = _mode m.
Proof. unfold sameFields. intros ->. by destruct m. Qed.

Lemma reconnected_fields idmap blk :
  inputs (reconnected idmap blk) = inputs blk
  ∧ outputs (reconnected idmap blk) = outputs blk
  ∧ target (reconnected idmap blk) = target blk
  ∧ className (reconnected idmap blk) = className blk
  ∧ isTeleportOut (reconnected idmap blk) = isTeleportOut blk.
Proof.
  unfold reconnected. destruct (isTeleportOut blk) eqn:Hout; [|by rewrite Hout].
  destruct (_tempEntryPointUniqueId blk) as [id|]; [|by rewrite Hout].
  destruct (bool_decide (id ≠ 0%Z)); [|by rewrite Hout].
  destruct (idmap !! id); [|by rewrite Hout]. by destruct blk.
Qed.

(** The number of inputs that the serialized form declares. *)
Definition totalInputs (source : SerializedMaterial) : nat :=
  sum_list_with (λ p, length (serializedInputs p)) (serializedBlocks source).

Lemma sum_list_with_pairs {A B} (f : A → nat) (h : B → nat) (l : list (A * B)) :
  (∀ a b, (a, b) ∈ l → (f a ≤ h b)%nat) →
  (sum_list_with f l.*1 ≤ sum_list_with h l.*2)%nat.
Proof.
  induction l as [|[a b] l IH]; intros H; [done|].
  rewrite !fmap_cons. cbn [sum_list_with fst snd].
  pose proof (H a b (ltac:(by left))).
  assert (sum_list_with f l.*1 ≤ sum_list_with h l.*2)%nat
    by (apply IH; intros a' b' Hin; apply H; by right).
  lia.
Qed.

Lemma unconnected_le l : (unconnected l ≤ length l)%nat.
Proof. apply length_filter. Qed.

Lemma Forall2_lookup_idmap (idmap : gmap Z BlockId) (ids : list Z) :
  (∀ id, id ∈ ids → is_Some (idmap !! id)) →
  ∃ nodes, Forall2 (λ id n, idmap !! id = Some n) ids nodes.
Proof.
  induction ids as [|id ids IH]; intros H; [by exists []|].
  destruct (H id) as [n Hn]; [by left|].
  destruct IH as [nodes HF]; [intros id' Hid'; apply H; by right|].
  exists (n :: nodes). by constructor.
Qed.

Section ParseFacts.

Variable GetClass : string → option NodeMaterialBlock.
Variable uniqueIdFor : BlockId → Z.

(** The block object that the loop under [// Create blocks] makes of the
    serialized block [p], [n] being the new object. *)
Definition createdBlock (n : BlockId) (p : SerializedBlock) : option NodeMaterialBlock :=
  (λ constructed, deserializeBlock constructed (uniqueIdFor n) p)
    <$> GetClass (customType p).

(** What the loop under [// Create blocks] does from [m0]: [np] pairs each
    new block object with the serialized block it was made of, in order;
    [idmap] is [map]. *)
Definition createdFrom (sb : list SerializedBlock) (m0 : NodeMaterial)
    (np : list (BlockId * SerializedBlock)) (idmap : gmap Z BlockId)
    (m1 : NodeMaterial) : Prop :=
  np.*2 = sb
  ∧ NoDup np.*1
  ∧ (∀ n, n ∈ np.*1 → blocks m0 !! n = None)
  ∧ (∀ n p, (n, p) ∈ np → is_Some (blocks m1 !! n) ∧ blocks m1 !! n = createdBlock n p)
  ∧ (∀ b, b ∉ np.*1 → blocks m1 !! b = blocks m0 !! b)
  ∧ m1 = withAttachedBlocks (attachedBlocks m0 ++ np.*1) (withBlocks (blocks m1) m0)
  ∧ (∀ n p, (n, p) ∈ np → idmap !! serializedId p = Some n)
  ∧ (∀ id n, idmap !! id = Some n → ∃ p, (n, p) ∈ np ∧ serializedId p = id).

Lemma createBlocks_spec (source : SerializedMaterial) (m0 : NodeMaterial) :
  NoDup (map serializedId (serializedBlocks source)) →
  (∀ p, p ∈ serializedBlocks source → is_Some (GetClass (customType p))) →
  ∃ np idmap m1,
    createBlocks GetClass uniqueIdFor source m0 = Ok idmap m1
    ∧ createdFrom (serializedBlocks source) m0 np idmap m1.
Proof.
  unfold createBlocks. generalize (serializedBlocks source) as sb. clear source.
  induction sb as [|p sb IH] using rev_ind; intros Hids Hclass.
  - exists [], ∅, m0. split; [reflexivity|].
    repeat split; try done.
    + constructor.
    + intros n Hn. by apply elem_of_nil in Hn.
    + by apply elem_of_nil in H.
    + by apply elem_of_nil in H.
    + simpl. rewrite app_nil_r. by destruct m0.
    + intros n p Hin. by apply elem_of_nil in Hin.
  - rewrite map_app in Hids. apply NoDup_app in Hids as (Hids & Hnew & _).
    destruct IH as (np & idmap & m1 & Hrun & Hnp2 & Hnd & Hfresh & Hnew1 & Hold & Hm1 & Hm & Hm');
      [done | intros q Hq; apply Hclass, elem_of_app; by left |].
    destruct (Hclass p) as [constructed Hc]; [apply elem_of_app; right; by left|].
    set (n := fresh (dom (blocks m1))).
    assert (blocks m1 !! n = None) as Hn.
    { apply not_elem_of_dom. apply is_fresh. }
    assert (n ∉ np.*1) as Hnnp.
    { intros ((n' & q) & -> & Hin)%list_elem_of_fmap. simpl in Hn.
      destruct (Hnew1 n' q Hin) as [[? Hsome] _]. congruence. }
    exists (np ++ [(n, p)]), (<[serializedId p := n]> idmap),
      (withAttachedBlocks (attachedBlocks m1 ++ [n])
         (withBlocks (<[n := deserializeBlock constructed (uniqueIdFor n) p]> (blocks m1)) m1)).
    split.
    { rewrite foldM_app. unfold bind at 1. rewrite Hrun.
      cbn [foldM]. rewrite Hc. munfold. reflexivity. }
    unfold createdFrom. rewrite !fmap_app. simpl.
    split; [by rewrite Hnp2|].
    split. { apply NoDup_app. split; [done|]. split; [|apply NoDup_singleton].
             intros x Hx ->%list_elem_of_singleton. done. }
    split. { intros x [Hx| ->%list_elem_of_singleton]%elem_of_app; [by apply Hfresh|].
             rewrite <- Hold by done. done. }
    split. { intros x q [Hin|Heq%list_elem_of_singleton]%elem_of_app.
             - assert (x ≠ n) as Hne.
               { intros ->. apply Hnnp. apply list_elem_of_fmap. by exists (n, q). }
               rewrite lookup_insert_ne by done. by apply Hnew1.
             - injection Heq as -> ->. rewrite lookup_insert_eq.
               split; [by eexists|]. unfold createdBlock. by rewrite Hc. }
    split. { intros b Hb. rewrite not_elem_of_app in Hb. destruct Hb as [Hb Hbn].
             rewrite lookup_insert_ne by (intros ->; apply Hbn; by left).
             by apply Hold. }
    split. { generalize (<[n:=deserializeBlock constructed (uniqueIdFor n) p]> (blocks m1)).
             intros g'. rewrite Hm1. destruct m0. simpl. by rewrite <- app_assoc. }
    split.
    + intros x q [Hin|Heq%list_elem_of_singleton]%elem_of_app.
      * rewrite lookup_insert_ne; [by apply Hm|].
        intros Heq. apply (Hnew (serializedId q)).
        -- apply list_elem_of_fmap. exists q. split; [done|].
           rewrite <- Hnp2. apply list_elem_of_fmap. by exists (x, q).
        -- rewrite <- Heq. by left.
      * injection Heq as -> ->. by rewrite lookup_insert_eq.
    + intros id x Hlook. destruct (decide (id = serializedId p)) as [->|Hne].
      * rewrite lookup_insert_eq in Hlook. injection Hlook as <-.
        exists p. split; [|done]. apply elem_of_app. right. by left.
      * rewrite lookup_insert_ne in Hlook by done.
        destruct (Hm' id x Hlook) as (q & Hq & Hid).
        exists q. split; [|done]. apply elem_of_app. by left.
Qed.

(** The class of a serialized block is registered, and its constructor
    makes a block with the inputs of the serialized form, under names that
    differ, none connected. *)
Definition constructs (p : SerializedBlock) (constructed : NodeMaterialBlock) : Prop :=
  GetClass (customType p) = Some constructed
  ∧ map inputName (inputs constructed) = map serializedInputName (serializedInputs p)
  ∧ NoDup (map inputName (inputs constructed))
  ∧ Forall (λ input, connectedPoint input = None) (inputs constructed).

(** A serialized material that [parseSerializedObject] reads without an
    error: ids differ, classes are registered, the entry point of a
    teleport-out block is a serialized block, a connection to a serialized
    block names one of its outputs. *)
Definition parsable (source : SerializedMaterial) : Prop :=
  NoDup (map serializedId (serializedBlocks source))
  ∧ (∀ p, p ∈ serializedBlocks source → ∃ constructed, constructs p constructed)
  ∧ (∀ p constructed id,
       p ∈ serializedBlocks source → GetClass (customType p) = Some constructed →
       isTeleportOut constructed = true → serializedEntryPoint p = Some id → id ≠ 0%Z →
       id ∈ map serializedId (serializedBlocks source))
  ∧ (∀ p input id o q constructed,
       p ∈ serializedBlocks source → input ∈ serializedInputs p →
       serializedConnection input = Some (id, o) →
       q ∈ serializedBlocks source → serializedId q = id →
       GetClass (customType q) = Some constructed →
       o ∈ map outputName (outputs constructed)).

(** The ids [ids] are of serialized blocks whose target is not [null]. *)
Definition idsWithTarget (source : SerializedMaterial) (ids : list Z) : Prop :=
  ∀ id, id ∈ ids →
    ∃ p, p ∈ serializedBlocks source ∧ serializedId p = id
         ∧ is_Some (serializedTarget p).

(** The new block [n], made of [p], after the loops under [// Create
    blocks] and [// Reconnect teleportation]. *)
Definition parsedBlock (idmap : gmap Z BlockId) (n : BlockId) (p : SerializedBlock)
    (constructed : NodeMaterialBlock) : NodeMaterialBlock :=
  reconnected idmap (deserializeBlock constructed (uniqueIdFor n) p).

Lemma createAndReconnect_spec (source : SerializedMaterial) (m0 : NodeMaterial) :
  parsable source →
  attachedBlocks m0 = [] →
  ∃ np idmap m1 m2,
    createBlocks GetClass uniqueIdFor source m0 = Ok idmap m1
    ∧ reconnectTeleportation idmap m1 = Ok tt m2
    ∧ np.*2 = serializedBlocks source
    ∧ NoDup np.*1
    ∧ (∀ n, n ∈ np.*1 → blocks m0 !! n = None)
    ∧ (∀ n p, (n, p) ∈ np → idmap !! serializedId p = Some n)
    ∧ (∀ id n, idmap !! id = Some n → ∃ p, (n, p) ∈ np ∧ serializedId p = id)
    ∧ m2 = withAttachedBlocks np.*1 (withBlocks (blocks m2) m0)
    ∧ (∀ b, b ∉ np.*1 → blocks m2 !! b = blocks m0 !! b)
    ∧ (∀ n p constructed, (n, p) ∈ np → GetClass (customType p) = Some constructed →
         blocks m2 !! n = Some (parsedBlock idmap n p constructed)).
Proof.
  intros (Hids & Hclass & Hentry & _) Hattached.
  destruct (createBlocks_spec source m0 Hids)
    as (np & idmap & m1 & Hrun1 & Hnp2 & Hnd & Hfresh & Hnew & Hold & Hm1 & Hm & Hm').
  { intros p Hp. destruct (Hclass p Hp) as (c & Hc & _). by eexists. }
  rewrite Hattached in Hm1. simpl in Hm1.
  assert (attachedBlocks m1 = np.*1) as Hatt1 by (rewrite Hm1; by destruct m0).
  destruct (reconnectTeleportation_spec idmap m1) as (m2 & Hrun2 & Hsame2 & Hin2 & Hout2).
  { by rewrite Hatt1. }
  { rewrite Hatt1. intros n ([n' p] & -> & Hnp)%list_elem_of_fmap. simpl.
    destruct (Hnew n' p Hnp) as [_ Hblk]. unfold createdBlock in Hblk.
    destruct (Hclass p) as (c & Hc & _).
    { rewrite <- Hnp2. apply list_elem_of_fmap. by exists (n', p). }
    rewrite Hc in Hblk. simpl in Hblk. eexists. split; [exact Hblk|].
    intros Hout id Htemp Hid. simpl in Hout, Htemp.
    assert (p ∈ serializedBlocks source) as Hp.
    { rewrite <- Hnp2. apply list_elem_of_fmap. by exists (n', p). }
    pose proof (Hentry p c id Hp Hc Hout Htemp Hid) as Hin.
    apply list_elem_of_fmap in Hin as (q & -> & Hq).
    rewrite <- Hnp2 in Hq. apply list_elem_of_fmap in Hq as ([nq q'] & -> & Hq).
    simpl. rewrite (Hm nq q' Hq). by eexists. }
  exists np, idmap, m1, m2. split; [done|]. split; [done|].
  split; [done|]. split; [done|]. split; [done|]. split; [done|]. split; [done|].
  split. { unfold sameFields in Hsame2. rewrite Hsame2. rewrite Hm1. by destruct m0. }
  split. { intros b Hb. rewrite Hout2 by (by rewrite Hatt1). by apply Hold. }
  intros n p c Hnp Hc. rewrite Hin2.
  2:{ rewrite Hatt1. apply list_elem_of_fmap. by exists (n, p). }
  destruct (Hnew n p Hnp) as [_ ->]. unfold createdBlock. by rewrite Hc.
Qed.

Lemma Forall2_NoDup {A B} (R : A → B → Prop) (l : list A) (l' : list B) :
  Forall2 R l l' → NoDup l → (∀ a a' b, R a b → R a' b → a = a') → NoDup l'.
Proof.
  intros HF Hnd Hinj. induction HF as [|a b l l' Hab HF IH]; [constructor|].
  apply NoDup_cons in Hnd as [Ha Hnd]. apply NoDup_cons. split; [|by apply IH].
  intros Hb. apply list_elem_of_lookup in Hb as [i Hi].
  destruct (Forall2_lookup_r _ _ _ _ _ HF Hi) as (a' & Ha' & Ha'b).
  rewrite (Hinj a a' b Hab Ha'b) in Ha. apply Ha. by eapply list_elem_of_lookup_2.
Qed.

Lemma Forall2_elem_of_r {A B} (R : A → B → Prop) (l : list A) (l' : list B) (b : B) :
  Forall2 R l l' → b ∈ l' → ∃ a, a ∈ l ∧ R a b.
Proof.
  intros HF [i Hi]%list_elem_of_lookup.
  destruct (Forall2_lookup_r _ _ _ _ _ HF Hi) as (a & Ha & Hab).
  exists a. split; [by eapply list_elem_of_lookup_2 | done].
Qed.

(** What [parseSerializedObject(source)] makes of a material, without
    merging: the new blocks are attached, in the order of the serialized
    blocks; each is the block that its class constructs, with the target
    and the entry point read from the serialized form, its inputs connected
    as the serialized form wants where the connection comes from a block
    that restoring reaches; the output nodes are the new blocks of the ids
    listed. *)
Lemma parseSerializedObject_spec (fuel : nat) (source : SerializedMaterial)
    (ids : list Z) (m0 : NodeMaterial) :
  parsable source →
  outputNodes source = Some ids →
  NoDup ids →
  idsWithTarget source ids →
  (totalInputs source < fuel)%nat →
  ∃ np idmap m',
    parseSerializedObject GetClass uniqueIdFor fuel source false m0 = Ok tt m'
    ∧ np.*2 = serializedBlocks source
    ∧ NoDup np.*1
    ∧ (∀ n, n ∈ np.*1 → blocks m0 !! n = None)
    ∧ (∀ n p, (n, p) ∈ np → idmap !! serializedId p = Some n)
    ∧ (∀ id n, idmap !! id = Some n → ∃ p, (n, p) ∈ np ∧ serializedId p = id)
    ∧ attachedBlocks m' = np.*1
    ∧ (∀ b, b ∉ np.*1 → blocks m' !! b = blocks m0 !! b)
    ∧ (∀ n p constructed, (n, p) ∈ np → GetClass (customType p) = Some constructed →
         ∃ blk, blocks m' !! n = Some blk
                ∧ blockExtends (parsedBlock idmap n p constructed) blk)
    ∧ (∀ nt j ns o, nt ∈ np.*1 →
         (connection (blocks m') nt j = Some (ns, o)
          ↔ wanted np idmap nt j ns o ∧ visited np idmap ns))
    ∧ (∃ nodes,
         Forall2 (λ id n, idmap !! id = Some n) ids nodes
         ∧ _vertexOutputNodes m' = filter (namesStage (blocks m') Vertex) nodes
         ∧ _fragmentOutputNodes m' = filter (namesStage (blocks m') Fragment) nodes)
    ∧ _mode m' = default Material (serializedMode source).
Proof.
  intros Hparsable Houtputs Hnd Hids' Hfuel.
  pose proof Hparsable as (Hids & Hclass & Hentry & Hnames).
  set (mc := withAttachedBlocks []
               (withFragmentOutputNodes [] (withVertexOutputNodes [] m0))).
  assert (blocks mc = blocks m0) as Hmc by (by destruct m0).
  destruct (createAndReconnect_spec source mc Hparsable)
    as (np & idmap & m1 & m2 & Hrun1 & Hrun2 & Hnp2 & Hndn & Hfresh & Hm & Hm'
        & Hm2 & Hold2 & Hnew2); [by destruct m0|].
  rewrite Hmc in Hfresh, Hold2.
  assert (Hnp : ∀ n p, (n, p) ∈ np → p ∈ serializedBlocks source).
  { intros n p Hin. rewrite <- Hnp2. apply list_elem_of_fmap. by exists (n, p). }
  assert (Hpn : ∀ p, p ∈ serializedBlocks source → ∃ n, (n, p) ∈ np).
  { intros p Hp. rewrite <- Hnp2 in Hp.
    apply list_elem_of_fmap in Hp as ([n p'] & -> & Hin). by exists n. }
  (* the new blocks before the connections are restored *)
  assert (shaped np idmap (blocks m2)) as Hshaped.
  { split.
    - intros n p Hin. destruct (Hclass p (Hnp n p Hin)) as (c & Hc & Hcn & Hcnd & _).
      exists (parsedBlock idmap n p c). split; [by apply Hnew2|].
      unfold parsedBlock. by rewrite (proj1 (reconnected_fields _ _)).
    - intros nt j ns o (p & input & id & Hin & Hj & Hconn & Hid).
      destruct (Hm' id ns Hid) as (q & Hq & Hqid).
      destruct (Hclass q (Hnp ns q Hq)) as (c & Hc & _).
      exists (parsedBlock idmap ns q c). split; [by apply Hnew2|].
      unfold parsedBlock.
      rewrite (proj1 (proj2 (reconnected_fields _ _))). simpl.
      apply (Hnames p input id o q c); try done.
      + by eapply Hnp.
      + by eapply list_elem_of_lookup_2.
      + by eapply Hnp. }
  assert (Hnone : ∀ n j, n ∈ np.*1 → connection (blocks m2) n j = None).
  { intros n j ([n' p] & -> & Hin)%list_elem_of_fmap. simpl.
    destruct (Hclass p (Hnp n' p Hin)) as (c & Hc & _ & _ & Hunconnected).
    unfold connection. rewrite (Hnew2 n' p c Hin Hc).
    unfold parsedBlock. rewrite (proj1 (reconnected_fields _ _)). simpl.
    destruct (inputs c !! j) as [input|] eqn:Hj; [|done].
    rewrite Forall_forall in Hunconnected. apply Hunconnected.
    by eapply list_elem_of_lookup_2. }
  assert (pending np (blocks m2) ≤ totalInputs source)%nat as Hpending.
  { unfold pending, totalInputs. rewrite <- Hnp2. apply sum_list_with_pairs.
    intros n p Hin. destruct (Hclass p (Hnp n p Hin)) as (c & Hc & Hcn & _).
    rewrite (Hnew2 n p c Hin Hc). simpl.
    unfold parsedBlock. rewrite (proj1 (reconnected_fields _ _)). simpl.
    etrans; [apply unconnected_le|].
    rewrite <- (length_map inputName), Hcn. by rewrite length_map. }
  destruct (restoreAllConnections_spec source np idmap Hnp2 Hndn Hm fuel m2)
    as (m3 & Hrun3 & Hsame3 & Hext3 & Hconn3); [lia | done | done |].
  assert (m3 = withAttachedBlocks np.*1 (withBlocks (blocks m3) mc)) as Hm3.
  { unfold sameFields in Hsame3. rewrite Hsame3, Hm2. by destruct m0. }
  assert (Hnew3 : ∀ n p c, (n, p) ∈ np → GetClass (customType p) = Some c →
            ∃ blk, blocks m3 !! n = Some blk ∧ blockExtends (parsedBlock idmap n p c) blk).
  { intros n p c Hin Hc. destruct Hext3 as (_ & He & _).
    by apply He, Hnew2. }
  (* the output nodes *)
  destruct (Forall2_lookup_idmap idmap ids) as [nodes HF].
  { intros id Hid. destruct (Hids' id Hid) as (p & Hp & <- & _).
    destruct (Hpn p Hp) as [n Hin]. rewrite (Hm n p Hin). by eexists. }
  assert (Hnodes : ∀ n, n ∈ nodes →
            n ∈ np.*1 ∧ ∃ blk, blocks m3 !! n = Some blk ∧ is_Some (target blk)).
  { intros n Hn.
    destruct (Forall2_elem_of_r _ _ _ _ HF Hn) as (id & Hid & Hlook).
    destruct (Hids' id Hid) as (p & Hp & <- & Htarget).
    destruct (Hpn p Hp) as [n' Hin]. rewrite (Hm n' p Hin) in Hlook.
    injection Hlook as ->.
    split; [apply list_elem_of_fmap; by exists (n, p)|].
    destruct (Hclass p Hp) as (c & Hc & _).
    destruct (Hnew3 n p c Hin Hc) as (blk & Hblk & [Hfields _]).
    exists blk. split; [done|].
    assert (target blk = target (parsedBlock idmap n p c)) as ->
      by (rewrite <- Hfields; by destruct blk).
    unfold parsedBlock. rewrite (proj1 (proj2 (proj2 (reconnected_fields _ _)))).
    simpl. destruct Htarget as [t ->]. by eexists. }
  assert (Hinj : ∀ id id' n, idmap !! id = Some n → idmap !! id' = Some n → id = id').
  { intros id id' n H1 H2.
    destruct (Hm' id n H1) as (p & Hp & <-). destruct (Hm' id' n H2) as (p' & Hp' & <-).
    by injection (NoDup_fmap_eq fst np (n, p) (n, p') Hndn Hp Hp' eq_refl) as ->. }
  assert (_vertexOutputNodes m3 = [] ∧ _fragmentOutputNodes m3 = []
          ∧ attachedBlocks m3 = np.*1 ∧ blocks mc = blocks m0) as (Hv3 & Hf3 & Ha3 & _).
  { rewrite Hm3. by destruct m0. }
  destruct (addOutputNodes_loop idmap ids nodes m3 HF) as (m4 & Hrun4 & Hm4 & Hv4 & Hf4).
  { eapply Forall2_NoDup; [exact HF | done |]. intros id id' n. apply Hinj. }
  { intros n _. rewrite Hv3, Hf3. split; apply not_elem_of_nil. }
  { intros n Hn. by apply Hnodes. }
  rewrite Hv3 in Hv4. rewrite Hf3 in Hf4. simpl in Hv4, Hf4.
  exists np, idmap, (withMode (default Material (serializedMode source)) m4).
  split.
  { unfold parseSerializedObject. cbn [negb].
    unfold bind at 1. unfold clear at 1, modify at 1. fold mc.
    unfold bind at 1. rewrite Hrun1.
    unfold bind at 1. rewrite Hrun2.
    unfold bind at 1. rewrite Hrun3.
    unfold bind at 1. unfold addOutputNodes. rewrite Houtputs.
    rewrite Hrun4. reflexivity. }
  assert (blocks (withMode (default Material (serializedMode source)) m4) = blocks m3
          ∧ attachedBlocks (withMode (default Material (serializedMode source)) m4)
            = attachedBlocks m3
          ∧ _vertexOutputNodes (withMode (default Material (serializedMode source)) m4)
            = _vertexOutputNodes m4
          ∧ _fragmentOutputNodes (withMode (default Material (serializedMode source)) m4)
            = _fragmentOutputNodes m4
          ∧ _mode (withMode (default Material (serializedMode source)) m4)
            = default Material (serializedMode source))
    as (-> & -> & -> & -> & ->).
  { rewrite Hm4. by destruct m3. }
  split; [done|]. split; [done|]. split; [done|]. split; [done|]. split; [done|].
  split; [done|].
  split. { intros b Hb. destruct Hext3 as (He & _ & _). rewrite He by done.
           by apply Hold2. }
  split; [done|]. split; [done|]. split; [|done].
  exists nodes. by rewrite Hv4, Hf4.
Qed.

(** *** The material that is serialized *)

(** The blocks of a material: the attached blocks and the blocks reachable
    from an output node. *)
Definition materialBlock (m : NodeMaterial) (b : BlockId) : Prop :=
  b ∈ attachedBlocks m
  ∨ ∃ r, r ∈ _vertexOutputNodes m ++ _fragmentOutputNodes m ∧ reachable (blocks m) r b.

(** The class of the block is registered under its name, and its
    constructor makes a block with the ports of the block, no input
    connected, no entry point. *)
Definition instanceOfClass (blk : NodeMaterialBlock) : Prop :=
  ∃ constructed,
    GetClass ("BABYLON." +:+ className blk) = Some constructed
    ∧ className constructed = className blk
    ∧ isTeleportOut constructed = isTeleportOut blk
    ∧ map inputName (inputs constructed) = map inputName (inputs blk)
    ∧ map outputName (outputs constructed) = map outputName (outputs blk)
    ∧ Forall (λ input, connectedPoint input = None) (inputs constructed)
    ∧ entryPoint constructed = None.

(** The inputs of the block have names that differ; each connection is to
    an output of a block of the store; the entry point of a teleport-out
    block is a block of the store, whose unique id is not zero. *)
Definition wellConnected (g : gmap BlockId NodeMaterialBlock) (blk : NodeMaterialBlock)
  : Prop :=
  NoDup (map inputName (inputs blk))
  ∧ (∀ input src o, input ∈ inputs blk → connectedPoint input = Some (src, o) →
       ∃ sblk, g !! src = Some sblk ∧ o ∈ map outputName (outputs sblk))
  ∧ (isTeleportOut blk = true → ∀ entry, entryPoint blk = Some entry →
       ∃ eblk, g !! entry = Some eblk ∧ uniqueId eblk ≠ 0%Z).

(** The materials whose round trip is examined.  The last condition is
    what [addOutputNode] keeps: an output node has a target, and it is in
    the list of each stage that its target names, and in no other. *)
Definition roundTrippable (m : NodeMaterial) : Prop :=
  (∀ b blk, blocks m !! b = Some blk → instanceOfClass blk ∧ wellConnected (blocks m) blk)
  ∧ (∀ b b' blk blk', blocks m !! b = Some blk → blocks m !! b' = Some blk' →
       uniqueId blk = uniqueId blk' → b = b')
  ∧ NoDup (attachedBlocks m)
  ∧ (∀ b, b ∈ attachedBlocks m → is_Some (blocks m !! b))
  ∧ (∀ b blk input src o, b ∈ attachedBlocks m → blocks m !! b = Some blk →
       input ∈ inputs blk → connectedPoint input = Some (src, o) → materialBlock m src)
  ∧ (∀ b blk entry, b ∈ attachedBlocks m → blocks m !! b = Some blk →
       isTeleportOut blk = true → entryPoint blk = Some entry → materialBlock m entry)
  ∧ NoDup (_vertexOutputNodes m)
  ∧ NoDup (_fragmentOutputNodes m)
  ∧ (∀ r, r ∈ _vertexOutputNodes m ++ _fragmentOutputNodes m →
       ∃ blk, blocks m !! r = Some blk
              ∧ is_Some (target blk)
              ∧ (r ∈ _vertexOutputNodes m ↔ namesStage (blocks m) Vertex r)
              ∧ (r ∈ _fragmentOutputNodes m ↔ namesStage (blocks m) Fragment r)).

(** A block that restoring reaches: it has no inputs, or one of its inputs
    is connected to such a block. *)
Inductive fed (g : gmap BlockId NodeMaterialBlock) : BlockId → Prop :=
| fed_start b blk : g !! b = Some blk → inputs blk = [] → fed g b
| fed_link b blk input src o :
    g !! b = Some blk → input ∈ inputs blk → connectedPoint input = Some (src, o) →
    fed g src → fed g b.

(** The input [input'] of a new block stands for the input [input]: it has
    its name, and its connection if that comes from a block that restoring
    reaches, no connection otherwise; [phi] maps a block to the new block
    that stands for it. *)
Definition restoredInput (g : gmap BlockId NodeMaterialBlock) (phi : BlockId → BlockId)
    (input input' : InputPoint) : Prop :=
  inputName input' = inputName input
  ∧ match connectedPoint input with
    | Some (src, o) =>
        (fed g src → connectedPoint input' = Some (phi src, o))
        ∧ (¬ fed g src → connectedPoint input' = None)
    | None => connectedPoint input' = None
    end.

(** The new block [blk'] stands for the block [blk]. *)
Definition restoredBlock (g : gmap BlockId NodeMaterialBlock) (phi : BlockId → BlockId)
    (blk blk' : NodeMaterialBlock) : Prop :=
  className blk' = className blk
  ∧ (is_Some (target blk) → target blk' = target blk)
  ∧ isTeleportOut blk' = isTeleportOut blk
  ∧ map outputName (outputs blk') = map outputName (outputs blk)
  ∧ entryPoint blk' = (if isTeleportOut blk then phi <$> entryPoint blk else None)
  ∧ Forall2 (restoredInput g phi) (inputs blk) (inputs blk').

Lemma pushNewIds_NoDup (ids l : list Z) : NoDup (l ++ ids) → pushNewIds l ids = l ++ ids.
Proof.
  revert l. induction ids as [|id ids IH]; intros l Hnd; [by rewrite app_nil_r|].
  unfold pushNewIds. cbn [foldl].
  assert (id ∉ l) as Hid.
  { apply NoDup_app in Hnd as (_ & Hnd & _). intros Hin. apply (Hnd id Hin). by left. }
  apply indexOf_absent in Hid. rewrite Hid. simpl.
  change (foldl _ (l ++ [id]) ids) with (pushNewIds (l ++ [id]) ids).
  rewrite IH; rewrite <- app_assoc; done.
Qed.

Lemma roundTrippable_closedStore m : roundTrippable m → closedStore (blocks m).
Proof.
  intros (Hblocks & _) x y (blk & Hblk & Hy).
  destruct (Hblocks x blk Hblk) as [_ (_ & Hconn & Hentry)].
  unfold links in Hy. apply elem_of_app in Hy as [Hy|Hy].
  - unfold inputLinks in Hy. apply list_elem_of_omap in Hy as (input & Hin & Hsel).
    destruct (connectedPoint input) as [[src o]|] eqn:Hc; [|done].
    destruct (bool_decide (src ≠ x)); [|done]. injection Hsel as ->.
    destruct (Hconn input y o Hin Hc) as (sblk & Hs & _). by eexists.
  - unfold teleportLinks in Hy. destruct (isTeleportOut blk) eqn:Hout;
      [|by apply elem_of_nil in Hy].
    destruct (entryPoint blk) as [entry|] eqn:He; [|by apply elem_of_nil in Hy].
    apply list_elem_of_singleton in Hy as ->.
    destruct (Hentry eq_refl entry eq_refl) as (eblk & Heb & _). by eexists.
Qed.

Section RoundTrip.

Variable G : NodeMaterial.
Hypothesis G_roundTrippable : roundTrippable G.

(** The blocks gathered from the output nodes. *)
Variable listed : list BlockId.
Hypothesis listed_gathered :
  gathered (blocks G) [] (_vertexOutputNodes G ++ _fragmentOutputNodes G) listed.

(** The blocks that [serialize] writes, in order. *)
Definition serializedList : list BlockId :=
  listed ++ filter (λ block, indexOf listed block = (-1)%Z) (attachedBlocks G).

(** What [serialize] returns. *)
Definition serializedMaterial : SerializedMaterial :=
  mkSerializedMaterial
    (map (serializedOf (blocks G)) serializedList)
    (Some (pushNewIds (map (idOf (blocks G)) (_vertexOutputNodes G))
             (map (idOf (blocks G)) (_fragmentOutputNodes G))))
    (Some (_mode G)).

Lemma listed_spec b :
  b ∈ listed
  ↔ ∃ r, r ∈ _vertexOutputNodes G ++ _fragmentOutputNodes G ∧ reachable (blocks G) r b.
Proof.
  destruct listed_gathered as (added & Hl & _ & Hroots & Hreach & Hclosed).
  simpl in Hl. subst added. split; [apply Hreach|].
  intros (r & Hr & Hrb). apply Hroots in Hr.
  induction Hrb as [|x y z Hxy _ IH]; [done|]. apply IH. by apply (Hclosed x).
Qed.

Lemma serializedList_NoDup : NoDup serializedList.
Proof.
  destruct listed_gathered as (added & _ & Hnd & _).
  destruct G_roundTrippable as (_ & _ & Hatt & _).
  apply NoDup_app. split; [done|]. split; [|by apply NoDup_filter].
  intros b Hb [Habsent _]%list_elem_of_filter. by apply indexOf_absent in Habsent.
Qed.

Lemma serializedList_spec b : b ∈ serializedList ↔ materialBlock G b.
Proof.
  unfold serializedList, materialBlock. rewrite elem_of_app, list_elem_of_filter.
  rewrite listed_spec, indexOf_absent, listed_spec. split.
  - intros [H|[_ H]]; [by right | by left].
  - intros [H|H]; [|by left].
    destruct (decide (b ∈ listed)) as [Hin|Hout].
    + left. by apply listed_spec.
    + right. split; [|done]. by rewrite <- listed_spec.
Qed.

Lemma serializedList_store b : b ∈ serializedList → is_Some (blocks G !! b).
Proof.
  intros [H|H]%serializedList_spec.
  - destruct G_roundTrippable as (_ & _ & _ & Hatt & _). by apply Hatt.
  - destruct H as (r & Hr & Hrb).
    assert (is_Some (blocks G !! r)) as Hsome.
    { destruct G_roundTrippable as (_ & _ & _ & _ & _ & _ & _ & _ & Hroots).
      destruct (Hroots r Hr) as (blk & Hblk & _). by eexists. }
    pose proof (roundTrippable_closedStore G G_roundTrippable) as Hclosed.
    clear Hr. induction Hrb as [|x y z Hxy _ IH]; [done|]. apply IH.
    by apply (Hclosed x).
Qed.

Lemma serializedList_connected b blk input src o :
  b ∈ serializedList → blocks G !! b = Some blk → input ∈ inputs blk →
  connectedPoint input = Some (src, o) → src ∈ serializedList.
Proof.
  intros Hb Hblk Hin Hc. destruct (proj1 (serializedList_spec b) Hb) as [H|H].
  - destruct G_roundTrippable as (_ & _ & _ & _ & Hconn & _).
    apply serializedList_spec. by eapply Hconn.
  - destruct (decide (src = b)) as [->|Hne]; [done|].
    apply serializedList_spec. right. destruct H as (r & Hr & Hrb).
    exists r. split; [done|]. eapply rtc_r; [exact Hrb|].
    exists blk. split; [done|]. unfold links, inputLinks. apply elem_of_app. left.
    apply list_elem_of_omap. exists input. split; [done|].
    rewrite Hc. by rewrite bool_decide_eq_true_2.
Qed.

Lemma serializedList_entryPoint b blk entry :
  b ∈ serializedList → blocks G !! b = Some blk → isTeleportOut blk = true →
  entryPoint blk = Some entry → entry ∈ serializedList.
Proof.
  intros Hb Hblk Hout He. destruct (proj1 (serializedList_spec b) Hb) as [H|H].
  - destruct G_roundTrippable as (_ & _ & _ & _ & _ & Hentry & _).
    apply serializedList_spec. by eapply Hentry.
  - apply serializedList_spec. right. destruct H as (r & Hr & Hrb).
    exists r. split; [done|]. eapply rtc_r; [exact Hrb|].
    exists blk. split; [done|]. unfold links, teleportLinks.
    rewrite Hout, He. apply elem_of_app. right. by left.
Qed.

Lemma idOf_inj b b' :
  is_Some (blocks G !! b) → is_Some (blocks G !! b') →
  idOf (blocks G) b = idOf (blocks G) b' → b = b'.
Proof.
  intros [blk Hblk] [blk' Hblk'] Hid.
  rewrite (idOf_lookup _ _ _ Hblk), (idOf_lookup _ _ _ Hblk') in Hid.
  destruct G_roundTrippable as (_ & Hinj & _). by eapply Hinj.
Qed.

Lemma serializedOf_lookup b blk :
  blocks G !! b = Some blk → serializedOf (blocks G) b = serializedBlockOf (blocks G) blk.
Proof. intros H. unfold serializedOf. by rewrite (lookup_total_correct _ _ _ H). Qed.

Lemma serializedIds :
  map serializedId (serializedBlocks serializedMaterial)
  = map (idOf (blocks G)) serializedList.
Proof. simpl. rewrite map_map. reflexivity. Qed.

Lemma serializedBlocks_inv p :
  p ∈ serializedBlocks serializedMaterial →
  ∃ b blk, b ∈ serializedList ∧ blocks G !! b = Some blk
           ∧ p = serializedBlockOf (blocks G) blk.
Proof.
  simpl. intros (b & -> & Hb)%list_elem_of_fmap.
  destruct (serializedList_store b Hb) as [blk Hblk].
  exists b, blk. split; [done|]. split; [done|]. by apply serializedOf_lookup.
Qed.

Lemma serializedInputs_names blk :
  map serializedInputName (serializedInputs (serializedBlockOf (blocks G) blk))
  = map inputName (inputs blk).
Proof. simpl. rewrite map_map. reflexivity. Qed.

Lemma serializedMaterial_parsable : parsable serializedMaterial.
Proof.
  pose proof G_roundTrippable as (Hblocks & _).
  split; [|split; [|split]].
  - rewrite serializedIds. apply NoDup_fmap_2_strong; [|apply serializedList_NoDup].
    intros b b' Hb Hb'. apply idOf_inj; by apply serializedList_store.
  - intros p (b & blk & Hb & Hblk & ->)%serializedBlocks_inv.
    destruct (Hblocks b blk Hblk) as [(c & Hc & _ & _ & Hin & _ & Hnone & _) (Hnd & _)].
    exists c. split; [done|]. rewrite serializedInputs_names.
    split; [done|]. split; [by rewrite Hin | done].
  - intros p c id (b & blk & Hb & Hblk & ->)%serializedBlocks_inv Hc Hout Hentry Hid.
    destruct (Hblocks b blk Hblk) as [(c' & Hc' & _ & Hout' & _) _].
    simpl in Hc, Hentry. rewrite Hc in Hc'. injection Hc' as <-.
    rewrite <- Hout', Hout in Hentry.
    destruct (entryPoint blk) as [entry|] eqn:He; [|done].
    injection Hentry as <-. rewrite serializedIds.
    apply list_elem_of_fmap. exists entry. split; [done|].
    eapply serializedList_entryPoint; [done..| |done]. by rewrite <- Hout'.
  - intros p sinput id o q c (b & blk & Hb & Hblk & ->)%serializedBlocks_inv Hin Hconn
      (bq & qblk & Hbq & Hqblk & ->)%serializedBlocks_inv Hid Hc.
    simpl in Hin. apply list_elem_of_fmap in Hin as (input & -> & Hin).
    simpl in Hconn. destruct (connectedPoint input) as [[src o']|] eqn:Hcp; [|done].
    injection Hconn as <- <-.
    destruct (Hblocks b blk Hblk) as [_ (_ & Hwell & _)].
    destruct (Hwell input src o' Hin Hcp) as (sblk & Hsblk & Ho).
    simpl in Hid. rewrite (idOf_lookup _ _ _ Hsblk) in Hid.
    assert (bq = src) as ->.
    { destruct G_roundTrippable as (_ & Hinj & _). by eapply Hinj. }
    rewrite Hsblk in Hqblk. injection Hqblk as <-.
    destruct (Hblocks src sblk Hsblk) as [(c' & Hc' & _ & _ & _ & Hout & _) _].
    simpl in Hc. rewrite Hc in Hc'. injection Hc' as <-. by rewrite Hout.
Qed.

Lemma outputNode_serialized r :
  r ∈ _vertexOutputNodes G ++ _fragmentOutputNodes G → r ∈ serializedList.
Proof.
  intros Hr. apply serializedList_spec. right. exists r. split; [done | apply rtc_refl].
Qed.

(** The output nodes in the order in which [serialize] writes their
    ids: the vertex output nodes, then the fragment output nodes that are
    not vertex output nodes. *)
Definition outputRoots : list BlockId :=
  _vertexOutputNodes G
  ++ filter (λ r, r ∉ _vertexOutputNodes G) (_fragmentOutputNodes G).

Lemma outputRoots_spec r :
  r ∈ outputRoots ↔ r ∈ _vertexOutputNodes G ++ _fragmentOutputNodes G.
Proof.
  unfold outputRoots. rewrite !elem_of_app, list_elem_of_filter.
  destruct (decide (r ∈ _vertexOutputNodes G)); tauto.
Qed.

Lemma outputRoots_NoDup : NoDup outputRoots.
Proof.
  destruct G_roundTrippable as (_ & _ & _ & _ & _ & _ & Hv & Hf & _).
  apply NoDup_app. split; [done|]. split; [|by apply NoDup_filter].
  intros r Hr [Hnot _]%list_elem_of_filter. done.
Qed.

Lemma pushNewIds_filter (ids l : list Z) :
  NoDup ids → pushNewIds l ids = l ++ filter (λ id, id ∉ l) ids.
Proof.
  intros Hnd. revert l. induction Hnd as [|id ids Hid Hnd IH]; intros l.
  - by rewrite app_nil_r.
  - unfold pushNewIds. cbn [foldl].
    destruct (Z.eqb_spec (indexOf l id) (-1)) as [Habsent|Hpresent].
    + apply indexOf_absent in Habsent.
      change (foldl _ (l ++ [id]) ids) with (pushNewIds (l ++ [id]) ids).
      rewrite IH, filter_cons_True by done. rewrite <- app_assoc. simpl.
      do 2 f_equal. apply filter_iff_elem. intros x Hx.
      rewrite elem_of_app, list_elem_of_singleton.
      split; [tauto|]. intros Hxl [?|Heq]; [done | by subst x].
    + apply indexOf_present in Hpresent.
      change (foldl _ l ids) with (pushNewIds l ids).
      rewrite IH, filter_cons_False; [done|]. tauto.
Qed.

Lemma filter_fmap_absent {A B} `{EqDecision A, EqDecision B} (f : A → B)
    (V l : list A) :
  (∀ x y, x ∈ V ++ l → y ∈ V ++ l → f x = f y → x = y) →
  filter (λ b, b ∉ map f V) (map f l) = map f (filter (λ a, a ∉ V) l).
Proof.
  induction l as [|a l IH]; intros Hinj; [done|].
  assert (filter (λ b, b ∉ map f V) (map f l) = map f (filter (λ a, a ∉ V) l)) as Hl.
  { apply IH. intros x y Hx Hy. apply Hinj; set_solver. }
  cbn [map]. destruct (decide (a ∈ V)) as [Ha|Ha].
  - rewrite !filter_cons_False; [done | by intros Hn | ].
    intros Hn. apply Hn. apply list_elem_of_fmap. by exists a.
  - rewrite !filter_cons_True; [by rewrite Hl | done |].
    intros (v & Hfv & Hv)%list_elem_of_fmap. apply Ha.
    rewrite (Hinj a v); [done | set_solver | set_solver | done].
Qed.

Lemma outputIds :
  outputNodes serializedMaterial = Some (map (idOf (blocks G)) outputRoots)
  ∧ NoDup (map (idOf (blocks G)) outputRoots).
Proof.
  assert (Hinj : ∀ r r', r ∈ _vertexOutputNodes G ++ _fragmentOutputNodes G →
                         r' ∈ _vertexOutputNodes G ++ _fragmentOutputNodes G →
                         idOf (blocks G) r = idOf (blocks G) r' → r = r').
  { intros r r' Hr Hr'.
    apply idOf_inj; by apply serializedList_store, outputNode_serialized. }
  split.
  - simpl. f_equal. rewrite pushNewIds_filter.
    + unfold outputRoots. rewrite map_app. f_equal. by apply filter_fmap_absent.
    + apply NoDup_fmap_2_strong.
      * intros r r' Hr Hr'. apply Hinj; apply elem_of_app; by right.
      * by destruct G_roundTrippable as (_ & _ & _ & _ & _ & _ & _ & Hf & _).
  - apply NoDup_fmap_2_strong; [|apply outputRoots_NoDup].
    intros r r' Hr%outputRoots_spec Hr'%outputRoots_spec. by apply Hinj.
Qed.

Lemma outputIds_targets :
  idsWithTarget serializedMaterial (map (idOf (blocks G)) outputRoots).
Proof.
  intros id (r & -> & Hr%outputRoots_spec)%list_elem_of_fmap.
  destruct G_roundTrippable as (_ & _ & _ & _ & _ & _ & _ & _ & Hroots).
  destruct (Hroots r Hr) as (blk & Hblk & Ht & _).
  exists (serializedOf (blocks G) r). split; [|split].
  - simpl. apply list_elem_of_fmap. exists r. split; [done|].
    by apply outputNode_serialized.
  - reflexivity.
  - by rewrite (serializedOf_lookup _ _ Hblk).
Qed.

(** The new blocks and [map], as [parseSerializedObject] makes them of
    the serialized material. *)
Variable np : list (BlockId * SerializedBlock).
Variable idmap : gmap Z BlockId.

Hypothesis np_blocks : np.*2 = serializedBlocks serializedMaterial.
Hypothesis np_NoDup : NoDup np.*1.
Hypothesis idmap_np : ∀ n p, (n, p) ∈ np → idmap !! serializedId p = Some n.
Hypothesis np_idmap :
  ∀ id n, idmap !! id = Some n → ∃ p, (n, p) ∈ np ∧ serializedId p = id.

(** The new block that stands for the block [b]. *)
Definition newBlock (b : BlockId) : BlockId :=
  default b (idmap !! idOf (blocks G) b).

Lemma serializedId_serializedOf b :
  serializedId (serializedOf (blocks G) b) = idOf (blocks G) b.
Proof. reflexivity. Qed.

Lemma newBlock_np b :
  b ∈ serializedList → (newBlock b, serializedOf (blocks G) b) ∈ np.
Proof.
  intros Hb.
  assert (serializedOf (blocks G) b ∈ np.*2) as Hin.
  { rewrite np_blocks. simpl. apply list_elem_of_fmap. by exists b. }
  apply list_elem_of_fmap in Hin as ([n p] & Hp & Hin). simpl in Hp. subst p.
  unfold newBlock. rewrite <- serializedId_serializedOf.
  by rewrite (idmap_np _ _ Hin).
Qed.

Lemma np_newBlock n p :
  (n, p) ∈ np → ∃ b, b ∈ serializedList ∧ n = newBlock b ∧ p = serializedOf (blocks G) b.
Proof.
  intros Hin.
  assert (p ∈ serializedBlocks serializedMaterial) as Hp.
  { rewrite <- np_blocks. apply list_elem_of_fmap. by exists (n, p). }
  simpl in Hp. apply list_elem_of_fmap in Hp as (b & -> & Hb).
  exists b. split; [done|]. split; [|done]. unfold newBlock.
  rewrite <- serializedId_serializedOf. by rewrite (idmap_np _ _ Hin).
Qed.

Lemma newBlock_lookup b :
  b ∈ serializedList → idmap !! idOf (blocks G) b = Some (newBlock b).
Proof.
  intros Hb. apply (idmap_np _ _ (newBlock_np b Hb)).
Qed.

Lemma newBlock_inj b b' :
  b ∈ serializedList → b' ∈ serializedList → newBlock b = newBlock b' → b = b'.
Proof.
  intros Hb Hb' Heq. pose proof (newBlock_np b Hb) as H. pose proof (newBlock_np b' Hb') as H'.
  rewrite Heq in H.
  pose proof (NoDup_fmap_eq fst np _ _ np_NoDup H H' eq_refl) as Hp.
  apply (f_equal snd) in Hp. cbn [snd] in Hp.
  apply idOf_inj; [by apply serializedList_store..|].
  rewrite <- !serializedId_serializedOf. by rewrite Hp.
Qed.

Lemma newBlocks_list : np.*1 = map newBlock serializedList.
Proof.
  pose proof np_blocks as Hnp. simpl in Hnp.
  assert (∀ b, b ∈ serializedList → b ∈ serializedList) as Hsub by done.
  revert Hnp Hsub idmap_np. generalize serializedList at 1 2 4 as l. generalize np as l'.
  clear np_blocks np_NoDup np_idmap.
  induction l' as [|[n p] l' IH]; intros [|b l] Hnp Hsub Hmap; try done.
  rewrite fmap_cons in Hnp. simpl in Hnp. injection Hnp as Hp Hnp.
  rewrite fmap_cons. simpl. f_equal.
  - unfold newBlock. rewrite <- serializedId_serializedOf.
    rewrite <- Hp. rewrite (Hmap n p); [done | by left].
  - apply IH; [done| |].
    + intros b' Hb'. apply Hsub. by right.
    + intros n' p' Hin. apply Hmap. by right.
Qed.

Lemma wanted_newBlock b blk j input src o :
  b ∈ serializedList → blocks G !! b = Some blk → inputs blk !! j = Some input →
  connectedPoint input = Some (src, o) →
  wanted np idmap (newBlock b) j (newBlock src) o.
Proof.
  intros Hb Hblk Hj Hc.
  exists (serializedOf (blocks G) b), (serializedInputOf (blocks G) input), (idOf (blocks G) src).
  split; [by apply newBlock_np|]. split; [|split].
  - rewrite (serializedOf_lookup _ _ Hblk). simpl.
    change (map ?f ?l) with (f <$> l). by rewrite list_lookup_fmap, Hj.
  - simpl. by rewrite Hc.
  - apply newBlock_lookup. eapply serializedList_connected; [done..| |done].
    by eapply list_elem_of_lookup_2.
Qed.

Lemma wanted_inv b blk j ns o :
  b ∈ serializedList → blocks G !! b = Some blk →
  wanted np idmap (newBlock b) j ns o →
  ∃ input src, inputs blk !! j = Some input ∧ connectedPoint input = Some (src, o)
               ∧ ns = newBlock src ∧ src ∈ serializedList.
Proof.
  intros Hb Hblk (p & sinput & id & Hp & Hj & Hc & Hid).
  pose proof (NoDup_fmap_eq fst np _ _ np_NoDup Hp (newBlock_np b Hb) eq_refl) as Heq.
  apply (f_equal snd) in Heq. cbn [snd] in Heq. subst p. rewrite (serializedOf_lookup _ _ Hblk) in Hj. simpl in Hj.
  change (map ?f ?l) with (f <$> l) in Hj. rewrite list_lookup_fmap in Hj.
  destruct (inputs blk !! j) as [input|] eqn:Hinput; [|done].
  injection Hj as <-. simpl in Hc.
  destruct (connectedPoint input) as [[src o']|] eqn:Hcp; [|done].
  injection Hc as <- <-.
  assert (src ∈ serializedList) as Hsrc.
  { eapply serializedList_connected; [done..| |done]. by eapply list_elem_of_lookup_2. }
  exists input, src. split; [done|]. split; [done|]. split; [|done].
  rewrite (newBlock_lookup src Hsrc) in Hid. by injection Hid.
Qed.

Lemma fed_visited b : fed (blocks G) b → b ∈ serializedList → visited np idmap (newBlock b).
Proof.
  induction 1 as [b blk Hblk Hnil|b blk input src o Hblk Hin Hc Hsrc IH]; intros Hb.
  - apply (visited_start _ _ _ (serializedOf (blocks G) b)); [by apply newBlock_np|].
    rewrite (serializedOf_lookup _ _ Hblk). simpl. by rewrite Hnil.
  - apply list_elem_of_lookup in Hin as [j Hj].
    apply (visited_link _ _ _ j (newBlock src) o); [by eapply wanted_newBlock|].
    apply IH. eapply serializedList_connected; [done..| |done].
    by eapply list_elem_of_lookup_2.
Qed.

Lemma visited_fed n :
  visited np idmap n → ∃ b, b ∈ serializedList ∧ n = newBlock b ∧ fed (blocks G) b.
Proof.
  induction 1 as [n p Hp Hnil|n j ns o Hw Hns (src & Hsrc & -> & Hfed)].
  - destruct (np_newBlock n p Hp) as (b & Hb & -> & ->).
    destruct (serializedList_store b Hb) as [blk Hblk].
    exists b. split; [done|]. split; [done|]. apply (fed_start _ b blk Hblk).
    rewrite (serializedOf_lookup _ _ Hblk) in Hnil. simpl in Hnil.
    by apply map_eq_nil in Hnil.
  - assert (∃ p, (n, p) ∈ np) as [p Hp] by (destruct Hw as (p & _ & _ & Hp & _); by exists p).
    destruct (np_newBlock n p Hp) as (b & Hb & -> & ->).
    destruct (serializedList_store b Hb) as [blk Hblk].
    destruct (wanted_inv b blk j _ o Hb Hblk Hw) as (input & src' & Hj & Hc & Heq & Hsrc').
    apply newBlock_inj in Heq as <-; [|done..].
    exists b. split; [done|]. split; [done|].
    apply (fed_link _ b blk input src o Hblk); [by eapply list_elem_of_lookup_2|done..].
Qed.

Lemma restoredBlock_parsed b blk c blk' (g' : gmap BlockId NodeMaterialBlock) :
  b ∈ serializedList → blocks G !! b = Some blk →
  GetClass ("BABYLON." +:+ className blk) = Some c →
  blockExtends (parsedBlock idmap (newBlock b) (serializedOf (blocks G) b) c) blk' →
  g' !! newBlock b = Some blk' →
  (∀ j ns o, connection g' (newBlock b) j = Some (ns, o)
             ↔ wanted np idmap (newBlock b) j ns o ∧ visited np idmap ns) →
  restoredBlock (blocks G) newBlock blk blk'.
Proof.
  intros Hb Hblk Hc Hext Hblk' Hconn.
  destruct G_roundTrippable as (Hblocks & _).
  destruct (Hblocks b blk Hblk)
    as [(c' & Hc' & Hclass & Hout & Hins & Houts & _ & Hentry) (_ & _ & Hwell)].
  rewrite Hc in Hc'. injection Hc' as <-.
  rewrite (serializedOf_lookup _ _ Hblk) in Hext.
  pose proof (blockExtends_names _ _ Hext) as Hnames.
  destruct Hext as [Hfields _].
  unfold restoredBlock.
  set (parsed := parsedBlock idmap (newBlock b) (serializedBlockOf (blocks G) blk) c) in *.
  assert (className blk' = className parsed ∧ target blk' = target parsed
          ∧ isTeleportOut blk' = isTeleportOut parsed ∧ outputs blk' = outputs parsed
          ∧ entryPoint blk' = entryPoint parsed) as (-> & -> & -> & -> & ->).
  { rewrite <- Hfields. by destruct blk'. }
  unfold parsed, parsedBlock in *.
  destruct (reconnected_fields idmap
              (deserializeBlock c (uniqueIdFor (newBlock b))
                 (serializedBlockOf (blocks G) blk)))
    as (Hri & -> & -> & -> & ->).
  rewrite Hri in Hnames. simpl in Hnames. rewrite Hins in Hnames.
  split; [done|]. split. { simpl. by intros [t ->]. }
  split; [done|]. split; [done|]. split.
  - unfold reconnected. simpl. rewrite Hout.
    destruct (isTeleportOut blk) eqn:Hteleport; [|done].
    destruct (entryPoint blk) as [entry|] eqn:He; [|done]. simpl.
    destruct (Hwell eq_refl entry eq_refl) as (eblk & Heblk & Hid).
    rewrite (idOf_lookup _ _ _ Heblk).
    rewrite bool_decide_eq_true_2 by done.
    rewrite <- (idOf_lookup _ _ _ Heblk).
    rewrite (newBlock_lookup entry); [done|].
    by eapply serializedList_entryPoint.
  - apply Forall2_same_length_lookup_2.
    { rewrite <- (length_map inputName (inputs blk)), <- Hnames. by rewrite length_map. }
    intros j input input' Hj Hj'. split.
    { assert (map inputName (inputs blk') !! j = map inputName (inputs blk) !! j) as H
        by (by rewrite Hnames).
      change (map ?f ?l) with (f <$> l) in H. rewrite !list_lookup_fmap, Hj, Hj' in H.
      by injection H. }
    assert (connection g' (newBlock b) j = connectedPoint input') as Hcp
      by (unfold connection; by rewrite Hblk', Hj').
    destruct (connectedPoint input) as [[src o]|] eqn:Hc0.
    + pose proof (wanted_newBlock b blk j input src o Hb Hblk Hj Hc0) as Hw.
      assert (src ∈ serializedList) as Hsrc.
      { eapply serializedList_connected; [done..| |done]. by eapply list_elem_of_lookup_2. }
      split.
      * intros Hfed. rewrite <- Hcp. apply Hconn. split; [done|]. by apply fed_visited.
      * intros Hnot. rewrite <- Hcp.
        destruct (connection g' (newBlock b) j) as [[ns o']|] eqn:Hg'; [|done].
        apply Hconn in Hg' as [Hw' Hv].
        destruct (wanted_functional np idmap np_NoDup _ _ _ _ _ _ Hw Hw') as [-> ->].
        destruct (visited_fed _ Hv) as (src' & Hsrc' & Heq & Hfed).
        apply newBlock_inj in Heq as ->; done.
    + rewrite <- Hcp.
      destruct (connection g' (newBlock b) j) as [[ns o']|] eqn:Hg'; [|done].
      apply Hconn in Hg' as [Hw' _].
      destruct (wanted_inv b blk j ns o' Hb Hblk Hw') as (i & src & Hi & Hci & _).
      congruence.
Qed.

End RoundTrip.


(** Tests that compute, for the conditions of the round trip. *)
Definition instanceOfClassb (blk : NodeMaterialBlock) : bool :=
  match GetClass ("BABYLON." +:+ className blk) with
  | Some constructed =>
      bool_decide (className constructed = className blk
                   ∧ isTeleportOut constructed = isTeleportOut blk
                   ∧ map inputName (inputs constructed) = map inputName (inputs blk)
                   ∧ map outputName (outputs constructed) = map outputName (outputs blk)
                   ∧ Forall (λ input, connectedPoint input = None) (inputs constructed)
                   ∧ entryPoint constructed = None)
  | None => false
  end.

Definition connectedToOutput (g : gmap BlockId NodeMaterialBlock) (input : InputPoint)
  : bool :=
  match connectedPoint input with
  | Some (src, o) =>
      match g !! src with
      | Some sblk => bool_decide (o ∈ map outputName (outputs sblk))
      | None => false
      end
  | None => true
  end.

Definition entryPointInStore (g : gmap BlockId NodeMaterialBlock) (blk : NodeMaterialBlock)
  : bool :=
  if isTeleportOut blk then
    match entryPoint blk with
    | Some entry =>
        match g !! entry with
        | Some eblk => bool_decide (uniqueId eblk ≠ 0%Z)
        | None => false
        end
    | None => true
    end
  else true.

Definition wellConnectedb (g : gmap BlockId NodeMaterialBlock) (blk : NodeMaterialBlock)
  : bool :=
  bool_decide (NoDup (map inputName (inputs blk)))
  && bool_decide (Forall (λ input, connectedToOutput g input = true) (inputs blk))
  && entryPointInStore g blk.

(** The attached block [b] is in the store and links to attached blocks. *)
Definition attachedLinks (m : NodeMaterial) (b : BlockId) : bool :=
  match blocks m !! b with
  | Some blk =>
      bool_decide (Forall (λ input,
                     match connectedPoint input with
                     | Some (src, _) => bool_decide (src ∈ attachedBlocks m)
                     | None => true
                     end = true) (inputs blk))
      && (if isTeleportOut blk then
            match entryPoint blk with
            | Some entry => bool_decide (entry ∈ attachedBlocks m)
            | None => true
            end
          else true)
  | None => false
  end.

(** The output node [r] has a target and is in the list of each stage that
    its target names, and in no other. *)
Definition listedByTarget (m : NodeMaterial) (r : BlockId) : bool :=
  match blocks m !! r with
  | Some blk =>
      bool_decide (is_Some (target blk)
                   ∧ (r ∈ _vertexOutputNodes m ↔ namesStage (blocks m) Vertex r)
                   ∧ (r ∈ _fragmentOutputNodes m ↔ namesStage (blocks m) Fragment r))
  | None => false
  end.

Definition roundTrippableb (m : NodeMaterial) : bool :=
  bool_decide (map_Forall (λ _ blk, instanceOfClassb blk = true
                                    ∧ wellConnectedb (blocks m) blk = true) (blocks m))
  && bool_decide (NoDup (map (λ entry, uniqueId entry.2) (map_to_list (blocks m))))
  && bool_decide (NoDup (attachedBlocks m))
  && bool_decide (Forall (λ b, attachedLinks m b = true) (attachedBlocks m))
  && bool_decide (NoDup (_vertexOutputNodes m))
  && bool_decide (NoDup (_fragmentOutputNodes m))
  && bool_decide (Forall (λ r, listedByTarget m r = true)
                    (_vertexOutputNodes m ++ _fragmentOutputNodes m)).

Lemma instanceOfClassb_spec blk : instanceOfClassb blk = true → instanceOfClass blk.
Proof.
  unfold instanceOfClassb, instanceOfClass.
  destruct (GetClass ("BABYLON." +:+ className blk)) as [c|]; [|done].
  intros H%bool_decide_eq_true_1. by exists c.
Qed.

Lemma wellConnectedb_spec g blk : wellConnectedb g blk = true → wellConnected g blk.
Proof.
  unfold wellConnectedb. rewrite !andb_true_iff.
  intros [[Hnd%bool_decide_eq_true_1 Hconn%bool_decide_eq_true_1] Hentry].
  split; [done|]. split.
  - intros input src o Hin Hc. rewrite Forall_forall in Hconn.
    specialize (Hconn input Hin). unfold connectedToOutput in Hconn. rewrite Hc in Hconn.
    destruct (g !! src) as [sblk|]; [|done]. exists sblk. split; [done|].
    by apply bool_decide_eq_true_1 in Hconn.
  - intros Hout entry He. unfold entryPointInStore in Hentry. rewrite Hout, He in Hentry.
    destruct (g !! entry) as [eblk|]; [|done]. exists eblk. split; [done|].
    by apply bool_decide_eq_true_1 in Hentry.
Qed.

Lemma listedByTarget_spec m r :
  listedByTarget m r = true →
  ∃ blk, blocks m !! r = Some blk
         ∧ is_Some (target blk)
         ∧ (r ∈ _vertexOutputNodes m ↔ namesStage (blocks m) Vertex r)
         ∧ (r ∈ _fragmentOutputNodes m ↔ namesStage (blocks m) Fragment r).
Proof.
  unfold listedByTarget. destruct (blocks m !! r) as [blk|]; [|done].
  intros H%bool_decide_eq_true_1. by exists blk.
Qed.

Lemma roundTrippableb_roundTrippable m : roundTrippableb m = true → roundTrippable m.
Proof.
  unfold roundTrippableb. rewrite !andb_true_iff.
  intros [[[[[[Hblocks%bool_decide_eq_true_1 Hids%bool_decide_eq_true_1]
                Hnd%bool_decide_eq_true_1] Hatt%bool_decide_eq_true_1]
              Hv%bool_decide_eq_true_1] Hf%bool_decide_eq_true_1]
            Hroots%bool_decide_eq_true_1].
  rewrite Forall_forall in Hatt, Hroots.
  split; [|split; [|split; [|split; [|split; [|split; [|split; [|split]]]]]]];
    try done.
  - intros b blk Hblk. destruct (Hblocks b blk Hblk) as [Hc Hw].
    split; [by apply instanceOfClassb_spec | by apply wellConnectedb_spec].
  - intros b b' blk blk' Hblk Hblk' Hid.
    apply elem_of_map_to_list in Hblk, Hblk'.
    pose proof (NoDup_fmap_eq (λ entry : BlockId * NodeMaterialBlock, uniqueId entry.2)
                  _ (b, blk) (b', blk') Hids Hblk Hblk' Hid) as Heq.
    by injection Heq.
  - intros b Hb. specialize (Hatt b Hb). unfold attachedLinks in Hatt.
    destruct (blocks m !! b); [by eexists | done].
  - intros b blk input src o Hb Hblk Hin Hc. specialize (Hatt b Hb).
    unfold attachedLinks in Hatt. rewrite Hblk in Hatt.
    apply andb_true_iff in Hatt as [Hins%bool_decide_eq_true_1 _].
    rewrite Forall_forall in Hins. specialize (Hins input Hin). rewrite Hc in Hins.
    left. by apply bool_decide_eq_true_1 in Hins.
  - intros b blk entry Hb Hblk Hout He. specialize (Hatt b Hb).
    unfold attachedLinks in Hatt. rewrite Hblk, Hout, He in Hatt.
    apply andb_true_iff in Hatt as [_ Hentry].
    left. by apply bool_decide_eq_true_1 in Hentry.
  - intros r Hr. by apply listedByTarget_spec, Hroots.
Qed.
End ParseFacts.

(** *** The round trip on two materials *)

(** A registry of five classes, each with the block that its constructor
    makes. *)
Definition registeredClasses (customType : string) : option NodeMaterialBlock :=
  if decide (customType = "BABYLON.FragmentOutputBlock") then
    Some (mkBlock "" 0 "FragmentOutputBlock" (Some Fragment) true false true false None
            [mkInput "rgba" None ""; mkInput "a" None ""] [] 0 0 None)
  else if decide (customType = "BABYLON.InputBlock") then
    Some (mkBlock "" 0 "InputBlock" (Some Vertex) false true false false None
            [] [mkOutput "output" ""] 0 0 None)
  else if decide (customType = "BABYLON.NodeMaterialTeleportOutBlock") then
    Some (mkBlock "" 0 "NodeMaterialTeleportOutBlock" (Some Neutral)
            false false false true None [] [mkOutput "output" ""] 0 0 None)
  else if decide (customType = "BABYLON.NodeMaterialTeleportInBlock") then
    Some (mkBlock "" 0 "NodeMaterialTeleportInBlock" (Some Neutral)
            false false false false None [mkInput "input" None ""] [] 0 0 None)
  else if decide (customType = "BABYLON.ScaleBlock") then
    Some (mkBlock "" 0 "ScaleBlock" (Some Neutral) false false false false None
            [mkInput "input" None ""; mkInput "factor" None ""]
            [mkOutput "output" ""] 0 0 None)
  else None.

(** The unique ids given to new block objects. *)
Definition newUniqueId (b : BlockId) : Z := (Z.of_nat b + 100)%Z.

(** A fragment output (1) fed by a scale block (2), whose two inputs have
    no connection. *)
Definition scaleGraph : NodeMaterial :=
  withFragmentOutputNodes [1]
    (withBlocks
       (list_to_map
          [ (1, mkBlock "FragmentOutput" 11 "FragmentOutputBlock" (Some Fragment)
                  true false true false None
                  [mkInput "rgba" (Some (2, "output")) ""; mkInput "a" None ""] [] 0 0 None);
            (2, mkBlock "Scale" 12 "ScaleBlock" (Some Neutral)
                  false false false false None
                  [mkInput "input" None ""; mkInput "factor" None ""]
                  [mkOutput "output" ""] 0 0 None) ])
       emptyMaterial).


(** The round trip of [teleportGraph], whose connections all come from
    blocks without inputs: the new blocks 5, 6, 7 and 8 stand for the blocks
    1, 2, 3 and 4, with their connections and the teleport link. *)
Example round_trip_teleportGraph :
  ∃ source m',
    serialize 5 None teleportGraph = Ok source teleportGraph
    ∧ parseSerializedObject registeredClasses newUniqueId 4 source false teleportGraph
      = Ok tt m'
    ∧ attachedBlocks m' = [5; 6; 7; 8]
    ∧ _fragmentOutputNodes m' = [5]
    ∧ connection (blocks m') 5 0 = Some (6, "output")
    ∧ connection (blocks m') 5 1 = Some (8, "output")
    ∧ connection (blocks m') 7 0 = Some (8, "output")
    ∧ (blocks m' !! 6) ≫= entryPoint = Some 7.
Proof.
  eexists. eexists.
  split; [vm_compute; reflexivity|].
  split; [vm_compute; reflexivity|].
  repeat split.
Qed.

(** A fragment output (2) fed by an input block (1) of target
    [VertexAndFragment], which is a vertex output node and a fragment
    output node as well. *)
Definition dualRootGraph : NodeMaterial :=
  withFragmentOutputNodes [2; 1]
    (withVertexOutputNodes [1]
       (withBlocks
          (list_to_map
             [ (1, mkBlock "Color" 11 "InputBlock" (Some VertexAndFragment)
                     false true false false None
                     [] [mkOutput "output" ""] 0 0 None);
               (2, mkBlock "FragmentOutput" 12 "FragmentOutputBlock" (Some Fragment)
                     true false true false None
                     [mkInput "rgba" (Some (1, "output")) ""; mkInput "a" None ""]
                     [] 0 0 None) ])
          emptyMaterial)).

(** The round trip of [dualRootGraph]: the new blocks 3 and 4 stand for the
    blocks 1 and 2; the block that stands for the output node of both
    stages is an output node of both stages, and comes first among the
    fragment output nodes. *)
Example round_trip_dualRootGraph :
  ∃ source m',
    serialize 3 None dualRootGraph = Ok source dualRootGraph
    ∧ outputNodes source = Some [11; 12]%Z
    ∧ parseSerializedObject registeredClasses newUniqueId 3 source false dualRootGraph
      = Ok tt m'
    ∧ attachedBlocks m' = [3; 4]
    ∧ _vertexOutputNodes m' = [3]
    ∧ _fragmentOutputNodes m' = [3; 4]
    ∧ target <$> blocks m' !! 3 = Some (Some VertexAndFragment)
    ∧ connection (blocks m') 4 0 = Some (3, "output").
Proof.
  eexists. eexists.
  split; [vm_compute; reflexivity|]. split; [reflexivity|].
  split; [vm_compute; reflexivity|].
  repeat split.
Qed.


(** An input block (1) of target [Fragment] listed among the vertex output
    nodes, which [addOutputNode] would not do, and a fragment output (2). *)
Definition misplacedRootGraph : NodeMaterial :=
  withFragmentOutputNodes [2]
    (withVertexOutputNodes [1]
       (withBlocks
          (list_to_map
             [ (1, mkBlock "Color" 11 "InputBlock" (Some Fragment)
                     false true false false None
                     [] [mkOutput "output" ""] 0 0 None);
               (2, mkBlock "FragmentOutput" 12 "FragmentOutputBlock" (Some Fragment)
                     true false true false None
                     [mkInput "rgba" (Some (1, "output")) ""; mkInput "a" None ""]
                     [] 0 0 None) ])
          emptyMaterial)).

(** An output node that is in the list of a stage that its target does not
    name changes list in the round trip: [parseSerializedObject] lists the
    output nodes by target. *)
Example round_trip_misplacedRootGraph :
  ∃ source m',
    serialize 3 None misplacedRootGraph = Ok source misplacedRootGraph
    ∧ parseSerializedObject registeredClasses newUniqueId 3 source false
        misplacedRootGraph
      = Ok tt m'
    ∧ _vertexOutputNodes m' = []
    ∧ _fragmentOutputNodes m' = [3; 4].
Proof.
  eexists. eexists.
  split; [vm_compute; reflexivity|]. split; [vm_compute; reflexivity|].
  by split.
Qed.

(** The round trip of [teleportGraph] meets the conditions as well. *)
Example roundTrippable_teleportGraph :
  roundTrippableb registeredClasses teleportGraph = true.
Proof. by vm_compute. Qed.

(** ** Output nodes: adding and removing *)

Lemma removeFirst_absent (x : BlockId) (l : list BlockId) :
  x ∉ l → removeFirst x l = l.
Proof.
  induction l as [|y l IH]; simpl; [done|].
  rewrite not_elem_of_cons. intros [Hne Hl].
  rewrite decide_False by done. by rewrite IH.
Qed.

Lemma removeFirst_snoc (x : BlockId) (l : list BlockId) :
  x ∉ l → removeFirst x (l ++ [x]) = l.
Proof.
  induction l as [|y l IH]; simpl.
  - intros _. by rewrite decide_True.
  - rewrite not_elem_of_cons. intros [Hne Hl].
    rewrite decide_False by done. by rewrite IH.
Qed.

Lemma removeFirst_filter (x : BlockId) (l : list BlockId) :
  NoDup l → removeFirst x l = filter (λ y, y ≠ x) l.
Proof.
  induction 1 as [|y l Hy Hl IH]; simpl; [done|].
  destruct (decide (y = x)) as [->|Hne].
  - rewrite filter_cons_False by (intros Hn; by apply Hn).
    symmetry. apply Core.filter_id_Forall.
    apply Forall_forall. intros z Hz ->. done.
  - rewrite filter_cons_True by done. by rewrite IH.
Qed.

Lemma elem_of_snoc (l : list BlockId) (x : BlockId) : x ∈ l ++ [x].
Proof. apply elem_of_app. right. by left. Qed.

Lemma NoDup_snoc_new (l : list BlockId) (x : BlockId) :
  NoDup l → x ∉ l → NoDup (l ++ [x]).
Proof.
  intros Hl Hn. apply NoDup_app. split; [done|]. split; [|apply NoDup_singleton].
  intros y Hy ->%list_elem_of_singleton. done.
Qed.

(** Once [addOutputNode] has run for a target, each list holds the block
    if the target names its stage. *)
Lemma vertexOutputNodesWith_listed (node : BlockId) (t : Z) (m : NodeMaterial) :
  Z.land t Vertex ≠ 0%Z → node ∈ vertexOutputNodesWith node t m.
Proof.
  intros Hbit. unfold vertexOutputNodesWith.
  rewrite (bool_decide_eq_true_2 _ Hbit). cbn [andb].
  destruct (bool_decide_reflect (node ∉ _vertexOutputNodes m)) as [Hn|Hn];
    [apply elem_of_snoc | by apply dec_stable in Hn].
Qed.

Lemma fragmentOutputNodesWith_listed (node : BlockId) (t : Z) (m : NodeMaterial) :
  Z.land t Fragment ≠ 0%Z → node ∈ fragmentOutputNodesWith node t m.
Proof.
  intros Hbit. unfold fragmentOutputNodesWith.
  rewrite (bool_decide_eq_true_2 _ Hbit). cbn [andb].
  destruct (bool_decide_reflect (node ∉ _fragmentOutputNodes m)) as [Hn|Hn];
    [apply elem_of_snoc | by apply dec_stable in Hn].
Qed.

Lemma vertexOutputNodesWith_NoDup (node : BlockId) (t : Z) (m : NodeMaterial) :
  NoDup (_vertexOutputNodes m) → NoDup (vertexOutputNodesWith node t m).
Proof.
  intros Hnd. unfold vertexOutputNodesWith.
  destruct (bool_decide (Z.land t Vertex ≠ 0%Z)); cbn [andb]; [|done].
  destruct (bool_decide_reflect (node ∉ _vertexOutputNodes m)) as [Hn|Hn]; [|done].
  by apply NoDup_snoc_new.
Qed.

Lemma fragmentOutputNodesWith_NoDup (node : BlockId) (t : Z) (m : NodeMaterial) :
  NoDup (_fragmentOutputNodes m) → NoDup (fragmentOutputNodesWith node t m).
Proof.
  intros Hnd. unfold fragmentOutputNodesWith.
  destruct (bool_decide (Z.land t Fragment ≠ 0%Z)); cbn [andb]; [|done].
  destruct (bool_decide_reflect (node ∉ _fragmentOutputNodes m)) as [Hn|Hn]; [|done].
  by apply NoDup_snoc_new.
Qed.

(** X1. [addOutputNode] on a block whose target is not [null] returns, and
    calling it again on the material it leaves changes nothing: the block
    is not listed twice and its target is not rewritten. *)
Theorem addOutputNode_twice (node : BlockId) (blk : NodeMaterialBlock)
    (m : NodeMaterial) :
  blocks m !! node = Some blk → target blk ≠ None →
  ∃ m1, addOutputNode node m = Ok tt m1 ∧ addOutputNode node m1 = Ok tt m1.
Proof.
  intros Hblk Ht. destruct (target blk) as [t|] eqn:Htarget; [clear Ht | done].
  exists (afterAddOutputNode node t m).
  split; [by apply (addOutputNode_cases node blk)|].
  rewrite (addOutputNode_cases node blk t (afterAddOutputNode node t m)) by done.
  f_equal.
  assert (Hv : vertexOutputNodesWith node t (afterAddOutputNode node t m)
               = vertexOutputNodesWith node t m).
  { unfold vertexOutputNodesWith at 1.
    destruct (bool_decide_reflect (Z.land t Vertex ≠ 0%Z)) as [Hbit|Hbit];
      cbn [andb]; [|done].
    rewrite bool_decide_eq_false_2; [done|].
    intros Hn. apply Hn. by apply vertexOutputNodesWith_listed. }
  assert (Hf : fragmentOutputNodesWith node t (afterAddOutputNode node t m)
               = fragmentOutputNodesWith node t m).
  { unfold fragmentOutputNodesWith at 1.
    destruct (bool_decide_reflect (Z.land t Fragment ≠ 0%Z)) as [Hbit|Hbit];
      cbn [andb]; [|done].
    rewrite bool_decide_eq_false_2; [done|].
    intros Hn. apply Hn. by apply fragmentOutputNodesWith_listed. }
  unfold afterAddOutputNode at 1. rewrite Hv, Hf.
  unfold afterAddOutputNode. by destruct m.
Qed.

(** X2. [addOutputNode] keeps the output node lists free of duplicates and
    leaves the block in the list of every stage that its target names
    once the call returns; the block changes in its target only, and no
    other block and no attached block is touched. *)
Theorem addOutputNode_listed_once (node : BlockId) (blk : NodeMaterialBlock)
    (m : NodeMaterial) :
  blocks m !! node = Some blk → target blk ≠ None →
  NoDup (_vertexOutputNodes m) → NoDup (_fragmentOutputNodes m) →
  ∃ m1 blk1,
    addOutputNode node m = Ok tt m1
    ∧ blocks m1 !! node = Some blk1
    ∧ blk1 = withTarget (target blk1) blk
    ∧ (targetAnd (target blk1) Vertex ≠ 0%Z → node ∈ _vertexOutputNodes m1)
    ∧ (targetAnd (target blk1) Fragment ≠ 0%Z → node ∈ _fragmentOutputNodes m1)
    ∧ NoDup (_vertexOutputNodes m1) ∧ NoDup (_fragmentOutputNodes m1)
    ∧ (∀ b, b ≠ node → blocks m1 !! b = blocks m !! b)
    ∧ attachedBlocks m1 = attachedBlocks m.
Proof.
  intros Hblk Ht Hv Hf. destruct (target blk) as [t|] eqn:Htarget; [clear Ht | done].
  exists (afterAddOutputNode node t m), blk.
  split; [by apply (addOutputNode_cases node blk)|].
  split; [exact Hblk|]. split; [by destruct blk|].
  rewrite Htarget. cbn [targetAnd].
  split; [apply vertexOutputNodesWith_listed|].
  split; [apply fragmentOutputNodesWith_listed|].
  split; [by apply vertexOutputNodesWith_NoDup|].
  split; [by apply fragmentOutputNodesWith_NoDup|]. done.
Qed.

Lemma removeOutputNode_cases (node : BlockId) (blk : NodeMaterialBlock)
    (m : NodeMaterial) :
  blocks m !! node = Some blk →
  removeOutputNode node m
  = Ok tt
      (match target blk with
       | None => m
       | Some t =>
           let m1 :=
             if bool_decide (Z.land t Vertex ≠ 0%Z)
             then withVertexOutputNodes (removeFirst node (_vertexOutputNodes m)) m
             else m in
           if bool_decide (Z.land t Fragment ≠ 0%Z)
           then withFragmentOutputNodes (removeFirst node (_fragmentOutputNodes m1)) m1
           else m1
       end).
Proof.
  intros Hblk. unfold removeOutputNode, _removeVertexOutputNode,
    _removeFragmentOutputNode. munfold. rewrite Hblk.
  destruct (target blk) as [t|] eqn:Ht; [|done]. cbn [targetAnd].
  destruct (bool_decide (Z.land t Vertex ≠ 0%Z)); simpl; rewrite Hblk, Ht; simpl;
    by destruct (bool_decide (Z.land t Fragment ≠ 0%Z)).
Qed.

(** X3. Adding a block (target not [null]) that is in neither output node
    list and then removing it gives the material back as it was, whatever
    the target of the block: the lists, every block and every other field
    are as before. *)
Theorem addOutputNode_then_removeOutputNode (node : BlockId)
    (blk : NodeMaterialBlock) (m : NodeMaterial) :
  blocks m !! node = Some blk → target blk ≠ None →
  node ∉ _vertexOutputNodes m → node ∉ _fragmentOutputNodes m →
  (addOutputNode node ;;; removeOutputNode node) m = Ok tt m.
Proof.
  intros Hblk Ht Hv Hf. destruct (target blk) as [t|] eqn:Htarget; [clear Ht | done].
  unfold bind at 1. rewrite (addOutputNode_cases node blk t m Hblk Htarget).
  rewrite (removeOutputNode_cases node blk) by done. rewrite Htarget. f_equal.
  unfold afterAddOutputNode, vertexOutputNodesWith, fragmentOutputNodesWith.
  rewrite (bool_decide_eq_true_2 _ Hv), (bool_decide_eq_true_2 _ Hf), !andb_true_r.
  destruct (bool_decide (Z.land t Vertex ≠ 0%Z));
    destruct (bool_decide (Z.land t Fragment ≠ 0%Z)); cbn zeta;
    cbn [_vertexOutputNodes _fragmentOutputNodes withVertexOutputNodes
           withFragmentOutputNodes];
    rewrite ?removeFirst_snoc by done; by destruct m.
Qed.

(** ** Attached blocks: lookups and removal *)

(** [removeBlock(block)] *)
Definition removeBlock (block : BlockId) : M unit :=
  modify (λ m, withAttachedBlocks (removeFirst block (attachedBlocks m)) m) ;;;
  blk <- getBlock block ;;
  if isFinalMerger blk then removeOutputNode block else ret tt.

Definition moreThanOneBlock (blockName : string) : string :=
  "More than one block was found with the name `" +:+ blockName +:+ "`".

(** The loop of [getBlockByName] over the attached blocks left to visit,
    with the local [result]; returns the block found ([None] for [null])
    and the warnings given to [Tools.Warn]. *)
Fixpoint getBlockByNameFrom (blockName : string) (result : option BlockId)
    (attached : list BlockId) : M (option BlockId * list string) :=
  match attached with
  | [] => ret (result, [])
  | block :: attached' =>
      blk <- getBlock block ;;
      if bool_decide (name blk = blockName) then
        match result with
        | None => getBlockByNameFrom blockName (Some block) attached'
        | Some _ => ret (result, [moreThanOneBlock blockName])
        end
      else getBlockByNameFrom blockName result attached'
  end.

(** [getBlockByName(name)] *)
Definition getBlockByName (blockName : string) : M (option BlockId * list string) :=
  this <- get ;;
  getBlockByNameFrom blockName None (attachedBlocks this).

(** The loop of [getBlockByPredicate]. *)
Fixpoint getBlockByPredicateFrom (predicate : BlockId → NodeMaterialBlock → bool)
    (attached : list BlockId) : M (option BlockId) :=
  match attached with
  | [] => ret None
  | block :: attached' =>
      blk <- getBlock block ;;
      if predicate block blk then ret (Some block)
      else getBlockByPredicateFrom predicate attached'
  end.

(** [getBlockByPredicate(predicate)]; the predicate sees the block object
    and what it holds. *)
Definition getBlockByPredicate (predicate : BlockId → NodeMaterialBlock → bool)
  : M (option BlockId) :=
  this <- get ;;
  getBlockByPredicateFrom predicate (attachedBlocks this).

(** The loop of [getInputBlockByPredicate]. *)
Fixpoint getInputBlockByPredicateFrom (predicate : BlockId → NodeMaterialBlock → bool)
    (attached : list BlockId) : M (option BlockId) :=
  match attached with
  | [] => ret None
  | block :: attached' =>
      blk <- getBlock block ;;
      if isInput blk && predicate block blk then ret (Some block)
      else getInputBlockByPredicateFrom predicate attached'
  end.

(** [getInputBlockByPredicate(predicate)] *)
Definition getInputBlockByPredicate (predicate : BlockId → NodeMaterialBlock → bool)
  : M (option BlockId) :=
  this <- get ;;
  getInputBlockByPredicateFrom predicate (attachedBlocks this).

(** [getInputBlocks()] *)
Definition getInputBlocks : M (list BlockId) :=
  this <- get ;;
  foldM (λ blocks block,
    blk <- getBlock block ;;
    if isInput blk then ret (blocks ++ [block]) else ret blocks)
    [] (attachedBlocks this).

(** [NodeMaterial._BlockIsTextureBlock(block)] *)
Definition _BlockIsTextureBlock (blk : NodeMaterialBlock) : bool :=
  bool_decide (className blk = "TextureBlock")
  || bool_decide (className blk = "ReflectionTextureBaseBlock")
  || bool_decide (className blk = "ReflectionTextureBlock")
  || bool_decide (className blk = "ReflectionBlock")
  || bool_decide (className blk = "RefractionBlock")
  || bool_decide (className blk = "CurrentScreenBlock")
  || bool_decide (className blk = "ParticleTextureBlock")
  || bool_decide (className blk = "ImageSourceBlock")
  || bool_decide (className blk = "TriPlanarBlock")
  || bool_decide (className blk = "BiPlanarBlock")
  || bool_decide (className blk = "PrePassTextureBlock").

(** [getAllTextureBlocks()] *)
Definition getAllTextureBlocks : M (list BlockId) :=
  this <- get ;;
  foldM (λ textureBlocks block,
    blk <- getBlock block ;;
    if _BlockIsTextureBlock blk then ret (textureBlocks ++ [block])
    else ret textureBlocks)
    [] (attachedBlocks this).

(** Every attached block is a block of the store. *)
Definition attachedInStore (m : NodeMaterial) : Prop :=
  ∀ b, b ∈ attachedBlocks m → is_Some (blocks m !! b).

(** Whether the block object [b] satisfies [p] in the store of [m]. *)
Definition holdsAt (p : BlockId → NodeMaterialBlock → bool) (m : NodeMaterial)
    (b : BlockId) : bool :=
  match blocks m !! b with
  | Some blk => p b blk
  | None => false
  end.

(** The attached blocks that satisfy [p], in the order attached. *)
Definition attachedWhere (p : BlockId → NodeMaterialBlock → bool) (m : NodeMaterial)
  : list BlockId :=
  filter (λ b, holdsAt p m b = true) (attachedBlocks m).

Lemma collect_spec (p : NodeMaterialBlock → bool) (l acc : list BlockId)
    (m : NodeMaterial) :
  (∀ b, b ∈ l → is_Some (blocks m !! b)) →
  foldM (λ acc block,
    blk <- getBlock block ;;
    if p blk then ret (acc ++ [block]) else ret acc) acc l m
  = Ok (acc ++ filter (λ b, holdsAt (λ _, p) m b = true) l) m.
Proof.
  revert acc. induction l as [|b l IH]; intros acc Hl; simpl.
  - by rewrite app_nil_r.
  - destruct (Hl b) as [blk Hblk]; [by left|].
    munfold. rewrite Hblk.
    assert (Hrest : ∀ b', b' ∈ l → is_Some (blocks m !! b')) by (intros; apply Hl; by right).
    destruct (p blk) eqn:Hp.
    + rewrite IH by done. rewrite filter_cons_True by (unfold holdsAt; by rewrite Hblk).
      by rewrite <- app_assoc.
    + rewrite IH by done.
      rewrite filter_cons_False; [done|]. unfold holdsAt. rewrite Hblk, Hp. done.
Qed.

Lemma findFirst_spec (p : BlockId → NodeMaterialBlock → bool) (l : list BlockId)
    (m : NodeMaterial) :
  (∀ b, b ∈ l → is_Some (blocks m !! b)) →
  getBlockByPredicateFrom p l m
  = Ok (head (filter (λ b, holdsAt p m b = true) l)) m.
Proof.
  induction l as [|b l IH]; intros Hl; simpl; [done|].
  destruct (Hl b) as [blk Hblk]; [by left|].
  munfold. rewrite Hblk.
  destruct (p b blk) eqn:Hp.
  - by rewrite filter_cons_True by (unfold holdsAt; by rewrite Hblk).
  - rewrite filter_cons_False by (unfold holdsAt; rewrite Hblk, Hp; done).
    apply IH. intros; apply Hl; by right.
Qed.

(** X4. [removeBlock] takes the block out of the attached blocks and keeps
    the others in their order; it changes no block object, so every
    connection to the removed block stays.  The output node lists change
    only for a final merger, which leaves the list of each stage that its
    target names. *)
Theorem removeBlock_detaches (block : BlockId) (blk : NodeMaterialBlock)
    (m : NodeMaterial) :
  blocks m !! block = Some blk → NoDup (attachedBlocks m) →
  ∃ m',
    removeBlock block m = Ok tt m'
    ∧ attachedBlocks m' = filter (λ b, b ≠ block) (attachedBlocks m)
    ∧ (block ∉ attachedBlocks m')
    ∧ blocks m' = blocks m
    ∧ _vertexOutputNodes m'
      = (if isFinalMerger blk && bool_decide (targetAnd (target blk) Vertex ≠ 0%Z)
         then removeFirst block (_vertexOutputNodes m) else _vertexOutputNodes m)
    ∧ _fragmentOutputNodes m'
      = (if isFinalMerger blk && bool_decide (targetAnd (target blk) Fragment ≠ 0%Z)
         then removeFirst block (_fragmentOutputNodes m) else _fragmentOutputNodes m).
Proof.
  intros Hblk Hnd. unfold removeBlock. munfold. simpl. rewrite Hblk.
  rewrite removeFirst_filter by done.
  assert (Hout : block ∉ filter (λ b, b ≠ block) (attachedBlocks m)).
  { rewrite list_elem_of_filter. intros [Hne _]. done. }
  destruct (isFinalMerger blk) eqn:Hfm; cbn [andb].
  - rewrite (removeOutputNode_cases block blk) by done.
    eexists. split; [reflexivity|].
    destruct (target blk) as [t|]; cbn [targetAnd].
    + destruct (bool_decide (Z.land t Vertex ≠ 0%Z));
        destruct (bool_decide (Z.land t Fragment ≠ 0%Z)); simpl; done.
    + rewrite !(bool_decide_eq_false_2 (0%Z ≠ 0%Z)) by (intros H; done). done.
  - eexists. split; [reflexivity|]. simpl. done.
Qed.

Lemma getBlockByNameFrom_found (blockName : string) (found : BlockId)
    (l : list BlockId) (m : NodeMaterial) :
  (∀ b, b ∈ l → is_Some (blocks m !! b)) →
  getBlockByNameFrom blockName (Some found) l m
  = Ok (Some found,
        match filter (λ b, holdsAt (λ _ blk, bool_decide (name blk = blockName)) m b = true) l with
        | [] => []
        | _ :: _ => [moreThanOneBlock blockName]
        end) m.
Proof.
  induction l as [|b l IH]; intros Hl; simpl; [done|].
  destruct (Hl b) as [blk Hblk]; [by left|].
  munfold. rewrite Hblk.
  destruct (bool_decide (name blk = blockName)) eqn:Hp.
  - by rewrite filter_cons_True by (unfold holdsAt; by rewrite Hblk).
  - rewrite filter_cons_False by (unfold holdsAt; rewrite Hblk, Hp; done).
    apply IH. intros; apply Hl; by right.
Qed.

(** X5. [getBlockByName] returns the first attached block of that name, or
    [null] when no attached block has it.  It warns, once, exactly when at
    least two attached blocks have the name, and leaves the material as it
    was. *)
Theorem getBlockByName_first (blockName : string) (m : NodeMaterial) :
  attachedInStore m →
  getBlockByName blockName m
  = Ok (head (attachedWhere (λ _ blk, bool_decide (name blk = blockName)) m),
        if decide (2 ≤ length (attachedWhere (λ _ blk, bool_decide (name blk = blockName)) m))%nat
        then [moreThanOneBlock blockName] else []) m.
Proof.
  unfold attachedInStore, getBlockByName, attachedWhere. munfold.
  generalize (attachedBlocks m). intros l. induction l as [|b l IH]; intros Hl; simpl;
    [done|].
  destruct (Hl b) as [blk Hblk]; [by left|].
  assert (Hrest : ∀ b', b' ∈ l → is_Some (blocks m !! b')) by (intros; apply Hl; by right).
  munfold. rewrite Hblk.
  destruct (bool_decide (name blk = blockName)) eqn:Hp.
  - rewrite filter_cons_True by (unfold holdsAt; by rewrite Hblk).
    rewrite getBlockByNameFrom_found by done. simpl.
    by destruct (filter _ l).
  - rewrite filter_cons_False by (unfold holdsAt; rewrite Hblk, Hp; done).
    by apply IH.
Qed.

Lemma get_bind {A} (k : NodeMaterial → M A) (m : NodeMaterial) :
  (this <- get ;; k this) m = k m m.
Proof. reflexivity. Qed.

Lemma getInputBlockByPredicateFrom_spec (p : BlockId → NodeMaterialBlock → bool)
    (l : list BlockId) (m : NodeMaterial) :
  getInputBlockByPredicateFrom p l m
  = getBlockByPredicateFrom (λ b blk, isInput blk && p b blk) l m.
Proof.
  induction l as [|b l IH]; simpl; [done|].
  unfold bind. destruct (getBlock b m) as [blk m'|] eqn:Hb; [|done].
  unfold getBlock in Hb. destruct (blocks m !! b) as [blk0|]; [|done].
  injection Hb as -> <-.
  destruct (isInput blk && p b blk); [done|]. apply IH.
Qed.

Lemma getInputBlockByPredicate_spec (predicate : BlockId → NodeMaterialBlock → bool)
    (m : NodeMaterial) :
  attachedInStore m →
  getInputBlockByPredicate predicate m
  = Ok (head (filter (λ b, holdsAt predicate m b = true)
                (attachedWhere (λ _ blk, isInput blk) m))) m.
Proof.
  intros Hl. unfold getInputBlockByPredicate, attachedWhere. rewrite get_bind.
  rewrite getInputBlockByPredicateFrom_spec, findFirst_spec by done. do 2 f_equal.
  rewrite list_filter_filter. apply list_filter_iff.
  intros b. unfold holdsAt. destruct (blocks m !! b) as [blk|]; [|naive_solver].
  rewrite andb_true_iff. tauto.
Qed.

(** X6. [getInputBlocks] returns the attached input blocks in the order
    attached; [getInputBlockByPredicate] returns the first of them that
    satisfies the predicate, which is what [getBlockByPredicate] returns
    for the predicate restricted to input blocks.  None of them changes the
    material. *)
Theorem getInputBlockByPredicate_first (predicate : BlockId → NodeMaterialBlock → bool)
    (m : NodeMaterial) :
  attachedInStore m →
  getInputBlocks m = Ok (attachedWhere (λ _ blk, isInput blk) m) m
  ∧ getInputBlockByPredicate predicate m
    = Ok (head (filter (λ b, holdsAt predicate m b = true)
                  (attachedWhere (λ _ blk, isInput blk) m))) m
  ∧ getInputBlockByPredicate predicate m
    = getBlockByPredicate (λ b blk, isInput blk && predicate b blk) m.
Proof.
  intros Hl. split; [|split].
  - unfold getInputBlocks, attachedWhere. rewrite get_bind. by rewrite collect_spec.
  - by apply getInputBlockByPredicate_spec.
  - unfold getInputBlockByPredicate, getBlockByPredicate. rewrite !get_bind.
    apply getInputBlockByPredicateFrom_spec.
Qed.

(** ** Prepass textures *)

Section PrePass.

(** [Constants.PREPASS_*_TEXTURE_TYPE], declared outside these files. *)
Variable PREPASS_DEPTH_TEXTURE_TYPE : Z.
Variable PREPASS_NORMAL_TEXTURE_TYPE : Z.
Variable PREPASS_POSITION_TEXTURE_TYPE : Z.

(** [block.position.isConnected], [block.depth.isConnected] and
    [block.normal.isConnected] of a [PrePassTextureBlock], a class outside
    these files. *)
Variable positionIsConnected : BlockId → NodeMaterial → bool.
Variable depthIsConnected : BlockId → NodeMaterial → bool.
Variable normalIsConnected : BlockId → NodeMaterial → bool.

(** [result.includes(x)] *)
Definition includes (result : list Z) (x : Z) : bool := bool_decide (x ∈ result).

(** The body of the loop of [prePassTextureInputs] for one block. *)
Definition pushTextureInputs (this : NodeMaterial) (result : list Z) (block : BlockId)
  : list Z :=
  let result :=
    if positionIsConnected block this
       && negb (includes result PREPASS_POSITION_TEXTURE_TYPE)
    then result ++ [PREPASS_POSITION_TEXTURE_TYPE] else result in
  let result :=
    if depthIsConnected block this
       && negb (includes result PREPASS_DEPTH_TEXTURE_TYPE)
    then result ++ [PREPASS_DEPTH_TEXTURE_TYPE] else result in
  if normalIsConnected block this
     && negb (includes result PREPASS_NORMAL_TEXTURE_TYPE)
  then result ++ [PREPASS_NORMAL_TEXTURE_TYPE] else result.

(** [get prePassTextureInputs()] *)
Definition prePassTextureInputs : M (list Z) :=
  textureBlocks <- getAllTextureBlocks ;;
  prePassTextureBlocks <-
    foldM (λ kept block,
      blk <- getBlock block ;;
      if bool_decide (className blk = "PrePassTextureBlock")
      then ret (kept ++ [block]) else ret kept) [] textureBlocks ;;
  this <- get ;;
  ret (foldl (pushTextureInputs this) [] prePassTextureBlocks).

(** The attached blocks of class [PrePassTextureBlock]. *)
Definition prePassTextureBlocksOf (m : NodeMaterial) : list BlockId :=
  attachedWhere (λ _ blk, bool_decide (className blk = "PrePassTextureBlock")) m.

Lemma prePassTextureInputs_unfold (m : NodeMaterial) :
  attachedInStore m →
  prePassTextureInputs m
  = Ok (foldl (pushTextureInputs m) [] (prePassTextureBlocksOf m)) m.
Proof.
  intros Hl. unfold prePassTextureInputs, getAllTextureBlocks.
  unfold bind at 1. rewrite get_bind, collect_spec by done. simpl.
  unfold bind at 1. rewrite collect_spec.
  2:{ intros b Hb%list_elem_of_filter. apply Hl, Hb. }
  simpl. rewrite get_bind. unfold ret. do 2 f_equal.
  unfold prePassTextureBlocksOf, attachedWhere.
  rewrite list_filter_filter. apply list_filter_iff.
  intros b. unfold holdsAt, _BlockIsTextureBlock.
  destruct (blocks m !! b) as [blk|]; [|naive_solver].
  destruct (bool_decide (className blk = "PrePassTextureBlock")); [|naive_solver].
  rewrite !orb_true_r. tauto.
Qed.

Lemma pushIfNew_spec (c : bool) (result : list Z) (x : Z) :
  NoDup result →
  NoDup (if c && negb (includes result x) then result ++ [x] else result)
  ∧ ∀ y, y ∈ (if c && negb (includes result x) then result ++ [x] else result)
         ↔ y ∈ result ∨ (c = true ∧ y = x).
Proof.
  intros Hnd. unfold includes.
  destruct c; cbn [andb]; [|naive_solver].
  destruct (bool_decide_reflect (x ∈ result)) as [Hin|Hin]; cbn [negb].
  - split; [done|]. naive_solver.
  - split.
    + apply NoDup_app. split; [done|]. split; [|apply NoDup_singleton].
      intros y Hy ->%list_elem_of_singleton. done.
    + intros y. rewrite elem_of_app, list_elem_of_singleton. naive_solver.
Qed.

(** What the prepass texture block [b] reads, as [prePassTextureInputs]
    records it. *)
Definition readsFrom (m : NodeMaterial) (b : BlockId) (x : Z) : Prop :=
  (positionIsConnected b m = true ∧ x = PREPASS_POSITION_TEXTURE_TYPE)
  ∨ (depthIsConnected b m = true ∧ x = PREPASS_DEPTH_TEXTURE_TYPE)
  ∨ (normalIsConnected b m = true ∧ x = PREPASS_NORMAL_TEXTURE_TYPE).

Lemma pushTextureInputs_spec (m : NodeMaterial) (result : list Z) (b : BlockId) :
  NoDup result →
  NoDup (pushTextureInputs m result b)
  ∧ ∀ y, y ∈ pushTextureInputs m result b ↔ y ∈ result ∨ readsFrom m b y.
Proof.
  intros H0. unfold pushTextureInputs. cbn zeta.
  destruct (pushIfNew_spec (positionIsConnected b m) result
              PREPASS_POSITION_TEXTURE_TYPE H0) as [H1 E1].
  destruct (pushIfNew_spec (depthIsConnected b m) _
              PREPASS_DEPTH_TEXTURE_TYPE H1) as [H2 E2].
  destruct (pushIfNew_spec (normalIsConnected b m) _
              PREPASS_NORMAL_TEXTURE_TYPE H2) as [H3 E3].
  split; [done|]. intros y. rewrite E3, E2, E1. unfold readsFrom. tauto.
Qed.

Lemma foldl_pushTextureInputs_spec (m : NodeMaterial) (l : list BlockId)
    (result : list Z) :
  NoDup result →
  NoDup (foldl (pushTextureInputs m) result l)
  ∧ ∀ y, y ∈ foldl (pushTextureInputs m) result l
         ↔ y ∈ result ∨ ∃ b, b ∈ l ∧ readsFrom m b y.
Proof.
  revert result. induction l as [|b l IH]; intros result Hnd; simpl.
  - split; [done|]. intros y. split; [by left|].
    intros [?|(b & Hb & _)]; [done|]. by apply elem_of_nil in Hb.
  - destruct (pushTextureInputs_spec m result b Hnd) as [H1 E1].
    destruct (IH _ H1) as [H2 E2]. split; [done|].
    intros y. rewrite E2, E1. setoid_rewrite elem_of_cons. naive_solver.
Qed.

(** X7. [prePassTextureInputs] lists a texture type exactly when some
    attached [PrePassTextureBlock] has the matching output connected, and
    lists no texture type twice, however many blocks read it. *)
Theorem prePassTextureInputs_each_once (m : NodeMaterial) :
  attachedInStore m →
  ∃ textureInputs,
    prePassTextureInputs m = Ok textureInputs m
    ∧ NoDup textureInputs
    ∧ ∀ x, x ∈ textureInputs ↔ ∃ b, b ∈ prePassTextureBlocksOf m ∧ readsFrom m b x.
Proof.
  intros Hl. eexists. split; [by apply prePassTextureInputs_unfold|].
  destruct (foldl_pushTextureInputs_spec m (prePassTextureBlocksOf m) [])
    as [Hnd Hin]; [constructor|].
  split; [done|]. intros x. rewrite Hin. split; [|by right].
  intros [H|H]; [by apply elem_of_nil in H | done].
Qed.

(** [Constants.PREPASS_COLOR_TEXTURE_TYPE], and [viewDepth.isConnected],
    [viewNormal.isConnected] and [worldPosition.isConnected] of a
    [PrePassOutputBlock], a class outside these files. *)
Variable PREPASS_COLOR_TEXTURE_TYPE : Z.
Variable viewDepthIsConnected : BlockId → NodeMaterial → bool.
Variable viewNormalIsConnected : BlockId → NodeMaterial → bool.
Variable worldPositionIsConnected : BlockId → NodeMaterial → bool.

(** [get prePassTextureOutputs()] *)
Definition prePassTextureOutputs : M (list Z) :=
  prePassOutputBlock <-
    getBlockByPredicate (λ _ blk, bool_decide (className blk = "PrePassOutputBlock")) ;;
  let result := [PREPASS_COLOR_TEXTURE_TYPE] in
  match prePassOutputBlock with
  | None => ret result
  | Some block =>
      (* Cannot write to prepass if we alread read from prepass *)
      textureInputs <- prePassTextureInputs ;;
      if negb (bool_decide (length textureInputs = 0)) then ret result
      else
        this <- get ;;
        let result :=
          if viewDepthIsConnected block this
          then result ++ [PREPASS_DEPTH_TEXTURE_TYPE] else result in
        let result :=
          if viewNormalIsConnected block this
          then result ++ [PREPASS_NORMAL_TEXTURE_TYPE] else result in
        let result :=
          if worldPositionIsConnected block this
          then result ++ [PREPASS_POSITION_TEXTURE_TYPE] else result in
        ret result
  end.

(** The local [prePassTexturesRequired] of [setPrePassRenderer]. *)
Definition prePassTexturesRequired : M (list Z) :=
  textureInputs <- prePassTextureInputs ;;
  textureOutputs <- prePassTextureOutputs ;;
  ret (textureInputs ++ textureOutputs).

(** What [setPrePassRenderer(prePassRenderer)] returns.  The effect
    configuration that it updates belongs to the renderer, an object of a
    class outside these files, and is not part of the model. *)
Definition setPrePassRenderer : M bool :=
  required <- prePassTexturesRequired ;;
  ret (bool_decide (1 < length required)%nat).

(** X8. The prepass outputs always start with the color texture, and are
    the color texture alone when no [PrePassOutputBlock] is attached or
    when the material reads a prepass texture: a material never both reads
    from and writes to the prepass.  [setPrePassRenderer] answers that the
    prepass is needed exactly when the material reads a prepass texture or
    writes one besides color. *)
Theorem prePassTextureOutputs_color_first (m : NodeMaterial) :
  attachedInStore m →
  ∃ textureInputs textureOutputs,
    prePassTextureInputs m = Ok textureInputs m
    ∧ prePassTextureOutputs m = Ok textureOutputs m
    ∧ head textureOutputs = Some PREPASS_COLOR_TEXTURE_TYPE
    ∧ (textureInputs ≠ [] → textureOutputs = [PREPASS_COLOR_TEXTURE_TYPE])
    ∧ (attachedWhere (λ _ blk, bool_decide (className blk = "PrePassOutputBlock")) m = []
       → textureOutputs = [PREPASS_COLOR_TEXTURE_TYPE])
    ∧ setPrePassRenderer m
      = Ok (bool_decide (textureInputs ≠ []
                         ∨ textureOutputs ≠ [PREPASS_COLOR_TEXTURE_TYPE])) m.
Proof.
  intros Hl. pose proof (prePassTextureInputs_unfold m Hl) as Hin.
  set (textureInputs := foldl (pushTextureInputs m) [] (prePassTextureBlocksOf m)) in *.
  exists textureInputs.
  assert (Hout : ∃ textureOutputs,
    prePassTextureOutputs m = Ok textureOutputs m
    ∧ head textureOutputs = Some PREPASS_COLOR_TEXTURE_TYPE
    ∧ (textureInputs ≠ [] → textureOutputs = [PREPASS_COLOR_TEXTURE_TYPE])
    ∧ (attachedWhere (λ _ blk, bool_decide (className blk = "PrePassOutputBlock")) m = []
       → textureOutputs = [PREPASS_COLOR_TEXTURE_TYPE])).
  { unfold prePassTextureOutputs, getBlockByPredicate.
    unfold bind at 1. rewrite get_bind, findFirst_spec by done.
    fold (attachedWhere (λ _ blk, bool_decide (className blk = "PrePassOutputBlock")) m).
    destruct (attachedWhere _ m) as [|block rest]; simpl.
    - eexists. split; [reflexivity|]. done.
    - unfold bind at 1. rewrite Hin.
      destruct textureInputs as [|x xs]; simpl.
      + rewrite get_bind. eexists. split; [reflexivity|].
        split; [|done].
        destruct (viewDepthIsConnected block m), (viewNormalIsConnected block m),
          (worldPositionIsConnected block m); done.
      + eexists. split; [reflexivity|]. done. }
  destruct Hout as (textureOutputs & Hout & Hhead & Hread & Hnone).
  exists textureOutputs. do 5 (split; [done|]).
  unfold setPrePassRenderer, prePassTexturesRequired.
  unfold bind at 1. unfold bind at 1. rewrite Hin.
  unfold bind at 1. rewrite Hout. unfold ret. f_equal.
  apply bool_decide_ext. rewrite length_app.
  destruct textureOutputs as [|c outs]; [done|]. injection Hhead as ->.
  destruct textureInputs as [|x xs], outs as [|o outs]; simpl; split;
    try lia; try naive_solver.
Qed.

End PrePass.

(** ** Build: what the initialization attaches, and the bookkeeping *)

Section InitializeAttaches.

Variable blockInitialize : BlockId → Stage → NodeMaterial → NodeMaterial.
Variable blockAutoConfigure : BlockId → NodeMaterial → NodeMaterial.
Variable rank : BlockId → nat.

(** X9. On a well-formed material without cycle, with block methods that
    keep it so, the initialization loops of [build] return or throw the
    uniqueness error: they never read [undefined] and never run out of
    fuel.  When they return, every block reachable from an output node is
    attached, the blocks attached before are still at the front of the
    list in their order, and the output node lists are as before. *)
Theorem initializeBlocks_attaches_reachable (fuel : nat) (autoConfigure : bool)
    (m : NodeMaterial) :
  (∀ node state, wellBehaved rank (blockInitialize node state)) →
  (∀ node, wellBehaved rank (blockAutoConfigure node)) →
  wellFormed rank m →
  (∀ r, r ∈ _vertexOutputNodes m ++ _fragmentOutputNodes m →
        is_Some (blocks m !! r) ∧ (rank r < fuel)%nat) →
  (∃ nodes m',
      initializeBlocks blockInitialize blockAutoConfigure fuel autoConfigure m
      = Ok nodes m'
      ∧ (∀ x, reachableFrom (blocks m)
                (_vertexOutputNodes m ++ _fragmentOutputNodes m) x →
              x ∈ attachedBlocks m')
      ∧ (∃ added, attachedBlocks m' = attachedBlocks m ++ added)
      ∧ _vertexOutputNodes m' = _vertexOutputNodes m
      ∧ _fragmentOutputNodes m' = _fragmentOutputNodes m
      ∧ wellFormed rank m')
  ∨ (∃ cls m',
      initializeBlocks blockInitialize blockAutoConfigure fuel autoConfigure m
      = Fail (Thrown (multipleBlocks cls)) m').
Proof.
  intros Hinit Hauto Hwf Hroots.
  pose proof (initializeBlocks_walk blockInitialize blockAutoConfigure rank
                Hinit Hauto fuel autoConfigure m Hwf Hroots) as Hw.
  destruct (initializeBlocks _ _ fuel autoConfigure m) as [nodes m'|[msg| |] m'];
    simpl in Hw; [|destruct Hw as [cls ->]; right; by eauto|done..].
  left. destruct Hw as [(Hwf' & _ & (added & Hadd & _) & Hv & Hf) Hvis].
  exists nodes, m'. split; [done|]. split; [done|]. split; [by exists added|]. done.
Qed.

End InitializeAttaches.

(** What [build] keeps of its own progress: the success flag, the build id
    of the material and the counter of the class. *)
Definition bookkeeping (m : NodeMaterial) : bool * Z * Z :=
  (_buildWasSuccessful m, _buildId m, _BuildIdGenerator m).

(** A method outside these files that leaves the bookkeeping alone. *)
Definition keepsBookkeeping (f : NodeMaterial → NodeMaterial) : Prop :=
  ∀ m, bookkeeping (f m) = bookkeeping m.

(** A call that leaves the bookkeeping alone, however it ends. *)
Definition bookkeepingKept {A} (c : M A) : Prop :=
  ∀ m, match c m with
       | Ok _ m' => bookkeeping m' = bookkeeping m
       | Fail _ m' => bookkeeping m' = bookkeeping m
       end.

Lemma kept_ret {A} (a : A) : bookkeepingKept (ret a).
Proof. by intros m. Qed.

Lemma kept_fail {A} (e : Error) : bookkeepingKept (fail (A := A) e).
Proof. by intros m. Qed.

Lemma kept_get : bookkeepingKept get.
Proof. by intros m. Qed.

Lemma kept_modify (f : NodeMaterial → NodeMaterial) :
  keepsBookkeeping f → bookkeepingKept (modify f).
Proof. intros Hf m. apply Hf. Qed.

Lemma kept_bind {A B} (c : M A) (k : A → M B) :
  bookkeepingKept c → (∀ a, bookkeepingKept (k a)) → bookkeepingKept (bind c k).
Proof.
  intros Hc Hk m. unfold bind. specialize (Hc m).
  destruct (c m) as [a m1|e m1]; [|done].
  specialize (Hk a m1). destruct (k a m1); congruence.
Qed.

Lemma kept_getBlock (b : BlockId) : bookkeepingKept (getBlock b).
Proof. intros m. unfold getBlock. by destruct (blocks m !! b). Qed.

Lemma kept_updateBlock (b : BlockId) (f : NodeMaterialBlock → NodeMaterialBlock) :
  bookkeepingKept (updateBlock b f).
Proof.
  apply kept_bind; [apply kept_getBlock|]. intros blk. by apply kept_modify.
Qed.

Lemma kept_foldM {A B} (f : B → A → M B) (l : list A) :
  (∀ b a, a ∈ l → bookkeepingKept (f b a)) → ∀ b, bookkeepingKept (foldM f b l).
Proof.
  induction l as [|a l IH]; intros Hf b; simpl; [apply kept_ret|].
  apply kept_bind; [apply Hf; by left|]. intros b'. apply IH.
  intros b0 a0 Ha0. apply Hf. by right.
Qed.

Lemma kept_forEach {A} (l : list A) (body : A → M unit) :
  (∀ a, a ∈ l → bookkeepingKept (body a)) → bookkeepingKept (forEach l body).
Proof. intros Hb. apply kept_foldM. intros _ a Ha. by apply Hb. Qed.

Lemma kept_resetDualBlocks (fuel : nat) :
  ∀ node id, bookkeepingKept (_resetDualBlocks fuel node id).
Proof.
  induction fuel as [|fuel IH]; intros node id; cbn [_resetDualBlocks];
    [apply kept_fail|].
  apply kept_bind; [apply kept_getBlock|]. intros blk.
  apply kept_bind.
  { destruct (bool_decide _); [apply kept_updateBlock | apply kept_ret]. }
  intros _. apply kept_bind.
  { apply kept_forEach. intros input _.
    destruct (connectedPoint input) as [[block ?]|]; [|apply kept_ret].
    destruct (bool_decide _); [apply IH | apply kept_ret]. }
  intros _. apply kept_bind; [apply kept_getBlock|]. intros blk'.
  destruct (isTeleportOut blk'); [|apply kept_ret].
  destruct (entryPoint blk'); [apply IH | apply kept_ret].
Qed.

Section Bookkeeping.

Variable blockInitialize : BlockId → Stage → NodeMaterial → NodeMaterial.
Variable blockAutoConfigure : BlockId → NodeMaterial → NodeMaterial.
Variable blockBuild : BlockId → Stage → list BlockId → NodeMaterial → NodeMaterial.
Variable optimizers : list (NodeMaterial → NodeMaterial).
Variable finalize : Stage → NodeMaterial → NodeMaterial.
Variable emitErrors : NodeMaterial → option string.
Variable afterBuild : M unit.
Variable supportsUniformBuffers : bool.

(** The methods of the blocks, the optimizers, the build states and the
    observers of the build leave the bookkeeping of the material alone. *)
Definition externalsKeepBookkeeping : Prop :=
  (∀ node state, keepsBookkeeping (blockInitialize node state))
  ∧ (∀ node, keepsBookkeeping (blockAutoConfigure node))
  ∧ (∀ node state nodes, keepsBookkeeping (blockBuild node state nodes))
  ∧ Forall keepsBookkeeping optimizers
  ∧ (∀ state, keepsBookkeeping (finalize state))
  ∧ bookkeepingKept afterBuild.

Hypothesis externals : externalsKeepBookkeeping.

Lemma kept_initializeBlock (fuel : nat) :
  ∀ node state nodes autoConfigure,
    bookkeepingKept
      (_initializeBlock blockInitialize blockAutoConfigure fuel node state nodes
         autoConfigure).
Proof.
  destruct externals as (Hinit & Hauto & _).
  induction fuel as [|fuel IH]; intros node state nodes autoConfigure;
    cbn [_initializeBlock]; [apply kept_fail|].
  assert (Hlink : ∀ block nodes0,
    bookkeepingKept
      (this <- get ;;
       b <- getBlock block ;;
       _initializeBlock blockInitialize blockAutoConfigure fuel block state
         (if bool_decide (target b = Some VertexAndFragment)
          then nodes0 ++ [block]
          else if bool_decide (stageTarget state = Fragment)
                  && bool_decide (target b = Some Vertex)
                  && bool_decide (_preparationId b ≠ _buildId this)
               then nodes0 ++ [block]
               else nodes0) autoConfigure)).
  { intros block nodes0. apply kept_bind; [apply kept_get|]. intros this.
    apply kept_bind; [apply kept_getBlock|]. intros b. apply IH. }
  apply kept_bind; [by apply kept_modify|]. intros _.
  apply kept_bind.
  { destruct autoConfigure; [by apply kept_modify | apply kept_ret]. }
  intros _. apply kept_bind; [apply kept_get|]. intros this.
  apply kept_bind; [apply kept_updateBlock|]. intros _.
  apply kept_bind; [apply kept_get|]. intros this'.
  apply kept_bind.
  { destruct (bool_decide (indexOf _ _ = _)); [|apply kept_ret].
    apply kept_bind; [apply kept_getBlock|]. intros blk.
    apply kept_bind.
    - destruct (isUnique blk); [|apply kept_ret].
      apply kept_forEach. intros other _.
      apply kept_bind; [apply kept_getBlock|]. intros o.
      destruct (bool_decide (className o = _)); [apply kept_fail | apply kept_ret].
    - intros _. by apply kept_modify. }
  intros _. apply kept_bind; [apply kept_getBlock|]. intros blk.
  apply kept_bind.
  { apply kept_foldM. intros nodes0 [index input] _.
    apply kept_bind; [apply kept_updateBlock|]. intros _.
    destruct (connectedPoint input) as [[block ?]|]; [|apply kept_ret].
    destruct (bool_decide (block ≠ node)); [apply Hlink | apply kept_ret]. }
  intros nodes1. apply kept_bind; [apply kept_getBlock|]. intros blk'.
  apply kept_bind.
  { destruct (isTeleportOut blk'); [|apply kept_ret].
    destruct (entryPoint blk'); [apply Hlink | apply kept_ret]. }
  intros nodes2. apply kept_bind; [apply kept_updateBlock|]. intros _.
  apply kept_ret.
Qed.

Lemma kept_initializeBlocks (fuel : nat) (autoConfigure : bool) :
  bookkeepingKept (initializeBlocks blockInitialize blockAutoConfigure fuel autoConfigure).
Proof.
  unfold initializeBlocks.
  apply kept_bind; [apply kept_get|]. intros this.
  apply kept_bind.
  { apply kept_foldM. intros [vn fn] node _.
    apply kept_bind; [apply kept_initializeBlock|]. intros ?. apply kept_ret. }
  intros vf. apply kept_bind; [apply kept_get|]. intros this'.
  apply kept_foldM. intros [vn fn] node _.
  apply kept_bind; [apply kept_initializeBlock|]. intros ?. apply kept_ret.
Qed.

Lemma keepsBookkeeping_inheritVertexState : keepsBookkeeping inheritVertexState.
Proof.
  intros m. unfold inheritVertexState.
  by destruct (_vertexCompilationState m), (_fragmentCompilationState m).
Qed.

Lemma kept_buildVertexStage (vertexNodes : list BlockId) :
  bookkeepingKept (buildVertexStage blockBuild optimizers vertexNodes).
Proof.
  destruct externals as (_ & _ & Hbuild & Hopt & _).
  unfold buildVertexStage, optimize.
  apply kept_bind.
  { apply kept_forEach. intros optimizer Ho. apply kept_modify.
    rewrite Forall_forall in Hopt. by apply Hopt. }
  intros _. apply kept_bind.
  { apply kept_forEach. intros node _. by apply kept_modify. }
  intros _. apply kept_modify, keepsBookkeeping_inheritVertexState.
Qed.

Lemma kept_resetDualBlocks_loop (fuel : nat) (fragmentNodes : list BlockId) :
  bookkeepingKept (resetDualBlocks fuel fragmentNodes).
Proof.
  unfold resetDualBlocks. apply kept_forEach. intros node _.
  apply kept_bind; [apply kept_get|]. intros this. apply kept_resetDualBlocks.
Qed.

(** The pieces of [build], named: what [build] does before the statement
    [if (updateBuildId)], and from that statement to its end. *)
Definition buildUntilFinalized (fuel : nat) (verbose autoConfigure : bool) : M unit :=
  this <- get ;;
  (* First time? *)
  let autoConfigure :=
    if negb (bool_decide (is_Some (_vertexCompilationState this))) && negb autoConfigure
    then true else autoConfigure in
  modify (withBuildWasSuccessful false) ;;;
  this <- get ;;
  let allowEmptyVertexProgram := bool_decide (_mode this = Particle) in
  if bool_decide (length (_vertexOutputNodes this) = 0) && negb allowEmptyVertexProgram
  then throw noVertexOutputNode
  else if bool_decide (length (_fragmentOutputNodes this) = 0)
  then throw noFragmentOutputNode
  else
    modify (allocateStates supportsUniformBuffers verbose allowEmptyVertexProgram) ;;;
    nodes <- initializeBlocks blockInitialize blockAutoConfigure fuel autoConfigure ;;
    buildVertexStage blockBuild optimizers nodes.1 ;;;
    resetDualBlocks fuel nodes.2 ;;;
    forEach nodes.2 (λ fragmentOutputNode,
      modify (blockBuild fragmentOutputNode FragmentStage nodes.2)) ;;;
    (* Finalize *)
    modify (finalize VertexStage) ;;;
    modify (finalize FragmentStage).

Definition endOfBuild (updateBuildId : bool) : M unit :=
  (if updateBuildId then modify nextBuildId else ret tt) ;;;
  (* Errors *)
  this <- get ;;
  match emitErrors this with
  | Some msg => throw msg
  | None =>
      modify (withBuildWasSuccessful true) ;;;
      afterBuild
  end.

Lemma build_pieces (fuel : nat) (verbose updateBuildId autoConfigure : bool)
    (m : NodeMaterial) :
  build blockInitialize blockAutoConfigure blockBuild optimizers finalize
    emitErrors afterBuild supportsUniformBuffers
    fuel verbose updateBuildId autoConfigure m
  = (buildUntilFinalized fuel verbose autoConfigure ;;; endOfBuild updateBuildId) m.
Proof.
  unfold build, buildUntilFinalized, buildStages, buildFragmentStage, endOfBuild.
  unfold bind, get, modify, throw, fail, ret.
  destruct (_ && negb _); [reflexivity|].
  destruct (bool_decide (length _ = 0)); [reflexivity|].
  destruct (initializeBlocks _ _ _ _ _) as [nodes m1|e m1]; [|reflexivity].
  destruct (buildVertexStage _ _ _ m1) as [[] m2|e m2]; [|reflexivity].
  destruct (resetDualBlocks _ _ m2) as [[] m3|e m3]; [|reflexivity].
  destruct (forEach _ _ m3) as [[] m4|e m4]; reflexivity.
Qed.

(** What the end of [build] does to the material that it is given. *)
Lemma endOfBuild_cases (updateBuildId : bool) (m1 : NodeMaterial) :
  endOfBuild updateBuildId m1
  = match emitErrors (if updateBuildId then nextBuildId m1 else m1) with
    | Some msg => Fail (Thrown msg) (if updateBuildId then nextBuildId m1 else m1)
    | None =>
        afterBuild (withBuildWasSuccessful true
                      (if updateBuildId then nextBuildId m1 else m1))
    end.
Proof.
  unfold endOfBuild. destruct updateBuildId; munfold;
    by destruct (emitErrors _).
Qed.

Lemma kept_then {A B} (c : M A) (k : A → M B) (P : Result B → Prop)
    (m : NodeMaterial) :
  bookkeepingKept c →
  (∀ a m1, bookkeeping m1 = bookkeeping m → P (k a m1)) →
  (∀ e m1, bookkeeping m1 = bookkeeping m → P (Fail e m1)) →
  P (bind c k m).
Proof.
  intros Hc Hok Hfail. unfold bind. specialize (Hc m).
  destruct (c m) as [a m1|e m1]; [by apply Hok | by apply Hfail].
Qed.

(** However [build] ends before the statement [if (updateBuildId)], the
    flag is [false] and the build id and the counter are as before. *)
Lemma buildUntilFinalized_bookkeeping (fuel : nat) (verbose autoConfigure : bool)
    (m : NodeMaterial) :
  match buildUntilFinalized fuel verbose autoConfigure m with
  | Ok _ m1 | Fail _ m1 => bookkeeping m1 = (false, _buildId m, _BuildIdGenerator m)
  end.
Proof.
  destruct externals as (_ & _ & Hbuild & _ & Hfin & _).
  unfold buildUntilFinalized. rewrite get_bind. unfold bind at 1. unfold modify at 1.
  rewrite get_bind.
  set (m0 := withBuildWasSuccessful false m).
  assert (H0 : bookkeeping m0 = (false, _buildId m, _BuildIdGenerator m)) by done.
  destruct (_ && negb _); [done|].
  destruct (bool_decide (length _ = 0)); [done|].
  apply kept_then; [by apply kept_modify | | intros; congruence].
  intros _ m1 H1.
  apply kept_then; [apply kept_initializeBlocks | | intros; congruence].
  intros nodes m2 H2.
  apply kept_then; [apply kept_buildVertexStage | | intros; congruence].
  intros _ m3 H3.
  apply kept_then; [apply kept_resetDualBlocks_loop | | intros; congruence].
  intros _ m4 H4.
  apply kept_then;
    [apply kept_forEach; intros node _; by apply kept_modify | | intros; congruence].
  intros _ m5 H5.
  apply kept_then; [by apply kept_modify | | intros; congruence].
  intros _ m6 H6. unfold modify. congruence.
Qed.

End Bookkeeping.

Section BookkeepingFacts.

Variable blockInitialize : BlockId → Stage → NodeMaterial → NodeMaterial.
Variable blockAutoConfigure : BlockId → NodeMaterial → NodeMaterial.
Variable blockBuild : BlockId → Stage → list BlockId → NodeMaterial → NodeMaterial.
Variable optimizers : list (NodeMaterial → NodeMaterial).
Variable finalize : Stage → NodeMaterial → NodeMaterial.
Variable emitErrors : NodeMaterial → option string.
Variable afterBuild : M unit.
Variable supportsUniformBuffers : bool.

Let run :=
  build blockInitialize blockAutoConfigure blockBuild optimizers finalize
    emitErrors afterBuild supportsUniformBuffers.

Let untilFinalized :=
  buildUntilFinalized blockInitialize blockAutoConfigure blockBuild optimizers
    finalize supportsUniformBuffers.

(** X10. When no block, optimizer, build state or observer writes the
    bookkeeping of the material, [_buildWasSuccessful] is [false] on the
    material that [build] leaves when it fails before the statement
    [if (updateBuildId)] or throws the errors emitted at its end.  Past
    these, [build] sets the flag and makes the calls that follow it (to the
    observers, the sub meshes and the prepass renderer): the flag is [true]
    when they return, which is when [build] returns, and also when one of
    them fails, which makes [build] fail. *)
Theorem build_success_flag (fuel : nat) (verbose updateBuildId autoConfigure : bool)
    (m : NodeMaterial) :
  externalsKeepBookkeeping blockInitialize blockAutoConfigure blockBuild optimizers
    finalize afterBuild →
  match untilFinalized fuel verbose autoConfigure m with
  | Fail e m1 =>
      run fuel verbose updateBuildId autoConfigure m = Fail e m1
      ∧ _buildWasSuccessful m1 = false
  | Ok _ m1 =>
      let m2 := if updateBuildId then nextBuildId m1 else m1 in
      match emitErrors m2 with
      | Some msg =>
          run fuel verbose updateBuildId autoConfigure m = Fail (Thrown msg) m2
          ∧ _buildWasSuccessful m2 = false
      | None =>
          run fuel verbose updateBuildId autoConfigure m
          = afterBuild (withBuildWasSuccessful true m2)
          ∧ match afterBuild (withBuildWasSuccessful true m2) with
            | Ok _ m' | Fail _ m' => _buildWasSuccessful m' = true
            end
      end
  end.
Proof.
  intros Hext. subst run untilFinalized. cbn zeta.
  rewrite build_pieces. unfold bind.
  pose proof (buildUntilFinalized_bookkeeping blockInitialize blockAutoConfigure
                blockBuild optimizers finalize afterBuild supportsUniformBuffers Hext
                fuel verbose autoConfigure m) as H.
  destruct (buildUntilFinalized _ _ _ _ _ _ _ _ _ m) as [u m1|e m1];
    [|split; [done | by injection H]].
  rewrite endOfBuild_cases.
  assert (Hflag : _buildWasSuccessful (if updateBuildId then nextBuildId m1 else m1)
                  = false).
  { injection H as Hflag _ _. by destruct updateBuildId. }
  destruct (emitErrors _) as [msg|]; [done|].
  split; [done|].
  destruct Hext as (_ & _ & _ & _ & _ & Hafter).
  specialize (Hafter (withBuildWasSuccessful true
                        (if updateBuildId then nextBuildId m1 else m1))).
  destruct (afterBuild _) as [u' m'|e m']; by injection Hafter.
Qed.

(** X11. Under the same assumption, a [build] that fails before the
    statement [if (updateBuildId)] (on a structural check, in the
    initialization or in the reset of the dual blocks) leaves the build id
    of the material and the counter of the class as they were.  A [build]
    that reaches that statement ends as the end of [build] does, and
    however that is (it returns, it throws the errors emitted, or a call
    after the flag fails), with [updateBuildId] the build id is the value
    that the counter had and the counter is advanced by one; without
    [updateBuildId] both are as before. *)
Theorem build_advances_build_id (fuel : nat)
    (verbose updateBuildId autoConfigure : bool) (m : NodeMaterial) :
  externalsKeepBookkeeping blockInitialize blockAutoConfigure blockBuild optimizers
    finalize afterBuild →
  match untilFinalized fuel verbose autoConfigure m with
  | Fail e m1 =>
      run fuel verbose updateBuildId autoConfigure m = Fail e m1
      ∧ _buildId m1 = _buildId m
      ∧ _BuildIdGenerator m1 = _BuildIdGenerator m
  | Ok _ m1 =>
      run fuel verbose updateBuildId autoConfigure m
      = endOfBuild emitErrors afterBuild updateBuildId m1
      ∧ match endOfBuild emitErrors afterBuild updateBuildId m1 with
        | Ok _ m' | Fail _ m' =>
            _buildId m' = (if updateBuildId then _BuildIdGenerator m else _buildId m)
            ∧ _BuildIdGenerator m'
              = (if updateBuildId then (_BuildIdGenerator m + 1)%Z
                 else _BuildIdGenerator m)
        end
  end.
Proof.
  intros Hext. subst run untilFinalized. cbn zeta.
  rewrite build_pieces. unfold bind.
  pose proof (buildUntilFinalized_bookkeeping blockInitialize blockAutoConfigure
                blockBuild optimizers finalize afterBuild supportsUniformBuffers Hext
                fuel verbose autoConfigure m) as H.
  destruct (buildUntilFinalized _ _ _ _ _ _ _ _ _ m) as [u m1|e m1];
    [|split; [done | by injection H]].
  split; [done|]. rewrite endOfBuild_cases.
  injection H as _ Hid Hgen.
  assert (Hids : _buildId (if updateBuildId then nextBuildId m1 else m1)
                 = (if updateBuildId then _BuildIdGenerator m else _buildId m)
                 ∧ _BuildIdGenerator (if updateBuildId then nextBuildId m1 else m1)
                   = (if updateBuildId then (_BuildIdGenerator m + 1)%Z
                      else _BuildIdGenerator m)).
  { destruct updateBuildId; simpl; by rewrite ?Hid, ?Hgen. }
  destruct (emitErrors _) as [msg|]; [done|].
  destruct Hext as (_ & _ & _ & _ & _ & Hafter).
  specialize (Hafter (withBuildWasSuccessful true
                        (if updateBuildId then nextBuildId m1 else m1))).
  destruct (afterBuild _) as [u' m'|e m']; injection Hafter as _ -> ->; exact Hids.
Qed.

End BookkeepingFacts.

(** ** Serialization: what is written, and what cannot be read *)

Lemma pushNewIds_spec (ids l : list Z) :
  (NoDup l → NoDup (pushNewIds l ids))
  ∧ ∀ x, x ∈ pushNewIds l ids ↔ x ∈ l ∨ x ∈ ids.
Proof.
  revert l. induction ids as [|id ids IH]; intros l.
  - split; [done|]. intros x. rewrite elem_of_nil. tauto.
  - unfold pushNewIds. cbn [foldl].
    destruct (Z.eqb_spec (indexOf l id) (-1)) as [Habsent|Hpresent].
    + apply indexOf_absent in Habsent.
      destruct (IH (l ++ [id])) as [Hnd Hin]. split.
      * intros Hl. apply Hnd. apply NoDup_app. split; [done|].
        split; [|apply NoDup_singleton].
        intros y Hy ->%list_elem_of_singleton. done.
      * intros x. unfold pushNewIds in Hin. rewrite Hin.
        rewrite elem_of_app, list_elem_of_singleton, elem_of_cons. tauto.
    + apply indexOf_present in Hpresent.
      destruct (IH l) as [Hnd Hin]. split; [done|].
      intros x. unfold pushNewIds in Hin. rewrite Hin, elem_of_cons.
      split; [tauto|]. intros [?|[->|?]]; tauto.
Qed.

(** X12. On a store whose references all lead to blocks, with fuel above
    the number of blocks, [serialize] returns and leaves the material as it
    was.  It writes one serialized block for each block that is attached or
    reachable from an output node, and for no other; the blocks reachable
    from the output nodes come first.  The ids of the output nodes are
    those of the vertex and of the fragment output nodes, and none is
    written twice when the vertex output nodes have ids that differ. *)
Theorem serialize_each_block_once (fuel : nat) (m : NodeMaterial) :
  closedStore (blocks m) →
  (size (blocks m) < fuel)%nat →
  (∀ r, r ∈ _vertexOutputNodes m ++ _fragmentOutputNodes m → is_Some (blocks m !! r)) →
  (∀ b, b ∈ attachedBlocks m → is_Some (blocks m !! b)) →
  NoDup (attachedBlocks m) →
  ∃ source reached others ids,
    serialize fuel None m = Ok source m
    ∧ serializedBlocks source = map (serializedOf (blocks m)) (reached ++ others)
    ∧ NoDup (reached ++ others)
    ∧ (∀ b, b ∈ reached
            ↔ reachableFrom (blocks m) (_vertexOutputNodes m ++ _fragmentOutputNodes m) b)
    ∧ (∀ b, b ∈ others ↔ b ∈ attachedBlocks m ∧ b ∉ reached)
    ∧ outputNodes source = Some ids
    ∧ (∀ id, id ∈ ids
             ↔ id ∈ map (idOf (blocks m)) (_vertexOutputNodes m ++ _fragmentOutputNodes m))
    ∧ (NoDup (map (idOf (blocks m)) (_vertexOutputNodes m)) → NoDup ids)
    ∧ serializedMode source = Some (_mode m).
Proof.
  intros Hclosed Hfuel Hroots Hattached Hnd.
  destruct (serialize_spec fuel m Hclosed Hfuel Hroots Hattached) as (listed & Hg & Hrun).
  destruct Hg as (added & Hl & Hndl & Hr & Hreach & Hcl). simpl in Hl. subst added.
  destruct (pushNewIds_spec (map (idOf (blocks m)) (_fragmentOutputNodes m))
              (map (idOf (blocks m)) (_vertexOutputNodes m))) as [Hndids Hinids].
  eexists _, listed, (filter (λ block, indexOf listed block = (-1)%Z) (attachedBlocks m)), _.
  split; [exact Hrun|]. simpl. split; [done|].
  split.
  { apply NoDup_app. split; [done|]. split; [|by apply NoDup_filter].
    intros b Hb [Habsent _]%list_elem_of_filter. by apply indexOf_absent in Habsent. }
  split.
  { intros b. split; [apply Hreach|].
    intros (r & Hrin & Hrb). apply Hr in Hrin.
    induction Hrb as [|x y z Hxy _ IH]; [done|]. apply IH. by apply (Hcl x). }
  split.
  { intros b. rewrite list_elem_of_filter, indexOf_absent. tauto. }
  split; [done|].
  split; [|done].
  intros id. rewrite Hinids, map_app, elem_of_app. done.
Qed.

(** The number of inputs without a connection, over the blocks of the
    store. *)
Definition unconnectedInputs (g : gmap BlockId NodeMaterialBlock) : nat :=
  map_fold (λ _ blk n, unconnected (inputs blk) + n)%nat 0%nat g.

Lemma unconnectedInputs_insert_new g b blk :
  g !! b = None →
  unconnectedInputs (<[b := blk]> g)
  = (unconnected (inputs blk) + unconnectedInputs g)%nat.
Proof.
  intros Hb. unfold unconnectedInputs.
  apply (map_fold_insert_L (λ _ blk n, unconnected (inputs blk) + n)%nat); [|done].
  intros; lia.
Qed.

Lemma unconnectedInputs_lookup g b blk :
  g !! b = Some blk →
  unconnectedInputs g
  = (unconnected (inputs blk) + unconnectedInputs (delete b g))%nat.
Proof.
  intros Hb. unfold unconnectedInputs.
  apply (map_fold_delete_L (λ _ blk n, unconnected (inputs blk) + n)%nat); [|done].
  intros; lia.
Qed.

Lemma unconnectedInputs_insert g b blk blk' :
  g !! b = Some blk →
  (unconnectedInputs (<[b := blk']> g) + unconnected (inputs blk)
   = unconnectedInputs g + unconnected (inputs blk'))%nat.
Proof.
  intros Hb. rewrite (unconnectedInputs_lookup g b blk Hb).
  rewrite <- (insert_delete_eq g).
  rewrite unconnectedInputs_insert_new by apply lookup_delete_eq. lia.
Qed.

(** The result of a call started in [m]: it returns with no more
    unconnected inputs than [m] has, or it reads [undefined]; it does not
    run out of fuel. *)
Definition settles {A} (m : NodeMaterial) (r : Result A) : Prop :=
  match r with
  | Ok _ m' => (unconnectedInputs (blocks m') ≤ unconnectedInputs (blocks m))%nat
  | Fail e _ => e = TypeError
  end.

Lemma settles_bind {A B} (c : M A) (k : A → M B) (m : NodeMaterial) :
  settles m (c m) →
  (∀ a m1, c m = Ok a m1 →
           (unconnectedInputs (blocks m1) ≤ unconnectedInputs (blocks m))%nat →
           settles m1 (k a m1)) →
  settles m (bind c k m).
Proof.
  intros Hc Hk. unfold bind. destruct (c m) as [a m1|e m1]; [|done].
  specialize (Hk a m1 eq_refl Hc). simpl in Hc.
  destruct (k a m1) as [b m2|e m2]; [|done]. simpl in *. lia.
Qed.

Lemma settles_forEach {A} (l : list A) (body : A → M unit) :
  ∀ m,
    (∀ a m1, a ∈ l →
             (unconnectedInputs (blocks m1) ≤ unconnectedInputs (blocks m))%nat →
             settles m1 (body a m1)) →
    settles m (forEach l body m).
Proof.
  induction l as [|a l IH]; intros m Hbody; [simpl; lia|].
  cbn [forEach foldM]. apply settles_bind.
  - apply Hbody; [by left | lia].
  - intros [] m1 _ Hle. apply IH. intros a' m2 Ha' Hle2.
    apply Hbody; [by right | lia].
Qed.

Lemma settles_getBlock (b : BlockId) (m : NodeMaterial) : settles m (getBlock b m).
Proof. unfold getBlock. destruct (blocks m !! b); simpl; [lia | done]. Qed.

Lemma settles_ret {A} (a : A) (m : NodeMaterial) : settles m (ret a m).
Proof. simpl. lia. Qed.

(** Writing a block without touching its inputs. *)
Lemma settles_updateBlock (b : BlockId) (f : NodeMaterialBlock → NodeMaterialBlock)
    (m : NodeMaterial) :
  (∀ blk, inputs (f blk) = inputs blk) → settles m (updateBlock b f m).
Proof.
  intros Hf. unfold updateBlock. munfold.
  destruct (blocks m !! b) as [blk|] eqn:Hblk; [|done].
  simpl. pose proof (unconnectedInputs_insert (blocks m) b blk (f blk) Hblk) as H.
  rewrite Hf in H. lia.
Qed.

Lemma list_find_lookup {A} (P : A → Prop) `{!∀ x, Decision (P x)} (l : list A)
    (i : nat) (x : A) :
  list_find P l = Some (i, x) → l !! i = Some x.
Proof. by intros (? & _)%list_find_Some. Qed.

(** [connectTo] on an input without a connection leaves one unconnected
    input fewer in the store. *)
Lemma connectTo_unconnectedInputs (block : BlockId) (o : string) (target : BlockId)
    (t : NodeMaterialBlock) (index : nat) (input : InputPoint) (m : NodeMaterial) :
  blocks m !! target = Some t → inputs t !! index = Some input →
  connectedPoint input = None →
  ∃ m', connectTo block o target index m = Ok tt m'
        ∧ (unconnectedInputs (blocks m') < unconnectedInputs (blocks m))%nat.
Proof.
  intros Ht Hin Hnone. unfold connectTo, updateBlock. munfold. rewrite Ht.
  eexists. split; [reflexivity|]. simpl.
  pose proof (unconnectedInputs_insert (blocks m) target t
                (withInputs (alter (connected (block, o)) index (inputs t)) t) Ht) as H.
  destruct (alter_connected_extends (block, o) index (inputs t) input Hin Hnone)
    as [_ Hlt].
  cbn [inputs withInputs] in H. unfold connected in *. lia.
Qed.

Section ParseUnknown.

Variable GetClass : string → option NodeMaterialBlock.
Variable uniqueIdFor : BlockId → Z.

(** With fuel above the number of unconnected inputs of the store,
    [_restoreConnections] does not run out of fuel: each call that it
    makes to itself follows a connection of an input that had none. *)
Lemma restoreConnections_settles (source : SerializedMaterial) (map : gmap Z BlockId)
    (fuel : nat) :
  ∀ block m,
    (unconnectedInputs (blocks m) < fuel)%nat →
    settles m (_restoreConnections fuel block source map m).
Proof.
  induction fuel as [|fuel IH]; intros block m Hfuel; [lia|].
  cbn [_restoreConnections].
  apply settles_bind; [apply settles_getBlock|]. intros blk m0 _ Hle0.
  apply settles_forEach. intros outputPoint m1 _ Hle1.
  apply settles_forEach. intros candidate m2 _ Hle2.
  destruct (map !! serializedId candidate) as [target|]; [|apply settles_ret].
  apply settles_forEach. intros input m3 _ Hle3.
  destruct (serializedConnection input) as [[targetBlockId targetConnectionName]|];
    [|apply settles_ret].
  destruct (_ && _); [|apply settles_ret].
  unfold bind at 1. unfold getBlock at 1.
  destruct (blocks m3 !! target) as [t|] eqn:Ht; [|done].
  destruct (getInputByName t (serializedInputName input)) as [[index inputPoint]|]
    eqn:Hfind; [|apply settles_ret].
  destruct (bool_decide_reflect (is_Some (connectedPoint inputPoint))) as [Hc|Hc];
    [apply settles_ret|].
  assert (connectedPoint inputPoint = None) as Hnone.
  { destruct (connectedPoint inputPoint); [|done]. destruct Hc. by eexists. }
  destruct (connectTo_unconnectedInputs block (outputName outputPoint) target t index
              inputPoint m3 Ht (list_find_lookup _ _ _ _ Hfind) Hnone)
    as (m4 & Hrun & Hlt).
  unfold bind. rewrite Hrun.
  assert (settles m4 (_restoreConnections fuel target source map m4)) as Hrec
    by (apply IH; lia).
  destruct (_restoreConnections fuel target source map m4) as [[] m5|e m5]; [|done].
  simpl in *. lia.
Qed.

Lemma restoreAllConnections_settles (source : SerializedMaterial) (merge : bool)
    (map : gmap Z BlockId) (fuel : nat) (m : NodeMaterial) :
  (unconnectedInputs (blocks m) < fuel)%nat →
  settles m (restoreAllConnections fuel source merge map m).
Proof.
  intros Hfuel. unfold restoreAllConnections.
  apply settles_forEach. intros parsedBlock m1 _ Hle1.
  destruct (map !! serializedId parsedBlock) as [block|]; [|apply settles_ret].
  apply settles_bind; [apply settles_getBlock|]. intros blk m2 _ Hle2.
  destruct (_ && _); [apply settles_ret|].
  apply restoreConnections_settles. lia.
Qed.

Lemma reconnectTeleportation_settles (map : gmap Z BlockId) (m : NodeMaterial) :
  settles m (reconnectTeleportation map m).
Proof.
  unfold reconnectTeleportation. rewrite get_bind.
  apply settles_forEach. intros block m1 _ Hle1.
  apply settles_bind; [apply settles_getBlock|]. intros blk m2 _ Hle2.
  destruct (isTeleportOut blk); [|apply settles_ret].
  destruct (_tempEntryPointUniqueId blk) as [id|]; [|apply settles_ret].
  destruct (bool_decide (id ≠ 0%Z)); [|apply settles_ret].
  destruct (map !! id) as [src|]; [|done].
  by apply settles_updateBlock.
Qed.

(** The inputs of the blocks that the registered classes construct for the
    serialized blocks. *)
Definition constructedInputs (source : SerializedMaterial) : nat :=
  sum_list_with
    (λ p, from_option (λ constructed, length (inputs constructed)) 0%nat
            (GetClass (customType p)))
    (serializedBlocks source).

(** The keys of [map] are ids of serialized blocks whose class is
    registered; the new blocks bring the inputs of their classes. *)
Lemma createBlocks_keys (source : SerializedMaterial) (m0 : NodeMaterial) :
  ∃ idmap m1,
    createBlocks GetClass uniqueIdFor source m0 = Ok idmap m1
    ∧ (∀ id n, idmap !! id = Some n →
         ∃ p, p ∈ serializedBlocks source ∧ serializedId p = id
              ∧ is_Some (GetClass (customType p)))
    ∧ (unconnectedInputs (blocks m1)
       ≤ unconnectedInputs (blocks m0) + constructedInputs source)%nat.
Proof.
  unfold createBlocks, constructedInputs. generalize (serializedBlocks source) as sb.
  induction sb as [|p sb IH] using rev_ind.
  - exists ∅, m0. split; [reflexivity|].
    split; [intros id n H; by rewrite lookup_empty in H | simpl; lia].
  - destruct IH as (idmap & m1 & Hrun & Hkeys & Hle).
    rewrite foldM_app. unfold bind at 1. rewrite Hrun. cbn [foldM].
    rewrite sum_list_with_app. cbn [sum_list_with].
    destruct (GetClass (customType p)) as [constructed|] eqn:Hc.
    + munfold. eexists _, _. split; [reflexivity|]. split.
      * intros id n Hid. destruct (decide (id = serializedId p)) as [->|Hne].
        -- exists p. split; [apply elem_of_app; right; by left|]. split; [done|].
           rewrite Hc. by eexists.
        -- rewrite lookup_insert_ne in Hid by done.
           destruct (Hkeys id n Hid) as (q & Hq & Hqid & Hqc).
           exists q. split; [apply elem_of_app; by left | done].
      * cbn [blocks withBlocks withAttachedBlocks from_option].
        rewrite unconnectedInputs_insert_new
          by (apply not_elem_of_dom, is_fresh).
        cbn [inputs deserializeBlock].
        pose proof (unconnected_le (inputs constructed)). lia.
    + munfold. exists idmap, m1. split; [reflexivity|]. split.
      * intros id n Hid. destruct (Hkeys id n Hid) as (q & Hq & Hqid & Hqc).
        exists q. split; [apply elem_of_app; by left | done].
      * simpl. lia.
Qed.

Lemma forEach_fails_at {A} (P : Error → Prop) (body : A → M unit) (l : list A)
    (a : A) (m : NodeMaterial) :
  a ∈ l → (∀ m', ∃ e m'', body a m' = Fail e m'') →
  (∀ b m' e m'', body b m' = Fail e m'' → P e) →
  ∃ e m', forEach l body m = Fail e m' ∧ P e.
Proof.
  intros Hin Hfail HP. revert m. induction l as [|b l IH]; intros m;
    [by apply elem_of_nil in Hin|].
  cbn [forEach foldM]. unfold bind.
  destruct (body b m) as [[] m1|e m1] eqn:Hb; [|by eauto].
  apply elem_of_cons in Hin as [->|Hin].
  - destruct (Hfail m) as (e & m'' & He). congruence.
  - by apply IH.
Qed.

(** [addOutputNode] throws on a target [null] and on nothing else; its
    other failures are reads of [undefined]. *)
Lemma addOutputNode_failure (node : BlockId) (m m' : NodeMaterial) (e : Error) :
  addOutputNode node m = Fail e m' → e = TypeError ∨ e = Thrown notAnOutputNode.
Proof.
  unfold addOutputNode. unfold bind at 1. unfold getBlock at 1.
  destruct (blocks m !! node) as [blk|] eqn:Hblk; [|intros [= <- _]; by left].
  destruct (target blk) as [t|] eqn:Ht; [|intros [= <- _]; by right].
  fold (addOutputNode node). rewrite <- Ht.
  assert (addOutputNode node m = Ok tt (afterAddOutputNode node t m)) as Hrun
    by (by apply (addOutputNode_cases node blk)).
  unfold addOutputNode in Hrun. unfold bind at 1 in Hrun. unfold getBlock at 1 in Hrun.
  rewrite Hblk, Ht in Hrun. rewrite Ht, Hrun. done.
Qed.

(** X13. The blocks of a class that is not registered are skipped when the
    blocks are created; when the id of an output node is the id of such
    blocks only (or of none), [parseSerializedObject] never returns: it
    fails, in either mode and whatever the material was.  With fuel above
    the number of inputs without a connection (those of the store and
    those of the blocks constructed), the failure is a read of
    [undefined], or the throw of [addOutputNode] on an output node listed
    before, whose target is [null]. *)
Theorem parseSerializedObject_unregistered_output (fuel : nat)
    (source : SerializedMaterial) (merge : bool) (m0 : NodeMaterial)
    (ids : list Z) (id : Z) :
  outputNodes source = Some ids → id ∈ ids →
  (∀ p, p ∈ serializedBlocks source → serializedId p = id →
        GetClass (customType p) = None) →
  ∃ e m',
    parseSerializedObject GetClass uniqueIdFor fuel source merge m0 = Fail e m'
    ∧ ((unconnectedInputs (blocks m0) + constructedInputs source < fuel)%nat →
       e = TypeError ∨ e = Thrown notAnOutputNode).
Proof.
  intros Hout Hid Hnone. unfold parseSerializedObject.
  unfold bind at 1.
  assert (∃ mc, (if negb merge then clear else ret tt) m0 = Ok tt mc
                ∧ blocks mc = blocks m0) as (mc & -> & Hmc)
    by (destruct merge; eexists; split; reflexivity).
  destruct (createBlocks_keys source mc) as (idmap & m1 & Hrun & Hkeys & Hle1).
  rewrite Hmc in Hle1.
  unfold bind at 1. rewrite Hrun.
  unfold bind at 1.
  pose proof (reconnectTeleportation_settles idmap m1) as H2.
  destruct (reconnectTeleportation idmap m1) as [[] m2|e m2];
    [|exists e, m2; split; [done | intros _; by left]].
  simpl in H2. unfold bind at 1.
  destruct (restoreAllConnections fuel source merge idmap m2) as [[] m3|e m3] eqn:H3.
  2:{ exists e, m3. split; [done|]. intros Hfuel. left.
      pose proof (restoreAllConnections_settles source merge idmap fuel m2) as Hs.
      rewrite H3 in Hs. apply Hs. lia. }
  unfold bind at 1. unfold addOutputNodes. rewrite Hout.
  destruct (forEach_fails_at (λ e, e = TypeError ∨ e = Thrown notAnOutputNode)
              (λ outputNodeId,
                 match idmap !! outputNodeId with
                 | Some node => addOutputNode node
                 | None => fail TypeError
                 end) ids id m3 Hid) as (e & m4 & Hfail & He).
  { intros m'. destruct (idmap !! id) as [n|] eqn:Hlook; [|by eexists _, _].
    destruct (Hkeys id n Hlook) as (p & Hp & Hpid & [c Hc]).
    rewrite (Hnone p Hp Hpid) in Hc. done. }
  { intros b m' e m''. destruct (idmap !! b) as [n|].
    - apply addOutputNode_failure.
    - intros [= <- _]. by left. }
  rewrite Hfail. exists e, m4. by split.
Qed.

End ParseUnknown.

(** ** Optimizers *)

(** An optimizer is an object, like a block: the list [_optimizers] holds
    the identities of the optimizers registered, which are numbers as those
    of blocks are. *)

(** What a method documented to return the material returns. *)
Inductive Returned := ReturnedThis | ReturnedUndefined.

(** [registerOptimizer(optimizer)], on the list [_optimizers]. *)
Definition registerOptimizer (optimizer : nat) (_optimizers : list nat)
  : list nat * Returned :=
  let index := indexOf _optimizers optimizer in
  if (index >? -1)%Z then (_optimizers, ReturnedUndefined)
  else (_optimizers ++ [optimizer], ReturnedThis).

(** [unregisterOptimizer(optimizer)], on the list [_optimizers]. *)
Definition unregisterOptimizer (optimizer : nat) (_optimizers : list nat)
  : list nat * Returned :=
  let index := indexOf _optimizers optimizer in
  if (index =? -1)%Z then (_optimizers, ReturnedUndefined)
  else (removeFirst optimizer _optimizers, ReturnedThis).

(** X20. [registerOptimizer] keeps [_optimizers] free of duplicates and
    leaves the optimizer registered; it returns the material exactly when
    it added the optimizer, and [undefined] when the optimizer was
    registered already.  Unregistering an optimizer just added gives the
    list back. *)
Theorem registerOptimizer_once (optimizer : nat)
    (_optimizers : list nat) :
  NoDup _optimizers →
  NoDup (registerOptimizer optimizer _optimizers).1
  ∧ optimizer ∈ (registerOptimizer optimizer _optimizers).1
  ∧ ((registerOptimizer optimizer _optimizers).2 = ReturnedThis
     ↔ optimizer ∉ _optimizers)
  ∧ (optimizer ∈ _optimizers →
     registerOptimizer optimizer _optimizers = (_optimizers, ReturnedUndefined))
  ∧ (optimizer ∉ _optimizers →
     unregisterOptimizer optimizer (registerOptimizer optimizer _optimizers).1
     = (_optimizers, ReturnedThis)).
Proof.
  intros Hnd. unfold registerOptimizer, unregisterOptimizer. cbn zeta.
  pose proof (indexOf_ge _optimizers optimizer) as Hge.
  destruct (decide (optimizer ∈ _optimizers)) as [Hin|Hout].
  - pose proof (proj2 (indexOf_present _optimizers optimizer) Hin) as Hp.
    destruct (Z.gtb_spec (indexOf _optimizers optimizer) (-1)) as [_|Hle]; [|lia].
    cbn [fst snd]. split; [done|]. split; [done|].
    split; [split; [done | intros Hn; by destruct Hn]|].
    split; [done|]. intros Hn. by destruct Hn.
  - pose proof (proj2 (indexOf_absent _optimizers optimizer) Hout) as Ha.
    rewrite Ha. change (-1 >? -1)%Z with false. cbn [fst snd].
    split; [by apply NoDup_snoc_new|]. split; [apply elem_of_snoc|].
    split; [done|]. split; [done|]. intros _.
    assert (indexOf (_optimizers ++ [optimizer]) optimizer ≠ (-1)%Z) as Hp
      by (apply indexOf_present, elem_of_snoc).
    destruct (Z.eqb_spec (indexOf (_optimizers ++ [optimizer]) optimizer) (-1));
      [done|].
    by rewrite removeFirst_snoc.
Qed.

(** ** Readiness and animated inputs *)

Section Ready.

Context {Scene : Type}.
Variable getFrameId : Scene → Z.
(** [super.isReadyForSubMesh(mesh, subMesh, useInstances)], of the
    specialization layer. *)
Variable superIsReadyForSubMesh : NodeMaterial → bool.

(** The fields that [isReadyForSubMesh] uses besides those of the material:
    [_animationFrame] and [_sharedData.animatedInputs] ([None] when the
    shared data has none). *)
Record Animation := mkAnimation {
  _animationFrame : Z;
  animatedInputs : option (list BlockId)
}.

(** [isReadyForSubMesh(mesh, subMesh, useInstances)]; returns the
    animation fields, the answer and the inputs on which [animate(scene)]
    was called, in order. *)
Definition isReadyForSubMesh (scene : Scene) (this : NodeMaterial) (animation : Animation)
  : Animation * bool * list BlockId :=
  if negb (_buildWasSuccessful this) then (animation, false, [])
  else
    let '(animation, animated) :=
      (* Animations *)
      match animatedInputs animation with
      | Some inputs =>
          let frameId := getFrameId scene in
          if bool_decide (_animationFrame animation ≠ frameId)
          then (mkAnimation frameId (animatedInputs animation), inputs)
          else (animation, [])
      | None => (animation, [])
      end in
    (animation, superIsReadyForSubMesh this, animated).

End Ready.

Section ReadyFacts.

Context {Scene : Type}.
Variable getFrameId : Scene → Z.
Variable superIsReadyForSubMesh : NodeMaterial → bool.
Variable blockInitialize : BlockId → Stage → NodeMaterial → NodeMaterial.
Variable blockAutoConfigure : BlockId → NodeMaterial → NodeMaterial.
Variable blockBuild : BlockId → Stage → list BlockId → NodeMaterial → NodeMaterial.
Variable optimizers : list (NodeMaterial → NodeMaterial).
Variable finalize : Stage → NodeMaterial → NodeMaterial.
Variable emitErrors : NodeMaterial → option string.
Variable afterBuild : M unit.
Variable supportsUniformBuffers : bool.

(** X21. A material whose [build] failed before it set
    [_buildWasSuccessful] is not ready: when no block, optimizer, build
    state or observer writes the bookkeeping of the material,
    [isReadyForSubMesh] on the material that a failed [build] leaves
    answers [false], animates no input and does not ask the specialization
    layer, unless the failure is one of the calls that [build] makes after
    it has set the flag (to the observers, the sub meshes and the prepass
    renderer): the flag is then [true], and the answer is that of the
    specialization layer. *)
Theorem isReadyForSubMesh_after_failed_build (fuel : nat)
    (verbose updateBuildId autoConfigure : bool) (m m' : NodeMaterial) (e : Error)
    (scene : Scene) (animation : Animation) :
  externalsKeepBookkeeping blockInitialize blockAutoConfigure blockBuild optimizers
    finalize afterBuild →
  build blockInitialize blockAutoConfigure blockBuild optimizers finalize
    emitErrors afterBuild supportsUniformBuffers
    fuel verbose updateBuildId autoConfigure m = Fail e m' →
  isReadyForSubMesh getFrameId superIsReadyForSubMesh scene m' animation
  = (animation, false, [])
  ∨ (∃ m1, _buildWasSuccessful m1 = true
           ∧ afterBuild m1 = Fail e m'
           ∧ (isReadyForSubMesh getFrameId superIsReadyForSubMesh scene m' animation).1.2
             = superIsReadyForSubMesh m').
Proof.
  intros Hext Hbuild. rewrite build_pieces in Hbuild. unfold bind in Hbuild.
  pose proof (buildUntilFinalized_bookkeeping blockInitialize blockAutoConfigure
                blockBuild optimizers finalize afterBuild supportsUniformBuffers Hext
                fuel verbose autoConfigure m) as H.
  destruct (buildUntilFinalized _ _ _ _ _ _ _ _ _ m) as [u m1|e1 m1].
  - rewrite endOfBuild_cases in Hbuild.
    assert (Hflag : _buildWasSuccessful (if updateBuildId then nextBuildId m1 else m1)
                    = false).
    { injection H as Hflag _ _. by destruct updateBuildId. }
    destruct (emitErrors _) as [msg|].
    + injection Hbuild as <- <-. left. unfold isReadyForSubMesh. by rewrite Hflag.
    + right. eexists. split; [|split; [exact Hbuild|]]; [done|].
      destruct Hext as (_ & _ & _ & _ & _ & Hafter).
      specialize (Hafter (withBuildWasSuccessful true
                            (if updateBuildId then nextBuildId m1 else m1))).
      rewrite Hbuild in Hafter. injection Hafter as Hflag' _ _.
      unfold isReadyForSubMesh. rewrite Hflag'. cbn [negb].
      destruct (animatedInputs animation); [|done].
      by destruct (bool_decide _).
  - injection Hbuild as <- <-. left.
    assert (_buildWasSuccessful m1 = false) as Hflag by (by injection H).
    unfold isReadyForSubMesh. by rewrite Hflag.
Qed.

(** X22. The animated inputs are animated once per frame: a second
    [isReadyForSubMesh] in the frame of the first one animates no input
    and leaves [_animationFrame] as the first one set it. *)
Theorem isReadyForSubMesh_animates_once (scene : Scene) (this : NodeMaterial)
    (animation : Animation) :
  let first := isReadyForSubMesh getFrameId superIsReadyForSubMesh scene this animation in
  let second :=
    isReadyForSubMesh getFrameId superIsReadyForSubMesh scene this first.1.1 in
  second.2 = [] ∧ second.1.1 = first.1.1
  ∧ (_buildWasSuccessful this = true → is_Some (animatedInputs animation) →
     _animationFrame first.1.1 = getFrameId scene).
Proof.
  unfold isReadyForSubMesh. destruct (_buildWasSuccessful this); cbn [negb]; [|done].
  destruct animation as [frame [inputs|]]; cbn [animatedInputs _animationFrame].
  - destruct (bool_decide_reflect (frame ≠ getFrameId scene)) as [Hne|Heq];
      cbn [fst snd animatedInputs _animationFrame].
    + rewrite (bool_decide_eq_false_2 (getFrameId scene ≠ getFrameId scene))
        by (intros H; by apply H).
      done.
    + apply dec_stable in Heq. subst frame.
      rewrite (bool_decide_eq_false_2 (getFrameId scene ≠ getFrameId scene))
        by (intros H; by apply H).
      done.
  - cbn [fst snd animatedInputs]. split; [done|]. split; [done|].
    intros _ [? ?]; done.
Qed.

End ReadyFacts.

(** ** The extra facts on concrete materials *)

(** [teleportGraph] with its four blocks attached. *)
Definition attachedTeleportGraph : NodeMaterial :=
  withAttachedBlocks [1; 2; 3; 4] teleportGraph.

Lemma attachedTeleportGraph_attachedInStore : attachedInStore attachedTeleportGraph.
Proof.
  intros b Hb. simpl in Hb. rewrite !elem_of_cons, elem_of_nil in Hb.
  destruct Hb as [->|[->|[->|[->|[]]]]]; eexists; vm_compute; reflexivity.
Qed.

Lemma addOutputNode_twice_witness :
  ∃ m1, addOutputNode 1 unlistedDualBlock = Ok tt m1 ∧ addOutputNode 1 m1 = Ok tt m1.
Proof.
  apply (addOutputNode_twice 1 (plainBlock "dual" "AddBlock" (Some VertexAndFragment))
           unlistedDualBlock).
  - reflexivity.
  - simpl. discriminate.
Defined.

Lemma addOutputNode_listed_once_witness :
  ∃ m1 blk1,
    addOutputNode 1 listedDualBlock = Ok tt m1
    ∧ blocks m1 !! 1 = Some blk1
    ∧ blk1 = withTarget (target blk1) (plainBlock "dual" "AddBlock" (Some VertexAndFragment))
    ∧ (targetAnd (target blk1) Vertex ≠ 0%Z → 1 ∈ _vertexOutputNodes m1)
    ∧ (targetAnd (target blk1) Fragment ≠ 0%Z → 1 ∈ _fragmentOutputNodes m1)
    ∧ NoDup (_vertexOutputNodes m1) ∧ NoDup (_fragmentOutputNodes m1)
    ∧ (∀ b, b ≠ 1 → blocks m1 !! b = blocks listedDualBlock !! b)
    ∧ attachedBlocks m1 = attachedBlocks listedDualBlock.
Proof.
  apply (addOutputNode_listed_once 1
           (plainBlock "dual" "AddBlock" (Some VertexAndFragment)) listedDualBlock).
  - reflexivity.
  - simpl. discriminate.
  - simpl. apply NoDup_singleton.
  - simpl. constructor.
Defined.

Lemma addOutputNode_then_removeOutputNode_witness :
  (addOutputNode 1 ;;; removeOutputNode 1) unlistedDualBlock = Ok tt unlistedDualBlock.
Proof.
  apply (addOutputNode_then_removeOutputNode 1
           (plainBlock "dual" "AddBlock" (Some VertexAndFragment)) unlistedDualBlock).
  - reflexivity.
  - simpl. discriminate.
  - simpl. apply not_elem_of_nil.
  - simpl. apply not_elem_of_nil.
Defined.

Lemma removeBlock_detaches_witness :
  ∃ m',
    removeBlock 1 attachedTeleportGraph = Ok tt m'
    ∧ attachedBlocks m' = filter (λ b, b ≠ 1) (attachedBlocks attachedTeleportGraph)
    ∧ (1 ∉ attachedBlocks m')
    ∧ blocks m' = blocks attachedTeleportGraph
    ∧ _vertexOutputNodes m' = []
    ∧ _fragmentOutputNodes m' = [].
Proof.
  destruct (removeBlock_detaches 1
              (mkBlock "FragmentOutput" 11 "FragmentOutputBlock" (Some Fragment)
                 true false true false None
                 [mkInput "rgba" (Some (2, "output")) "";
                  mkInput "a" (Some (4, "output")) ""] [] 0 0 None)
              attachedTeleportGraph)
    as (m' & Hrun & Hatt & Hout & Hblocks & Hv & Hf).
  - reflexivity.
  - apply (bool_decide_unpack (NoDup [1; 2; 3; 4])). by vm_compute.
  - exists m'. split; [done|]. split; [done|]. split; [done|]. split; [done|].
    split; [exact Hv | exact Hf].
Defined.

Lemma getBlockByName_first_witness :
  getBlockByName "Color" attachedTeleportGraph = Ok (Some 4, []) attachedTeleportGraph.
Proof.
  apply (getBlockByName_first "Color" attachedTeleportGraph).
  apply attachedTeleportGraph_attachedInStore.
Defined.

Lemma getInputBlockByPredicate_first_witness :
  getInputBlocks attachedTeleportGraph = Ok [4] attachedTeleportGraph
  ∧ getInputBlockByPredicate (λ _ blk, bool_decide (name blk = "Color"))
      attachedTeleportGraph
    = Ok (Some 4) attachedTeleportGraph
  ∧ getInputBlockByPredicate (λ _ blk, bool_decide (name blk = "Color"))
      attachedTeleportGraph
    = getBlockByPredicate (λ _ blk, isInput blk && bool_decide (name blk = "Color"))
        attachedTeleportGraph.
Proof.
  pose proof (getInputBlockByPredicate_first (λ _ blk, bool_decide (name blk = "Color"))
                attachedTeleportGraph attachedTeleportGraph_attachedInStore) as H.
  vm_compute in H. vm_compute. exact H.
Defined.

(** A material that reads the prepass: a prepass texture block (1) whose
    depth and normal outputs are used, and a prepass output block (2). *)
Definition prePassGraph : NodeMaterial :=
  withAttachedBlocks [1; 2]
    (withBlocks
       (list_to_map
          [ (1, plainBlock "PrePassTexture" "PrePassTextureBlock" (Some VertexAndFragment));
            (2, plainBlock "PrePassOutput" "PrePassOutputBlock" (Some Fragment)) ])
       emptyMaterial).

Lemma prePassGraph_attachedInStore : attachedInStore prePassGraph.
Proof.
  intros b Hb. simpl in Hb. rewrite !elem_of_cons, elem_of_nil in Hb.
  destruct Hb as [->|[->|[]]]; eexists; vm_compute; reflexivity.
Qed.

Lemma prePassTextureInputs_each_once_witness :
  ∃ textureInputs,
    prePassTextureInputs 5 6 1 (λ _ _, false) (λ _ _, true) (λ _ _, true) prePassGraph
    = Ok textureInputs prePassGraph
    ∧ NoDup textureInputs
    ∧ ∀ x, x ∈ textureInputs
           ↔ ∃ b, b ∈ prePassTextureBlocksOf prePassGraph
                  ∧ readsFrom 5 6 1 (λ _ _, false) (λ _ _, true) (λ _ _, true)
                      prePassGraph b x.
Proof.
  apply (prePassTextureInputs_each_once 5 6 1 (λ _ _, false) (λ _ _, true) (λ _ _, true)
           prePassGraph).
  apply prePassGraph_attachedInStore.
Defined.

Lemma prePassTextureOutputs_color_first_witness :
  ∃ textureInputs textureOutputs,
    prePassTextureInputs 5 6 1 (λ _ _, false) (λ _ _, true) (λ _ _, true) prePassGraph
    = Ok textureInputs prePassGraph
    ∧ prePassTextureOutputs 5 6 1 (λ _ _, false) (λ _ _, true) (λ _ _, true)
        4 (λ _ _, true) (λ _ _, true) (λ _ _, true) prePassGraph
      = Ok textureOutputs prePassGraph
    ∧ head textureOutputs = Some 4%Z
    ∧ (textureInputs ≠ [] → textureOutputs = [4%Z])
    ∧ (attachedWhere (λ _ blk, bool_decide (className blk = "PrePassOutputBlock"))
         prePassGraph = []
       → textureOutputs = [4%Z])
    ∧ setPrePassRenderer 5 6 1 (λ _ _, false) (λ _ _, true) (λ _ _, true)
        4 (λ _ _, true) (λ _ _, true) (λ _ _, true) prePassGraph
      = Ok (bool_decide (textureInputs ≠ [] ∨ textureOutputs ≠ [4%Z])) prePassGraph.
Proof.
  apply (prePassTextureOutputs_color_first 5 6 1 (λ _ _, false) (λ _ _, true)
           (λ _ _, true) 4 (λ _ _, true) (λ _ _, true) (λ _ _, true) prePassGraph).
  apply prePassGraph_attachedInStore.
Defined.

Example prePass_reads_and_does_not_write :
  prePassTextureInputs 5 6 1 (λ _ _, false) (λ _ _, true) (λ _ _, true) prePassGraph
  = Ok [5; 6]%Z prePassGraph
  ∧ prePassTextureOutputs 5 6 1 (λ _ _, false) (λ _ _, true) (λ _ _, true)
      4 (λ _ _, true) (λ _ _, true) (λ _ _, true) prePassGraph
    = Ok [4%Z] prePassGraph.
Proof. split; reflexivity. Qed.

Lemma initializeBlocks_attaches_reachable_witness :
  (∃ nodes m',
      initializeBlocks (λ _ _ m, m) (λ _ m, m) 5 true teleportGraph = Ok nodes m'
      ∧ (∀ x, reachableFrom (blocks teleportGraph)
                (_vertexOutputNodes teleportGraph ++ _fragmentOutputNodes teleportGraph) x →
              x ∈ attachedBlocks m')
      ∧ (∃ added, attachedBlocks m' = attachedBlocks teleportGraph ++ added)
      ∧ _vertexOutputNodes m' = _vertexOutputNodes teleportGraph
      ∧ _fragmentOutputNodes m' = _fragmentOutputNodes teleportGraph
      ∧ wellFormed (λ b, 5 - b) m')
  ∨ (∃ cls m',
      initializeBlocks (λ _ _ m, m) (λ _ m, m) 5 true teleportGraph
      = Fail (Thrown (multipleBlocks cls)) m').
Proof.
  apply (initializeBlocks_attaches_reachable (λ _ _ m, m) (λ _ m, m) (λ b, 5 - b)
           5 true teleportGraph).
  - intros node state. apply wellBehaved_id.
  - intros node. apply wellBehaved_id.
  - split; [apply closedStoreb_closedStore; by vm_compute|].
    split; [apply rankedb_ranked; by vm_compute|].
    by intros b ?%elem_of_nil.
  - intros r ->%list_elem_of_singleton. split; [|simpl; lia].
    eexists. vm_compute. reflexivity.
Defined.

(** A build state that emits no error, and an observer of the build that
    throws. *)
Definition noErrors : NodeMaterial → option string := λ _, None.
Definition throwingObserver : M unit := throw "observer".

Lemma identity_externalsKeepBookkeeping (afterBuild : M unit) :
  bookkeepingKept afterBuild →
  externalsKeepBookkeeping (λ _ _ m, m) (λ _ m, m) (λ _ _ _ m, m) [] (λ _ m, m)
    afterBuild.
Proof. intros H. repeat split; [constructor | exact H]. Qed.

(** [twoOfAKind] with its four blocks attached: its build succeeds. *)
Definition twoOfAKindAttached : NodeMaterial := twoOfAKind [4; 1; 2; 3].

Lemma build_success_flag_witness :
  match buildUntilFinalized (λ _ _ m, m) (λ _ m, m) (λ _ _ _ m, m) [] (λ _ m, m)
          true 10 false false twoOfAKindAttached with
  | Fail e m1 =>
      build (λ _ _ m, m) (λ _ m, m) (λ _ _ _ m, m) [] (λ _ m, m) noErrors
        throwingObserver true 10 false true false twoOfAKindAttached
      = Fail e m1
      ∧ _buildWasSuccessful m1 = false
  | Ok _ m1 =>
      let m2 := if true then nextBuildId m1 else m1 in
      match noErrors m2 with
      | Some msg =>
          build (λ _ _ m, m) (λ _ m, m) (λ _ _ _ m, m) [] (λ _ m, m) noErrors
            throwingObserver true 10 false true false twoOfAKindAttached
          = Fail (Thrown msg) m2
          ∧ _buildWasSuccessful m2 = false
      | None =>
          build (λ _ _ m, m) (λ _ m, m) (λ _ _ _ m, m) [] (λ _ m, m) noErrors
            throwingObserver true 10 false true false twoOfAKindAttached
          = throwingObserver (withBuildWasSuccessful true m2)
          ∧ match throwingObserver (withBuildWasSuccessful true m2) with
            | Ok _ m' | Fail _ m' => _buildWasSuccessful m' = true
            end
      end
  end.
Proof.
  apply (build_success_flag (λ _ _ m, m) (λ _ m, m) (λ _ _ _ m, m) [] (λ _ m, m)
           noErrors throwingObserver true 10 false true false twoOfAKindAttached).
  apply identity_externalsKeepBookkeeping. apply kept_fail.
Defined.

(** The build of [twoOfAKindAttached] fails when the observer throws, and
    leaves the flag set; it returns when the observer returns. *)
Example build_throwingObserver :
  (∃ m',
     build (λ _ _ m, m) (λ _ m, m) (λ _ _ _ m, m) [] (λ _ m, m) noErrors
       throwingObserver true 10 false true false twoOfAKindAttached
     = Fail (Thrown "observer") m'
     ∧ _buildWasSuccessful m' = true
     ∧ _buildId m' = 1%Z)
  ∧ (∃ m',
       build (λ _ _ m, m) (λ _ m, m) (λ _ _ _ m, m) [] (λ _ m, m) noErrors
         (ret tt) true 10 false true false twoOfAKindAttached
       = Ok tt m'
       ∧ _buildWasSuccessful m' = true
       ∧ _buildId m' = 1%Z).
Proof. split; eexists; (split; [vm_compute; reflexivity|]); by split. Qed.

Lemma build_advances_build_id_witness :
  match buildUntilFinalized (λ _ _ m, m) (λ _ m, m) (λ _ _ _ m, m) [] (λ _ m, m)
          true 10 false false twoOfAKindAttached with
  | Fail e m1 =>
      build (λ _ _ m, m) (λ _ m, m) (λ _ _ _ m, m) [] (λ _ m, m) noErrors
        throwingObserver true 10 false true false twoOfAKindAttached
      = Fail e m1
      ∧ _buildId m1 = _buildId twoOfAKindAttached
      ∧ _BuildIdGenerator m1 = _BuildIdGenerator twoOfAKindAttached
  | Ok _ m1 =>
      build (λ _ _ m, m) (λ _ m, m) (λ _ _ _ m, m) [] (λ _ m, m) noErrors
        throwingObserver true 10 false true false twoOfAKindAttached
      = endOfBuild noErrors throwingObserver true m1
      ∧ match endOfBuild noErrors throwingObserver true m1 with
        | Ok _ m' | Fail _ m' =>
            _buildId m'
            = (if true then _BuildIdGenerator twoOfAKindAttached
               else _buildId twoOfAKindAttached)
            ∧ _BuildIdGenerator m'
              = (if true then (_BuildIdGenerator twoOfAKindAttached + 1)%Z
                 else _BuildIdGenerator twoOfAKindAttached)
        end
  end.
Proof.
  apply (build_advances_build_id (λ _ _ m, m) (λ _ m, m) (λ _ _ _ m, m) [] (λ _ m, m)
           noErrors throwingObserver true 10 false true false twoOfAKindAttached).
  apply identity_externalsKeepBookkeeping. apply kept_fail.
Defined.

Lemma serialize_each_block_once_witness :
  ∃ source reached others ids,
    serialize 5 None attachedTeleportGraph = Ok source attachedTeleportGraph
    ∧ serializedBlocks source
      = map (serializedOf (blocks attachedTeleportGraph)) (reached ++ others)
    ∧ NoDup (reached ++ others)
    ∧ (∀ b, b ∈ reached
            ↔ reachableFrom (blocks attachedTeleportGraph)
                (_vertexOutputNodes attachedTeleportGraph
                 ++ _fragmentOutputNodes attachedTeleportGraph) b)
    ∧ (∀ b, b ∈ others ↔ b ∈ attachedBlocks attachedTeleportGraph ∧ b ∉ reached)
    ∧ outputNodes source = Some ids
    ∧ (∀ id, id ∈ ids
             ↔ id ∈ map (idOf (blocks attachedTeleportGraph))
                      (_vertexOutputNodes attachedTeleportGraph
                       ++ _fragmentOutputNodes attachedTeleportGraph))
    ∧ (NoDup (map (idOf (blocks attachedTeleportGraph))
                (_vertexOutputNodes attachedTeleportGraph)) → NoDup ids)
    ∧ serializedMode source = Some (_mode attachedTeleportGraph).
Proof.
  apply (serialize_each_block_once 5 attachedTeleportGraph).
  - apply closedStoreb_closedStore. by vm_compute.
  - vm_compute. lia.
  - intros r ->%list_elem_of_singleton. eexists. vm_compute. reflexivity.
  - apply attachedTeleportGraph_attachedInStore.
  - apply (bool_decide_unpack (NoDup [1; 2; 3; 4])). by vm_compute.
Defined.

(** A serialized material whose output node is of a class that is not
    registered. *)
Definition unknownOutput : SerializedMaterial :=
  mkSerializedMaterial
    [ mkSerializedBlock 21 "BABYLON.InputBlock" "Color" (Some Vertex) None [];
      mkSerializedBlock 22 "BABYLON.CloudBlock" "Cloud" (Some Fragment) None [] ]
    (Some [22%Z]) (Some Material).

Lemma parseSerializedObject_unregistered_output_witness :
  ∃ e m',
    parseSerializedObject registeredClasses newUniqueId 3 unknownOutput false emptyMaterial
    = Fail e m'
    ∧ ((unconnectedInputs (blocks emptyMaterial)
        + constructedInputs registeredClasses unknownOutput < 3)%nat →
       e = TypeError ∨ e = Thrown notAnOutputNode).
Proof.
  apply (parseSerializedObject_unregistered_output registeredClasses newUniqueId 3
           unknownOutput false emptyMaterial [22%Z] 22%Z).
  - reflexivity.
  - by left.
  - intros p Hp Hid. simpl in Hp. rewrite !elem_of_cons, elem_of_nil in Hp.
    destruct Hp as [->|[->|[]]]; [done | reflexivity].
Defined.

(** The fuel of the witness is above the bound. *)
Example unknownOutput_fuel :
  (unconnectedInputs (blocks emptyMaterial)
   + constructedInputs registeredClasses unknownOutput < 3)%nat.
Proof. vm_compute. lia. Qed.

Example parse_unknownOutput :
  ∃ m',
    parseSerializedObject registeredClasses newUniqueId 3 unknownOutput false emptyMaterial
    = Fail TypeError m'
    ∧ attachedBlocks m' = [0].
Proof. eexists. split; [vm_compute; reflexivity | reflexivity]. Qed.

Lemma registerOptimizer_once_witness :
  NoDup (registerOptimizer 3 [1; 2]).1
  ∧ 3 ∈ (registerOptimizer 3 [1; 2]).1
  ∧ ((registerOptimizer 3 [1; 2]).2 = ReturnedThis ↔ 3 ∉ [1; 2])
  ∧ (3 ∈ [1; 2] → registerOptimizer 3 [1; 2] = ([1; 2], ReturnedUndefined))
  ∧ (3 ∉ [1; 2] →
     unregisterOptimizer 3 (registerOptimizer 3 [1; 2]).1 = ([1; 2], ReturnedThis)).
Proof.
  apply (registerOptimizer_once 3 [1; 2]).
  apply (bool_decide_unpack (NoDup [1; 2])). by vm_compute.
Defined.

Lemma isReadyForSubMesh_after_failed_build_witness :
  isReadyForSubMesh (Scene := unit) (λ _, 7%Z) (λ _, true) tt emptyMaterial
    (mkAnimation (-1) (Some [1]))
  = (mkAnimation (-1) (Some [1]), false, [])
  ∨ (∃ m1, _buildWasSuccessful m1 = true
           ∧ throwingObserver m1 = Fail (Thrown noVertexOutputNode) emptyMaterial
           ∧ (isReadyForSubMesh (Scene := unit) (λ _, 7%Z) (λ _, true) tt emptyMaterial
                (mkAnimation (-1) (Some [1]))).1.2
             = (λ _ : NodeMaterial, true) emptyMaterial).
Proof.
  apply (isReadyForSubMesh_after_failed_build (Scene := unit) (λ _, 7%Z) (λ _, true)
           (λ _ _ m, m) (λ _ m, m) (λ _ _ _ m, m) [] (λ _ m, m) noErrors
           throwingObserver true 10 false true false emptyMaterial emptyMaterial
           (Thrown noVertexOutputNode) tt (mkAnimation (-1) (Some [1]))).
  - apply identity_externalsKeepBookkeeping. apply kept_fail.
  - reflexivity.
Defined.

(** After a build that failed in an observer, [isReadyForSubMesh] does not
    stop at the flag: it animates the inputs and asks the specialization
    layer. *)
Example isReadyForSubMesh_throwingObserver :
  ∃ m',
    build (λ _ _ m, m) (λ _ m, m) (λ _ _ _ m, m) [] (λ _ m, m) noErrors
      throwingObserver true 10 false true false twoOfAKindAttached
    = Fail (Thrown "observer") m'
    ∧ isReadyForSubMesh (Scene := unit) (λ _, 7%Z) (λ _, true) tt m'
        (mkAnimation (-1) (Some [1]))
      = (mkAnimation 7 (Some [1]), true, [1]).
Proof. eexists. split; [vm_compute; reflexivity | reflexivity]. Qed.

End NodeMat.

Module MorphTargetsBlock.

Import NodeMat.

(** ** [autoConfigure] *)

Section AutoConfigure.

(** [new InputBlock(name)] followed by [setAsAttribute(...)]: the block
    that the constructor of the input block class (outside these files)
    makes, and [b.isAttribute] for an input block [b]. *)
Variable newAttributeInput : string → NodeMaterialBlock.
Variable isAttribute : NodeMaterialBlock → bool.
Variable additionalFilteringInfo : BlockId → NodeMaterialBlock → bool.

(** [output.connectTo(input)], a method of the connection point class
    (outside these files), for the output [outputName] of [block] and the
    input at [index] of [target].  Called without [ignoreConstraints], it
    may refuse the connection. *)
Variable pointConnectTo : BlockId → string → BlockId → nat → M unit.

(** [point.isConnected] for an input. *)
Definition isConnected (input : InputPoint) : bool :=
  bool_decide (is_Some (connectedPoint input)).

(** One of the four blocks of [autoConfigure]: for the input [_inputs[index]]
    and the attribute [attribute].  A new input block is an object of its
    own, which the material does not hold yet. *)
Definition configureInput (this : BlockId) (index : nat) (attribute : string) : M unit :=
  blk <- getBlock this ;;
  match inputs blk !! index with
  | None => fail TypeError
  | Some input =>
      if negb (isConnected input) then
        found <- getInputBlockByPredicate (λ b blk,
                   isAttribute blk && bool_decide (name blk = attribute)
                   && additionalFilteringInfo b blk) ;;
        attributeInput <-
          match found with
          | Some b => ret b
          | None =>
              material <- get ;;
              let b := fresh (dom (blocks material)) in
              modify (λ m, withBlocks (<[b := newAttributeInput attribute]> (blocks m)) m) ;;;
              ret b
          end ;;
        source <- getBlock attributeInput ;;
        match outputs source !! 0%nat with
        | None => fail TypeError
        | Some output => pointConnectTo attributeInput (outputName output) this index
        end
      else ret tt
  end.

(** [autoConfigure(material, additionalFilteringInfo)] *)
Definition autoConfigure (this : BlockId) : M unit :=
  configureInput this 0 "position" ;;;
  configureInput this 1 "normal" ;;;
  configureInput this 2 "tangent" ;;;
  configureInput this 3 "uv".

(** What [autoConfigure] relies on: the block has its four inputs, the
    attached blocks are blocks of the store, an input block, attached or
    new, has an output, and the connection point class accepts the
    connections to the inputs of the block, linking the points as
    [connectTo] does. *)
Definition configurable (this : BlockId) (m : NodeMaterial) : Prop :=
  (∃ blk, blocks m !! this = Some blk ∧ (4 ≤ length (inputs blk))%nat)
  ∧ attachedInStore m
  ∧ (∀ b blk, b ∈ attachedBlocks m → blocks m !! b = Some blk → isInput blk = true →
       outputs blk ≠ [])
  ∧ (∀ attribute, outputs (newAttributeInput attribute) ≠ [])
  ∧ (∀ src o index m',
       pointConnectTo src o this index m' = connectTo src o this index m').

(** The material [m'] is [m] with inputs of [this] connected: connected
    inputs are as they were, the other blocks of the store are untouched,
    and so are the lists of the material. *)
Definition configured (this : BlockId) (m m' : NodeMaterial) : Prop :=
  sameFields m m'
  ∧ (∀ b blk, b ≠ this → blocks m !! b = Some blk → blocks m' !! b = Some blk)
  ∧ ∃ blk blk',
      blocks m !! this = Some blk ∧ blocks m' !! this = Some blk'
      ∧ blockExtends blk blk'.

Lemma configured_refl this m :
  is_Some (blocks m !! this) → configured this m m.
Proof.
  intros [blk Hblk]. split; [apply sameFields_refl|]. split; [done|].
  exists blk, blk. split; [done|]. split; [done|]. apply blockExtends_refl.
Qed.

Lemma configured_trans this m1 m2 m3 :
  configured this m1 m2 → configured this m2 m3 → configured this m1 m3.
Proof.
  intros (Hs1 & Ho1 & blk1 & blk2 & Hb1 & Hb2 & He1)
    (Hs2 & Ho2 & blk2' & blk3 & Hb2' & Hb3 & He2).
  rewrite Hb2 in Hb2'. injection Hb2' as <-.
  split; [by eapply sameFields_trans|]. split; [by auto|].
  exists blk1, blk3. split; [done|]. split; [done|]. by eapply blockExtends_trans.
Qed.

Lemma configurable_configured this m m' :
  configurable this m → configured this m m' → configurable this m'.
Proof.
  intros ((blk & Hblk & Hlen) & Hatt & Hout & Hnew & Hlink)
    (Hs & Ho & blk0 & blk' & Hb0 & Hb' & [Hfields HF]).
  rewrite Hblk in Hb0. injection Hb0 as <-.
  destruct (sameFields_lists m m' Hs) as (Ha & _).
  split; [|split; [|split; [|done]]].
  - exists blk'. split; [done|]. by rewrite <- (Forall2_length _ _ _ HF).
  - intros b Hb. rewrite Ha in Hb. destruct (decide (b = this)) as [->|Hne].
    + by eexists.
    + destruct (Hatt b Hb) as [bb Hbb]. exists bb. by apply Ho.
  - intros b bb Hb Hbb Hin. rewrite Ha in Hb.
    destruct (decide (b = this)) as [->|Hne].
    + rewrite Hb' in Hbb. injection Hbb as <-.
      assert (outputs blk' = outputs blk ∧ isInput blk' = isInput blk) as [-> Hi]
        by (rewrite <- Hfields; by destruct blk').
      rewrite Hi in Hin. by eapply Hout.
    + destruct (Hatt b Hb) as [bb0 Hbb0].
      pose proof (Ho b bb0 Hne Hbb0) as Hbb'. rewrite Hbb in Hbb'.
      injection Hbb' as ->. by eapply Hout.
Qed.

Lemma connectTo_configured (this : BlockId) (index : nat) (m m1 : NodeMaterial)
    (blk : NodeMaterialBlock) (input : InputPoint) (src : BlockId) (o : string) :
  blocks m !! this = Some blk → inputs blk !! index = Some input →
  connectedPoint input = None →
  sameFields m m1 → blocks m1 !! this = Some blk →
  (∀ b bb, blocks m !! b = Some bb → blocks m1 !! b = Some bb) →
  ∃ m',
    connectTo src o this index m1 = Ok tt m'
    ∧ configured this m m'
    ∧ connection (blocks m') this index = Some (src, o)
    ∧ (∀ j, j ≠ index → connection (blocks m') this j = connection (blocks m) this j)
    ∧ (∀ b, b ≠ this → blocks m' !! b = blocks m1 !! b).
Proof.
  intros Hblk Hinput Hc Hs1 Hthis1 Hold1.
  unfold connectTo, updateBlock. munfold. rewrite Hthis1.
  eexists. split; [reflexivity|]. unfold connection. cbn [blocks withBlocks].
  rewrite lookup_insert_eq, Hblk. cbn [inputs withInputs].
  rewrite list_lookup_alter, decide_True, Hinput by done. cbn.
  split; [|split; [done|split]].
  - split; [|split].
    + unfold sameFields in *. cbn [blocks withBlocks]. rewrite Hs1 at 2. by destruct m.
    + intros b bb Hne Hbb. cbn [blocks withBlocks].
      rewrite lookup_insert_ne by done. by apply Hold1.
    + eexists blk, _. split; [done|]. cbn [blocks withBlocks].
      rewrite lookup_insert_eq. split; [done|].
      split; [by destruct blk|]. cbn [inputs withInputs].
      by apply (alter_connected_extends (src, o) index (inputs blk) input).
  - intros j Hj. by rewrite list_lookup_alter_ne.
  - intros b Hb. by rewrite lookup_insert_ne.
Qed.

(** The attached attribute inputs of the name [attribute] that pass the
    filter, in the order attached. *)
Definition attributeInputs (attribute : string) (m : NodeMaterial) : list BlockId :=
  filter (λ b, holdsAt (λ b blk, isAttribute blk && bool_decide (name blk = attribute)
                                 && additionalFilteringInfo b blk) m b = true)
    (attachedWhere (λ _ blk, isInput blk) m).

(** One block of [autoConfigure] returns; it leaves the input at [index]
    connected and the material otherwise configured as before.  An input
    without a connection is connected to the first attached attribute
    input of the name, or to a new block when there is none. *)
Lemma configureInput_spec (this : BlockId) (index : nat) (attribute : string)
    (m : NodeMaterial) :
  configurable this m → (index < 4)%nat →
  ∃ m',
    configureInput this index attribute m = Ok tt m'
    ∧ configured this m m'
    ∧ is_Some (connection (blocks m') this index)
    ∧ (is_Some (connection (blocks m) this index) → m' = m)
    ∧ (∀ j, j ≠ index → connection (blocks m') this j = connection (blocks m) this j)
    ∧ (connection (blocks m) this index = None →
       ∃ src o,
         connection (blocks m') this index = Some (src, o)
         ∧ match head (attributeInputs attribute m) with
           | Some b => src = b ∧ ∀ b', b' ≠ this → blocks m' !! b' = blocks m !! b'
           | None =>
               blocks m !! src = None
               ∧ blocks m' !! src = Some (newAttributeInput attribute)
               ∧ ∀ b', b' ≠ this → b' ≠ src → blocks m' !! b' = blocks m !! b'
           end).
Proof.
  intros ((blk & Hblk & Hlen) & Hatt & Hout & Hnew & Hlink) Hindex.
  destruct (lookup_lt_is_Some_2 (inputs blk) index) as [input Hinput]; [lia|].
  unfold configureInput. unfold bind at 1. unfold getBlock at 1. rewrite Hblk, Hinput.
  unfold isConnected.
  assert (Hconn0 : connection (blocks m) this index = connectedPoint input)
    by (unfold connection; by rewrite Hblk, Hinput).
  rewrite Hconn0.
  destruct (connectedPoint input) as [c|] eqn:Hc.
  { rewrite bool_decide_eq_true_2 by (by eexists). cbn [negb].
    exists m. split; [done|]. split; [apply configured_refl; by eexists|].
    rewrite Hconn0.
    split; [by eexists|]. split; [done|]. split; [done|]. intros ?; done. }
  rewrite bool_decide_eq_false_2 by (intros [? ?]; done). cbn [negb].
  (* the attribute input: an attached one, or a new one *)
  set (p := λ (b : BlockId) (bb : NodeMaterialBlock),
              isAttribute bb && bool_decide (name bb = attribute)
              && additionalFilteringInfo b bb).
  pose proof (getInputBlockByPredicate_spec p m Hatt) as Hfind.
  unfold bind at 1. rewrite Hfind. unfold attributeInputs. fold p.
  destruct (head _) as [b|] eqn:Hfound.
  - apply head_Some_elem_of in Hfound.
    apply list_elem_of_filter in Hfound as [Hp Hin].
    unfold attachedWhere in Hin. apply list_elem_of_filter in Hin as [Hisin Hb].
    unfold holdsAt in Hisin. destruct (blocks m !! b) as [bb|] eqn:Hbb; [|done].
    destruct (outputs bb) as [|output outs] eqn:Houts; [by destruct (Hout b bb)|].
    unfold bind at 1. unfold ret at 1. unfold bind at 1. unfold getBlock at 1.
    rewrite Hbb, Houts. cbn [lookup list_lookup]. rewrite Hlink.
    destruct (connectTo_configured this index m m blk input b (outputName output))
      as (m' & Hrun & Hconf & Hconn & Hothers & Hstore); try done;
      [apply sameFields_refl|].
    exists m'. split; [done|]. split; [done|]. split; [by eexists|].
    split; [intros [? ?]; done|]. split; [done|]. intros _.
    exists b, (outputName output). split; [done|]. split; [done|]. done.
  - set (b := fresh (dom (blocks m))).
    assert (blocks m !! b = None) as Hfresh by (apply not_elem_of_dom, is_fresh).
    destruct (outputs (newAttributeInput attribute)) as [|output outs] eqn:Houts;
      [by destruct (Hnew attribute)|].
    unfold bind at 1. unfold bind at 1. unfold get at 1. unfold bind at 1.
    unfold modify at 1. unfold ret at 1. unfold bind at 1. unfold getBlock at 1.
    cbn [blocks withBlocks]. fold b. rewrite lookup_insert_eq, Houts.
    cbn [lookup list_lookup]. rewrite Hlink.
    destruct (connectTo_configured this index m
                (withBlocks (<[b := newAttributeInput attribute]> (blocks m)) m)
                blk input b (outputName output))
      as (m' & Hrun & Hconf & Hconn & Hothers & Hstore); try done.
    + cbn [blocks withBlocks]. rewrite lookup_insert_ne by congruence. done.
    + intros b' bb Hbb. cbn [blocks withBlocks].
      rewrite lookup_insert_ne by congruence. done.
    + exists m'. split; [done|]. split; [done|]. split; [by eexists|].
      split; [intros [? ?]; done|]. split; [done|]. intros _.
      exists b, (outputName output). split; [done|]. split; [done|].
      assert (b ≠ this) as Hne by congruence.
      split.
      * rewrite Hstore by done. cbn [blocks withBlocks]. by rewrite lookup_insert_eq.
      * intros b' Hb' Hb'b. rewrite Hstore by done. cbn [blocks withBlocks].
        by rewrite lookup_insert_ne.
Qed.

Lemma configured_connection this m m' index :
  configured this m m' →
  is_Some (connection (blocks m) this index) →
  connection (blocks m') this index = connection (blocks m) this index.
Proof.
  intros (_ & _ & blk & blk' & Hblk & Hblk' & [_ HF]) [c Hc].
  unfold connection in *. rewrite Hblk in Hc. rewrite Hblk, Hblk'.
  destruct (inputs blk !! index) as [input|] eqn:Hinput; [|done].
  destruct (Forall2_lookup_l _ _ _ _ _ HF Hinput) as (input' & -> & _ & [Hn|He]);
    congruence.
Qed.

(** X18. On a block with its four inputs, in a material whose input blocks
    have an output, and when the connections to the inputs of the block
    are accepted, [autoConfigure] returns and leaves the four inputs
    connected.  An input that was connected keeps its connection; the
    lists of the material, and every other block that the store held, are
    untouched.  A second [autoConfigure] changes nothing. *)
Theorem autoConfigure_connects_inputs (this : BlockId) (m : NodeMaterial) :
  configurable this m →
  ∃ m',
    autoConfigure this m = Ok tt m'
    ∧ configured this m m'
    ∧ (∀ index, (index < 4)%nat → is_Some (connection (blocks m') this index))
    ∧ (∀ index, is_Some (connection (blocks m) this index) →
         connection (blocks m') this index = connection (blocks m) this index)
    ∧ autoConfigure this m' = Ok tt m'.
Proof.
  intros H0.
  destruct (configureInput_spec this 0 "position" m H0) as (m1 & R1 & C1 & S1 & _); [lia|].
  pose proof (configurable_configured this m m1 H0 C1) as H1.
  destruct (configureInput_spec this 1 "normal" m1 H1) as (m2 & R2 & C2 & S2 & _); [lia|].
  pose proof (configurable_configured this m1 m2 H1 C2) as H2.
  destruct (configureInput_spec this 2 "tangent" m2 H2) as (m3 & R3 & C3 & S3 & _); [lia|].
  pose proof (configurable_configured this m2 m3 H2 C3) as H3.
  destruct (configureInput_spec this 3 "uv" m3 H3) as (m4 & R4 & C4 & S4 & _); [lia|].
  pose proof (configurable_configured this m3 m4 H3 C4) as H4.
  assert (C04 : configured this m m4)
    by (eapply configured_trans; [|exact C4]; eapply configured_trans; [|exact C3];
        eapply configured_trans; [exact C1 | exact C2]).
  assert (Hall : ∀ index, (index < 4)%nat → is_Some (connection (blocks m4) this index)).
  { intros index Hindex.
    assert (C24 : configured this m2 m4) by (by eapply configured_trans).
    assert (C14 : configured this m1 m4) by (by eapply configured_trans).
    destruct index as [|[|[|[|?]]]]; [| | | |lia].
    - by rewrite (configured_connection this m1 m4 0 C14 S1).
    - by rewrite (configured_connection this m2 m4 1 C24 S2).
    - by rewrite (configured_connection this m3 m4 2 C4 S3).
    - done. }
  exists m4. split.
  { unfold autoConfigure. unfold bind at 1. rewrite R1.
    unfold bind at 1. rewrite R2. unfold bind at 1. by rewrite R3. }
  split; [done|]. split; [done|].
  split; [intros index Hindex; by apply configured_connection|].
  assert (Hagain : ∀ index attribute, (index < 4)%nat →
            configureInput this index attribute m4 = Ok tt m4).
  { intros index attribute Hindex.
    destruct (configureInput_spec this index attribute m4 H4 Hindex)
      as (m5 & R5 & _ & _ & Hsame & _).
    by rewrite R5, (Hsame (Hall index Hindex)). }
  unfold autoConfigure. unfold bind.
  rewrite !Hagain by lia. done.
Qed.

Lemma filter_ext_in {A} (P Q : A → Prop) `{!∀ x, Decision (P x)}
    `{!∀ x, Decision (Q x)} (l : list A) :
  (∀ x, x ∈ l → P x ↔ Q x) → filter P l = filter Q l.
Proof.
  induction l as [|x l IH]; intros Hext; [done|].
  rewrite !filter_cons.
  destruct (decide (P x)) as [HP|HP], (decide (Q x)) as [HQ|HQ].
  - f_equal. apply IH. intros y Hy. apply Hext. by right.
  - destruct HQ. apply Hext; [by left | done].
  - destruct HP. apply Hext; [by left | done].
  - apply IH. intros y Hy. apply Hext. by right.
Qed.

Lemma configured_is_Some this m m' b :
  configured this m m' → is_Some (blocks m !! b) → is_Some (blocks m' !! b).
Proof.
  intros (_ & Hold & blk & blk' & Hblk & Hblk' & _) [bb Hbb].
  destruct (decide (b = this)) as [->|Hne]; [by eexists|].
  exists bb. by apply Hold.
Qed.

(** The attribute inputs found are the same once inputs of a block that is
    not an input block are connected. *)
Lemma attributeInputs_configured this m m' blk attribute :
  configured this m m' → attachedInStore m →
  blocks m !! this = Some blk → isInput blk = false →
  attributeInputs attribute m' = attributeInputs attribute m.
Proof.
  intros (Hs & Hold & blk0 & blk' & Hblk0 & Hblk' & [Hfields _]) Hatt Hblk Hin.
  rewrite Hblk in Hblk0. injection Hblk0 as <-.
  destruct (sameFields_lists m m' Hs) as (Ha & _).
  assert (isInput blk' = false) as Hin'
    by (rewrite <- Hin, <- Hfields; by destruct blk').
  unfold attributeInputs, attachedWhere. rewrite Ha, !list_filter_filter.
  apply filter_ext_in. intros b Hb. unfold holdsAt.
  destruct (decide (b = this)) as [->|Hne].
  - rewrite Hblk, Hblk', Hin, Hin'. split; intros [_ ?]; done.
  - destruct (Hatt b Hb) as [bb Hbb]. by rewrite Hbb, (Hold b bb Hne Hbb).
Qed.

(** X19. Under the same assumptions, for a block that is not an input
    block, [autoConfigure] connects an input without a connection to the
    first attached attribute input of the name of the input that passes
    the filter, and makes a new input block, which it does not attach,
    only when the material has none. *)
Theorem autoConfigure_reuses_attribute_inputs (this : BlockId) (m : NodeMaterial)
    (blk : NodeMaterialBlock) (index : nat) (attribute : string) :
  configurable this m →
  blocks m !! this = Some blk → isInput blk = false →
  (index, attribute) ∈ [(0%nat, "position"); (1%nat, "normal"); (2%nat, "tangent");
                        (3%nat, "uv")] →
  connection (blocks m) this index = None →
  ∃ m' src o,
    autoConfigure this m = Ok tt m'
    ∧ connection (blocks m') this index = Some (src, o)
    ∧ attachedBlocks m' = attachedBlocks m
    ∧ match head (attributeInputs attribute m) with
      | Some b => src = b
      | None =>
          blocks m !! src = None
          ∧ blocks m' !! src = Some (newAttributeInput attribute)
      end.
Proof.
  intros H0 Hblk Hin Hentry Hnone.
  assert (Hatt : attachedInStore m) by apply H0.
  destruct (configureInput_spec this 0 "position" m H0)
    as (m1 & R1 & C1 & S1 & _ & O1 & Q1); [lia|].
  pose proof (configurable_configured this m m1 H0 C1) as H1.
  destruct (configureInput_spec this 1 "normal" m1 H1)
    as (m2 & R2 & C2 & S2 & _ & O2 & Q2); [lia|].
  pose proof (configurable_configured this m1 m2 H1 C2) as H2.
  destruct (configureInput_spec this 2 "tangent" m2 H2)
    as (m3 & R3 & C3 & S3 & _ & O3 & Q3); [lia|].
  pose proof (configurable_configured this m2 m3 H2 C3) as H3.
  destruct (configureInput_spec this 3 "uv" m3 H3)
    as (m4 & R4 & C4 & S4 & _ & O4 & Q4); [lia|].
  assert (C02 : configured this m m2) by (by eapply configured_trans).
  assert (C03 : configured this m m3) by (by eapply configured_trans).
  assert (C04 : configured this m m4) by (by eapply configured_trans).
  assert (C14 : configured this m1 m4)
    by (eapply configured_trans; [|exact C4]; by eapply configured_trans).
  assert (C24 : configured this m2 m4) by (by eapply configured_trans).
  assert (Hrun : autoConfigure this m = Ok tt m4).
  { unfold autoConfigure. unfold bind at 1. rewrite R1.
    unfold bind at 1. rewrite R2. unfold bind at 1. by rewrite R3. }
  assert (Hlists : attachedBlocks m4 = attachedBlocks m)
    by (destruct C04 as (Hs & _); by destruct (sameFields_lists m m4 Hs) as (-> & _)).
  (* what a step gives is kept by the steps that follow *)
  assert (Hkeep : ∀ mk src o,
    configured this m mk → configured this mk m4 →
    connection (blocks mk) this index = Some (src, o) →
    match head (attributeInputs attribute m) with
    | Some b => src = b
    | None =>
        ∃ mj, configured this m mj ∧ blocks mj !! src = None
              ∧ blocks mk !! src = Some (newAttributeInput attribute)
    end →
    ∃ m' src o,
      autoConfigure this m = Ok tt m'
      ∧ connection (blocks m') this index = Some (src, o)
      ∧ attachedBlocks m' = attachedBlocks m
      ∧ match head (attributeInputs attribute m) with
        | Some b => src = b
        | None =>
            blocks m !! src = None
            ∧ blocks m' !! src = Some (newAttributeInput attribute)
        end).
  { intros mk src o C0k Ck4 Hconn Hsrc. exists m4, src, o.
    split; [done|]. split.
    { rewrite (configured_connection this mk m4 index Ck4) by (by eexists). done. }
    split; [done|].
    destruct (head (attributeInputs attribute m)) as [b|]; [done|].
    destruct Hsrc as (mj & C0j & Hfresh & Hnew).
    assert (blocks m !! src = None) as Hfresh0.
    { destruct (blocks m !! src) as [bb|] eqn:Hbb; [|done].
      destruct (configured_is_Some this m mj src C0j) as [? ?]; [by eexists | congruence]. }
    split; [done|].
    destruct Ck4 as (_ & Hold & _). apply Hold; [congruence | done]. }
  rewrite !elem_of_cons, elem_of_nil in Hentry.
  destruct Hentry as [[= -> ->]|[[= -> ->]|[[= -> ->]|[[= -> ->]|[]]]]].
  - destruct (Q1 Hnone) as (src & o & Hconn & Hsrc).
    apply (Hkeep m1 src o C1 C14 Hconn).
    destruct (head (attributeInputs "position" m)) as [b|]; [by destruct Hsrc|].
    destruct Hsrc as (Hf & Hn & _). exists m. split; [|done].
    apply configured_refl. by eexists.
  - assert (connection (blocks m1) this 1 = None) as Hnone1 by (by rewrite O1).
    destruct (Q2 Hnone1) as (src & o & Hconn & Hsrc).
    rewrite (attributeInputs_configured this m m1 blk "normal" C1 Hatt Hblk Hin) in Hsrc.
    apply (Hkeep m2 src o C02 C24 Hconn).
    destruct (head (attributeInputs "normal" m)) as [b|]; [by destruct Hsrc|].
    destruct Hsrc as (Hf & Hn & _). by exists m1.
  - assert (connection (blocks m2) this 2 = None) as Hnone2 by (by rewrite O2, O1).
    destruct (Q3 Hnone2) as (src & o & Hconn & Hsrc).
    rewrite (attributeInputs_configured this m m2 blk "tangent" C02 Hatt Hblk Hin) in Hsrc.
    apply (Hkeep m3 src o C03 C4 Hconn).
    destruct (head (attributeInputs "tangent" m)) as [b|]; [by destruct Hsrc|].
    destruct Hsrc as (Hf & Hn & _). by exists m2.
  - assert (connection (blocks m3) this 3 = None) as Hnone3 by (by rewrite O3, O2, O1).
    destruct (Q4 Hnone3) as (src & o & Hconn & Hsrc).
    rewrite (attributeInputs_configured this m m3 blk "uv" C03 Hatt Hblk Hin) in Hsrc.
    apply (Hkeep m4 src o C04 (configured_refl this m4 (configured_is_Some this m m4 this C04
             (ltac:(by eexists)))) Hconn).
    destruct (head (attributeInputs "uv" m)) as [b|]; [by destruct Hsrc|].
    destruct Hsrc as (Hf & Hn & _). by exists m3.
Qed.

End AutoConfigure.

(** ** The attributes of the influencers *)

(** What the loop reads of [mesh.morphTargetManager]. *)
Record MorphTargetManager := mkManager {
  supportsNormals : bool;
  supportsTangents : bool;
  supportsUVs : bool
}.

(** [VertexBuffer.PositionKind] and [VertexBuffer.UVKind], declared in the
    buffer module as the kinds of the specialization layer are. *)
Definition PositionKind : string := "position".
Definition UVKind : string := "uv".

(** Whether a define reads as true in a condition. *)
Definition truthy (v : option Core.DefineValue) : bool :=
  match v with
  | Some (Core.DBool b) => b
  | Some (Core.DNum n) => negb (n =? 0)%Z
  | None => false
  end.

(** [manager && manager.supportsNormals && defines["NORMAL"]], and the same
    for tangents and uvs. *)
Definition hasNormals (manager : option MorphTargetManager)
    (defines : Core.NodeMaterialDefines) : bool :=
  match manager with
  | Some mg => supportsNormals mg && truthy (Core.getDefine defines "NORMAL")
  | None => false
  end.

Definition hasTangents (manager : option MorphTargetManager)
    (defines : Core.NodeMaterialDefines) : bool :=
  match manager with
  | Some mg => supportsTangents mg && truthy (Core.getDefine defines "TANGENT")
  | None => false
  end.

Definition hasUVs (manager : option MorphTargetManager)
    (defines : Core.NodeMaterialDefines) : bool :=
  match manager with
  | Some mg => supportsUVs mg && truthy (Core.getDefine defines "UV1")
  | None => false
  end.

(** The loop at the end of [replaceRepeatableContent], from [index] for [n]
    iterations, on [state.attributes]. *)
Fixpoint pushAttributes (normals tangents uvs : bool) (n index : nat)
    (attributes : list string) : list string :=
  match n with
  | O => attributes
  | S n' =>
      let attributes := attributes ++ [PositionKind +:+ Core.numberToString index] in
      let attributes :=
        if normals then attributes ++ [Core.NormalKind +:+ Core.numberToString index]
        else attributes in
      let attributes :=
        if tangents then attributes ++ [Core.TangentKind +:+ Core.numberToString index]
        else attributes in
      let attributes :=
        if uvs then attributes ++ [UVKind +:+ "_" +:+ Core.numberToString index]
        else attributes in
      pushAttributes normals tangents uvs n' (S index) attributes
  end.

(** The attributes of the vertex state once [replaceRepeatableContent] has
    run, [repeatCount] being [defines.NUM_MORPH_INFLUENCERS]: the part of
    the method under [if (repeatCount > 0)]. *)
Definition attributesAfterRepeatableContent (manager : option MorphTargetManager)
    (defines : Core.NodeMaterialDefines) (repeatCount : Z) (attributes : list string)
  : list string :=
  if (repeatCount >? 0)%Z
  then pushAttributes (hasNormals manager defines) (hasTangents manager defines)
         (hasUVs manager defines) (Z.to_nat repeatCount) 0 attributes
  else attributes.

(** The attributes of the influencer [index]. *)
Definition influencerAttributes (normals tangents uvs : bool) (index : nat)
  : list string :=
  [PositionKind +:+ Core.numberToString index]
  ++ (if normals then [Core.NormalKind +:+ Core.numberToString index] else [])
  ++ (if tangents then [Core.TangentKind +:+ Core.numberToString index] else [])
  ++ (if uvs then [UVKind +:+ "_" +:+ Core.numberToString index] else []).

Lemma pushAttributes_spec normals tangents uvs n index attributes :
  pushAttributes normals tangents uvs n index attributes
  = attributes ++ flat_map (influencerAttributes normals tangents uvs) (seq index n).
Proof.
  revert index attributes. induction n as [|n IH]; intros index attributes; simpl.
  - by rewrite app_nil_r.
  - rewrite IH. unfold influencerAttributes.
    destruct normals, tangents, uvs; simpl; by rewrite <- ?app_assoc.
Qed.

Lemma influencerAttributes_length normals tangents uvs n index :
  length (flat_map (influencerAttributes normals tangents uvs) (seq index n))
  = (n * (1 + (if normals then 1 else 0) + (if tangents then 1 else 0)
          + (if uvs then 1 else 0)))%nat.
Proof.
  revert index. induction n as [|n IH]; intros index; [done|].
  cbn [seq flat_map]. rewrite length_app, IH. unfold influencerAttributes.
  destruct normals, tangents, uvs; simpl; lia.
Qed.

(** X23. [replaceRepeatableContent] appends to the attributes of the
    vertex state, for each influencer below [NUM_MORPH_INFLUENCERS] in
    increasing order, its position attribute and then the normal, tangent
    and uv attributes that the manager supports and the defines enable;
    nothing that was listed is removed or tested for, so the list grows by
    the same number of names at every call, none for a count of zero or
    less. *)
Theorem replaceRepeatableContent_attributes (manager : option MorphTargetManager)
    (defines : Core.NodeMaterialDefines) (repeatCount : Z) (attributes : list string) :
  attributesAfterRepeatableContent manager defines repeatCount attributes
  = attributes
    ++ flat_map (influencerAttributes (hasNormals manager defines)
                   (hasTangents manager defines) (hasUVs manager defines))
         (seq 0 (Z.to_nat repeatCount))
  ∧ length (attributesAfterRepeatableContent manager defines repeatCount attributes)
    = (length attributes
       + Z.to_nat repeatCount
         * (1 + (if hasNormals manager defines then 1 else 0)
            + (if hasTangents manager defines then 1 else 0)
            + (if hasUVs manager defines then 1 else 0)))%nat.
Proof.
  assert (Hrun : attributesAfterRepeatableContent manager defines repeatCount attributes
    = attributes
      ++ flat_map (influencerAttributes (hasNormals manager defines)
                     (hasTangents manager defines) (hasUVs manager defines))
           (seq 0 (Z.to_nat repeatCount))).
  { unfold attributesAfterRepeatableContent.
    destruct (Z.gtb_spec repeatCount 0) as [Hpos|Hle].
    - apply pushAttributes_spec.
    - rewrite Z2Nat.nonpos by lia. simpl. by rewrite app_nil_r. }
  split; [done|]. rewrite Hrun, length_app. f_equal.
  apply influencerAttributes_length.
Qed.

(** ** The facts on a concrete material *)

(** The block that [new InputBlock(name)] makes, set as an attribute. *)
Definition attributeInput (attribute : string) : NodeMaterialBlock :=
  mkBlock attribute 0 "InputBlock" (Some Vertex) false true false false None
    [] [mkOutput "output" ""] 0 0 None.

(** A morph targets block (1) with no input connected, in a material that
    holds the attribute input "position" (2). *)
Definition morphGraph : NodeMaterial :=
  withAttachedBlocks [1; 2]
    (withBlocks
       (list_to_map
          [ (1, mkBlock "MorphTargets" 31 "MorphTargetsBlock" (Some Vertex)
                  false false false false None
                  [mkInput "position" None ""; mkInput "normal" None "";
                   mkInput "tangent" None ""; mkInput "uv" None ""]
                  [mkOutput "positionOutput" ""; mkOutput "normalOutput" "";
                   mkOutput "tangentOutput" ""; mkOutput "uvOutput" ""] 0 0 None);
            (2, attributeInput "position") ])
       emptyMaterial).

Lemma morphGraph_configurable : configurable attributeInput connectTo 1 morphGraph.
Proof.
  split; [|split; [|split; [|split; [|done]]]].
  - eexists. split; [vm_compute; reflexivity | simpl; lia].
  - intros b Hb. simpl in Hb. rewrite !elem_of_cons, elem_of_nil in Hb.
    destruct Hb as [->|[->|[]]]; eexists; vm_compute; reflexivity.
  - intros b blk Hb Hblk Hin. simpl in Hb. rewrite !elem_of_cons, elem_of_nil in Hb.
    destruct Hb as [->|[->|[]]]; vm_compute in Hblk; injection Hblk as <-; done.
  - done.
Qed.

Lemma autoConfigure_connects_inputs_witness :
  ∃ m',
    autoConfigure attributeInput isInput (λ _ _, true) connectTo 1 morphGraph = Ok tt m'
    ∧ configured 1 morphGraph m'
    ∧ (∀ index, (index < 4)%nat → is_Some (connection (blocks m') 1 index))
    ∧ (∀ index, is_Some (connection (blocks morphGraph) 1 index) →
         connection (blocks m') 1 index = connection (blocks morphGraph) 1 index)
    ∧ autoConfigure attributeInput isInput (λ _ _, true) connectTo 1 m' = Ok tt m'.
Proof.
  apply (autoConfigure_connects_inputs attributeInput isInput (λ _ _, true) connectTo 1 morphGraph).
  apply morphGraph_configurable.
Defined.

Lemma autoConfigure_reuses_attribute_inputs_witness :
  ∃ m' src o,
    autoConfigure attributeInput isInput (λ _ _, true) connectTo 1 morphGraph = Ok tt m'
    ∧ connection (blocks m') 1 1 = Some (src, o)
    ∧ attachedBlocks m' = attachedBlocks morphGraph
    ∧ match head (attributeInputs isInput (λ _ _, true) "normal" morphGraph) with
      | Some b => src = b
      | None =>
          blocks morphGraph !! src = None
          ∧ blocks m' !! src = Some (attributeInput "normal")
      end.
Proof.
  apply (autoConfigure_reuses_attribute_inputs attributeInput isInput (λ _ _, true)
           connectTo 1 morphGraph
           (mkBlock "MorphTargets" 31 "MorphTargetsBlock" (Some Vertex)
              false false false false None
              [mkInput "position" None ""; mkInput "normal" None "";
               mkInput "tangent" None ""; mkInput "uv" None ""]
              [mkOutput "positionOutput" ""; mkOutput "normalOutput" "";
               mkOutput "tangentOutput" ""; mkOutput "uvOutput" ""] 0 0 None)
           1%nat "normal").
  - apply morphGraph_configurable.
  - vm_compute. reflexivity.
  - reflexivity.
  - right. left.
  - vm_compute. reflexivity.
Defined.

(** The position input is connected to the attribute input that the
    material holds; the three others to new input blocks (3, 4 and 5),
    which are not attached. *)
Example autoConfigure_morphGraph :
  ∃ m',
    autoConfigure attributeInput isInput (λ _ _, true) connectTo 1 morphGraph = Ok tt m'
    ∧ connection (blocks m') 1 0 = Some (2, "output")
    ∧ connection (blocks m') 1 1 = Some (3, "output")
    ∧ connection (blocks m') 1 2 = Some (4, "output")
    ∧ connection (blocks m') 1 3 = Some (5, "output")
    ∧ name <$> blocks m' !! 4 = Some "tangent"
    ∧ attachedBlocks m' = [1; 2].
Proof. eexists. split; [vm_compute; reflexivity|]. by vm_compute. Qed.

Lemma replaceRepeatableContent_attributes_example :
  attributesAfterRepeatableContent (Some (mkManager true false true))
    (Core.setDefine "UV1" (Core.DBool true) Core.plainDefines) 2 ["position"]
  = ["position"; "position0"; "normal0"; "uv_0"; "position1"; "normal1"; "uv_1"].
Proof. reflexivity. Qed.

End MorphTargetsBlock.
